(* ===== verification/_CoqProject ===== *)
-Q . S2P
Prelude.v
Base.v
Config.v
BlockPool.v
PrefixCache.v
BlockCache.v
BlockCacheInv.v
BlockCacheProps.v
Scheduler.v
SchedFrame.v
SchedKv.v
SchedWork.v
SchedInv.v
SchedBuild.v
SchedMoves.v
SchedAdmit.v
SchedRetire.v
SchedCleanup.v
SchedModes.v
Engine.v
EngineProps.v
SchedulerProps.v
SchedulerFindings.v
Bytes.v
Floats.v
Q8.v
Q8Props.v
Bfloat16.v
Device.v
SimDevice.v
State.v
StateProps.v
Tensor.v
BlockStorage.v
Qwen35.v
Translate.v
TranslateProps.v
Model.v
ModelProps.v
SimModel.v
Worker.v
WorkerProps.v
WorkerInit.v
Pipeline.v
PipelineFindings.v
Json.v
SimJson.v
WeightSource.v
Gguf.v
GgufProps.v
Tokenizer.v
GgufLoad.v
Http.v
TokenizerProps.v
GgufLoadProps.v
HfReader.v
HfProps.v
HfConfig.v
Checkpoint.v
HttpProps.v
TokenizerLoad.v
Qwen3Weights.v
Kernels.v
KernelRules.v
RopeCache.v
Qwen3Ref.v
Qwen3Model.v
Qwen3Props.v
Qwen3Contract.v
SimQwen3.v
Qwen35Weights.v
Qwen35Load.v
Cuda.v
SimCuda.v
CudaProps.v
Registry.v
Main.v
