(* ===== verification/Prelude.v ===== *)
(** * ccInfer: a verification development

    ccInfer is an inference server for large language models: an HTTP front end, a
    scheduler with a paged KV cache and continuous batching, a worker thread that runs
    batches on a device, recurrent states for hybrid models, a tokenizer and the
    loaders of checkpoints.  The development models the C++ sources under [src/src]
    as executable functions and proves what the parts promise to each other.

    ** How the program is put together

    A connection of the HTTP server ([http/]) parses a chat, tokenizes it
    ([tokenizer/]) and posts a request to the scheduler ([scheduler/]).  The execution
    loop ([engine/]), a coroutine on the scheduler's thread, asks the scheduler for a
    batch, hands it to the executor ([executor/]) and retires the results, with up to
    [max_concurrent_batches] in flight.  The scheduler owns logical KV blocks
    ([block/block_pool], [block/block_table]) and the prefix cache over them
    ([cache/block_cache], [cache/prefix_cache]).  The executor's worker ([worker/])
    resolves late-bound tokens, acquires recurrent states ([state/],
    [cache/state_cache]), translates the batch into device arrays, and runs the model
    through its interface ([model/model.h]) on the physical storages
    ([block/block_storage], [state/state_storage]).  A checkpoint ([checkpoint/]) is a
    directory in the Hugging Face format or a GGUF file; both give a configuration
    ([config/]) and a source of weights ([model/weight_source.h]), from which the model
    registry ([model/registry.cpp]) creates the model ([model/qwen3], [model/rope]) on
    the CUDA backend ([backend/]).  [main.cpp] starts and stops all of it.

    ** Conventions

    Integers are [Z], kept at their width by the functions below where the code
    converts or may wrap.  A C++ function with assertions, unchecked indexing or dangling
    references is a function into [option]: [None] is the failed assertion or the
    undefined access, so that [exists] in a theorem says that none happens.  Three hazards
    that reachable states of the engine meet are the exception ([Hazard]): an assertion of
    the block pool, the copy of a pointer out of a list node that was just freed, and an
    [int] sum out of range.  What they do depends on a [BuildMode], which either stops at a
    hazard or tolerates it: without assertions the code goes on, a freed node still has its
    contents, a sum is not bounded.  [checked_build] tolerates none,
    [release_build] failed assertions, [lenient_build] all; the last is a device of the
    proofs, which then say of every mode what holds as long as it does not stop
    ([engine_fails_only_at_hazards] says when).  Every other assertion and access is
    checked in every mode.  [Result] is [std::expected] with the error
    codes.  Objects that are shared by pointer are addresses of a heap, list nodes and
    intrusive links are identities, and aliasing is visible.  Code outside the
    repository is a class, with a class of laws where theorems rely on its documented
    behaviour: [CudaRuntime] and [CudaLaws] (the CUDA runtime and cuBLAS), [Ccop],
    [CcopViews] and their laws (data types and view geometry of the operator library),
    [Kernels], [KernelSem] and [KernelLaws] (its operators: each computes a function of
    its inputs and writes its outputs only), [Sampler], [LibM] ([pow], [cos], [sin]),
    [Q8Format] and [Q8Storage] (the block format), [NanResult] (the payload of a computed
    NaN), [Json], [JsonLaws] and [JsonDumpLaws] (the JSON library, which throws on a string
    that is not UTF-8), [Memory] (allocations of a size taken
    from a file), and the record [FileSystem].  Two classes are interfaces between parts
    of the program: [Backend] with [BackendLaws] (device memory; of the CUDA backend, the
    laws for operations that succeed follow from [CudaLaws] ([CudaProps]), and that a failed operation
    leaves the memory as it was is an assumption, since CUDA may report errors of earlier
    work) and, with an instance that is proved, [Model] with
    [ModelLaws] (a model is ready on a device, and a pass on a batch in place fails no
    assertion; [Qwen3Contract] gives the instance of Qwen3).  [SimDevice], [SimCuda],
    [SimModel], [SimJson], [SimQwen3] and the small instances next to the witnesses
    satisfy the laws and can be evaluated.

    ** Files

    Shared: [Prelude] (integers, assertions, checked indexing, lists, automation),
    [Base] ([base/], work items, block tables), [Config] ([config/]), [Bytes]
    (little-endian words), [Json], [Floats] (binary32 as sign, mantissa and exponent,
    its bits, arithmetic and comparisons).

    KV blocks: [BlockPool] ([block/block_pool.cpp]: the free list, with the abstract
    contract it refines), [PrefixCache] (chained hashes), [BlockCache]
    ([cache/block_cache.cpp] and the scheduler's allocation and release, on the pair
    [KvState] of pool and cache), [BlockCacheInv] (the invariant [kv_inv] and one lemma
    per operation), [BlockCacheProps] (the theorems).

    Scheduler: [Scheduler] (every method of [scheduler/scheduler.cpp] in a state monad
    over the object; a [co_await] inside a method is on an operation that completes at
    once), [SchedFrame], [SchedKv], [SchedWork] (what the invariant says of KV blocks
    and of work in flight), [SchedInv] (the invariant and its program logic),
    [SchedBuild], [SchedMoves], [SchedAdmit], [SchedRetire], [SchedCleanup] (each
    method keeps it), [SchedModes] (the hazards a method can meet), [Engine] ([engine/engine_core.cpp] as steps between suspension
    points, with the events of other threads; reachable states), [EngineProps],
    [SchedulerProps] (the theorems), [SchedulerFindings] (runs in which the code does
    not do what it means to).

    Device side: [Device] ([backend/backend.h] and dense tensors of
    [runtime/tensor.cpp]: an operation fails an assertion, returns an error or succeeds),
    [Cuda] ([backend/cuda/]), [SimCuda] (a runtime that queues its work), [CudaProps]
    (its creation, its buffers and its successful operations), [Tensor] (quantised tensors and views), [State],
    [StateProps] ([state/], [cache/state_cache.cpp]), [BlockStorage]
    ([block/block_storage.cpp]), [Qwen35] (the layer topology), [Translate],
    [TranslateProps] (the batch translation of [worker/worker.cpp] against a closed
    form of the arrays), [Model], [ModelProps] ([worker/model_runner.h]), [Worker],
    [WorkerProps], [WorkerInit] ([worker/worker.cpp], [executor/]: the batch, the thread
    as a step relation, start and shutdown), [Pipeline] (scheduler and worker composed),
    [PipelineFindings].

    Models: [WeightSource] ([model/weight_source.h] and what a source promises),
    [Qwen3Weights] ([model/qwen3/qwen3_weights.cpp]), [RopeCache] ([model/rope/]),
    [Kernels], [KernelRules] (operators, and proof rules for programs that call them on
    live buffers), [Qwen3Ref] (the transformer on values), [Qwen3Model]
    ([model/qwen3/qwen3_model.cpp]), [Qwen3Props] (the pass on reused buffers implements
    the transformer), [Qwen3Contract] (creation, and the contract the worker needs),
    [SimQwen3] (a checkpoint of thirteen tensors, run), [Q8], [Q8Props] ([quant/q8_0/]),
    [Bfloat16], [Qwen35Weights], [Qwen35Load] ([model/qwen35/qwen35_weights.cpp]),
    [Registry] ([model/registry.cpp], and the start from a model path to a ready worker).

    Text and files: [Tokenizer], [TokenizerProps] ([tokenizer/]), [TokenizerLoad] (what a
    [tokenizer.json] must say, and the tokenizer of a path), [Gguf], [GgufProps]
    ([checkpoint/gguf/reader.cpp], [weight_source.cpp]), [GgufLoad], [GgufLoadProps]
    (configuration and tokenizer of a GGUF file), [HfReader], [HfProps], [HfConfig]
    ([checkpoint/huggingface/]: safetensors files and [config.json]), [Checkpoint]
    ([checkpoint/checkpoint.cpp]), [Http], [HttpProps] ([http/]), [Main] ([main.cpp]).

    ** What is shown

    - Engine and scheduler: in every reachable state, under any order of posted
      operations and any executor that answers honestly or fails, an event is carried out
      unless building a batch meets a hazard the mode does not tolerate
      ([engine_fails_only_at_hazards]); the blocks that unfinished items write belong to one
      sequence ([kv_writes_exclusive]); requests are in one place, the reservation
      counters are exact, the contexts in flight are consecutive, the limits hold;
      batches fit the budget; the shutdown ends and leaves nothing.
    - Worker: the arrays of a batch are exact ([translate_exact]); a batch is answered
      as the scheduler assumes ([process_batch_honest]); the thread answers in order,
      and drains at shutdown unless the wake-up is lost ([worker_shutdown_drains] says
      exactly when); it starts ready or not at all.  From a model path, whatever the
      files and the device answer, the start fails no assertion ([boot_from_path_safe],
      which composes checkpoint, registry, model, storages and worker).  [Pipeline] discharges the
      assumptions of each side by the other ([engine_worker_agree],
      [written_slots_exclusive]).
    - KV cache: the pool refines its contract as long as it is kept; pool and cache stay consistent under any
      use; lookups find the longest cached prefix; allocation and eviction do what they
      say; the hashes are the reference fold.
    - States and storages: zeroed and restored contents, disjoint ranges, no wrapped
      size, one storage layer per decoder layer of its type.
    - Device: the CUDA backend creates and releases its handles without a leak.
    - Qwen3: from the bytes of the checkpoint to the logits
      ([qwen3_logits_of_checkpoint]); the pass on swapped and aliased scratch buffers
      refines the transformer on values ([qwen3_forward_refines]); the rotary table is
      exact.  Qwen3.5: every tensor of every layer is loaded where the layer indices
      find it, and its numbers are the real values rounded once.
    - Numbers: the conversions to half and to bfloat16 are the IEEE ones.
    - Checkpoints: readers stay inside the file, invert the writers of the formats, and
      give valid configurations ([checkpoint_keeps_promises]).
    - Tokenizer: merging refines byte-pair encoding as a rewriting system; encoding ends
      and is inverted by decoding; loading builds consistent maps, from a vocabulary and from
      a [tokenizer.json] whose entries are one to one; the tokenizer of a path is that of
      its checkpoint.
    - GGUF: reading any file is safe, and inverts the writer of the format; the
      configuration of a file is valid, and its tokenizer agrees with it.
    - HTTP: accepted chats are those the engine supports; each ends with a final frame, a
      cancellation or, at a token that is not UTF-8 by itself, an exception; a shutdown
      completes at most once, and exactly when every connection's handler has returned.
    - Findings: the runs of [SchedulerFindings] and [PipelineFindings] and the examples
      next to the theorems show where the code deviates from its intention.

    ** Fuel and bounds

    Recursion that is not structural has fuel: [schedule_step]'s admission loop has one
    unit per queued request and one more, [publish_loop] one per pending token and one
    more, [evict_until] one per idle block and one more, [bpe_loop] one per symbol (every pass shortens
    the list), [encode_loop] one per byte and one more, [parse_value] and the loops of the GGUF
    reader one per byte of the file and one more (every element takes a byte), the socket
    loops one per pending byte and one more.  The layer, position and pair loops of the
    models count down from the number the code gives them.  For each there is a theorem that it is
    enough: no result is ever missing because of it.

    ** What is not modelled

    - The operators (the library [ccop] is a submodule whose sources are not in the
      repository), the CUDA runtime, libm and the JSON library: parameters with laws.
      The laws of the operators do not say what a sum in floating point is; the reference
      transformer applies the same functions to values.
    - A forward pass of Qwen3.5: the sources have none, and the registry does not know
      the architecture.
    - That positions stay below the model's maximum is a hypothesis of the worker's
      theorems, and that the tensors of a checkpoint have the sizes of their shapes one of
      the loaders', because nothing in the code ensures them.
    - Exceptions other than those of the GGUF reader's allocations, of the file system and
      of the JSON dump; asynchronous failures of the device after a call has succeeded.
    - Threads below the granularity of the events (the worker's mutex and condition
      variable are modelled, the other locks are taken to work); posted handlers run while
      the coroutine is suspended, and the release of a state by the scheduler's thread is
      atomic here although the code does not lock it.
    - Time: timers are events; when the shared pointers of a buffer release it; log lines;
      the library types behind [base/channel.h]. *)

From Stdlib Require Import ZArith Lia.
From stdpp Require Import prelude strings gmap fin_maps.

Open Scope Z_scope.

(** ** Machine integers

    C++ integers are mathematical integers kept in range by the wrap functions
    below; an operation that would overflow a signed type is undefined
    behaviour in C++ and is guarded where the code relies on it. *)

Definition INT_MAX : Z := 2 ^ 31 - 1.
Definition INT_MIN : Z := - 2 ^ 31.
Definition INT64_MAX : Z := 2 ^ 63 - 1.
Definition SIZE_MAX : Z := 2 ^ 64 - 1.

(** The result of [int] arithmetic: overflow is undefined. *)
Definition int_of (z : Z) : option Z := if (INT_MIN <=? z) && (z <=? INT_MAX) then Some z else None.

Lemma int_of_ok z : INT_MIN <= z <= INT_MAX -> int_of z = Some z.
Proof.
  unfold int_of. intros [H1 H2]. by rewrite (proj2 (Z.leb_le _ _) H1), (proj2 (Z.leb_le _ _) H2).
Qed.

Lemma int_of_Some z y : int_of z = Some y -> y = z /\ INT_MIN <= z <= INT_MAX.
Proof.
  unfold int_of. destruct (Z.leb_spec INT_MIN z), (Z.leb_spec z INT_MAX); simpl; try done. by intros [= <-].
Qed.

(** Conversion to [uint64_t] / [size_t], [uint32_t], [uint16_t], [uint8_t]. *)
Definition u64 (z : Z) : Z := z mod 2 ^ 64.
Definition u32 (z : Z) : Z := z mod 2 ^ 32.
Definition u16 (z : Z) : Z := z mod 2 ^ 16.
Definition u8 (z : Z) : Z := z mod 2 ^ 8.

(** Conversion to a signed two's complement type of [w] bits. *)
Definition sint (w z : Z) : Z := (z + 2 ^ (w - 1)) mod 2 ^ w - 2 ^ (w - 1).
Definition i8 : Z -> Z := sint 8.
Definition i16 : Z -> Z := sint 16.
Definition i32 : Z -> Z := sint 32.
Definition i64 : Z -> Z := sint 64.

Lemma u64_range z : 0 <= u64 z < 2 ^ 64.
Proof. apply Z.mod_pos_bound. lia. Qed.

Lemma u64_small z : 0 <= z < 2 ^ 64 -> u64 z = z.
Proof. apply Z.mod_small. Qed.

Lemma u32_small z : 0 <= z < 2 ^ 32 -> u32 z = z.
Proof. apply Z.mod_small. Qed.

Lemma sint_range w z : 0 < w -> - 2 ^ (w - 1) <= sint w z < 2 ^ (w - 1).
Proof.
  intros Hw. unfold sint.
  assert (2 ^ w = 2 * 2 ^ (w - 1)) as E.
  { rewrite <- Z.pow_succ_r by lia. f_equal. lia. }
  pose proof (Z.mod_pos_bound (z + 2 ^ (w - 1)) (2 ^ w)). lia.
Qed.

Lemma sint_small w z : 0 < w -> - 2 ^ (w - 1) <= z < 2 ^ (w - 1) -> sint w z = z.
Proof.
  intros Hw Hz. unfold sint.
  assert (2 ^ w = 2 * 2 ^ (w - 1)) as E.
  { rewrite <- Z.pow_succ_r by lia. f_equal. lia. }
  rewrite Z.mod_small; lia.
Qed.

(** ** Assertions

    [assert(b)] of the source is [ASSERT b ;; k]: the run is [None] when the
    asserted condition is false.  Every operation that contains an assertion
    or an indexing that C++ leaves unchecked is a function into [option];
    [None] is never a value the program handles, so a theorem of the form
    [exists r, op s = Some r /\ ...] says that no assertion fires. *)

Declare Scope cc_scope.
Delimit Scope cc_scope with cc.
Notation "'ASSERT' b ;; k" := (if (b : bool) then k else None)
  (at level 200, b at level 99, k at level 200, right associativity,
   format "'[v' 'ASSERT'  b  ;; '/' k ']'") : cc_scope.
Open Scope cc_scope.

Create HintDb ccdb.

(** ** Build modes

    Three things that the code can really do are undefined or abort, although builds
    exist that survive them.  A mode says which of them a build survives: a failed
    assertion (compiled out with [NDEBUG]), reading a [shared_ptr] in the freed node of a
    list (its bytes may still be there), and a signed sum that leaves [int].  An operation
    that meets a hazard is [None] in a mode that does not tolerate it.

    Only assertions that valid runs violate, and those of the block pool, depend on the
    mode.  Every other [ASSERT] is checked in all modes, which is the stronger demand,
    because the theorems show that the asserted conditions hold. *)
Inductive Hazard := FailedAssertion | FreedNode | SignedOverflow.

Class BuildMode := tolerates : Hazard -> bool.

(** The default build; with assertions compiled out; and the mode that survives
    everything and computes exact sums.  What C++ promises is the first two. *)
#[export] Instance checked_build : BuildMode | 100 := fun _ => false.
Definition release_build : BuildMode := fun h => match h with FailedAssertion => true | _ => false end.
Definition lenient_build : BuildMode := fun _ => true.

Definition NDEBUG `{BuildMode} : bool := tolerates FailedAssertion.
Definition hazard `{BuildMode} (h : Hazard) : option unit := if tolerates h then Some tt else None.
Definition int_sum `{BuildMode} (z : Z) : option Z := if tolerates SignedOverflow then Some z else int_of z.

Lemma int_sum_ok `{BuildMode} z :
  tolerates SignedOverflow = true \/ INT_MIN <= z <= INT_MAX -> int_sum z = Some z.
Proof. unfold int_sum. intros [-> | Hz]; [done|]. destruct (tolerates _); [done|]. by apply int_of_ok. Qed.

(** A computation whose outcome depends on the mode through the hazards it meets: it
    has the outcome of the lenient mode in the modes that tolerate all of them, and is
    [None] in the others. *)
Definition by_hazards {A} (m : BuildMode -> option A) : Prop :=
  exists hs : list Hazard, forall mode : BuildMode, m mode = if forallb mode hs then m lenient_build else None.

Lemma by_hazards_const {A} (x : option A) : by_hazards (fun _ => x).
Proof. by exists []. Qed.

Lemma by_hazards_hazard h : by_hazards (fun mode => @hazard mode h).
Proof. exists [h]. intros mode. unfold hazard, tolerates. simpl. by destruct (mode h). Qed.

Lemma by_hazards_int_sum z : by_hazards (fun mode => @int_sum mode z).
Proof.
  destruct (int_of z) as [y|] eqn:E.
  - exists []. intros mode. unfold int_sum. rewrite E. apply int_of_Some in E as [-> _].
    simpl. by destruct (tolerates _).
  - exists [SignedOverflow]. intros mode. unfold int_sum, tolerates. rewrite E. simpl. by destruct (mode _).
Qed.

Lemma by_hazards_bind {A B} (m : BuildMode -> option A) (k : BuildMode -> A -> option B) :
  by_hazards m -> (forall a, m lenient_build = Some a -> by_hazards (fun mode => k mode a)) ->
  by_hazards (fun mode => m mode ≫= k mode).
Proof.
  intros [hs Hm] Hk. destruct (m lenient_build) as [a|] eqn:Ea.
  - destruct (Hk a eq_refl) as [hs' Hk']. exists (hs ++ hs'). intros mode. rewrite forallb_app, (Hm mode), Ea.
    destruct (forallb mode hs); simpl; [|done]. apply Hk'.
  - exists []. intros mode. rewrite (Hm mode), Ea. by destruct (forallb mode hs).
Qed.

(** A mode that tolerates more does the same where the other succeeds. *)
Definition tolerates_less (m m' : BuildMode) : Prop := forall h, m h = true -> m' h = true.

Lemma checked_least m : tolerates_less checked_build m.
Proof. done. Qed.

Lemma lenient_most m : tolerates_less m lenient_build.
Proof. done. Qed.

#[export] Hint Resolve checked_least lenient_most : ccdb.

Lemma by_hazards_mono {A} (m : BuildMode -> option A) mode mode' a :
  by_hazards m -> tolerates_less mode mode' -> m mode = Some a -> m mode' = Some a.
Proof.
  intros [hs Hm] Hle. rewrite (Hm mode), (Hm mode'). destruct (forallb mode hs) eqn:E; [|done]. intros Ha.
  rewrite forallb_forall in E. by rewrite (proj2 (forallb_forall mode' hs)) by auto.
Qed.

(** Indexing a vector with a C++ integer: out of range is [None]. *)
Definition at_Z {A} (l : list A) (i : Z) : option A :=
  if 0 <=? i then l !! Z.to_nat i else None.

(** [v[i] = x]. *)
Definition set_Z {A} (l : list A) (i : Z) (x : A) : list A :=
  if 0 <=? i then <[Z.to_nat i := x]> l else l.

(** [static_cast<int>(v.size())]. *)
Definition size_Z {A} (l : list A) : Z := Z.of_nat (length l).

Lemma size_Z_nonneg {A} (l : list A) : 0 <= size_Z l.
Proof. unfold size_Z. lia. Qed.

Lemma size_Z_app {A} (l k : list A) : size_Z (l ++ k) = size_Z l + size_Z k.
Proof. unfold size_Z. rewrite length_app. lia. Qed.

Lemma size_Z_cons {A} (x : A) l : size_Z (x :: l) = 1 + size_Z l.
Proof. unfold size_Z. simpl. lia. Qed.

Lemma at_Z_Some {A} (l : list A) i x :
  at_Z l i = Some x -> 0 <= i < size_Z l /\ l !! Z.to_nat i = Some x.
Proof.
  unfold at_Z, size_Z. destruct (Z.leb_spec 0 i); [|done]. intros H'.
  pose proof (lookup_lt_Some _ _ _ H'). split; [lia | done].
Qed.

Lemma at_Z_is_Some {A} (l : list A) i : 0 <= i < size_Z l -> exists x, at_Z l i = Some x.
Proof.
  unfold at_Z, size_Z. intros H.
  destruct (Z.leb_spec 0 i); [|lia].
  apply lookup_lt_is_Some_2. lia.
Qed.

Lemma at_Z_nat {A} (l : list A) (i : nat) : at_Z l (Z.of_nat i) = l !! i.
Proof. unfold at_Z. destruct (Z.leb_spec 0 (Z.of_nat i)); [by rewrite Nat2Z.id | lia]. Qed.

Lemma size_set_Z {A} (l : list A) i x : size_Z (set_Z l i x) = size_Z l.
Proof.
  unfold set_Z, size_Z. destruct (0 <=? i); [by rewrite length_insert | done].
Qed.

Lemma at_set_Z_eq {A} (l : list A) i x :
  0 <= i < size_Z l -> at_Z (set_Z l i x) i = Some x.
Proof.
  unfold at_Z, set_Z, size_Z. intros H.
  destruct (Z.leb_spec 0 i); [|lia]. apply list_lookup_insert_eq. lia.
Qed.

Lemma at_set_Z_ne {A} (l : list A) i j x : i <> j -> at_Z (set_Z l i x) j = at_Z l j.
Proof.
  unfold at_Z, set_Z. intros H.
  destruct (Z.leb_spec 0 i); [|done]. destruct (Z.leb_spec 0 j); [|done].
  apply list_lookup_insert_ne. lia.
Qed.

(** ** Counting occurrences *)

Fixpoint count (x : Z) (l : list Z) : Z :=
  match l with
  | [] => 0
  | y :: l => (if x =? y then 1 else 0) + count x l
  end.

Lemma count_nonneg x l : 0 <= count x l.
Proof. induction l as [|y l IH]; simpl; [lia|]. destruct (x =? y); lia. Qed.

Lemma count_app x l k : count x (l ++ k) = count x l + count x k.
Proof. induction l as [|y l IH]; simpl; [lia|]. rewrite IH. lia. Qed.

Lemma count_elem x l : x ∈ l <-> 0 < count x l.
Proof.
  induction l as [|y l IH]; simpl.
  - rewrite elem_of_nil. lia.
  - rewrite elem_of_cons, IH. pose proof (count_nonneg x l).
    destruct (Z.eqb_spec x y); lia.
Qed.

Lemma count_not_elem x l : x ∉ l -> count x l = 0.
Proof. rewrite count_elem. pose proof (count_nonneg x l). lia. Qed.

Lemma count_perm x l k : l ≡ₚ k -> count x l = count x k.
Proof. induction 1; simpl; lia. Qed.

(** ** Removing the first occurrence *)

(** [list::erase] of the node that holds [x] (nodes are distinct). *)
Fixpoint erase1 {A} `{EqDecision A} (x : A) (l : list A) : list A :=
  match l with
  | [] => []
  | y :: l => if decide (x = y) then l else y :: erase1 x l
  end.

Section erase1.
Context {A : Type} `{EqDecision A}.
Implicit Types l : list A.

Lemma erase1_perm x l : x ∈ l -> l ≡ₚ x :: erase1 x l.
Proof.
  induction l as [|y l IH]; simpl; intros Hx.
  - by apply elem_of_nil in Hx.
  - destruct (decide (x = y)) as [->|Hne]; [done|].
    apply elem_of_cons in Hx as [?|Hx]; [congruence|].
    rewrite (IH Hx) at 1. apply Permutation_swap.
Qed.

Lemma erase1_notin x l : x ∉ l -> erase1 x l = l.
Proof.
  induction l as [|y l IH]; simpl; [done|]. rewrite not_elem_of_cons.
  intros [Hne Hl]. rewrite decide_False by done. by rewrite IH.
Qed.

Lemma elem_of_erase1 x y l : NoDup l -> y ∈ erase1 x l <-> y ∈ l /\ y <> x.
Proof.
  intros Hnd. destruct (decide (x ∈ l)) as [Hx|Hx].
  - pose proof (erase1_perm x l Hx) as Hp. rewrite Hp in Hnd.
    apply NoDup_cons in Hnd as [Hn _].
    assert (y ∈ l <-> y = x \/ y ∈ erase1 x l) as -> by (rewrite Hp at 1; apply elem_of_cons).
    split; [intros Hy; split; [by right | intros ->; done] | naive_solver].
  - rewrite (erase1_notin _ _ Hx). split; [|naive_solver].
    intros Hy. split; [done|]. intros ->. done.
Qed.

Lemma erase1_subseteq x l y : y ∈ erase1 x l -> y ∈ l.
Proof.
  induction l as [|z l IH]; simpl; [done|].
  destruct (decide (x = z)); rewrite !elem_of_cons; naive_solver.
Qed.

Lemma NoDup_erase1 x l : NoDup l -> NoDup (erase1 x l).
Proof.
  intros Hnd. destruct (decide (x ∈ l)) as [Hx|Hx].
  - rewrite (erase1_perm x l Hx) in Hnd. by apply NoDup_cons in Hnd as [_ ?].
  - by rewrite erase1_notin.
Qed.

Lemma length_erase1 x l : x ∈ l -> length l = S (length (erase1 x l)).
Proof. intros Hx. pose proof (Permutation_length (erase1_perm x l Hx)) as E. exact E. Qed.
End erase1.

(** ** Automation *)

#[export] Hint Resolve size_Z_nonneg count_nonneg u64_range NoDup_erase1 : ccdb.
#[export] Hint Rewrite @size_Z_app @size_Z_cons @size_set_Z count_app : ccdb.

(** Splits a boolean guard of the source into the propositions it tests. *)
Ltac bprop :=
  repeat match goal with
  | H : (_ && _)%bool = true |- _ => apply andb_true_iff in H as [? ?]
  | H : (_ || _)%bool = false |- _ => apply orb_false_iff in H as [? ?]
  | H : negb _ = true |- _ => apply negb_true_iff in H
  | H : negb _ = false |- _ => apply negb_false_iff in H
  | H : (_ <=? _) = true |- _ => apply Z.leb_le in H
  | H : (_ <=? _) = false |- _ => apply Z.leb_gt in H
  | H : (_ <? _) = true |- _ => apply Z.ltb_lt in H
  | H : (_ <? _) = false |- _ => apply Z.ltb_ge in H
  | H : (_ =? _) = true |- _ => apply Z.eqb_eq in H
  | H : (_ =? _) = false |- _ => apply Z.eqb_neq in H
  | H : bool_decide _ = true |- _ => apply bool_decide_eq_true in H
  | H : bool_decide _ = false |- _ => apply bool_decide_eq_false in H
  end.

(** Inverts one successful bind or guarded run. *)
Ltac inv_run H :=
  repeat (first
    [ apply bind_Some in H as (? & ? & H)
    | progress simpl in H
    | match type of H with
      | (if ?b then _ else _) = Some _ => destruct b eqn:?; try discriminate H
      | (match ?b with _ => _ end) = Some _ => destruct b eqn:?; try discriminate H
      end ]);
  try (injection H as ?; subst).
