(* ===== verification/Base.v ===== *)
(** * Shared vocabulary: [base/error.h], [base/types.h], [block/block_table.h]

    Error codes, [Result], the block table, the work items that the scheduler
    sends to the worker, their results and the per-request parameters. *)

From Stdlib Require Import ZArith Lia SpecFloat.
From stdpp Require Import prelude strings gmap fin_maps.
From S2P Require Import Prelude.

(** ** [base/error.h] *)

Inductive ErrorCode :=
| Ok
| CudaOutOfMemory | CudaLaunchFailed | CudaInvalidValue | CudaRuntimeError | CublasError
| InvalidArgument
| ModelLoadFailed | ModelConfigInvalid | ModelShapeMismatch
| ModelUnsupportedArch | ModelUnsupportedDType
| KVBlockExhausted
| RequestTooLong | RequestCancelled | ServerShuttingDown
| MaxSequencesReached | RequestQueueFull
| ChannelClosed | ChannelCancelled | ChannelError
| NetworkBindFailed | Unsupported | InternalError.

#[export] Instance ErrorCode_eq_dec : EqDecision ErrorCode.
Proof. solve_decision. Defined.

(** [Result<T> = std::expected<T, ErrorCode>]. *)
Inductive Result (A : Type) :=
| Value (a : A)
| Unexpected (e : ErrorCode).
Arguments Value {A} a.
Arguments Unexpected {A} e.

Notation "'TRY' x := r ;; k" :=
  (match r with Value x => k | Unexpected e => Unexpected e end)
  (at level 200, x pattern, r at level 99, k at level 200, right associativity,
   format "'[v' 'TRY'  x  :=  r  ;; '/' k ']'") : cc_scope.

Definition error_message (c : ErrorCode) : string :=
  match c with
  | Ok => "ok"
  | CudaOutOfMemory => "CUDA out of memory"
  | CudaLaunchFailed => "CUDA kernel launch failed"
  | CudaInvalidValue => "CUDA invalid value"
  | CudaRuntimeError => "CUDA runtime error"
  | CublasError => "cuBLAS error"
  | InvalidArgument => "invalid argument"
  | ModelLoadFailed => "model load failed"
  | ModelConfigInvalid => "model config invalid"
  | ModelShapeMismatch => "model shape mismatch"
  | ModelUnsupportedArch => "unsupported model architecture"
  | ModelUnsupportedDType => "unsupported model dtype"
  | KVBlockExhausted => "KV cache block exhausted"
  | RequestTooLong => "request too long"
  | RequestCancelled => "request cancelled"
  | ServerShuttingDown => "server shutting down"
  | MaxSequencesReached => "maximum concurrent sequences reached"
  | RequestQueueFull => "request queue full"
  | ChannelClosed => "asio channel closed"
  | ChannelCancelled => "asio channel operation cancelled"
  | ChannelError => "asio channel error"
  | NetworkBindFailed => "network bind failed"
  | Unsupported => "unsupported operation"
  | InternalError => "internal error"
  end.

(** ** [base/asio_error.h]

    The error codes of the asynchronous operations, as far as the code tells them apart. *)

Inductive AsioCode :=
| AsioSuccess | operation_aborted | channel_cancelled | asio_eof | channel_closed | AsioOther (value : Z).

Definition to_error_code (ec : AsioCode) : ErrorCode :=
  match ec with
  | AsioSuccess => Ok
  | operation_aborted | channel_cancelled => ChannelCancelled
  | asio_eof | channel_closed => ChannelClosed
  | AsioOther _ => ChannelError
  end.

(** ** [block/block_table.h] *)

Record BlockTable := mkBlockTable {
  block_ids_ : list Z;
  shared_count_ : Z;
}.

Definition empty_table : BlockTable := mkBlockTable [] 0.
Definition table_push_back (id : Z) (t : BlockTable) : BlockTable :=
  mkBlockTable (block_ids_ t ++ [id]) (shared_count_ t).
Definition set_shared_count (n : Z) (t : BlockTable) : BlockTable :=
  mkBlockTable (block_ids_ t) n.
Definition table_at (t : BlockTable) (i : Z) : option Z := at_Z (block_ids_ t) i.
Definition table_size (t : BlockTable) : Z := size_Z (block_ids_ t).
Definition token_capacity (t : BlockTable) (block_size : Z) : Z := table_size t * block_size.

(** [for (i < src.size()) dst.push_back(src[i])]. *)
Definition table_append (dst src : BlockTable) : BlockTable :=
  foldl (fun t id => table_push_back id t) dst (block_ids_ src).

Lemma table_append_ids dst src :
  block_ids_ (table_append dst src) = block_ids_ dst ++ block_ids_ src.
Proof.
  unfold table_append. generalize (block_ids_ src) as l. intros l. revert dst.
  induction l as [|x l IH]; intros dst; simpl.
  - by rewrite app_nil_r.
  - rewrite IH. simpl. by rewrite <- app_assoc.
Qed.

(** ** [base/types.h] *)

Inductive ForwardMode := FwdPrefill | FwdDecode | FwdMixed.
Inductive WorkKind := KindPrefillChunk | KindDecodeOneToken.
Inductive RequestStatus := Active | Finished | Cancelled | Failed.

#[export] Instance ForwardMode_eq_dec : EqDecision ForwardMode.
Proof. solve_decision. Defined.
#[export] Instance WorkKind_eq_dec : EqDecision WorkKind.
Proof. solve_decision. Defined.
#[export] Instance RequestStatus_eq_dec : EqDecision RequestStatus.
Proof. solve_decision. Defined.

Record TokenSpan := mkTokenSpan { span_start : Z; span_length : Z }.

Record PrefillChunk := mkPrefillChunk {
  pc_seq_id : Z;
  prompt_span : TokenSpan;
  pc_expected_context_len : option Z;
  needs_sample : bool;
  pc_tokens : list Z;
  pc_block_table : BlockTable;
}.

Record DecodeOneToken := mkDecodeOneToken {
  dt_seq_id : Z;
  input_token : Z;
  dt_expected_context_len : option Z;
  write_kv : bool;
  late_bind : bool;
  dt_block_table : BlockTable;
}.

Inductive WorkItem :=
| WPrefill (w : PrefillChunk)
| WDecode (w : DecodeOneToken).

Definition work_sequence_id (item : WorkItem) : Z :=
  match item with WPrefill w => pc_seq_id w | WDecode w => dt_seq_id w end.

Definition work_kind (item : WorkItem) : WorkKind :=
  match item with WPrefill _ => KindPrefillChunk | WDecode _ => KindDecodeOneToken end.

Definition work_token_count (item : WorkItem) : Z :=
  match item with WPrefill w => span_length (prompt_span w) | WDecode _ => 1 end.

(** [work.expected_context_len.value_or(0)], the visitor used by the scheduler
    and the translator. *)
Definition work_context (item : WorkItem) : Z :=
  default 0 match item with
            | WPrefill w => pc_expected_context_len w
            | WDecode w => dt_expected_context_len w
            end.

Definition work_block_table (item : WorkItem) : BlockTable :=
  match item with WPrefill w => pc_block_table w | WDecode w => dt_block_table w end.

(** An IEEE-754 binary32 value. *)
Abbreviation float32 := spec_float.
Definition f32_zero : float32 := S754_zero false.
Definition f32_one : float32 := S754_finite false 8388608 (-23).

Record SamplingParams := mkSamplingParams {
  max_tokens : Z;
  top_k : Z;
  top_p : float32;
  temperature : float32;
  seed : Z;
  eos_token_id : Z;
}.

Definition default_sampling : SamplingParams :=
  {| max_tokens := 256; top_k := 0; top_p := f32_one; temperature := f32_zero;
     seed := 42; eos_token_id := -1 |}.

Record ScheduledBatch := mkScheduledBatch {
  batch_id : Z;
  batch_items : list WorkItem;
  batch_sampling : SamplingParams;
}.

Record WorkItemResult := mkWorkItemResult {
  item_index : Z;
  res_seq_id : Z;
  res_kind : WorkKind;
  sampled_tokens : list Z;
  tokens_consumed : Z;
  eos : bool;
  stale : bool;
}.

Record BatchResult := mkBatchResult {
  result_batch_id : Z;
  result_items : list WorkItemResult;
}.

Record GeneratedToken := mkGeneratedToken {
  token_id : Z;
  has_token : bool;
  finished : bool;
}.

(** A [TokenSink]'s weak channel reference, as the identity of the channel. *)
Record SchedulerRequest := mkSchedulerRequest {
  sreq_request_id : string;
  sreq_prompt_tokens : list Z;
  sreq_sampling : SamplingParams;
  sreq_max_context_len : Z;
  sreq_sink : Z;
}.

Record Capacity := mkCapacity {
  cap_max_sequences : Z;
  cap_active_sequences : Z;
  cap_free_blocks : Z;
  cap_max_blocks : Z;
  cap_block_size : Z;
  cap_block_active : Z;
  cap_block_cached_idle : Z;
  cap_prefix_lookup_hits : Z;
  cap_prefix_lookup_misses : Z;
  cap_prefix_evictions : Z;
  cap_prefix_cached_blocks : Z;
}.
