(* ===== verification/Config.v ===== *)
(** * Configuration: [config/engine_config.h|cpp], [config/model_config.h|cpp]

    The runtime limits of the engine, the canonical model description, and
    their validators. *)

From Stdlib Require Import ZArith Lia SpecFloat.
From stdpp Require Import prelude strings gmap fin_maps.
From S2P Require Import Prelude Base.

(** ** [EngineConfig] *)

Record EngineConfig := mkEngineConfig {
  device_id : Z;
  max_blocks : Z;
  kv_block_size : Z;
  max_sequences : Z;
  max_running_requests : Z;
  max_concurrent_batches : Z;
  max_pending_requests : Z;
  max_token_budget : Z;
  max_seq_prefill_tokens : Z;
  default_max_context_len : Z;
  state_prefix_cache_blocks : Z;
}.

Definition default_engine_config : EngineConfig :=
  {| device_id := 0; max_blocks := 1024; kv_block_size := 128; max_sequences := 64;
     max_running_requests := 16; max_concurrent_batches := 2; max_pending_requests := 256;
     max_token_budget := 4096; max_seq_prefill_tokens := 512;
     default_max_context_len := 2048; state_prefix_cache_blocks := 3 |}.

(** [EngineConfig::validate]; the product is an [int64_t] product of two [int]s,
    which cannot overflow. *)
Definition validate (c : EngineConfig) : Result unit :=
  if (device_id c <? 0) || (max_blocks c <=? 0) || (kv_block_size c <=? 0) ||
     (max_sequences c <=? 0) || (max_running_requests c <=? 0) ||
     (max_sequences c <? max_running_requests c) || (max_concurrent_batches c <=? 0) ||
     (max_pending_requests c <=? 0) || (max_token_budget c <=? 0) ||
     (max_seq_prefill_tokens c <? 0) || (default_max_context_len c <=? 0) ||
     (state_prefix_cache_blocks c <? 0)
  then Unexpected InvalidArgument
  else
    let max_context_capacity := max_blocks c * kv_block_size c in
    if (max_context_capacity <=? 0) || (INT_MAX <? max_context_capacity) ||
       (max_context_capacity <? default_max_context_len c)
    then Unexpected InvalidArgument
    else Value tt.

(** ** [ModelConfig] *)

Inductive ModelArch := Qwen3 | Qwen3_5 | UnknownArch.
Inductive LayerType := FullAttention | GatedDeltaNet | MtpPredictor.

#[export] Instance ModelArch_eq_dec : EqDecision ModelArch.
Proof. solve_decision. Defined.
#[export] Instance LayerType_eq_dec : EqDecision LayerType.
Proof. solve_decision. Defined.

Record ModelConfig := mkModelConfig {
  arch_ : ModelArch;
  n_layers_ : Z;
  n_q_heads_ : Z;
  n_kv_heads_ : Z;
  d_model_ : Z;
  head_dim_ : Z;
  rotary_dim_ : Z;
  d_ff_ : Z;
  vocab_size_ : Z;
  max_seq_len_ : Z;
  rope_theta_ : float32;
  rms_norm_eps_ : float32;
  full_attention_interval_ : Z;
  nextn_predict_layers_ : Z;
  ssm_conv_kernel_ : Z;
  ssm_state_size_ : Z;
  ssm_group_count_ : Z;
  ssm_time_step_rank_ : Z;
  ssm_inner_size_ : Z;
  layer_types_ : list LayerType;
}.

Definition arch_name (c : ModelConfig) : string :=
  match arch_ c with
  | Qwen3 => "qwen3"
  | Qwen3_5 => "qwen35"
  | UnknownArch => "unknown"
  end.

(** [std::isfinite(x)] and [x <= 0.0f]. *)
Definition isfinite (x : float32) : bool :=
  match x with S754_zero _ | S754_finite _ _ _ => true | _ => false end.
Definition f32_le_zero (x : float32) : bool :=
  match x with
  | S754_zero _ => true
  | S754_infinity s => s
  | S754_nan => false
  | S754_finite s _ _ => s
  end.

(** [ModelConfig::validate].  [/] and [%] truncate; the operands are positive
    where they are evaluated.  The loop over the layer types accepts each of the
    three enumerators. *)
Definition validate_model (c : ModelConfig) : Result unit :=
  if bool_decide (arch_ c = UnknownArch) then Unexpected ModelUnsupportedArch
  else if (n_layers_ c <=? 0) || (n_q_heads_ c <=? 0) || (n_kv_heads_ c <=? 0) ||
          (head_dim_ c <=? 0) || (d_model_ c <=? 0) || (d_ff_ c <=? 0) ||
          (vocab_size_ c <=? 0) || (max_seq_len_ c <=? 0)
  then Unexpected ModelConfigInvalid
  else if (n_q_heads_ c <? n_kv_heads_ c) || negb (Z.rem (n_q_heads_ c) (n_kv_heads_ c) =? 0)
  then Unexpected ModelConfigInvalid
  else if negb (isfinite (rope_theta_ c)) || f32_le_zero (rope_theta_ c) ||
          negb (isfinite (rms_norm_eps_ c)) || f32_le_zero (rms_norm_eps_ c)
  then Unexpected ModelConfigInvalid
  else if bool_decide (arch_ c = Qwen3_5) then
    if (full_attention_interval_ c <=? 0) || (ssm_conv_kernel_ c <=? 0) ||
       (ssm_state_size_ c <=? 0) || (ssm_group_count_ c <=? 0) ||
       (ssm_time_step_rank_ c <=? 0) || (ssm_inner_size_ c <=? 0) ||
       (rotary_dim_ c <=? 0) || (head_dim_ c <? rotary_dim_ c) ||
       negb (Z.rem (rotary_dim_ c) 2 =? 0)
    then Unexpected ModelConfigInvalid
    else if negb (Z.rem (ssm_inner_size_ c) (ssm_time_step_rank_ c) =? 0) ||
            negb (Z.quot (ssm_inner_size_ c) (ssm_time_step_rank_ c) =? ssm_state_size_ c)
    then Unexpected ModelConfigInvalid
    else
      let expected_layer_count := n_layers_ c + nextn_predict_layers_ c in
      if negb (size_Z (layer_types_ c) =? expected_layer_count)
      then Unexpected ModelConfigInvalid
      else if forallb (fun type => bool_decide (type = FullAttention) ||
                                   bool_decide (type = GatedDeltaNet) ||
                                   bool_decide (type = MtpPredictor)) (layer_types_ c)
      then Value tt
      else Unexpected ModelConfigInvalid
  else Value tt.

(** ** What validation guarantees *)

Record config_valid (c : EngineConfig) : Prop := mk_config_valid {
  cv_blocks : 0 < max_blocks c;
  cv_block_size : 0 < kv_block_size c;
  cv_capacity : max_blocks c * kv_block_size c <= INT_MAX;
  cv_context : 0 < default_max_context_len c <= max_blocks c * kv_block_size c;
  cv_running : 0 < max_running_requests c <= max_sequences c;
  cv_batches : 0 < max_concurrent_batches c;
  cv_pending : 0 < max_pending_requests c;
  cv_budget : 0 < max_token_budget c;
  cv_prefill : 0 <= max_seq_prefill_tokens c;
  cv_device : 0 <= device_id c;
  cv_snapshots : 0 <= state_prefix_cache_blocks c;
}.

(** [EngineConfig::validate] accepts exactly the configurations with
    positive limits whose KV token capacity fits an [int] and covers the default
    context length. *)
Theorem validate_spec c : validate c = Value tt <-> config_valid c.
Proof.
  unfold validate. split.
  - intros H. destruct (_ || _)%bool eqn:E in H; [done|].
    destruct (_ || _)%bool eqn:E2 in H; [done|]. bprop. constructor; lia.
  - intros [Hb Hk Hc [Hx Hx'] [Hr Hr'] Hcb Hp Ht Hpf Hd Hs].
    repeat match goal with |- context [?a <=? ?b] =>
      destruct (Z.leb_spec a b); [lia|] end.
    repeat match goal with |- context [?a <? ?b] =>
      destruct (Z.ltb_spec a b); [lia|] end.
    done.
Qed.
