(* ===== verification/BlockPool.v ===== *)
(** * The logical KV block pool: [block/block.h], [block/block_pool.cpp]

    A pool owns one metadata record per block and an intrusive free list.
    A pointer into the intrusive list is the index of the block it links. *)

From Stdlib Require Import ZArith Lia.
From stdpp Require Import prelude strings gmap fin_maps.
From S2P Require Import Prelude Base.

(** ** Data *)

Inductive BlockStatus := Free | InUse.

#[export] Instance BlockStatus_eq_dec : EqDecision BlockStatus.
Proof. solve_decision. Defined.

Record Block := mkBlock {
  block_id : Z;
  block_ref_count : Z;
  block_status : BlockStatus;
}.

Definition is_free (b : Block) : bool := bool_decide (block_status b = Free).
Definition is_in_use (b : Block) : bool := bool_decide (block_status b = InUse).

Record BlockPool := mkBlockPool {
  blocks_ : list Block;
  free_list_ : list Z;
  max_blocks_ : Z;
  block_size_ : Z;
}.

Definition default_pool : BlockPool := mkBlockPool [] [] 0 0.

(** [blocks_[id]] under [assert(id >= 0 && id < max_blocks_)]. *)
Definition get_block (id : Z) (p : BlockPool) : option Block :=
  ASSERT ((0 <=? id) && (id <? max_blocks_ p)) ;;
  at_Z (blocks_ p) id.

Definition put_block (id : Z) (b : Block) (p : BlockPool) : BlockPool :=
  mkBlockPool (set_Z (blocks_ p) id b) (free_list_ p) (max_blocks_ p) (block_size_ p).

Definition put_free_list (l : list Z) (p : BlockPool) : BlockPool :=
  mkBlockPool (blocks_ p) l (max_blocks_ p) (block_size_ p).

(** ** Operations *)

Definition init (max_blocks block_size : Z) (p : BlockPool) : option (Result unit * BlockPool) :=
  ASSERT (max_blocks_ p =? 0) ;;
  if (max_blocks <=? 0) || (block_size <=? 0) then Some (Unexpected InvalidArgument, p)
  else if INT_MAX <? max_blocks * block_size then Some (Unexpected InvalidArgument, p)
  else
    let ids := map Z.of_nat (seq 0 (Z.to_nat max_blocks)) in
    Some (Value tt,
          mkBlockPool (map (fun i => mkBlock i 0 Free) ids) (free_list_ p ++ ids)
                      max_blocks block_size).

(** The assertions on the state of a block are checked unless compiled out. *)
Section operations.
Context `{BuildMode}.

Definition allocate (p : BlockPool) : option (Result Z * BlockPool) :=
  match free_list_ p with
  | [] => Some (Unexpected KVBlockExhausted, p)
  | id :: rest =>
      block ← at_Z (blocks_ p) id;
      ASSERT (NDEBUG || (is_free block && (block_ref_count block =? 0))) ;;
      Some (Value (block_id block),
            put_block id (mkBlock (block_id block) 1 InUse) (put_free_list rest p))
  end.

(** The loop of [allocate_blocks]: [n] more iterations, [table] built so far.
    A failing iteration returns at once and keeps the blocks taken before. *)
Fixpoint allocate_blocks_loop (n : nat) (table : BlockTable) (p : BlockPool)
  : option (Result BlockTable * BlockPool) :=
  match n with
  | O => Some (Value table, p)
  | S n =>
      '(r, p) ← allocate p;
      match r with
      | Unexpected e => Some (Unexpected e, p)
      | Value id => allocate_blocks_loop n (table_push_back id table) p
      end
  end.

Definition allocate_blocks (num_blocks : Z) (p : BlockPool)
  : option (Result BlockTable * BlockPool) :=
  ASSERT (NDEBUG || (0 <? num_blocks)) ;;
  allocate_blocks_loop (Z.to_nat num_blocks) empty_table p.

(** [++block.ref_count] is a sum of [int]. *)
Definition retain_request (id : Z) (p : BlockPool) : option BlockPool :=
  block ← get_block id p;
  ASSERT (NDEBUG || (is_in_use block && (0 <? block_ref_count block))) ;;
  n ← int_sum (block_ref_count block + 1);
  Some (put_block id (mkBlock (block_id block) n (block_status block)) p).

Definition release_request (id : Z) (p : BlockPool) : option (Z * BlockPool) :=
  block ← get_block id p;
  ASSERT (NDEBUG || (is_in_use block && (0 <? block_ref_count block))) ;;
  ASSERT (tolerates SignedOverflow || (INT_MIN <? block_ref_count block)) ;;
  let n := block_ref_count block - 1 in
  Some (n, put_block id (mkBlock (block_id block) n (block_status block)) p).

Fixpoint release_ids (ids : list Z) (p : BlockPool) : option BlockPool :=
  match ids with
  | [] => Some p
  | id :: ids => '(_, p) ← release_request id p; release_ids ids p
  end.

Definition release_blocks (table : BlockTable) (p : BlockPool) : option BlockPool :=
  release_ids (block_ids_ table) p.

Definition recycle (id : Z) (p : BlockPool) : option BlockPool :=
  block ← get_block id p;
  ASSERT (NDEBUG || (is_in_use block && (block_ref_count block =? 0))) ;;
  Some (put_free_list (free_list_ p ++ [id])
         (put_block id (mkBlock (block_id block) (block_ref_count block) Free) p)).
End operations.

Definition ref_count (id : Z) (p : BlockPool) : option Z :=
  block ← get_block id p; Some (block_ref_count block).

Definition num_free_blocks (p : BlockPool) : Z := size_Z (free_list_ p).

Lemma init_geometry max_blocks block_size p :
  init max_blocks block_size default_pool = Some (Value tt, p) ->
  max_blocks_ p = max_blocks /\ block_size_ p = block_size.
Proof. unfold init, default_pool. simpl. intros H. repeat case_match; by simplify_eq/=. Qed.

(** ** Abstract contract

    To its clients the pool is a finite map from the blocks in use to their
    request reference counts, and the queue of free blocks.  The contract: only blocks in
    use are retained, released and recycled; a release needs a reference, recycling needs
    none left, retaining needs one unless assertions are compiled out; and a count stays
    an [int]. *)

Module PoolSpec.
Record t := mk { in_use : gmap Z Z; free : list Z }.

Inductive cmd := Allocate | Retain (id : Z) | Release (id : Z) | Recycle (id : Z).
Inductive reply := RId (r : Result Z) | RCount (n : Z) | RUnit.

Definition step `{BuildMode} (c : cmd) (s : t) : option (reply * t) :=
  match c with
  | Allocate =>
      match free s with
      | [] => Some (RId (Unexpected KVBlockExhausted), s)
      | id :: rest => Some (RId (Value id), mk (<[id := 1]> (in_use s)) rest)
      end
  | Retain id =>
      n ← in_use s !! id;
      ASSERT (NDEBUG || (0 <? n)) ;;
      n ← int_sum (n + 1);
      Some (RUnit, mk (<[id := n]> (in_use s)) (free s))
  | Release id =>
      n ← in_use s !! id;
      ASSERT (0 <? n) ;; Some (RCount (n - 1), mk (<[id := n - 1]> (in_use s)) (free s))
  | Recycle id =>
      n ← in_use s !! id;
      ASSERT (n =? 0) ;; Some (RUnit, mk (delete id (in_use s)) (free s ++ [id]))
  end.

Fixpoint run `{BuildMode} (cs : list cmd) (s : t) : option (list reply * t) :=
  match cs with
  | [] => Some ([], s)
  | c :: cs => '(r, s) ← step c s; '(rs, s) ← run cs s; Some (r :: rs, s)
  end.
End PoolSpec.

(** The same commands executed by the pool's operations. *)
Definition pool_step `{BuildMode} (c : PoolSpec.cmd) (p : BlockPool) : option (PoolSpec.reply * BlockPool) :=
  match c with
  | PoolSpec.Allocate => '(r, p) ← allocate p; Some (PoolSpec.RId r, p)
  | PoolSpec.Retain id => p ← retain_request id p; Some (PoolSpec.RUnit, p)
  | PoolSpec.Release id => '(n, p) ← release_request id p; Some (PoolSpec.RCount n, p)
  | PoolSpec.Recycle id => p ← recycle id p; Some (PoolSpec.RUnit, p)
  end.

Fixpoint pool_run `{BuildMode} (cs : list PoolSpec.cmd) (p : BlockPool)
  : option (list PoolSpec.reply * BlockPool) :=
  match cs with
  | [] => Some ([], p)
  | c :: cs => '(r, p) ← pool_step c p; '(rs, p) ← pool_run cs p; Some (r :: rs, p)
  end.

(** ** Invariant *)

Record pool_wf (p : BlockPool) : Prop := mk_pool_wf {
  wf_size : size_Z (blocks_ p) = max_blocks_ p;
  wf_block_size : 0 < block_size_ p;
  wf_max_blocks : 0 < max_blocks_ p;
  wf_capacity : max_blocks_ p * block_size_ p <= INT_MAX;
  wf_block : forall id b, at_Z (blocks_ p) id = Some b ->
    block_id b = id /\ 0 <= block_ref_count b /\
    (block_status b = Free <-> id ∈ free_list_ p) /\
    (block_status b = Free -> block_ref_count b = 0);
  wf_free_range : forall id, id ∈ free_list_ p -> 0 <= id < max_blocks_ p;
  wf_free_nodup : NoDup (free_list_ p);
}.

(** The count of a block in use, [None] for a free or invalid block. *)
Definition used (p : BlockPool) (id : Z) : option Z :=
  b ← at_Z (blocks_ p) id;
  if is_in_use b then Some (block_ref_count b) else None.

(** Two pools of the same geometry. *)
Definition same_geometry (p p' : BlockPool) : Prop :=
  max_blocks_ p' = max_blocks_ p /\ block_size_ p' = block_size_ p.

Lemma same_geometry_refl p : same_geometry p p.
Proof. done. Qed.

Lemma same_geometry_trans p q r : same_geometry p q -> same_geometry q r -> same_geometry p r.
Proof. unfold same_geometry. intuition congruence. Qed.

#[export] Hint Resolve same_geometry_refl : ccdb.

Section used.
Implicit Types p : BlockPool.

Lemma get_block_at id p : pool_wf p -> get_block id p = at_Z (blocks_ p) id.
Proof.
  intros Hwf. unfold get_block.
  destruct ((0 <=? id) && (id <? max_blocks_ p)) eqn:E; [done|].
  destruct (at_Z (blocks_ p) id) eqn:Ea; [|done].
  apply at_Z_Some in Ea as [Hr _]. rewrite (wf_size p Hwf) in Hr.
  apply andb_false_iff in E as [E|E]; bprop; lia.
Qed.

Lemma used_Some p id n :
  used p id = Some n <->
  exists b, at_Z (blocks_ p) id = Some b /\ block_status b = InUse /\ block_ref_count b = n.
Proof.
  unfold used, is_in_use. destruct (at_Z (blocks_ p) id) as [b|]; simpl.
  - case_bool_decide; naive_solver.
  - naive_solver.
Qed.

Lemma used_range p id n : pool_wf p -> used p id = Some n -> 0 <= id < max_blocks_ p /\ 0 <= n.
Proof.
  intros Hwf (b & Hb & _ & <-)%used_Some.
  pose proof (wf_block p Hwf id b Hb). apply at_Z_Some in Hb as [Hr _].
  rewrite (wf_size p Hwf) in Hr. naive_solver.
Qed.

Lemma used_not_free p id n : pool_wf p -> used p id = Some n -> id ∉ free_list_ p.
Proof.
  intros Hwf (b & Hb & Hs & _)%used_Some Hin.
  destruct (wf_block p Hwf id b Hb) as (_ & _ & Hf & _).
  apply Hf in Hin. congruence.
Qed.

Lemma used_or_free p id :
  pool_wf p -> 0 <= id < max_blocks_ p -> is_Some (used p id) \/ id ∈ free_list_ p.
Proof.
  intros Hwf Hr. rewrite <- (wf_size p Hwf) in Hr.
  destruct (at_Z_is_Some _ _ Hr) as [b Hb].
  destruct (wf_block p Hwf id b Hb) as (_ & _ & Hf & _).
  destruct (block_status b) eqn:Es.
  - right. by apply Hf.
  - left. exists (block_ref_count b). apply used_Some. eauto.
Qed.

Lemma used_put_block p id b j :
  0 <= id < size_Z (blocks_ p) ->
  used (put_block id b p) j =
  if decide (j = id) then (if is_in_use b then Some (block_ref_count b) else None)
  else used p j.
Proof.
  intros Hr. unfold used, put_block. simpl. case_decide as Hj.
  - subst. by rewrite at_set_Z_eq.
  - by rewrite at_set_Z_ne.
Qed.

Lemma used_put_free_list p l j : used (put_free_list l p) j = used p j.
Proof. done. Qed.
End used.

(** Changing the count of a block in use keeps the pool well formed. *)
Lemma pool_wf_put_count p id n m :
  pool_wf p -> used p id = Some n -> 0 <= m ->
  pool_wf (put_block id (mkBlock id m InUse) p).
Proof.
  intros Hwf Hu Hm. pose proof (used_range _ _ _ Hwf Hu) as [Hr _].
  apply used_Some in Hu as (b & Hb & Hs & _).
  pose proof (wf_block p Hwf id b Hb) as (_ & _ & Hf & _).
  destruct Hwf as [Hsz Hbs Hmb Hcap Hblk Hfr Hnd].
  split; simpl; try done.
  - by rewrite size_set_Z.
  - intros j b' Hj. destruct (decide (id = j)) as [->|Hne].
    + rewrite at_set_Z_eq in Hj by lia. injection Hj as <-. simpl.
      split_and!; try done. rewrite <- Hf. split; congruence.
    + rewrite at_set_Z_ne in Hj by done. eauto.
Qed.

Lemma retain_request_ok `{BuildMode} p id n :
  pool_wf p -> used p id = Some n -> (NDEBUG || (0 <? n)) = true -> int_sum (n + 1) = Some (n + 1) ->
  exists p', retain_request id p = Some p' /\ pool_wf p' /\ same_geometry p p' /\
    free_list_ p' = free_list_ p /\
    forall j, used p' j = if decide (j = id) then Some (n + 1) else used p j.
Proof.
  intros Hwf Hu Hn Hsum. pose proof (used_range _ _ _ Hwf Hu) as [Hr ?].
  pose proof Hu as (b & Hb & Hs & Hrc)%used_Some.
  destruct (wf_block p Hwf id b Hb) as (Hid & _).
  unfold retain_request. rewrite get_block_at, Hb by done. simpl.
  unfold is_in_use. rewrite bool_decide_true by done.
  rewrite Hrc. simpl. rewrite Hn, Hsum, Hid, Hs. simpl. eexists. split; [done|].
  split; [apply (pool_wf_put_count _ _ n); [done..|lia]|].
  split; [done|]. split; [done|]. intros j.
  rewrite used_put_block by (rewrite (wf_size p Hwf); done). done.
Qed.

Lemma release_request_ok `{BuildMode} p id n :
  pool_wf p -> used p id = Some n -> 0 < n ->
  exists p', release_request id p = Some (n - 1, p') /\ pool_wf p' /\ same_geometry p p' /\
    free_list_ p' = free_list_ p /\
    forall j, used p' j = if decide (j = id) then Some (n - 1) else used p j.
Proof.
  intros Hwf Hu Hn. pose proof (used_range _ _ _ Hwf Hu) as [Hr _].
  pose proof Hu as (b & Hb & Hs & Hrc)%used_Some.
  destruct (wf_block p Hwf id b Hb) as (Hid & _).
  unfold release_request. rewrite get_block_at, Hb by done. simpl.
  unfold is_in_use. rewrite bool_decide_true by done.
  destruct (Z.ltb_spec 0 (block_ref_count b)); [|lia]. rewrite orb_true_r.
  destruct (Z.ltb_spec INT_MIN (block_ref_count b)); [|unfold INT_MIN in *; lia]. rewrite orb_true_r.
  rewrite Hid, Hs, Hrc. eexists. split; [done|].
  split; [apply (pool_wf_put_count _ _ n); [done..|lia]|].
  split; [done|]. split; [done|]. intros j.
  rewrite used_put_block by (rewrite (wf_size p Hwf); done). done.
Qed.

Lemma allocate_ok `{BuildMode} p id rest :
  pool_wf p -> free_list_ p = id :: rest ->
  exists p', allocate p = Some (Value id, p') /\ pool_wf p' /\ same_geometry p p' /\
    free_list_ p' = rest /\ used p id = None /\
    forall j, used p' j = if decide (j = id) then Some 1 else used p j.
Proof.
  intros Hwf Hfl. pose proof (wf_free_range p Hwf id) as Hr.
  rewrite Hfl in Hr. specialize (Hr ltac:(left)).
  assert (0 <= id < size_Z (blocks_ p)) as Hr' by (rewrite (wf_size p Hwf); done).
  destruct (at_Z_is_Some _ _ Hr') as [b Hb].
  destruct (wf_block p Hwf id b Hb) as (Hid & _ & Hf & Hz).
  assert (block_status b = Free) as Hs by (apply Hf; rewrite Hfl; left).
  unfold allocate. rewrite Hfl, Hb. simpl. unfold is_free.
  rewrite bool_decide_true by done. rewrite (Hz Hs), Hid, orb_true_r. simpl.
  pose proof (wf_free_nodup p Hwf) as Hnd. rewrite Hfl in Hnd.
  apply NoDup_cons in Hnd as [Hnin Hnd].
  eexists. split; [done|]. split; [|split; [done|split; [done|split]]].
  - destruct Hwf as [Hsz Hbs Hmb Hcap Hblk Hfr _]. split; simpl; try done.
    + by rewrite size_set_Z.
    + intros j b' Hj. destruct (decide (id = j)) as [->|Hne].
      * rewrite at_set_Z_eq in Hj by done. injection Hj as <-. simpl.
        split_and!; [done|lia| |done]. by split.
      * rewrite at_set_Z_ne in Hj by done. destruct (Hblk j b' Hj) as (? & ? & Hf' & ?).
        split_and!; try done. rewrite Hf', Hfl, elem_of_cons. naive_solver.
    + intros j Hj. apply Hfr. rewrite Hfl. by right.
  - unfold used. rewrite Hb. simpl. unfold is_in_use. by rewrite bool_decide_false by congruence.
  - intros j. rewrite used_put_block by done. done.
Qed.

Lemma recycle_ok `{BuildMode} p id :
  pool_wf p -> used p id = Some 0 ->
  exists p', recycle id p = Some p' /\ pool_wf p' /\ same_geometry p p' /\
    free_list_ p' = free_list_ p ++ [id] /\
    forall j, used p' j = if decide (j = id) then None else used p j.
Proof.
  intros Hwf Hu. pose proof (used_range _ _ _ Hwf Hu) as [Hr _].
  pose proof (used_not_free _ _ _ Hwf Hu) as Hnf.
  pose proof Hu as (b & Hb & Hs & Hrc)%used_Some.
  destruct (wf_block p Hwf id b Hb) as (Hid & _).
  assert (0 <= id < size_Z (blocks_ p)) as Hr' by (rewrite (wf_size p Hwf); done).
  unfold recycle. rewrite get_block_at, Hb by done. simpl.
  unfold is_in_use. rewrite bool_decide_true by done.
  rewrite Hrc, Hid, orb_true_r. simpl. eexists. split; [done|]. split; [|split; [done|split; [done|]]].
  - destruct Hwf as [Hsz Hbs Hmb Hcap Hblk Hfr Hnd]. split; simpl; try done.
    + by rewrite size_set_Z.
    + intros j b' Hj. destruct (decide (id = j)) as [->|Hne].
      * rewrite at_set_Z_eq in Hj by done. injection Hj as <-. simpl.
        split_and!; try done. rewrite elem_of_app, list_elem_of_singleton. naive_solver.
      * rewrite at_set_Z_ne in Hj by done. destruct (Hblk j b' Hj) as (? & ? & Hf' & ?).
        split_and!; try done. rewrite Hf', elem_of_app, list_elem_of_singleton. naive_solver.
    + intros j. rewrite elem_of_app, list_elem_of_singleton. naive_solver.
    + apply NoDup_app. split_and!; [done| |apply NoDup_singleton].
      intros j Hj ->%list_elem_of_singleton. done.
  - intros j. by rewrite used_put_free_list, used_put_block by done.
Qed.

(** ** Whole-table operations *)

Lemma allocate_blocks_loop_ok `{BuildMode} n p t :
  pool_wf p -> (n <= length (free_list_ p))%nat ->
  exists t' p', allocate_blocks_loop n t p = Some (Value t', p') /\
    block_ids_ t' = block_ids_ t ++ take n (free_list_ p) /\ shared_count_ t' = shared_count_ t /\
    pool_wf p' /\ same_geometry p p' /\ free_list_ p' = drop n (free_list_ p) /\
    forall j, used p' j = if decide (j ∈ take n (free_list_ p)) then Some 1 else used p j.
Proof.
  revert p t. induction n as [|n IH]; intros p t Hwf Hn; simpl.
  - exists t, p. rewrite app_nil_r. by split_and!.
  - destruct (free_list_ p) as [|id rest] eqn:Hfl; simpl in Hn; [lia|].
    destruct (allocate_ok p id rest Hwf Hfl) as (p1 & Ha & Hwf1 & Hg & Hfl1 & _ & Hu).
    rewrite Ha. simpl. destruct (IH p1 (table_push_back id t)) as
      (t' & p' & Hl & Hids & Hsh & Hwf' & Hg' & Hfl' & Hu'); [done|rewrite Hfl1; lia|].
    rewrite Hfl1 in *. exists t', p'. split_and!; try done.
    + rewrite Hids. simpl. by rewrite <- app_assoc.
    + by eapply same_geometry_trans.
    + intros j. rewrite Hu', Hu. simpl.
      repeat case_decide; set_solver.
Qed.

Lemma allocate_blocks_loop_fail `{BuildMode} n p t :
  pool_wf p -> (length (free_list_ p) < n)%nat ->
  exists p', allocate_blocks_loop n t p = Some (Unexpected KVBlockExhausted, p') /\
    pool_wf p' /\ same_geometry p p' /\ free_list_ p' = [] /\
    forall j, used p' j = if decide (j ∈ free_list_ p) then Some 1 else used p j.
Proof.
  revert p t. induction n as [|n IH]; intros p t Hwf Hn; simpl; [lia|].
  destruct (free_list_ p) as [|id rest] eqn:Hfl; simpl in Hn.
  - unfold allocate. rewrite Hfl. simpl. exists p. by split_and!.
  - destruct (allocate_ok p id rest Hwf Hfl) as (p1 & Ha & Hwf1 & Hg & Hfl1 & _ & Hu).
    rewrite Ha. simpl. destruct (IH p1 (table_push_back id t)) as
      (p' & Hl & Hwf' & Hg' & Hfl' & Hu'); [done|rewrite Hfl1; lia|].
    rewrite Hfl1 in *. exists p'. split_and!; try done.
    + by eapply same_geometry_trans.
    + intros j. rewrite Hu', Hu. repeat case_decide; set_solver.
Qed.

(** Releasing a list of references that are all held. *)
Lemma release_ids_ok `{BuildMode} ids p :
  pool_wf p ->
  (forall id, id ∈ ids -> exists n, used p id = Some n /\ count id ids <= n) ->
  exists p', release_ids ids p = Some p' /\ pool_wf p' /\ same_geometry p p' /\
    free_list_ p' = free_list_ p /\
    forall j, used p' j = (fun n => n - count j ids) <$> used p j.
Proof.
  revert p. induction ids as [|id ids IH]; intros p Hwf Hheld; simpl.
  - exists p. split_and!; auto with ccdb. intros j.
    destruct (used p j); simpl; [f_equal; lia | done].
  - destruct (Hheld id) as (n & Hu & Hn); [by left|]. simpl in Hn.
    rewrite Z.eqb_refl in Hn. pose proof (count_nonneg id ids).
    destruct (release_request_ok p id n Hwf Hu) as (p1 & Hr & Hwf1 & Hg & Hfl & Hu1); [lia|].
    rewrite Hr. simpl. destruct (IH p1) as (p' & Hr' & Hwf' & Hg' & Hfl' & Hu'); [done| |].
    { intros j Hj. rewrite Hu1. case_decide as E.
      - subst. eexists. split; [done|]. lia.
      - destruct (Hheld j) as (m & Hm & Hc); [by right|]. simpl in Hc.
        destruct (Z.eqb_spec j id); [done|]. exists m. split; [done|lia]. }
    exists p'. split_and!; try done; [by eapply same_geometry_trans|congruence|].
    intros j. rewrite Hu', Hu1. case_decide as E.
    + subst. rewrite Hu, Z.eqb_refl. simpl. f_equal. lia.
    + destruct (Z.eqb_spec j id); [done|]. by destruct (used p j).
Qed.

(** ** Initialisation *)

Lemma init_wf max_blocks block_size p' :
  init max_blocks block_size default_pool = Some (Value tt, p') ->
  pool_wf p' /\ max_blocks_ p' = max_blocks /\ block_size_ p' = block_size /\
  num_free_blocks p' = max_blocks /\ forall id, used p' id = None.
Proof.
  unfold init, default_pool. simpl. intros H.
  destruct ((max_blocks <=? 0) || (block_size <=? 0)) eqn:E1; [discriminate H|].
  destruct (INT_MAX <? max_blocks * block_size) eqn:E2; [discriminate H|].
  injection H as <-. bprop.
  set (n := Z.to_nat max_blocks). set (ids := map Z.of_nat (seq 0 n)).
  assert (ids = Z.of_nat <$> seq 0 n) as Eids by done.
  assert (length ids = n) as Hlen by (rewrite Eids; by rewrite length_fmap, length_seq).
  assert (forall i j, ids !! i = Some j -> j = Z.of_nat i /\ (i < n)%nat) as Hids.
  { intros i j Hi. rewrite Eids, list_lookup_fmap in Hi.
    apply fmap_Some in Hi as (k & Hk & ->). apply lookup_seq in Hk. split; [f_equal|]; lia. }
  assert (forall i b, at_Z (map (fun i => mkBlock i 0 Free) ids) i = Some b ->
            b = mkBlock i 0 Free /\ i ∈ ids) as Hat.
  { intros i b Hi. apply at_Z_Some in Hi as [Hr Hi].
    change (map ?f ids) with (f <$> ids) in Hi. rewrite list_lookup_fmap in Hi.
    apply fmap_Some in Hi as (k & Hk & ->). pose proof (Hids _ _ Hk) as [-> _].
    rewrite Z2Nat.id in * by lia. split; [done|]. eapply list_elem_of_lookup_2; eauto. }
  split_and!; simpl; try done.
  - split; simpl; try lia.
    + unfold size_Z. rewrite length_map, Hlen. lia.
    + intros id b Hb. apply Hat in Hb as [-> Hin]. simpl. naive_solver.
    + intros id (i & Hi)%list_elem_of_lookup. apply Hids in Hi. lia.
    + rewrite Eids. apply NoDup_fmap; [apply _ | apply NoDup_seq].
  - unfold num_free_blocks, size_Z. simpl. rewrite Hlen. lia.
  - intros id. unfold used. simpl.
    destruct (at_Z _ id) as [b|] eqn:Hb; [|done]. by apply Hat in Hb as [-> _].
Qed.

(** ** Refinement of the abstract contract *)

Definition pool_abs (p : BlockPool) (s : PoolSpec.t) : Prop :=
  pool_wf p /\ PoolSpec.free s = free_list_ p /\ forall id, PoolSpec.in_use s !! id = used p id.

(** With assertions, an operation on a block outside its contract stops. *)
Lemma guarded_block_None `{BuildMode} {A} p id (f : Z -> bool) (k : Block -> option A) :
  pool_wf p -> NDEBUG = false ->
  (forall b, used p id = Some (block_ref_count b) -> f (block_ref_count b) = true -> k b = None) ->
  (block ← get_block id p;
   ASSERT (NDEBUG || (is_in_use block && f (block_ref_count block))) ;; k block) = None.
Proof.
  intros Hwf Hnd Hf. rewrite get_block_at, Hnd by done.
  destruct (at_Z (blocks_ p) id) as [b|] eqn:Hb; [|done]. simpl.
  unfold is_in_use. case_bool_decide as Hs; [|done]. simpl.
  destruct (f (block_ref_count b)) eqn:Ef; [|done]. apply Hf; [|done]. apply used_Some. eauto.
Qed.

Lemma retain_request_None `{BuildMode} p id :
  pool_wf p -> NDEBUG = false -> (forall n, used p id = Some n -> 0 < n -> int_sum (n + 1) = None) ->
  retain_request id p = None.
Proof.
  intros Hwf Hnd Hf. apply (guarded_block_None p id (fun n => 0 <? n)); [done..|].
  intros b Hb Hn. by rewrite (Hf _ Hb) by lia.
Qed.

Lemma release_request_None `{BuildMode} p id :
  pool_wf p -> NDEBUG = false -> (forall n, used p id = Some n -> (0 <? n) = false) -> release_request id p = None.
Proof.
  intros Hwf Hnd Hf. apply (guarded_block_None p id (fun n => 0 <? n)); [done..|].
  intros b Hb Hn. by rewrite (Hf _ Hb) in Hn.
Qed.

Lemma recycle_None `{BuildMode} p id :
  pool_wf p -> NDEBUG = false -> (forall n, used p id = Some n -> (n =? 0) = false) -> recycle id p = None.
Proof.
  intros Hwf Hnd Hf. apply (guarded_block_None p id (fun n => n =? 0)); [done..|].
  intros b Hb Hn. by rewrite (Hf _ Hb) in Hn.
Qed.

(** Closes the simulation case of one operation from its [_ok] lemma. *)
Ltac refine_with lem :=
  let p' := fresh "p" in
  let Hu := fresh "Hu" in
  destruct lem as (p' & -> & ? & ? & ? & Hu); [done..|];
  exists p'; simpl; split_and!; try done;
  unfold pool_abs; simpl; split_and!; [done|congruence|];
  intros ?; rewrite ?lookup_insert, ?lookup_delete, Hu; repeat case_decide; congruence.

(** One command: a step of the contract is a step of the pool with the same reply; where
    the contract has none, a build with assertions stops. *)
Lemma pool_step_refines `{BuildMode} c p s :
  pool_abs p s ->
  match PoolSpec.step c s with
  | Some (r, s') => exists p', pool_step c p = Some (r, p') /\ pool_abs p' s' /\ same_geometry p p'
  | None => NDEBUG = false -> pool_step c p = None
  end.
Proof.
  intros (Hwf & Hfree & Huse). destruct c as [|id|id|id]; simpl.
  - rewrite Hfree. destruct (free_list_ p) as [|id rest] eqn:Hfl.
    + exists p. unfold allocate. rewrite Hfl. split_and!; auto with ccdb.
      unfold pool_abs. by rewrite Hfree, Hfl.
    + destruct (allocate_ok p id rest Hwf Hfl) as (p' & -> & Hwf' & Hg & Hfl' & _ & Hu).
      exists p'. simpl. split_and!; try done. unfold pool_abs. simpl. split_and!; try done.
      intros j. rewrite lookup_insert, Hu, Huse. repeat case_decide; congruence.
  - rewrite Huse. destruct (used p id) as [n|] eqn:Hu; simpl;
      [destruct (NDEBUG || (0 <? n)) eqn:Hn; simpl; [destruct (int_sum (n + 1)) as [m|] eqn:Hm; simpl|]|].
    + assert (m = n + 1) as -> by (unfold int_sum in Hm; destruct (tolerates _); [congruence|by apply int_of_Some in Hm as [-> _]]).
      refine_with (retain_request_ok p id n).
    + intros Hnd. rewrite retain_request_None; [done..|]. intros. congruence.
    + intros Hnd. rewrite retain_request_None; [done..|]. intros k Hk Hpos. rewrite Hnd in Hn. simpl in Hn.
      apply Z.ltb_ge in Hn. assert (k = n) by congruence. lia.
    + intros Hnd. by rewrite retain_request_None by (intros; congruence).
  - rewrite Huse. destruct (used p id) as [n|] eqn:Hu; simpl; [destruct (0 <? n) eqn:Hn|].
    + apply Z.ltb_lt in Hn. refine_with (release_request_ok p id n).
    + intros Hnd. by rewrite release_request_None by (intros; congruence).
    + intros Hnd. by rewrite release_request_None by (intros; congruence).
  - rewrite Huse. destruct (used p id) as [n|] eqn:Hu; simpl; [destruct (n =? 0) eqn:Hn|].
    + apply Z.eqb_eq in Hn as ->. refine_with (recycle_ok p id).
    + intros Hnd. by rewrite recycle_None by (intros; congruence).
    + intros Hnd. by rewrite recycle_None by (intros; congruence).
Qed.

(** C32: every sequence of pool commands, run on a well-formed pool.  As long as the
    commands keep the contract, every build gives the contract's replies (block ids in
    free list order, remaining counts, exhaustion errors) and a related pool.  A command
    that breaks it (a block not in use, a missing or a left reference, a count that leaves
    [int]) stops a build with assertions; of a build without them nothing is said then. *)
Theorem pool_refines_spec `{BuildMode} cs p s :
  pool_abs p s ->
  match PoolSpec.run cs s with
  | Some (rs, s') =>
      exists p', pool_run cs p = Some (rs, p') /\ pool_abs p' s' /\ same_geometry p p'
  | None => NDEBUG = false -> pool_run cs p = None
  end.
Proof.
  revert p s. induction cs as [|c cs IH]; intros p s Habs; simpl; [eauto with ccdb|].
  pose proof (pool_step_refines c p s Habs) as Hc.
  destruct (PoolSpec.step c s) as [[r s1]|]; simpl; [|intros Hnd; by rewrite Hc].
  destruct Hc as (p1 & -> & Habs1 & Hg). simpl. specialize (IH p1 s1 Habs1).
  destruct (PoolSpec.run cs s1) as [[rs s2]|]; simpl; [|intros Hnd; by rewrite IH].
  destruct IH as (p2 & -> & Habs2 & Hg2). simpl. eauto using same_geometry_trans.
Qed.

Lemma pool_abs_init max_blocks block_size p' :
  init max_blocks block_size default_pool = Some (Value tt, p') ->
  pool_abs p' (PoolSpec.mk ∅ (free_list_ p')).
Proof.
  intros (Hwf & _ & _ & _ & Hu)%init_wf. unfold pool_abs. simpl.
  split; [done|split; [done|]]. intros id. by rewrite Hu, lookup_empty.
Qed.

Lemma pool_refines_spec_witness :
  let pool := {| blocks_ := [mkBlock 0 0 Free; mkBlock 1 0 Free]; free_list_ := [0; 1];
                 max_blocks_ := 2; block_size_ := 16 |} in
  (exists p, @pool_run release_build [PoolSpec.Allocate; PoolSpec.Retain 0; PoolSpec.Release 0;
                      PoolSpec.Release 0; PoolSpec.Recycle 0] pool
    = Some ([PoolSpec.RId (Value 0); PoolSpec.RUnit; PoolSpec.RCount 1;
             PoolSpec.RCount 0; PoolSpec.RUnit], p) /\ free_list_ p = [1; 0]) /\
  @pool_run checked_build [PoolSpec.Allocate; PoolSpec.Release 0; PoolSpec.Release 0] pool = None.
Proof.
  intros pool. split.
  - pose proof (@pool_refines_spec release_build
      [PoolSpec.Allocate; PoolSpec.Retain 0; PoolSpec.Release 0; PoolSpec.Release 0; PoolSpec.Recycle 0]
      pool _ (pool_abs_init 2 16 _ eq_refl)) as H.
    destruct H as (p & Hrun & (_ & Hf & _) & _).
    exists p. split; [exact Hrun|]. symmetry. exact Hf.
  - exact (@pool_refines_spec checked_build [PoolSpec.Allocate; PoolSpec.Release 0; PoolSpec.Release 0]
      pool _ (pool_abs_init 2 16 _ eq_refl) eq_refl).
Defined.

(** [init] accepts exactly the positive geometries whose token capacity
    fits an [int], and then every block is free; it leaves the pool untouched
    and returns [InvalidArgument] otherwise. *)
Theorem pool_init_spec max_blocks block_size :
  (0 < max_blocks /\ 0 < block_size /\ max_blocks * block_size <= INT_MAX /\
   exists p', init max_blocks block_size default_pool = Some (Value tt, p') /\
     pool_wf p' /\ max_blocks_ p' = max_blocks /\ block_size_ p' = block_size /\
     num_free_blocks p' = max_blocks /\ forall id, used p' id = None) \/
  (~ (0 < max_blocks /\ 0 < block_size /\ max_blocks * block_size <= INT_MAX) /\
   init max_blocks block_size default_pool = Some (Unexpected InvalidArgument, default_pool)).
Proof.
  destruct (init max_blocks block_size default_pool) as [[[[]|e] p']|] eqn:E.
  - left. pose proof (init_wf _ _ _ E) as Hwf.
    unfold init in E. simpl in E.
    destruct ((max_blocks <=? 0) || (block_size <=? 0)) eqn:E1; [discriminate|].
    destruct (INT_MAX <? max_blocks * block_size) eqn:E2; [discriminate|].
    bprop. split_and!; [lia..|]. eauto.
  - right. unfold init in E. simpl in E.
    destruct ((max_blocks <=? 0) || (block_size <=? 0)) eqn:E1;
      [|destruct (INT_MAX <? max_blocks * block_size) eqn:E2; [|discriminate]];
      injection E as <- <-; (split; [|done]).
    + apply orb_true_iff in E1 as [E1|E1]; bprop; lia.
    + bprop. lia.
  - unfold init in E. simpl in E. repeat case_match; discriminate.
Qed.

(** [allocate_blocks] on a pool with enough free blocks takes the first
    [num_blocks] of the free list in order, each with one request reference,
    and leaves every other block alone. *)
Theorem allocate_blocks_success `{BuildMode} num_blocks p :
  pool_wf p -> 0 < num_blocks <= num_free_blocks p ->
  exists t p', allocate_blocks num_blocks p = Some (Value t, p') /\
    block_ids_ t = take (Z.to_nat num_blocks) (free_list_ p) /\
    pool_wf p' /\ num_free_blocks p' = num_free_blocks p - num_blocks /\
    forall j, used p' j = if decide (j ∈ block_ids_ t) then Some 1 else used p j.
Proof.
  intros Hwf Hn. unfold allocate_blocks, num_free_blocks, size_Z in *.
  destruct (Z.ltb_spec 0 num_blocks); [|lia]. rewrite orb_true_r.
  destruct (allocate_blocks_loop_ok (Z.to_nat num_blocks) p empty_table)
    as (t & p' & Hl & Hids & _ & Hwf' & _ & Hfl & Hu); [done|lia|].
  simpl in Hids. exists t, p'. rewrite Hids. split_and!; try done.
  rewrite Hfl, length_drop. lia.
Qed.

Lemma allocate_blocks_success_witness :
  exists t p', allocate_blocks 2 {| blocks_ := map (fun i => mkBlock i 0 Free) [0; 1; 2];
       free_list_ := [0; 1; 2]; max_blocks_ := 3; block_size_ := 16 |} = Some (Value t, p') /\
    block_ids_ t = [0; 1] /\ num_free_blocks p' = 1.
Proof.
  pose proof (init_wf 3 16 _ eq_refl) as (Hwf & _).
  destruct (allocate_blocks_success 2 _ Hwf) as (t & p' & H1 & H2 & _ & H3 & _).
  { vm_compute. split; [reflexivity|discriminate]. }
  exists t, p'. split; [exact H1|]. split; [exact H2|exact H3].
Defined.

(** [allocate_blocks] on a pool with fewer free blocks than asked returns
    [KVBlockExhausted] but does not give back the blocks it had already taken:
    the free list ends empty and every block that was free is in use with a
    reference that no table owns. *)
Theorem allocate_blocks_exhausted_leaks `{BuildMode} num_blocks p :
  pool_wf p -> num_free_blocks p < num_blocks ->
  exists p', allocate_blocks num_blocks p = Some (Unexpected KVBlockExhausted, p') /\
    pool_wf p' /\ num_free_blocks p' = 0 /\
    forall j, used p' j = if decide (j ∈ free_list_ p) then Some 1 else used p j.
Proof.
  intros Hwf Hn. unfold allocate_blocks, num_free_blocks, size_Z in *.
  destruct (Z.ltb_spec 0 num_blocks); [|lia]. rewrite orb_true_r.
  destruct (allocate_blocks_loop_fail (Z.to_nat num_blocks) p empty_table)
    as (p' & Hl & Hwf' & _ & Hfl & Hu); [done|lia|].
  exists p'. split_and!; try done. by rewrite Hfl.
Qed.

Lemma allocate_blocks_exhausted_leaks_witness :
  exists p', allocate_blocks 3 {| blocks_ := [mkBlock 0 0 Free; mkBlock 1 0 Free];
       free_list_ := [0; 1]; max_blocks_ := 2; block_size_ := 16 |}
    = Some (Unexpected KVBlockExhausted, p') /\ num_free_blocks p' = 0 /\ used p' 0 = Some 1.
Proof.
  pose proof (init_wf 2 16 _ eq_refl) as (Hwf & _).
  destruct (allocate_blocks_exhausted_leaks 3 _ Hwf) as (p' & H1 & _ & H2 & H3); [reflexivity|].
  exists p'. split; [exact H1|]. split; [exact H2|]. rewrite H3. reflexivity.
Defined.
