(* ===== verification/PrefixCache.v ===== *)
(** * Prefix hashes: [cache/prefix_cache.cpp]

    A prompt is cut into full blocks; the hash of a block chains over all the
    tokens up to its end, so that equal hashes stand for equal prefixes. *)

From Stdlib Require Import ZArith Lia.
From stdpp Require Import prelude strings gmap fin_maps.
From S2P Require Import Prelude Base.

(** ** Operations *)

Definition hash_combine (seed val : Z) : Z :=
  Z.lxor seed (u64 (val + 0x9e3779b97f4a7c15 + u64 (Z.shiftl seed 6) + Z.shiftr seed 2)).

(** [for (t < block_size) h = hash_combine(h, tokens[i + t])], [n] iterations left. *)
Fixpoint block_hash_loop (n : nat) (i : Z) (tokens : list Z) (h : Z) : option Z :=
  match n with
  | O => Some h
  | S n => t ← at_Z tokens i; block_hash_loop n (i + 1) tokens (hash_combine h (u64 t))
  end.

(** The loop over full blocks, [nb] blocks left, [b] the next one. *)
Fixpoint chain_loop (nb : nat) (b block_size : Z) (tokens : list Z) (h : Z) (hashes : list Z)
  : option (list Z) :=
  match nb with
  | O => Some hashes
  | S nb =>
      h ← block_hash_loop (Z.to_nat block_size) (b * block_size) tokens h;
      chain_loop nb (b + 1) block_size tokens h (hashes ++ [h])
  end.

(** The five-argument overload.  [reserve] of a negative count throws. *)
Definition chain_hashes (tokens : list Z) (token_count block_size parent_hash seed : Z)
  : option (list Z) :=
  ASSERT (0 <? block_size) ;;
  let num_full_blocks := Z.quot token_count block_size in
  ASSERT (0 <=? num_full_blocks) ;;
  let h := if seed =? 0 then parent_hash else hash_combine parent_hash seed in
  chain_loop (Z.to_nat num_full_blocks) 0 block_size tokens h [].

Definition chain_hashes_count (tokens : list Z) (token_count block_size seed : Z) :=
  chain_hashes tokens token_count block_size 0 seed.

Definition chain_hashes_all (tokens : list Z) (block_size seed : Z) :=
  chain_hashes_count tokens (size_Z tokens) block_size seed.

(** ** Reference definition: one fold over a prefix of the tokens *)

Definition fold_hash (h : Z) (tokens : list Z) : Z :=
  foldl (fun h t => hash_combine h (u64 t)) h tokens.

(** The reference chain: hash [i] folds the tokens of the blocks [0 .. i]. *)
Definition chain_spec (tokens : list Z) (nb : nat) (bs : nat) (h : Z) : list Z :=
  map (fun i => fold_hash h (take (S i * bs) tokens)) (seq 0 nb).

(** The hash a request chain starts from. *)
Definition chain_start (parent_hash seed : Z) : Z :=
  if seed =? 0 then parent_hash else hash_combine parent_hash seed.

(** ** Lemmas *)

Lemma hash_combine_range s v : 0 <= s < 2 ^ 64 -> 0 <= hash_combine s v < 2 ^ 64.
Proof.
  intros Hs. unfold hash_combine.
  set (x := u64 _). pose proof (u64_range (v + 0x9e3779b97f4a7c15 + u64 (Z.shiftl s 6) + Z.shiftr s 2)) as Hx.
  fold x in Hx. split; [apply Z.lxor_nonneg; lia|].
  destruct (decide (Z.lxor s x = 0)) as [->|Hne]; [lia|].
  apply Z.log2_lt_pow2; [pose proof (Z.lxor_nonneg s x); lia|].
  pose proof (Z.log2_lxor s x ltac:(lia) ltac:(lia)).
  assert (forall y, 0 <= y < 2 ^ 64 -> Z.log2 y < 64) as Hl.
  { intros y Hy. destruct (decide (y = 0)) as [->|]; [reflexivity|].
    apply Z.log2_lt_pow2; lia. }
  pose proof (Hl s Hs). pose proof (Hl x Hx). lia.
Qed.

Lemma fold_hash_range h l : 0 <= h < 2 ^ 64 -> 0 <= fold_hash h l < 2 ^ 64.
Proof.
  unfold fold_hash. revert h. induction l as [|t l IH]; intros h Hh; simpl; [done|].
  apply IH, hash_combine_range, Hh.
Qed.

Lemma fold_hash_app h l k : fold_hash h (l ++ k) = fold_hash (fold_hash h l) k.
Proof. apply foldl_app. Qed.

Lemma block_hash_loop_ok n i tokens h :
  (i + n <= length tokens)%nat ->
  block_hash_loop n (Z.of_nat i) tokens h = Some (fold_hash h (take n (drop i tokens))).
Proof.
  revert i h. induction n as [|n IH]; intros i h Hn; simpl; [done|].
  destruct (lookup_lt_is_Some_2 tokens i) as [t Ht]; [lia|].
  rewrite at_Z_nat, Ht. simpl. replace (Z.of_nat i + 1) with (Z.of_nat (S i)) by lia.
  rewrite IH by lia. rewrite (drop_S _ _ _ Ht). done.
Qed.

Lemma chain_loop_ok nb b bs tokens h hashes :
  ((b + nb) * bs <= length tokens)%nat ->
  chain_loop nb (Z.of_nat b) (Z.of_nat bs) tokens (fold_hash h (take (b * bs) tokens)) hashes =
  Some (hashes ++ map (fun i => fold_hash h (take (S i * bs) tokens)) (seq b nb)).
Proof.
  revert b hashes. induction nb as [|nb IH]; intros b hashes Hn; simpl.
  - by rewrite app_nil_r.
  - rewrite Nat2Z.id. replace (Z.of_nat b * Z.of_nat bs) with (Z.of_nat (b * bs)) by lia.
    rewrite block_hash_loop_ok by lia. simpl.
    replace (Z.of_nat b + 1) with (Z.of_nat (S b)) by lia.
    assert (fold_hash (fold_hash h (take (b * bs) tokens)) (take bs (drop (b * bs) tokens))
            = fold_hash h (take (S b * bs) tokens)) as ->.
    { rewrite <- fold_hash_app, take_take_drop. f_equal. f_equal. lia. }
    rewrite IH by lia. by rewrite <- app_assoc.
Qed.

(** The number of full blocks as a natural number. *)
Definition full_blocks (token_count block_size : Z) : nat := Z.to_nat (token_count / block_size).

Lemma full_blocks_le n bs : 0 < bs -> 0 <= n -> Z.of_nat (full_blocks n bs) * bs <= n.
Proof.
  intros Hb Hn. unfold full_blocks.
  rewrite Z2Nat.id by (apply Z.div_pos; lia). pose proof (Z.mul_div_le n bs Hb). lia.
Qed.

Lemma chain_hashes_ok tokens token_count block_size parent_hash seed :
  0 < block_size -> 0 <= token_count <= size_Z tokens ->
  chain_hashes tokens token_count block_size parent_hash seed =
  Some (chain_spec tokens (full_blocks token_count block_size) (Z.to_nat block_size)
          (chain_start parent_hash seed)).
Proof.
  intros Hb Hc. unfold chain_hashes, chain_spec.
  destruct (Z.ltb_spec 0 block_size); [|lia].
  rewrite Z.quot_div_nonneg by lia. fold (chain_start parent_hash seed).
  destruct (Z.leb_spec 0 (token_count / block_size)) as [Hq|Hq];
    [|pose proof (Z.div_pos token_count block_size); lia].
  fold (full_blocks token_count block_size).
  pose proof (full_blocks_le token_count block_size Hb ltac:(lia)) as Hfb.
  pose proof (chain_loop_ok (full_blocks token_count block_size) 0 (Z.to_nat block_size) tokens
    (chain_start parent_hash seed) []) as Hl.
  simpl in Hl. rewrite Z2Nat.id in Hl by lia.
  unfold size_Z in Hc. apply Hl. lia.
Qed.

Lemma chain_spec_lookup tokens nb bs h i :
  (i < nb)%nat -> chain_spec tokens nb bs h !! i = Some (fold_hash h (take (S i * bs) tokens)).
Proof.
  intros Hi. unfold chain_spec. change (map ?f ?l) with (f <$> l).
  rewrite list_lookup_fmap, lookup_seq_lt by done. done.
Qed.

Lemma length_chain_spec tokens nb bs h : length (chain_spec tokens nb bs h) = nb.
Proof. unfold chain_spec. by rewrite length_map, length_seq. Qed.

(** ** Properties *)

(** the optimised single pass computes the reference chain: for a positive
    block size and a token count within the vector, no index is out of range,
    there is one 64-bit hash per full block, and hash [i] is the fold over
    the first [(i + 1) * block_size] tokens from the (salted) parent hash. *)
Theorem chain_hashes_reference tokens token_count block_size parent_hash seed :
  0 < block_size -> 0 <= token_count <= size_Z tokens -> 0 <= parent_hash < 2 ^ 64 ->
  exists hashes,
    chain_hashes tokens token_count block_size parent_hash seed = Some hashes /\
    size_Z hashes = token_count / block_size /\
    Forall (fun h => 0 <= h < 2 ^ 64) hashes /\
    forall i, 0 <= i < token_count / block_size ->
      at_Z hashes i = Some (fold_hash (chain_start parent_hash seed)
                              (take (Z.to_nat ((i + 1) * block_size)) tokens)).
Proof.
  intros Hb Hc Hp. eexists. split; [by apply chain_hashes_ok|].
  assert (0 <= token_count / block_size) by (apply Z.div_pos; lia).
  split_and!.
  - unfold size_Z. rewrite length_chain_spec. unfold full_blocks. lia.
  - apply Forall_forall. intros h (i & Hi)%list_elem_of_lookup.
    pose proof (lookup_lt_Some _ _ _ Hi) as Hlt. rewrite length_chain_spec in Hlt.
    rewrite chain_spec_lookup in Hi by done. injection Hi as <-.
    apply fold_hash_range. unfold chain_start.
    destruct (seed =? 0); [done|]. by apply hash_combine_range.
  - intros i Hi. unfold at_Z. destruct (Z.leb_spec 0 i); [|lia].
    rewrite chain_spec_lookup by (unfold full_blocks; lia).
    do 2 f_equal. f_equal. lia.
Qed.

Lemma chain_hashes_reference_witness :
  exists hashes, chain_hashes [1; 2; 3; 4; 5] 5 2 0 0 = Some hashes /\ size_Z hashes = 2.
Proof.
  destruct (chain_hashes_reference [1; 2; 3; 4; 5] 5 2 0 0) as (hs & H1 & H2 & _);
    [lia | split; [lia | vm_compute; discriminate] | lia |].
  exists hs. split; [exact H1|]. rewrite H2. reflexivity.
Defined.

(** publishing block by block gives the chain of the whole prompt: the hash
    of one block under the hash of its predecessor (no salt) is the next hash
    of the chain, for every split of the tokens at a block boundary. *)
Theorem chain_hashes_incremental block_size parent_hash front block rest :
  0 < block_size -> size_Z front mod block_size = 0 -> size_Z block = block_size ->
  exists h, chain_hashes block block_size block_size (fold_hash parent_hash front) 0 = Some [h] /\
    exists hashes, chain_hashes (front ++ block ++ rest)
                     (size_Z (front ++ block ++ rest)) block_size parent_hash 0 = Some hashes /\
      at_Z hashes (size_Z front / block_size) = Some h.
Proof.
  intros Hb Hm Hs. pose proof (size_Z_nonneg front) as Hf0. pose proof (size_Z_nonneg rest) as Hr0.
  exists (fold_hash parent_hash (front ++ block)). split.
  - rewrite chain_hashes_ok by lia.
    unfold full_blocks, chain_spec, chain_start. rewrite Z.div_same by lia.
    change (Z.to_nat 1) with 1%nat. cbn [seq map].
    rewrite firstn_all2 by (unfold size_Z in Hs; lia). simpl. by rewrite fold_hash_app.
  - autorewrite with ccdb. eexists. split.
    + apply chain_hashes_ok; [done|]. autorewrite with ccdb; try exact (@nil Z). lia.
    + set (q := size_Z front / block_size).
      assert (size_Z front = q * block_size) as Hq
        by (unfold q; rewrite (Z.div_mod (size_Z front) block_size) at 1 by lia; lia).
      assert (0 <= q) by (apply Z.div_pos; lia).
      rewrite <- (Z2Nat.id q) by done. rewrite at_Z_nat, chain_spec_lookup.
      * f_equal. unfold chain_start. simpl. f_equal.
        rewrite app_assoc. rewrite take_app_le, firstn_all2; [done| |];
          rewrite length_app; unfold size_Z in *; nia.
      * unfold full_blocks. apply Z2Nat.inj_lt; [done|apply Z.div_pos; lia|].
        apply Z.lt_le_trans with (q + 1); [lia|]. apply Z.div_le_lower_bound; nia.
Qed.

Lemma chain_hashes_incremental_witness :
  exists h, chain_hashes [3; 4] 2 2 (fold_hash 0 [1; 2]) 0 = Some [h] /\
    exists hashes, chain_hashes [1; 2; 3; 4; 5] 5 2 0 0 = Some hashes /\ at_Z hashes 1 = Some h.
Proof. apply (chain_hashes_incremental 2 0 [1; 2] [3; 4] [5]); [lia | reflexivity | reflexivity]. Defined.
