(* ===== verification/BlockCache.v ===== *)
(** * The prefix block cache: [cache/block_cache.h], [cache/block_cache.cpp]

    The cache indexes published blocks by prefix hash and by block id, and
    keeps the cached blocks without request references in an LRU list.
    [std::list] nodes never move, so an [EntryIt] is a node identity: a fresh
    number per [emplace_back], and [entries_] maps live nodes to entries (the
    order of [entries_] is never observed).  The cache works on the pool it
    was built over: [KvState] is the pair. *)

From Stdlib Require Import ZArith Lia.
From stdpp Require Import prelude strings gmap fin_maps.
From S2P Require Import Prelude Base BlockPool PrefixCache.

(** ** Data *)

Record BlockCacheEntry := mkBlockCacheEntry {
  prefix_hash : Z;
  entry_block_id : Z;
}.

Record BlockCache := mkBlockCache {
  entries_ : gmap Z BlockCacheEntry;
  next_entry_ : Z;
  idle_lru_ : list Z;
  by_hash_ : gmap Z (list Z);
  by_block_ : gmap Z Z;
  lookup_hits_ : Z;
  lookup_misses_ : Z;
  evictions_ : Z;
}.

Definition empty_cache : BlockCache := mkBlockCache ∅ 0 [] ∅ ∅ 0 0 0.

Record KvState := mkKv { kv_pool : BlockPool; kv_cache : BlockCache }.

Record PrefixLookup := mkPrefixLookup {
  lk_block_table : BlockTable;
  prefix_hit_blocks : Z;
  lk_parent_hash : Z;
}.

Definition set_idle (l : list Z) (c : BlockCache) : BlockCache :=
  mkBlockCache (entries_ c) (next_entry_ c) l (by_hash_ c) (by_block_ c)
    (lookup_hits_ c) (lookup_misses_ c) (evictions_ c).
Definition bump_hits (c : BlockCache) : BlockCache :=
  mkBlockCache (entries_ c) (next_entry_ c) (idle_lru_ c) (by_hash_ c) (by_block_ c)
    (u64 (lookup_hits_ c + 1)) (lookup_misses_ c) (evictions_ c).
Definition bump_misses (c : BlockCache) : BlockCache :=
  mkBlockCache (entries_ c) (next_entry_ c) (idle_lru_ c) (by_hash_ c) (by_block_ c)
    (lookup_hits_ c) (u64 (lookup_misses_ c + 1)) (evictions_ c).
Definition bump_evictions (c : BlockCache) : BlockCache :=
  mkBlockCache (entries_ c) (next_entry_ c) (idle_lru_ c) (by_hash_ c) (by_block_ c)
    (lookup_hits_ c) (lookup_misses_ c) (u64 (evictions_ c + 1)).

(** ** Operations *)

Definition is_in_idle_lru (it : Z) (c : BlockCache) : bool := bool_decide (it ∈ idle_lru_ c).

(** One iteration of the lookup loop: [None] in the reply ends the loop. *)
Definition lookup_one `{BuildMode} (h : Z) (result : PrefixLookup) (s : KvState)
  : option (option PrefixLookup * KvState) :=
  let p := kv_pool s in
  let c := kv_cache s in
  match by_hash_ c !! h with
  | None | Some [] => Some (None, mkKv p (bump_misses c))
  | Some (entry_it :: _) =>
      entry ← entries_ c !! entry_it;
      let id := entry_block_id entry in
      ASSERT (bool_decide (is_Some (by_block_ c !! id))) ;;
      n ← ref_count id p;
      c ← (if n =? 0 then
             ASSERT (is_in_idle_lru entry_it c) ;;
             Some (set_idle (erase1 entry_it (idle_lru_ c)) c)
           else Some c);
      p ← retain_request id p;
      Some (Some (mkPrefixLookup (table_push_back id (lk_block_table result))
                    (prefix_hit_blocks result + 1) h),
            mkKv p (bump_hits c))
  end.

Fixpoint lookup_loop `{BuildMode} (hashes : list Z) (result : PrefixLookup) (s : KvState)
  : option (PrefixLookup * KvState) :=
  match hashes with
  | [] => Some (result, s)
  | h :: hashes =>
      '(r, s) ← lookup_one h result s;
      match r with
      | None => Some (result, s)
      | Some result => lookup_loop hashes result s
      end
  end.

Definition lookup_prefix_cache `{BuildMode} (tokens : list Z) (namespace_salt : Z) (s : KvState)
  : option (PrefixLookup * KvState) :=
  ASSERT (negb (bool_decide (tokens = []))) ;;
  let block_size := block_size_ (kv_pool s) in
  ASSERT (0 <? block_size) ;;
  hashes ← chain_hashes_all tokens block_size namespace_salt;
  '(result, s) ← lookup_loop hashes (mkPrefixLookup empty_table 0 0) s;
  Some (mkPrefixLookup (set_shared_count (prefix_hit_blocks result) (lk_block_table result))
          (prefix_hit_blocks result) (lk_parent_hash result), s).

(** The mode matters only through the hazards of [retain_request]. *)
Lemma retain_request_hazards id p : by_hazards (fun mode => @retain_request mode id p).
Proof.
  unfold retain_request. apply by_hazards_bind; [apply by_hazards_const|]. intros b _.
  destruct (is_in_use b && (0 <? block_ref_count b)) eqn:E.
  - assert (forall mode, (@NDEBUG mode || true) = true) as Hor by (intros; apply orb_true_r).
    destruct (by_hazards_int_sum (block_ref_count b + 1)) as [hs Hs]. exists hs. intros mode.
    rewrite !Hor, Hs. by destruct (forallb mode hs).
  - destruct (by_hazards_int_sum (block_ref_count b + 1)) as [hs Hs]. exists (FailedAssertion :: hs). intros mode.
    unfold NDEBUG, tolerates. simpl. destruct (mode FailedAssertion); simpl; [|done]. rewrite Hs.
    by destruct (forallb mode hs).
Qed.

Lemma lookup_one_hazards h result s : by_hazards (fun mode => @lookup_one mode h result s).
Proof.
  unfold lookup_one. destruct (_ !! h) as [[|it l]|]; try apply by_hazards_const.
  apply by_hazards_bind; [apply by_hazards_const|]. intros e _.
  destruct (bool_decide _); [|apply by_hazards_const].
  do 2 (apply by_hazards_bind; [apply by_hazards_const|]; intros ? _).
  apply by_hazards_bind; [apply retain_request_hazards|]. intros p _. apply by_hazards_const.
Qed.

Lemma lookup_loop_hazards hashes result s : by_hazards (fun mode => @lookup_loop mode hashes result s).
Proof.
  revert result s. induction hashes as [|h hashes IH]; intros result s; simpl; [apply by_hazards_const|].
  apply by_hazards_bind; [apply lookup_one_hazards|].
  intros [[r|] s'] _; [apply IH|apply by_hazards_const].
Qed.

Lemma lookup_prefix_cache_hazards tokens salt s : by_hazards (fun mode => @lookup_prefix_cache mode tokens salt s).
Proof.
  unfold lookup_prefix_cache. destruct (negb _); [|apply by_hazards_const]. destruct (0 <? _); [|apply by_hazards_const].
  apply by_hazards_bind; [apply by_hazards_const|]. intros hashes _.
  apply by_hazards_bind; [apply lookup_loop_hazards|]. intros [r s'] _. apply by_hazards_const.
Qed.

Definition publish_full_block (parent_hash : Z) (tokens : list Z) (id seed : Z) (s : KvState)
  : option (Z * KvState) :=
  let p := kv_pool s in
  let c := kv_cache s in
  let block_size := block_size_ p in
  ASSERT (0 <? block_size) ;;
  ASSERT (block_size <=? size_Z tokens) ;;
  hashes ← chain_hashes tokens block_size block_size parent_hash seed;
  hash ← head hashes;
  match by_block_ c !! id with
  | Some entry_it =>
      entry ← entries_ c !! entry_it;
      ASSERT (prefix_hash entry =? hash) ;;
      Some (hash, s)
  | None =>
      n ← ref_count id p;
      ASSERT (0 <? n) ;;
      let entry_it := next_entry_ c in
      Some (hash,
            mkKv p (mkBlockCache (<[entry_it := mkBlockCacheEntry hash id]> (entries_ c))
                      (entry_it + 1) (idle_lru_ c)
                      (<[hash := default [] (by_hash_ c !! hash) ++ [entry_it]]> (by_hash_ c))
                      (<[id := entry_it]> (by_block_ c))
                      (lookup_hits_ c) (lookup_misses_ c) (evictions_ c)))
  end.

Definition contains (id : Z) (c : BlockCache) : bool := bool_decide (is_Some (by_block_ c !! id)).

Definition is_idle (id : Z) (c : BlockCache) : bool :=
  match by_block_ c !! id with
  | None => false
  | Some entry_it => is_in_idle_lru entry_it c
  end.

Definition mark_idle (id : Z) (s : KvState) : option KvState :=
  let c := kv_cache s in
  entry_it ← by_block_ c !! id;
  _ ← entries_ c !! entry_it;
  n ← ref_count id (kv_pool s);
  ASSERT (n =? 0) ;;
  ASSERT (negb (is_in_idle_lru entry_it c)) ;;
  Some (mkKv (kv_pool s) (set_idle (idle_lru_ c ++ [entry_it]) c)).

(** [*pos = bucket.back(); bucket.pop_back()]. *)
Definition swap_pop (it : Z) (bucket : list Z) : option (list Z) :=
  '(pos, _) ← list_find (eq it) bucket;
  back ← last bucket;
  Some (take (length bucket - 1) (<[pos := back]> bucket)).

Definition erase_entry (id : Z) (c : BlockCache) : option BlockCache :=
  entry_it ← by_block_ c !! id;
  entry ← entries_ c !! entry_it;
  let idle := if is_in_idle_lru entry_it c then erase1 entry_it (idle_lru_ c) else idle_lru_ c in
  let hash := prefix_hash entry in
  bucket ← by_hash_ c !! hash;
  bucket ← swap_pop entry_it bucket;
  let by_hash := if bool_decide (bucket = []) then delete hash (by_hash_ c)
                 else <[hash := bucket]> (by_hash_ c) in
  Some (mkBlockCache (delete entry_it (entries_ c)) (next_entry_ c) idle by_hash
          (delete id (by_block_ c)) (lookup_hits_ c) (lookup_misses_ c) (evictions_ c)).

Definition evict_one (s : KvState) : option (bool * KvState) :=
  let c := kv_cache s in
  match idle_lru_ c with
  | [] => Some (false, s)
  | entry_it :: _ =>
      entry ← entries_ c !! entry_it;
      let victim := entry_block_id entry in
      n ← ref_count victim (kv_pool s);
      ASSERT (n =? 0) ;;
      c ← erase_entry victim c;
      p ← recycle victim (kv_pool s);
      Some (true, mkKv p (bump_evictions c))
  end.

(** The destructor: [while (evict_one()) {}] and the clears.  The loop runs at
    most once per idle entry, so the LRU's length is enough fuel. *)
Fixpoint evict_all (fuel : nat) (s : KvState) : option KvState :=
  match fuel with
  | O => Some s
  | S fuel =>
      '(evicted, s) ← evict_one s;
      if (evicted : bool) then evict_all fuel s else Some s
  end.

Definition destroy_cache (s : KvState) : option KvState :=
  s ← evict_all (S (length (idle_lru_ (kv_cache s)))) s;
  let c := kv_cache s in
  Some (mkKv (kv_pool s)
         (mkBlockCache ∅ (next_entry_ c) (idle_lru_ c) ∅ ∅
            (lookup_hits_ c) (lookup_misses_ c) (evictions_ c))).

Definition num_cached_blocks (c : BlockCache) : Z := Z.of_nat (size (entries_ c)).
Definition num_idle_blocks (c : BlockCache) : Z := size_Z (idle_lru_ c).

Record BlockCacheStats := mkBlockCacheStats {
  block_total : Z;
  block_active : Z;
  block_free : Z;
  block_cached_idle : Z;
  stat_block_size : Z;
  stat_lookup_hits : Z;
  stat_lookup_misses : Z;
  stat_evictions : Z;
  stat_cached_blocks : Z;
}.

Definition stats (s : KvState) : BlockCacheStats :=
  let total := max_blocks_ (kv_pool s) in
  let free := num_free_blocks (kv_pool s) in
  let idle := size_Z (idle_lru_ (kv_cache s)) in
  mkBlockCacheStats total (total - free - idle) free idle (block_size_ (kv_pool s))
    (lookup_hits_ (kv_cache s)) (lookup_misses_ (kv_cache s)) (evictions_ (kv_cache s))
    (num_cached_blocks (kv_cache s)).

(** ** [Scheduler::allocate_kv_blocks] and [Scheduler::release_request_blocks]

    The scheduler's two resource operations over the pool and the cache. *)

(** [while (num_free_blocks() < num_blocks) if (!evict_one()) break]; every
    productive iteration shortens the LRU. *)
Fixpoint evict_until (fuel : nat) (num_blocks : Z) (s : KvState) : option KvState :=
  match fuel with
  | O => Some s
  | S fuel =>
      if num_free_blocks (kv_pool s) <? num_blocks then
        '(evicted, s) ← evict_one s;
        if (evicted : bool) then evict_until fuel num_blocks s else Some s
      else Some s
  end.

Definition allocate_kv_blocks (num_blocks : Z) (s : KvState) : option (Result BlockTable * KvState) :=
  if num_blocks <=? 0 then Some (Value empty_table, s)
  else
    s ← evict_until (S (length (idle_lru_ (kv_cache s)))) num_blocks s;
    '(r, p) ← allocate_blocks num_blocks (kv_pool s);
    Some (r, mkKv p (kv_cache s)).

(** The loop over the table after the references were released; [seen] holds
    the ids already handled. *)
Fixpoint release_seen_loop (ids : list Z) (seen : list Z) (s : KvState) : option KvState :=
  match ids with
  | [] => Some s
  | id :: ids =>
      if bool_decide (id ∈ seen) then release_seen_loop ids seen s
      else
        n ← ref_count id (kv_pool s);
        s ← (if negb (n =? 0) then Some s
             else if contains id (kv_cache s) then mark_idle id s
             else p ← recycle id (kv_pool s); Some (mkKv p (kv_cache s)));
        release_seen_loop ids (id :: seen) s
  end.

Definition release_request_blocks (table : BlockTable) (s : KvState) : option KvState :=
  p ← release_blocks table (kv_pool s);
  release_seen_loop (block_ids_ table) [] (mkKv p (kv_cache s)).
