(* ===== verification/BlockCacheInv.v ===== *)
(** * The pool and the cache together: invariant and operation lemmas

    [kv_inv S s] ties the cache's indexes to the pool: the LRU holds exactly
    the cached blocks without request references, except for the blocks of
    [S], whose last reference was just released and which the release loop
    has still to hand to the LRU or to the free list.  The effect of every
    operation on the reference counts is stated through [held]. *)

From Stdlib Require Import ZArith Lia.
From stdpp Require Import prelude strings gmap fin_maps.
From S2P Require Import Prelude Base BlockPool PrefixCache BlockCache.

(** ** Invariant *)

Record kv_inv (S : Z -> Prop) (s : KvState) : Prop := mk_kv_inv {
  inv_pool : pool_wf (kv_pool s);
  inv_entry : forall it e, entries_ (kv_cache s) !! it = Some e ->
    by_block_ (kv_cache s) !! entry_block_id e = Some it /\ it < next_entry_ (kv_cache s) /\
    is_Some (used (kv_pool s) (entry_block_id e)) /\
    exists l, by_hash_ (kv_cache s) !! prefix_hash e = Some l /\ it ∈ l;
  inv_by_block : forall id it, by_block_ (kv_cache s) !! id = Some it ->
    exists e, entries_ (kv_cache s) !! it = Some e /\ entry_block_id e = id;
  inv_by_hash : forall h l, by_hash_ (kv_cache s) !! h = Some l ->
    l <> [] /\ NoDup l /\
    forall it, it ∈ l -> exists e, entries_ (kv_cache s) !! it = Some e /\ prefix_hash e = h;
  inv_idle_nodup : NoDup (idle_lru_ (kv_cache s));
  inv_idle : forall it, it ∈ idle_lru_ (kv_cache s) ->
    exists e, entries_ (kv_cache s) !! it = Some e /\
      used (kv_pool s) (entry_block_id e) = Some 0 /\ ~ S (entry_block_id e);
  inv_zero : forall id, used (kv_pool s) id = Some 0 ->
    S id \/ exists it, by_block_ (kv_cache s) !! id = Some it /\ it ∈ idle_lru_ (kv_cache s);
}.

(** The invariant between operations: nothing is pending. *)
Definition kv_ok (s : KvState) : Prop := kv_inv (fun _ => False) s.

(** The reference count of a block, zero when it is free. *)
Definition held (s : KvState) (id : Z) : Z := default 0 (used (kv_pool s) id).

(** The hash under which a block is cached. *)
Definition cached_hash (c : BlockCache) (id : Z) : option Z :=
  it ← by_block_ c !! id; e ← entries_ c !! it; Some (prefix_hash e).

Definition kv_geometry (s s' : KvState) : Prop := same_geometry (kv_pool s) (kv_pool s').

Lemma kv_geometry_refl s : kv_geometry s s.
Proof. done. Qed.

Lemma kv_geometry_trans s1 s2 s3 : kv_geometry s1 s2 -> kv_geometry s2 s3 -> kv_geometry s1 s3.
Proof. apply same_geometry_trans. Qed.

#[export] Hint Resolve kv_geometry_refl kv_geometry_trans : ccdb.

Lemma held_nonneg S s id : kv_inv S s -> 0 <= held s id.
Proof.
  intros Hi. unfold held. destruct (used (kv_pool s) id) as [n|] eqn:E; simpl; [|lia].
  eapply used_range in E; [lia|apply Hi].
Qed.

Lemma held_used s id : 0 < held s id -> used (kv_pool s) id = Some (held s id).
Proof. unfold held. destruct (used (kv_pool s) id); simpl; [done|lia]. Qed.

Lemma ref_count_used p id n : pool_wf p -> used p id = Some n -> ref_count id p = Some n.
Proof.
  intros Hwf (b & Hb & _ & <-)%used_Some. unfold ref_count.
  by rewrite get_block_at, Hb by done.
Qed.

Lemma kv_inv_weaken (S S' : Z -> Prop) s :
  kv_inv S s -> (forall id, S' id -> S id) ->
  (forall id, used (kv_pool s) id = Some 0 -> S id -> S' id) -> kv_inv S' s.
Proof.
  intros [Hp He Hb Hh Hnd Hi Hz] Hsub Hdrop. split; try done.
  - intros it Hit. destruct (Hi it Hit) as (e & ? & ? & ?). exists e. naive_solver.
  - intros id Hid. destruct (Hz id Hid); [left|right]; auto.
Qed.

(** Changing only counters of the cache. *)
Lemma kv_inv_counters S p c c' :
  entries_ c' = entries_ c -> next_entry_ c' = next_entry_ c -> idle_lru_ c' = idle_lru_ c ->
  by_hash_ c' = by_hash_ c -> by_block_ c' = by_block_ c ->
  kv_inv S (mkKv p c) -> kv_inv S (mkKv p c').
Proof.
  intros E1 E2 E3 E4 E5 [Hp He Hb Hh Hnd Hi Hz]. simpl in *.
  split; simpl; rewrite ?E1, ?E2, ?E3, ?E4, ?E5; assumption.
Qed.

(** ** Buckets *)

Lemma swap_pop_perm it bucket :
  it ∈ bucket -> exists b, swap_pop it bucket = Some b /\ bucket ≡ₚ it :: b.
Proof.
  intros Hin. unfold swap_pop.
  destruct (list_find_elem_of (eq it) bucket it Hin eq_refl) as [[pos x] Hf].
  rewrite Hf. simpl.
  apply list_find_Some in Hf as (Hpos & <- & _).
  apply list_elem_of_split_length in Hpos as (l1 & l2 & -> & ->).
  destruct l2 as [|y l2 _] using rev_ind.
  - rewrite last_snoc. simpl. eexists. split; [done|].
    rewrite length_app. simpl. rewrite insert_app_r_alt, Nat.sub_diag by lia. simpl.
    rewrite take_app_length' by lia. by rewrite Permutation_app_comm.
  - rewrite app_comm_cons, app_assoc, last_snoc. simpl. eexists. split; [done|].
    rewrite <- app_assoc, insert_app_r_alt, Nat.sub_diag by lia. simpl.
    rewrite !length_app. simpl.
    replace (l1 ++ y :: l2 ++ [y]) with ((l1 ++ y :: l2) ++ [y]) by by rewrite <- app_assoc.
    rewrite take_app_length' by (rewrite !length_app; simpl; lia).
    rewrite <- Permutation_middle. apply perm_skip.
    apply Permutation_app; [done|]. by rewrite Permutation_app_comm.
Qed.

(** ** Eviction *)

Lemma kv_entry_inj S s it it' e e' :
  kv_inv S s -> entries_ (kv_cache s) !! it = Some e -> entries_ (kv_cache s) !! it' = Some e' ->
  entry_block_id e = entry_block_id e' -> it = it'.
Proof.
  intros Hi He He' Heq.
  destruct (inv_entry S s Hi it e He) as (H1 & _). destruct (inv_entry S s Hi it' e' He') as (H2 & _).
  rewrite Heq in H1. congruence.
Qed.

Lemma erase_entry_ok S s it e :
  kv_inv S s -> entries_ (kv_cache s) !! it = Some e ->
  exists c', erase_entry (entry_block_id e) (kv_cache s) = Some c' /\
    entries_ c' = delete it (entries_ (kv_cache s)) /\
    next_entry_ c' = next_entry_ (kv_cache s) /\
    idle_lru_ c' = erase1 it (idle_lru_ (kv_cache s)) /\
    by_block_ c' = delete (entry_block_id e) (by_block_ (kv_cache s)) /\
    (forall h, h <> prefix_hash e -> by_hash_ c' !! h = by_hash_ (kv_cache s) !! h) /\
    exists l b, by_hash_ (kv_cache s) !! prefix_hash e = Some l /\ l ≡ₚ it :: b /\
      by_hash_ c' !! prefix_hash e = if bool_decide (b = []) then None else Some b.
Proof.
  intros Hi He. destruct (inv_entry S s Hi it e He) as (Hb & _ & _ & l & Hl & Hin).
  destruct (swap_pop_perm it l Hin) as (b & Hsp & Hperm).
  unfold erase_entry. rewrite Hb. simpl. rewrite He. simpl. rewrite Hl. simpl. rewrite Hsp. simpl.
  eexists. split; [done|]. simpl. split_and!; try done.
  - unfold is_in_idle_lru. case_bool_decide; [done|]. by rewrite erase1_notin.
  - intros h Hh. case_bool_decide; [by rewrite lookup_delete_ne|by rewrite lookup_insert_ne].
  - exists l, b. split_and!; try done.
    case_bool_decide; [by rewrite lookup_delete_eq|by rewrite lookup_insert_eq].
Qed.

(** The invariant survives dropping an entry and freeing its block. *)
Lemma kv_inv_erase S s it e c' p' :
  kv_inv S s -> entries_ (kv_cache s) !! it = Some e ->
  erase_entry (entry_block_id e) (kv_cache s) = Some c' ->
  pool_wf p' ->
  (forall j, used p' j = if decide (j = entry_block_id e) then None else used (kv_pool s) j) ->
  kv_inv S (mkKv p' c').
Proof.
  intros Hi He Her Hwf' Hu.
  destruct (erase_entry_ok S s it e Hi He)
    as (c & Hc & E1 & E2 & E3 & E4 & E5 & l & b & Hl & Hperm & Hb).
  assert (c = c') as -> by congruence. clear Hc Her.
  assert (forall it' e', it' <> it -> entries_ (kv_cache s) !! it' = Some e' ->
            entry_block_id e' <> entry_block_id e) as Hne.
  { intros it' e' Hn He' Heq. apply Hn. by eapply (kv_entry_inj S s). }
  destruct (inv_by_hash S s Hi _ _ Hl) as (_ & Hndl & Hle).
  assert (NoDup (it :: b)) as Hndb by (by rewrite <- Hperm). apply NoDup_cons in Hndb as [Hnb Hndb].
  assert (forall x, x ∈ l <-> x = it \/ x ∈ b) as Hlb by (intros x; rewrite Hperm; apply elem_of_cons).
  split; simpl; rewrite ?E1, ?E2, ?E3, ?E4.
  - done.
  - intros it' e'. rewrite lookup_delete. case_decide as Hn; [done|]. intros He'.
    destruct (inv_entry S s Hi it' e' He') as (H1 & H2 & H3 & l' & Hl' & Hin').
    pose proof (Hne it' e' (not_eq_sym Hn) He') as Hn'.
    rewrite lookup_delete_ne, Hu, decide_False by done. split_and!; try done.
    destruct (decide (prefix_hash e' = prefix_hash e)) as [Heq|Hh].
    + rewrite Heq in *. assert (l' = l) as -> by congruence.
      assert (it' ∈ b) as Hit by (apply Hlb in Hin' as [->|]; done).
      exists b. rewrite Hb. split; [|done].
      rewrite bool_decide_false; [done|]. intros ->. by apply elem_of_nil in Hit.
    + rewrite E5 by done. eauto.
  - intros id it'. rewrite lookup_delete. case_decide as Hn; [done|]. intros Hid.
    destruct (inv_by_block S s Hi id it' Hid) as (e' & He' & Heq). exists e'. split; [|done].
    rewrite lookup_delete_ne; [done|]. intros ->. congruence.
  - intros h l' Hl'. destruct (decide (h = prefix_hash e)) as [->|Hh].
    + rewrite Hb in Hl'. case_bool_decide; [done|]. injection Hl' as <-.
      split_and!; try done. intros x Hx. destruct (Hle x) as (e' & He' & ?); [apply Hlb; by right|].
      exists e'. rewrite lookup_delete_ne; [done|]. intros <-. done.
    + rewrite E5 in Hl' by done. destruct (inv_by_hash S s Hi h l' Hl') as (? & ? & Hl2).
      split_and!; try done. intros x Hx. destruct (Hl2 x Hx) as (e' & He' & Hh').
      exists e'. rewrite lookup_delete_ne; [done|]. intros <-. congruence.
  - apply NoDup_erase1, Hi.
  - intros x. rewrite elem_of_erase1 by apply Hi. intros [Hx Hxn].
    destruct (inv_idle S s Hi x Hx) as (e' & He' & Hu' & HS).
    exists e'. rewrite lookup_delete_ne, Hu, decide_False; eauto.
  - intros id. rewrite Hu. case_decide as Hn; [done|]. intros Hz.
    destruct (inv_zero S s Hi id Hz) as [?|(x & Hx & Hxi)]; [by left|right].
    exists x. rewrite lookup_delete_ne, elem_of_erase1 by (done || apply Hi). split_and!; try done.
    intros ->. destruct (inv_by_block S s Hi id it Hx) as (e' & ? & ?). congruence.
Qed.

Lemma evict_one_ok S s it rest :
  kv_inv S s -> idle_lru_ (kv_cache s) = it :: rest ->
  exists e s', entries_ (kv_cache s) !! it = Some e /\ evict_one s = Some (true, s') /\
    kv_inv S s' /\ kv_geometry s s' /\ idle_lru_ (kv_cache s') = rest /\
    free_list_ (kv_pool s') = free_list_ (kv_pool s) ++ [entry_block_id e] /\
    used (kv_pool s) (entry_block_id e) = Some 0 /\
    (forall j, used (kv_pool s') j =
               if decide (j = entry_block_id e) then None else used (kv_pool s) j).
Proof.
  intros Hi Hl. destruct (inv_idle S s Hi it) as (e & He & Hu & HS); [rewrite Hl; left|].
  destruct (recycle_ok (kv_pool s) (entry_block_id e) (inv_pool S s Hi) Hu)
    as (p' & Hrec & Hwf' & Hg & Hf & Hu').
  destruct (erase_entry_ok S s it e Hi He) as (c' & Hc & E1 & E2 & E3 & E4 & _).
  exists e, (mkKv p' (bump_evictions c')). split_and!; try done.
  - unfold evict_one. rewrite Hl, He. simpl.
    rewrite (ref_count_used _ _ _ (inv_pool S s Hi) Hu). simpl. rewrite Hc. simpl. by rewrite Hrec.
  - apply (kv_inv_counters S p' c'); try done. by eapply kv_inv_erase.
  - simpl. rewrite E3, Hl. simpl. by rewrite decide_True.
Qed.

Lemma evict_one_nil s : idle_lru_ (kv_cache s) = [] -> evict_one s = Some (false, s).
Proof. intros H. unfold evict_one. by rewrite H. Qed.

Lemma evict_held s s' (id : Z) :
  used (kv_pool s) id = Some 0 ->
  (forall j, used (kv_pool s') j = if decide (j = id) then None else used (kv_pool s) j) ->
  forall j, held s' j = held s j.
Proof.
  intros Hu Hu' j. unfold held. rewrite Hu'. case_decide as E; [subst; by rewrite Hu|done].
Qed.

(** ** Allocation *)

(** What allocation may do to the blocks: counts are kept, and whatever was in
    use with references stays in use. *)
Lemma evict_until_ok fuel n S s :
  kv_inv S s -> (length (idle_lru_ (kv_cache s)) < fuel)%nat ->
  exists s', evict_until fuel n s = Some s' /\ kv_inv S s' /\ kv_geometry s s' /\
    (forall j, held s' j = held s j) /\
    num_free_blocks (kv_pool s') + num_idle_blocks (kv_cache s') =
      num_free_blocks (kv_pool s) + num_idle_blocks (kv_cache s) /\
    (n <= num_free_blocks (kv_pool s') \/ idle_lru_ (kv_cache s') = []) /\
    exists k, free_list_ (kv_pool s') = free_list_ (kv_pool s) ++ k.
Proof.
  revert s. induction fuel as [|fuel IH]; intros s Hi Hf; [lia|]. simpl.
  destruct (Z.ltb_spec (num_free_blocks (kv_pool s)) n) as [Hlt|Hge].
  - destruct (idle_lru_ (kv_cache s)) as [|it rest] eqn:Hl.
    + rewrite evict_one_nil by done. simpl. exists s. split_and!; auto with ccdb.
      exists []. by rewrite app_nil_r.
    + destruct (evict_one_ok S s it rest Hi Hl)
        as (e & s1 & He & -> & Hi1 & Hg & Hl1 & Hf1 & Hz & Hu1). simpl.
      destruct (IH s1 Hi1) as (s' & -> & Hi' & Hg' & Hh & Hsum & Hor & k & Hk);
        [rewrite Hl1; simpl in Hf; lia|].
      exists s'. split_and!; try done.
      * by eapply kv_geometry_trans.
      * intros j. rewrite Hh. by eapply evict_held.
      * rewrite Hsum. unfold num_free_blocks, num_idle_blocks, size_Z.
        rewrite Hf1, Hl1, Hl, length_app. simpl. lia.
      * exists (entry_block_id e :: k). by rewrite Hk, Hf1, <- app_assoc.
  - exists s. split_and!; auto with ccdb. exists []. by rewrite app_nil_r.
Qed.

Lemma kv_inv_alloc S p c p' (taken : list Z) :
  kv_inv S (mkKv p c) -> pool_wf p' ->
  (forall j, j ∈ taken -> used p j = None) ->
  (forall j, used p' j = if decide (j ∈ taken) then Some 1 else used p j) ->
  kv_inv S (mkKv p' c).
Proof.
  intros [Hp He Hb Hh Hnd Hi Hz] Hwf Hfree Hu. simpl in *.
  assert (forall j, is_Some (used p j) -> used p' j = used p j) as Hsame.
  { intros j [n Hn]. rewrite Hu. case_decide as Hj; [|done]. by rewrite (Hfree j Hj) in Hn. }
  split; simpl; try done.
  - intros it e Hit. destruct (He it e Hit) as (? & ? & ? & ?). rewrite Hsame by done. done.
  - intros it Hit. destruct (Hi it Hit) as (e & ? & Hu0 & ?). exists e.
    rewrite Hsame by (rewrite Hu0; eauto). done.
  - intros id. rewrite Hu. case_decide; [done|]. apply Hz.
Qed.

Lemma free_not_used p j : pool_wf p -> j ∈ free_list_ p -> used p j = None.
Proof.
  intros Hwf Hj. destruct (used p j) as [n|] eqn:E; [|done].
  by destruct (used_not_free p j n Hwf E).
Qed.

(** A block that is not in use is not cached. *)
Lemma unused_uncached S s j :
  kv_inv S s -> used (kv_pool s) j = None -> by_block_ (kv_cache s) !! j = None.
Proof.
  intros Hi Hu. destruct (by_block_ (kv_cache s) !! j) as [it|] eqn:Hb; [|done].
  destruct (inv_by_block S s Hi j it Hb) as (e & He & <-).
  destruct (inv_entry S s Hi it e He) as (_ & _ & [n Hn] & _). congruence.
Qed.

(** Evictions only take blocks out of the index. *)
Lemma evict_one_shrinks s b s' :
  evict_one s = Some (b, s') -> by_block_ (kv_cache s') ⊆ by_block_ (kv_cache s).
Proof.
  unfold evict_one. intros H. destruct (idle_lru_ (kv_cache s)) as [|it rest]; [by simplify_eq|].
  apply bind_Some in H as (e & _ & H). apply bind_Some in H as (n & _ & H).
  destruct (n =? 0); [|done]. apply bind_Some in H as (c & Hc & H).
  apply bind_Some in H as (p & _ & H). simplify_eq. simpl.
  unfold erase_entry in Hc. apply bind_Some in Hc as (? & _ & Hc).
  apply bind_Some in Hc as (? & _ & Hc). apply bind_Some in Hc as (? & _ & Hc).
  apply bind_Some in Hc as (? & _ & Hc). simplify_eq. simpl. apply delete_subseteq.
Qed.

Lemma evict_until_shrinks fuel n s s' :
  evict_until fuel n s = Some s' -> by_block_ (kv_cache s') ⊆ by_block_ (kv_cache s).
Proof.
  revert s. induction fuel as [|fuel IH]; simpl; intros s H; [by simplify_eq|].
  destruct (_ <? n); [|by simplify_eq].
  apply bind_Some in H as ([b s1] & H1 & H). apply evict_one_shrinks in H1.
  destruct b; [etrans; [by apply IH|done]|by simplify_eq].
Qed.

Lemma allocate_shrinks n s r s' j :
  allocate_kv_blocks n s = Some (r, s') ->
  by_block_ (kv_cache s) !! j = None -> by_block_ (kv_cache s') !! j = None.
Proof.
  unfold allocate_kv_blocks. intros H Hj. destruct (n <=? 0); [by simplify_eq|].
  apply bind_Some in H as (s1 & H1 & H). apply bind_Some in H as ([r' p] & _ & H).
  simplify_eq. simpl. apply evict_until_shrinks in H1. by eapply lookup_weaken_None.
Qed.

(** Being published is visible in either index. *)
Lemma cached_hash_None S s j :
  kv_inv S s -> cached_hash (kv_cache s) j = None <-> by_block_ (kv_cache s) !! j = None.
Proof.
  intros Hi. unfold cached_hash. destruct (by_block_ (kv_cache s) !! j) as [it|] eqn:Hb; simpl; [|done].
  destruct (inv_by_block S s Hi j it Hb) as (e & -> & _). done.
Qed.

Lemma held_alloc p c p' (taken : list Z) :
  NoDup taken -> (forall j, j ∈ taken -> used p j = None) ->
  (forall j, used p' j = if decide (j ∈ taken) then Some 1 else used p j) ->
  forall j, held (mkKv p' c) j = held (mkKv p c) j + count j taken.
Proof.
  intros Hnd Hfree Hu j. unfold held. simpl. rewrite Hu. case_decide as Hj.
  - rewrite (Hfree j Hj). simpl. symmetry. clear -Hnd Hj.
    induction taken as [|y l IH]; simpl; [by apply elem_of_nil in Hj|].
    apply NoDup_cons in Hnd as [Hy Hnd]. destruct (Z.eqb_spec j y) as [->|Hne].
    + by rewrite count_not_elem.
    + apply elem_of_cons in Hj as [|Hj]; [done|]. rewrite (IH Hnd Hj). done.
  - rewrite count_not_elem by done. lia.
Qed.

Lemma allocate_kv_blocks_ok n S s :
  kv_inv S s -> 0 < n <= num_free_blocks (kv_pool s) + num_idle_blocks (kv_cache s) ->
  exists t s', allocate_kv_blocks n s = Some (Value t, s') /\ kv_inv S s' /\ kv_geometry s s' /\
    table_size t = n /\ NoDup (block_ids_ t) /\
    (forall j, j ∈ block_ids_ t -> held s j = 0 /\ by_block_ (kv_cache s') !! j = None) /\
    forall j, held s' j = held s j + count j (block_ids_ t).
Proof.
  intros Hi Hn. unfold allocate_kv_blocks. destruct (Z.leb_spec n 0); [lia|].
  destruct (evict_until_ok (Datatypes.S (length (idle_lru_ (kv_cache s)))) n S s Hi)
    as (s1 & -> & Hi1 & Hg1 & Hh1 & Hsum & Hor & _); [lia|]. simpl.
  assert (n <= num_free_blocks (kv_pool s1)) as Hen.
  { destruct Hor as [?|Hnil]; [done|].
    assert (num_idle_blocks (kv_cache s1) = 0) by (unfold num_idle_blocks; by rewrite Hnil). lia. }
  pose proof (inv_pool S s1 Hi1) as Hwf1.
  unfold allocate_blocks. destruct (Z.ltb_spec 0 n); [|lia].
  destruct (allocate_blocks_loop_ok (Z.to_nat n) (kv_pool s1) empty_table)
    as (t & p' & -> & Hids & _ & Hwf' & Hg' & Hfl & Hu);
    [done|unfold num_free_blocks, size_Z in Hen; lia|].
  simpl. simpl in Hids. rewrite <- Hids in Hu.
  assert (forall j, j ∈ block_ids_ t -> used (kv_pool s1) j = None) as Hfree.
  { intros j Hj. apply free_not_used; [done|]. rewrite Hids in Hj. by apply subseteq_take in Hj. }
  assert (NoDup (block_ids_ t)) as Hnd.
  { rewrite Hids. eapply sublist_NoDup; [apply Hwf1|apply sublist_take]. }
  destruct s1 as [p1 c1]. exists t, (mkKv p' c1). simpl in *. split_and!; try done.
  - by eapply kv_inv_alloc.
  - by eapply kv_geometry_trans.
  - unfold table_size, size_Z. rewrite Hids, length_take.
    unfold num_free_blocks, size_Z in Hen. lia.
  - intros j Hj. rewrite <- Hh1. split; [unfold held; simpl; by rewrite Hfree|].
    by eapply (unused_uncached S (mkKv p1 c1)), Hfree.
  - intros j. rewrite <- Hh1. by apply held_alloc.
Qed.

(** A failed allocation keeps every count that was positive, but no block is
    free afterwards: the blocks it had taken stay referenced. *)
Lemma allocate_kv_blocks_fail n S s :
  kv_inv S s -> 0 < n -> num_free_blocks (kv_pool s) + num_idle_blocks (kv_cache s) < n ->
  exists s', allocate_kv_blocks n s = Some (Unexpected KVBlockExhausted, s') /\
    kv_inv S s' /\ kv_geometry s s' /\ num_free_blocks (kv_pool s') = 0 /\
    num_idle_blocks (kv_cache s') = 0 /\ (forall j, held s j <= held s' j).
Proof.
  intros Hi Hn0 Hn. unfold allocate_kv_blocks. destruct (Z.leb_spec n 0); [lia|].
  destruct (evict_until_ok (Datatypes.S (length (idle_lru_ (kv_cache s)))) n S s Hi)
    as (s1 & -> & Hi1 & Hg1 & Hh1 & Hsum & Hor & _); [lia|]. simpl.
  assert (0 <= num_idle_blocks (kv_cache s1)) by apply size_Z_nonneg.
  assert (idle_lru_ (kv_cache s1) = []) as Hnil by (destruct Hor; [lia|done]).
  pose proof (inv_pool S s1 Hi1) as Hwf1.
  unfold allocate_blocks. destruct (Z.ltb_spec 0 n); [|lia].
  destruct (allocate_blocks_loop_fail (Z.to_nat n) (kv_pool s1) empty_table)
    as (p' & -> & Hwf' & Hg' & Hfl & Hu);
    [done|unfold num_free_blocks, size_Z in *; lia|]. simpl.
  assert (forall j, j ∈ free_list_ (kv_pool s1) -> used (kv_pool s1) j = None) as Hfree
    by (intros; by apply free_not_used).
  destruct s1 as [p1 c1]. exists (mkKv p' c1). simpl in *. split_and!; try done.
  - by eapply kv_inv_alloc.
  - by eapply kv_geometry_trans.
  - unfold num_free_blocks. by rewrite Hfl.
  - unfold num_idle_blocks. by rewrite Hnil.
  - intros j. rewrite <- Hh1. rewrite (held_alloc p1 c1 p' (free_list_ p1)) by (done || apply Hwf1).
    pose proof (count_nonneg j (free_list_ p1)). lia.
Qed.

(** ** Lookup *)

Lemma cached_hash_entry S s it e :
  kv_inv S s -> entries_ (kv_cache s) !! it = Some e ->
  cached_hash (kv_cache s) (entry_block_id e) = Some (prefix_hash e).
Proof.
  intros Hi He. unfold cached_hash. destruct (inv_entry S s Hi it e He) as (Hb & _).
  rewrite Hb. simpl. by rewrite He.
Qed.

(** The indexes of two caches agree. *)
Definition same_index (c c' : BlockCache) : Prop :=
  entries_ c' = entries_ c /\ by_hash_ c' = by_hash_ c /\ by_block_ c' = by_block_ c /\
  next_entry_ c' = next_entry_ c.

Lemma same_index_refl c : same_index c c.
Proof. done. Qed.

Lemma same_index_trans a b c : same_index a b -> same_index b c -> same_index a c.
Proof. unfold same_index. intuition congruence. Qed.

Lemma same_index_cached c c' id : same_index c c' -> cached_hash c' id = cached_hash c id.
Proof. intros (E1 & _ & E3 & _). unfold cached_hash. by rewrite E1, E3. Qed.

#[export] Hint Resolve same_index_refl : ccdb.

Lemma lookup_one_miss `{BuildMode} h r s :
  kv_ok s -> by_hash_ (kv_cache s) !! h = None ->
  exists s', lookup_one h r s = Some (None, s') /\ kv_ok s' /\ kv_geometry s s' /\
    same_index (kv_cache s) (kv_cache s') /\ forall j, held s' j = held s j.
Proof.
  intros Hi Hm. unfold lookup_one. rewrite Hm. eexists. split; [done|].
  split_and!; try done. destruct s as [p c]. by apply (kv_inv_counters _ p c).
Qed.

(** Every count leaves room for [n] more references. *)
Definition room `{BuildMode} (n : Z) (s : KvState) : Prop :=
  tolerates SignedOverflow = true \/ forall j, held s j + n <= INT_MAX.

Lemma lookup_one_hit `{BuildMode} h it l r s :
  NDEBUG = true -> room 1 s -> kv_ok s -> by_hash_ (kv_cache s) !! h = Some (it :: l) ->
  exists id s', lookup_one h r s =
      Some (Some (mkPrefixLookup (table_push_back id (lk_block_table r))
                    (prefix_hit_blocks r + 1) h), s') /\
    kv_ok s' /\ kv_geometry s s' /\ same_index (kv_cache s) (kv_cache s') /\
    cached_hash (kv_cache s) id = Some h /\
    forall j, held s' j = held s j + count j [id].
Proof.
  intros Hnd Hroom Hi Hh. destruct s as [p c]. simpl in *.
  destruct (inv_by_hash _ _ Hi h (it :: l) Hh) as (_ & _ & Hl). simpl in Hl.
  destruct (Hl it ltac:(left)) as (e & He & Hhe).
  destruct (inv_entry _ _ Hi it e He) as (Hb & _ & [n Hn] & _). simpl in *.
  set (id := entry_block_id e) in *. exists id.
  pose proof (inv_pool _ _ Hi) as Hwf. simpl in Hwf.
  destruct (retain_request_ok p id n Hwf Hn) as (p' & Hr & Hwf' & Hg & Hfl & Hu);
    [by rewrite Hnd| |].
  { apply int_sum_ok. destruct Hroom as [?|Hroom]; [by left|]. right. specialize (Hroom id).
    unfold held in Hroom. simpl in Hroom. rewrite Hn in Hroom. simpl in Hroom.
    pose proof (used_range p id n Hwf Hn). unfold INT_MIN. lia. }
  pose proof (used_range p id n Hwf Hn) as [_ Hn0].
  set (idle' := if n =? 0 then erase1 it (idle_lru_ c) else idle_lru_ c).
  assert (forall x, x ∈ idle' <-> x ∈ idle_lru_ c /\ (n = 0 -> x <> it)) as Hidle.
  { intros x. unfold idle'. destruct (Z.eqb_spec n 0).
    - rewrite elem_of_erase1 by apply Hi. naive_solver.
    - naive_solver. }
  exists (mkKv p' (bump_hits (set_idle idle' c))). split_and!; try done.
  - unfold lookup_one. simpl. rewrite Hh, He. simpl. fold id.
    rewrite bool_decide_true by (rewrite Hb; eauto). rewrite (ref_count_used p id n) by done. simpl.
    unfold idle'. destruct (Z.eqb_spec n 0) as [->|Hne]; simpl.
    + unfold is_in_idle_lru. rewrite bool_decide_true; simpl; [by rewrite Hr|].
      destruct (inv_zero _ _ Hi id Hn) as [[]|(x & Hx & Hxi)]. simpl in *. congruence.
    + rewrite Hr. simpl. by destruct c.
  - destruct Hi as [_ Hent Hbb Hbh Hnod Hidl Hz]. simpl in *. split; simpl; try done.
    + intros x ex Hx. destruct (Hent x ex Hx) as (? & ? & ? & ?). split_and!; try done.
      rewrite Hu. case_decide; eauto.
    + unfold idle'. destruct (n =? 0); [by apply NoDup_erase1|done].
    + intros x [Hx Hxn]%Hidle. destruct (Hidl x Hx) as (ex & Hex & Hux & _). exists ex.
      split_and!; try tauto. rewrite Hu. case_decide as Heq; [|done]. exfalso.
      assert (n = 0) by congruence. apply Hxn; [done|].
      destruct (Hent x ex Hex) as (Hbx & _). rewrite Heq in Hbx. congruence.
    + intros j. rewrite Hu. case_decide as Hj; [intros [= ?]; lia|]. intros Hj0.
      destruct (Hz j Hj0) as [[]|(x & Hx & Hxi)]. right. exists x. split; [done|].
      apply Hidle. split; [done|]. intros _ ->. apply Hj.
      destruct (Hbb j it Hx) as (e' & He' & <-). assert (e' = e) as -> by congruence. done.
  - pose proof (cached_hash_entry _ (mkKv p c) it e Hi He) as Hch. simpl in Hch.
    by rewrite Hhe in Hch.
  - intros j. unfold held. simpl. rewrite Hu. case_decide as Hj.
    + subst j. rewrite Hn, Z.eqb_refl. simpl. lia.
    + destruct (Z.eqb_spec j id); [done|]. lia.
Qed.

(** The hits of a run over [hashes]: the blocks found, each cached under its
    hash, up to the first hash that is not indexed. *)
Definition longest_hit (c : BlockCache) (hashes ids : list Z) : Prop :=
  Forall2 (fun h id => cached_hash c id = Some h) (take (length ids) hashes) ids /\
  (length ids = length hashes \/
   exists h, hashes !! length ids = Some h /\ by_hash_ c !! h = None).

Lemma lookup_loop_ok `{BuildMode} hashes r s :
  NDEBUG = true -> room (size_Z hashes) s -> kv_ok s ->
  exists ids r' s', lookup_loop hashes r s = Some (r', s') /\ kv_ok s' /\ kv_geometry s s' /\
    same_index (kv_cache s) (kv_cache s') /\
    block_ids_ (lk_block_table r') = block_ids_ (lk_block_table r) ++ ids /\
    prefix_hit_blocks r' = prefix_hit_blocks r + size_Z ids /\
    lk_parent_hash r' = default (lk_parent_hash r) (last (take (length ids) hashes)) /\
    longest_hit (kv_cache s) hashes ids /\
    (length ids <= length hashes)%nat /\
    forall j, held s' j = held s j + count j ids.
Proof.
  intros Hnd. revert r s. induction hashes as [|h hs IH]; intros r s Hroom Hi; simpl.
  - exists [], r, s. rewrite app_nil_r. unfold longest_hit. simpl.
    split_and!; auto with ccdb; intros; unfold size_Z; simpl; lia.
  - destruct (by_hash_ (kv_cache s) !! h) as [[|it l]|] eqn:Hh.
    + by destruct (inv_by_hash _ _ Hi h [] Hh).
    + destruct (lookup_one_hit h it l r s Hnd) as (id & s1 & -> & Hi1 & Hg1 & Hx1 & Hc1 & Hd1); [|done..|].
      { destruct Hroom as [?|Hroom]; [by left|right]. intros j. specialize (Hroom j).
        rewrite size_Z_cons in Hroom. pose proof (size_Z_nonneg hs). lia. }
      simpl. assert (room (size_Z hs) s1) as Hroom1.
      { destruct Hroom as [?|Hroom]; [by left|right]. intros j. specialize (Hroom j).
        rewrite size_Z_cons in Hroom. rewrite Hd1. simpl. case_match; lia. }
      destruct (IH (mkPrefixLookup (table_push_back id (lk_block_table r))
                      (prefix_hit_blocks r + 1) h) s1 Hroom1 Hi1)
        as (ids & r' & s' & -> & Hi' & Hg' & Hx' & Ht & Hk & Hp & [Hf Hend] & Hle & Hd).
      exists (id :: ids), r', s'. simpl in *. split_and!; try done.
      * by eapply kv_geometry_trans.
      * by eapply same_index_trans.
      * by rewrite Ht, <- app_assoc.
      * rewrite Hk. autorewrite with ccdb. lia.
      * rewrite Hp. by rewrite last_cons; destruct (last (take _ _)).
      * split.
        -- constructor; [done|]. eapply Forall2_impl; [done|]. simpl. intros ? ? Hc.
           by rewrite (same_index_cached _ _ _ Hx1) in Hc.
        -- destruct Hend as [He|(h' & Hh' & Hn)]; [left; simpl; lia|right]. exists h'. split; [done|].
           by destruct Hx1 as (_ & <- & _).
      * lia.
      * intros j. rewrite Hd, Hd1. simpl. lia.
    + destruct (lookup_one_miss h r s Hi Hh) as (s' & -> & Hi' & Hg & Hx & Hd). simpl.
      exists [], r, s'. rewrite app_nil_r. unfold longest_hit. simpl.
      split_and!; auto; [unfold size_Z; simpl; lia|eauto|lia|]. intros; rewrite Hd; lia.
Qed.

Lemma kv_block_size_pos S s : kv_inv S s -> 0 < block_size_ (kv_pool s).
Proof. intros Hi. apply Hi. Qed.

Lemma chain_hashes_all_ok tokens bs salt :
  0 < bs ->
  chain_hashes_all tokens bs salt =
  Some (chain_spec tokens (full_blocks (size_Z tokens) bs) (Z.to_nat bs) (chain_start 0 salt)).
Proof.
  intros Hb. unfold chain_hashes_all, chain_hashes_count.
  apply chain_hashes_ok; [done|]. pose proof (size_Z_nonneg tokens). lia.
Qed.

Lemma lookup_prefix_cache_ok `{BuildMode} tokens salt s :
  NDEBUG = true -> room (size_Z tokens) s -> kv_ok s -> tokens <> [] ->
  let hashes := chain_spec tokens (full_blocks (size_Z tokens) (block_size_ (kv_pool s)))
                  (Z.to_nat (block_size_ (kv_pool s))) (chain_start 0 salt) in
  exists r s', lookup_prefix_cache tokens salt s = Some (r, s') /\ kv_ok s' /\ kv_geometry s s' /\
    same_index (kv_cache s) (kv_cache s') /\
    prefix_hit_blocks r = table_size (lk_block_table r) /\
    shared_count_ (lk_block_table r) = prefix_hit_blocks r /\
    prefix_hit_blocks r * block_size_ (kv_pool s) <= size_Z tokens /\
    lk_parent_hash r = default 0 (last (take (length (block_ids_ (lk_block_table r))) hashes)) /\
    longest_hit (kv_cache s) hashes (block_ids_ (lk_block_table r)) /\
    forall j, held s' j = held s j + count j (block_ids_ (lk_block_table r)).
Proof.
  intros Hnd Hroom Hi Ht hashes. pose proof (kv_block_size_pos _ _ Hi) as Hb.
  unfold lookup_prefix_cache. rewrite bool_decide_false by done. simpl.
  destruct (Z.ltb_spec 0 (block_size_ (kv_pool s))); [|lia].
  rewrite chain_hashes_all_ok by done. simpl. fold hashes.
  pose proof (full_blocks_le (size_Z tokens) (block_size_ (kv_pool s)) Hb (size_Z_nonneg _)) as Hfull.
  destruct (lookup_loop_ok hashes (mkPrefixLookup empty_table 0 0) s Hnd)
    as (ids & r' & s' & -> & Hi' & Hg & Hx & Hids & Hk & Hp & Hlong & Hle & Hd); [|done|].
  { destruct Hroom as [?|Hroom]; [by left|right]. intros j. specialize (Hroom j). unfold hashes, size_Z at 1.
    rewrite length_chain_spec. nia. }
  simpl in *. rewrite <- Hids in *. do 2 eexists. split; [done|]. simpl. split_and!; try done.
  rewrite Hk. unfold hashes in Hle. rewrite length_chain_spec in Hle.
  unfold size_Z at 1. nia.
Qed.

(** ** Publishing *)

Definition insert_entry (hash id : Z) (c : BlockCache) : BlockCache :=
  mkBlockCache (<[next_entry_ c := mkBlockCacheEntry hash id]> (entries_ c))
    (next_entry_ c + 1) (idle_lru_ c)
    (<[hash := default [] (by_hash_ c !! hash) ++ [next_entry_ c]]> (by_hash_ c))
    (<[id := next_entry_ c]> (by_block_ c))
    (lookup_hits_ c) (lookup_misses_ c) (evictions_ c).

Lemma kv_entry_fresh S s x e :
  kv_inv S s -> entries_ (kv_cache s) !! x = Some e -> x <> next_entry_ (kv_cache s).
Proof. intros Hi He. destruct (inv_entry S s Hi x e He) as (_ & ? & _). lia. Qed.

(** The bucket of [hash] after the insertion. *)
Lemma insert_bucket_ok S s hash (l := default [] (by_hash_ (kv_cache s) !! hash)) :
  kv_inv S s ->
  NoDup (l ++ [next_entry_ (kv_cache s)]) /\
  forall x, x ∈ l -> x <> next_entry_ (kv_cache s) /\
    exists e, entries_ (kv_cache s) !! x = Some e /\ prefix_hash e = hash.
Proof.
  intros Hi.
  assert (NoDup l /\ forall x, x ∈ l ->
            exists e, entries_ (kv_cache s) !! x = Some e /\ prefix_hash e = hash) as [Hnd Hl].
  { unfold l. destruct (by_hash_ (kv_cache s) !! hash) as [b|] eqn:E; simpl.
    - destruct (inv_by_hash S s Hi hash b E) as (_ & ? & ?). done.
    - split; [constructor|]. intros x Hx. by apply elem_of_nil in Hx. }
  assert (forall x, x ∈ l -> x <> next_entry_ (kv_cache s)) as Hne.
  { intros x Hx. destruct (Hl x Hx) as (e & He & _). by eapply kv_entry_fresh. }
  split; [|eauto]. apply NoDup_app. split_and!; [done| |apply NoDup_singleton].
  intros x Hx ->%list_elem_of_singleton. by apply (Hne _ Hx).
Qed.

Lemma kv_inv_insert S p c hash id :
  kv_inv S (mkKv p c) -> is_Some (used p id) -> by_block_ c !! id = None ->
  kv_inv S (mkKv p (insert_entry hash id c)).
Proof.
  intros Hi Hu Hbb. destruct (insert_bucket_ok S _ hash Hi) as [Hbnd Hbin].
  pose proof (fun x e => kv_entry_fresh S (mkKv p c) x e Hi) as Hfresh.
  destruct Hi as [Hp Hent Hby Hbh Hnod Hidl Hz]. simpl in *.
  set (nx := next_entry_ c) in *.
  assert (forall x e, entries_ c !! x = Some e ->
            <[nx := mkBlockCacheEntry hash id]> (entries_ c) !! x = Some e) as Hkeep.
  { intros x e He. rewrite lookup_insert_ne; [done|]. by apply not_eq_sym, (Hfresh _ e). }
  split; simpl; fold nx; try done.
  - intros x e. rewrite lookup_insert. case_decide as Hx.
    + intros [= <-]. simpl. subst x. rewrite !lookup_insert_eq. split_and!; [done|lia|done|].
      eexists. split; [done|]. apply elem_of_app. right. by left.
    + intros Hxe. destruct (Hent x e Hxe) as (Hb1 & ? & ? & l & Hl & Hin).
      rewrite lookup_insert_ne by (intros ->; congruence). split_and!; [done|lia|done|].
      rewrite lookup_insert. case_decide as Hh; [|eauto].
      eexists. split; [done|]. rewrite Hh, Hl. simpl. apply elem_of_app. by left.
  - intros j x. rewrite lookup_insert. case_decide as Hj.
    + intros [= <-]. rewrite lookup_insert_eq. eauto.
    + intros Hjx. destruct (Hby j x Hjx) as (e & He & ?). eauto.
  - intros h' l. rewrite lookup_insert. case_decide as Hh.
    + intros [= <-]. subst h'. split_and!; [by destruct (default [] _)|done|].
      intros x [Hx|Hx]%elem_of_app.
      * destruct (Hbin x Hx) as (_ & e & He & ?). eauto.
      * apply list_elem_of_singleton in Hx as ->. rewrite lookup_insert_eq. eauto.
    + intros Hl. destruct (Hbh h' l Hl) as (? & ? & Hl'). split_and!; try done.
      intros x Hx. destruct (Hl' x Hx) as (e & He & ?). eauto.
  - intros x Hx. destruct (Hidl x Hx) as (e & He & ? & ?). eauto.
  - intros j Hj. destruct (Hz j Hj) as [?|(x & Hx & ?)]; [by left|right].
    exists x. rewrite lookup_insert_ne; [done|]. intros <-. congruence.
Qed.

Lemma cached_hash_insert S p c hash id j :
  kv_inv S (mkKv p c) -> by_block_ c !! id = None ->
  cached_hash (insert_entry hash id c) j = if decide (j = id) then Some hash else cached_hash c j.
Proof.
  intros Hi Hbb. unfold cached_hash, insert_entry. simpl. rewrite lookup_insert.
  destruct (decide (id = j)) as [->|Hj].
  - rewrite decide_True by done. simpl. by rewrite lookup_insert_eq.
  - rewrite decide_False by done. destruct (by_block_ c !! j) as [x|] eqn:Hx; [|done]. simpl.
    destruct (inv_by_block _ _ Hi j x Hx) as (e & He & ?). simpl in *.
    pose proof (kv_entry_fresh _ _ _ _ Hi He). simpl in *. by rewrite lookup_insert_ne.
Qed.

(** The hash [publish_full_block] gives a block. *)
Definition block_hash (s : KvState) (parent_hash : Z) (tokens : list Z) (seed : Z) : Z :=
  fold_hash (chain_start parent_hash seed) (take (Z.to_nat (block_size_ (kv_pool s))) tokens).

Lemma publish_head s parent_hash tokens seed :
  0 < block_size_ (kv_pool s) <= size_Z tokens ->
  (hashes ← chain_hashes tokens (block_size_ (kv_pool s)) (block_size_ (kv_pool s)) parent_hash seed;
   head hashes) = Some (block_hash s parent_hash tokens seed).
Proof.
  intros Hb. rewrite chain_hashes_ok by lia. simpl. unfold full_blocks. rewrite Z.div_same by lia.
  change (Z.to_nat 1) with 1%nat. unfold chain_spec, block_hash. cbn [seq map head].
  by rewrite Nat.mul_1_l.
Qed.

Lemma publish_full_block_ok S s parent_hash tokens id seed :
  kv_inv S s -> block_size_ (kv_pool s) <= size_Z tokens -> 0 < held s id ->
  (forall h, cached_hash (kv_cache s) id = Some h -> h = block_hash s parent_hash tokens seed) ->
  exists s', publish_full_block parent_hash tokens id seed s =
      Some (block_hash s parent_hash tokens seed, s') /\
    kv_inv S s' /\ kv_pool s' = kv_pool s /\
    idle_lru_ (kv_cache s') = idle_lru_ (kv_cache s) /\
    (forall j, cached_hash (kv_cache s') j =
       if decide (j = id) then Some (block_hash s parent_hash tokens seed)
       else cached_hash (kv_cache s) j).
Proof.
  intros Hi Hsz Hheld Hsame. pose proof (kv_block_size_pos _ _ Hi) as Hb.
  pose proof (publish_head s parent_hash tokens seed ltac:(lia)) as Hhd.
  pose proof (held_used _ _ Hheld) as Hu. pose proof (inv_pool _ _ Hi) as Hwf.
  unfold publish_full_block.
  destruct (Z.ltb_spec 0 (block_size_ (kv_pool s))); [|lia].
  destruct (Z.leb_spec (block_size_ (kv_pool s)) (size_Z tokens)); [|lia].
  destruct (chain_hashes _ _ _ _ _) as [hashes|]; simpl in *; [|done]. rewrite Hhd. simpl.
  destruct (by_block_ (kv_cache s) !! id) as [it|] eqn:Hbb.
  - destruct (inv_by_block _ _ Hi id it Hbb) as (e & He & Hid).
    assert (cached_hash (kv_cache s) id = Some (prefix_hash e)) as Hch
      by (unfold cached_hash; by rewrite Hbb; simpl; rewrite He).
    rewrite He. simpl. rewrite (Hsame _ Hch), Z.eqb_refl.
    eexists. split; [done|]. split_and!; try done. intros j.
    case_decide as Hj; [|done]. subst j. rewrite Hch. by rewrite (Hsame _ Hch).
  - rewrite (ref_count_used _ id _ Hwf Hu). simpl.
    destruct (Z.ltb_spec 0 (held s id)); [|lia]. destruct s as [p c]. simpl in *.
    exists (mkKv p (insert_entry (block_hash (mkKv p c) parent_hash tokens seed) id c)).
    split_and!; try done.
    + apply kv_inv_insert; [done|rewrite Hu; eauto|done].
    + intros j. by apply (cached_hash_insert S p c).
Qed.

(** ** Releasing *)

Lemma mark_idle_ok S s id it :
  kv_inv S s -> S id -> used (kv_pool s) id = Some 0 -> by_block_ (kv_cache s) !! id = Some it ->
  exists s', mark_idle id s = Some s' /\ kv_inv (fun j => S j /\ j <> id) s' /\
    kv_pool s' = kv_pool s /\ same_index (kv_cache s) (kv_cache s') /\
    idle_lru_ (kv_cache s') = idle_lru_ (kv_cache s) ++ [it].
Proof.
  intros Hi HS Hu Hbb. destruct s as [p c]. simpl in *.
  destruct (inv_by_block _ _ Hi id it Hbb) as (e & He & Hid). simpl in He.
  assert (it ∉ idle_lru_ c) as Hnin.
  { intros Hin. destruct (inv_idle _ _ Hi it Hin) as (e' & He' & _ & HnS). simpl in *. congruence. }
  unfold mark_idle. simpl. rewrite Hbb. simpl. rewrite He. simpl.
  rewrite (ref_count_used p id 0 (inv_pool _ _ Hi) Hu). simpl.
  unfold is_in_idle_lru. rewrite bool_decide_false by done. simpl.
  eexists. split; [done|]. split_and!; try done.
  destruct Hi as [Hp Hent Hby Hbh Hnod Hidl Hz]. simpl in *. split; simpl; try done.
  - apply NoDup_app. split_and!; [done| |apply NoDup_singleton].
    intros x Hx ->%list_elem_of_singleton. done.
  - intros x [Hx|Hx]%elem_of_app.
    + destruct (Hidl x Hx) as (ex & ? & ? & ?). exists ex. tauto.
    + apply list_elem_of_singleton in Hx as ->. exists e. rewrite Hid. split_and!; try done. tauto.
  - intros j Hj. destruct (decide (j = id)) as [->|Hne].
    + right. exists it. split; [done|]. apply elem_of_app. right. by left.
    + destruct (Hz j Hj) as [?|(x & Hx & ?)]; [by left|right].
      exists x. split; [done|]. apply elem_of_app. by left.
Qed.

Lemma recycle_pending_ok S s id :
  kv_inv S s -> used (kv_pool s) id = Some 0 -> by_block_ (kv_cache s) !! id = None ->
  exists p', recycle id (kv_pool s) = Some p' /\
    kv_inv (fun j => S j /\ j <> id) (mkKv p' (kv_cache s)) /\ same_geometry (kv_pool s) p' /\
    free_list_ p' = free_list_ (kv_pool s) ++ [id] /\
    forall j, used p' j = if decide (j = id) then None else used (kv_pool s) j.
Proof.
  intros Hi Hu Hbb. destruct s as [p c]. simpl in *.
  destruct (recycle_ok p id (inv_pool _ _ Hi) Hu) as (p' & Hr & Hwf & Hg & Hf & Hu').
  exists p'. split_and!; try done.
  destruct Hi as [Hp Hent Hby Hbh Hnod Hidl Hz]. simpl in *. split; simpl; try done.
  - intros x e Hx. destruct (Hent x e Hx) as (? & ? & ? & ?). split_and!; try done.
    rewrite Hu', decide_False; [done|]. intros E. congruence.
  - intros x Hx. destruct (Hidl x Hx) as (e & He & Hu0 & ?). exists e. split_and!; [done| |tauto].
    rewrite Hu', decide_False; [done|]. intros E.
    destruct (Hent x e He) as (Hb & _). congruence.
  - intros j. rewrite Hu'. case_decide; [done|]. intros Hj.
    destruct (Hz j Hj) as [?|?]; [by left|by right].
Qed.

(** One step of the release loop takes the block out of the pending set. *)
Lemma release_step_ok S s id n :
  kv_inv S s -> S id -> used (kv_pool s) id = Some n ->
  exists s',
    (n ← ref_count id (kv_pool s);
     if negb (n =? 0) then Some s
     else if contains id (kv_cache s) then mark_idle id s
     else p ← recycle id (kv_pool s); Some (mkKv p (kv_cache s))) = Some s' /\
    kv_inv (fun j => S j /\ j <> id) s' /\ kv_geometry s s' /\
    same_index (kv_cache s) (kv_cache s') /\ (forall j, held s' j = held s j) /\
    (forall j, j <> id -> used (kv_pool s') j = used (kv_pool s) j).
Proof.
  intros Hi HS Hu. rewrite (ref_count_used _ _ _ (inv_pool _ _ Hi) Hu). simpl.
  destruct (Z.eqb_spec n 0) as [->|Hn]; simpl.
  - unfold contains. case_bool_decide as Hc.
    + destruct Hc as [it Hit].
      destruct (mark_idle_ok S s id it Hi HS Hu Hit) as (s' & -> & Hi' & Hp & Hx & _).
      exists s'. split_and!; try done.
      * unfold kv_geometry. rewrite Hp. done.
      * intros j. unfold held. by rewrite Hp.
      * intros j _. by rewrite Hp.
    + destruct (recycle_pending_ok S s id Hi Hu) as (p' & -> & Hi' & Hg & _ & Hu').
      { destruct (by_block_ (kv_cache s) !! id); [|done]. destruct Hc. eauto. }
      exists (mkKv p' (kv_cache s)). split_and!; try done.
      * intros j. unfold held. simpl. rewrite Hu'. case_decide; [subst; by rewrite Hu|done].
      * intros j Hj. simpl. by rewrite Hu', decide_False.
  - exists s. split_and!; auto with ccdb.
    eapply kv_inv_weaken; [done|tauto|]. intros j Hj HSj. split; [done|]. intros ->. congruence.
Qed.

Lemma release_seen_loop_ok ids seen s :
  kv_inv (fun j => j ∈ ids /\ j ∉ seen) s ->
  (forall j, j ∈ ids -> j ∉ seen -> is_Some (used (kv_pool s) j)) ->
  exists s', release_seen_loop ids seen s = Some s' /\ kv_ok s' /\ kv_geometry s s' /\
    same_index (kv_cache s) (kv_cache s') /\ forall j, held s' j = held s j.
Proof.
  revert seen s. induction ids as [|id ids IH]; intros seen s Hi Hus; simpl.
  - exists s. split_and!; auto with ccdb. eapply kv_inv_weaken; [done|done|].
    intros j _ [Hj _]. by apply elem_of_nil in Hj.
  - case_bool_decide as Hseen.
    + apply IH.
      * eapply kv_inv_weaken; [done| |]; simpl.
        -- intros j [? ?]. split; [by right|done].
        -- intros j _ [[->|?]%elem_of_cons ?]; done.
      * intros j Hj. apply Hus. by right.
    + destruct (Hus id) as [n Hn]; [by left|done|].
      destruct (release_step_ok _ s id n Hi) as (s1 & Hs1 & Hi1 & Hg1 & Hx1 & Hh1 & Hu1);
        [by split; [left|]|done|].
      rewrite (ref_count_used _ _ _ (inv_pool _ _ Hi) Hn) in *. simpl in *. rewrite Hs1. simpl.
      destruct (IH (id :: seen) s1) as (s' & -> & Hi' & Hg' & Hx' & Hh').
      * eapply kv_inv_weaken; [done| |]; simpl.
        -- intros j [? Hj]. apply not_elem_of_cons in Hj as [? ?]. split_and!; [by right|done|done].
        -- intros j _ [[[->|?]%elem_of_cons ?] Hne]; [done|]. split; [done|].
           apply not_elem_of_cons. done.
      * intros j Hj Hns. apply not_elem_of_cons in Hns as [? ?]. rewrite Hu1 by done.
        apply Hus; [by right|done].
      * exists s'. split_and!; try done.
        -- by eapply kv_geometry_trans.
        -- by eapply same_index_trans.
        -- intros j. by rewrite Hh', Hh1.
Qed.

Lemma release_request_blocks_ok t s :
  kv_ok s -> (forall j, count j (block_ids_ t) <= held s j) ->
  exists s', release_request_blocks t s = Some s' /\ kv_ok s' /\ kv_geometry s s' /\
    same_index (kv_cache s) (kv_cache s') /\
    forall j, held s' j = held s j - count j (block_ids_ t).
Proof.
  intros Hi Hheld. destruct s as [p c].
  pose proof (inv_pool _ _ Hi) as Hwf. simpl in Hwf. set (ids := block_ids_ t) in *.
  assert (forall id, id ∈ ids -> used p id = Some (held (mkKv p c) id)) as Hus.
  { intros id Hid. apply (held_used (mkKv p c)). apply count_elem in Hid.
    pose proof (Hheld id). lia. }
  destruct (release_ids_ok ids p Hwf) as (p1 & Hr & Hwf1 & Hg1 & Hf1 & Hu1).
  { intros id Hid. exists (held (mkKv p c) id). split; [by apply Hus|apply Hheld]. }
  unfold release_request_blocks, release_blocks. fold ids. simpl. rewrite Hr. simpl.
  assert (forall j, held (mkKv p1 c) j = held (mkKv p c) j - count j ids) as Hh1.
  { intros j. unfold held. simpl. rewrite Hu1. destruct (used p j) as [n|] eqn:Hj; simpl; [done|].
    rewrite count_not_elem; [lia|]. intros Hin. rewrite (Hus j Hin) in Hj. done. }
  destruct (release_seen_loop_ok ids [] (mkKv p1 c)) as (s' & -> & Hi' & Hg' & Hx' & Hh').
  - destruct Hi as [Hp Hent Hby Hbh Hnod Hidl Hz]. simpl in *. split; simpl; try done.
    + intros x e Hx. destruct (Hent x e Hx) as (? & ? & Hs & ?). split_and!; try done.
      rewrite Hu1. by apply fmap_is_Some.
    + intros x Hx. destruct (Hidl x Hx) as (e & He & Hu0 & _). exists e.
      assert (entry_block_id e ∉ ids) as Hnin.
      { intros Hin. pose proof (proj1 (count_elem _ _) Hin). pose proof (Hheld (entry_block_id e)) as Hh.
        unfold held in Hh. simpl in Hh. rewrite Hu0 in Hh. simpl in Hh. lia. }
      split_and!; [done| |tauto]. rewrite Hu1, Hu0. simpl. rewrite count_not_elem by done. done.
    + intros j. rewrite Hu1. intros (n & Hn & Hz0)%fmap_Some.
      destruct (decide (j ∈ ids)) as [Hin|Hnin]; [left; split; [done|apply not_elem_of_nil]|].
      rewrite count_not_elem in Hz0 by done. destruct (Hz j) as [[]|?]; [|by right].
      rewrite Hn. f_equal. lia.
  - intros j Hj _. simpl. rewrite Hu1, (Hus j Hj). simpl. eauto.
  - exists s'. split_and!; try done.
    + eapply kv_geometry_trans; [|done]. done.
    + intros j. by rewrite Hh', Hh1.
Qed.

(** ** Clients of the pool and the cache

    A client owns a multiset of block references.  It looks prefixes up,
    allocates, publishes blocks it owns, evicts, and releases tables of
    references it owns: this is every way the scheduler uses the two. *)

Inductive kv_step `{BuildMode} : KvState * list Z -> KvState * list Z -> Prop :=
| step_lookup tokens salt r s s' refs :
    tokens <> [] -> lookup_prefix_cache tokens salt s = Some (r, s') ->
    kv_step (s, refs) (s', block_ids_ (lk_block_table r) ++ refs)
| step_alloc n t s s' refs :
    allocate_kv_blocks n s = Some (Value t, s') ->
    kv_step (s, refs) (s', block_ids_ t ++ refs)
| step_alloc_fail n e s s' refs :
    allocate_kv_blocks n s = Some (Unexpected e, s') ->
    kv_step (s, refs) (s', refs)
| step_publish parent tokens id seed h s s' refs :
    id ∈ refs -> publish_full_block parent tokens id seed s = Some (h, s') ->
    kv_step (s, refs) (s', refs)
| step_evict b s s' refs :
    evict_one s = Some (b, s') -> kv_step (s, refs) (s', refs)
| step_release t s s' refs refs' :
    refs ≡ₚ block_ids_ t ++ refs' -> release_request_blocks t s = Some s' ->
    kv_step (s, refs) (s', refs').

Definition kv_client_inv (x : KvState * list Z) : Prop :=
  kv_ok x.1 /\ forall j, count j x.2 <= held x.1 j.

Lemma kv_ok_init max_blocks block_size p :
  init max_blocks block_size default_pool = Some (Value tt, p) -> kv_ok (mkKv p empty_cache).
Proof.
  intros (Hwf & _ & _ & _ & Hu)%init_wf.
  split; simpl; intros *; rewrite ?lookup_empty, ?Hu; try done.
  - constructor.
  - intros Hx. by apply elem_of_nil in Hx.
Qed.

Lemma ref_count_pos p id n :
  pool_wf p -> ref_count id p = Some n -> 0 < n -> used p id = Some n.
Proof.
  intros Hwf Hr Hn. unfold ref_count in Hr. rewrite get_block_at in Hr by done.
  apply bind_Some in Hr as (b & Hb & [= <-]). apply used_Some. exists b. split_and!; try done.
  destruct (wf_block p Hwf id b Hb) as (_ & _ & _ & Hf). destruct (block_status b); [|done].
  rewrite Hf in Hn by done. lia.
Qed.

Lemma publish_full_block_inv S parent tokens id seed s h s' :
  kv_inv S s -> publish_full_block parent tokens id seed s = Some (h, s') ->
  kv_inv S s' /\ kv_pool s' = kv_pool s.
Proof.
  intros Hi Hp. unfold publish_full_block in Hp.
  destruct (0 <? block_size_ (kv_pool s)); [|done].
  destruct (block_size_ (kv_pool s) <=? size_Z tokens); [|done].
  apply bind_Some in Hp as (hs & _ & Hp). apply bind_Some in Hp as (h' & _ & Hp).
  destruct (by_block_ (kv_cache s) !! id) as [it|] eqn:Hbb.
  - apply bind_Some in Hp as (e & _ & Hp). case_match; [|done]. by injection Hp as <- <-.
  - apply bind_Some in Hp as (n & Hn & Hp). destruct (Z.ltb_spec 0 n) as [Hpos|]; [|done].
    injection Hp as <- <-. destruct s as [p c]. split; [|done].
    apply (kv_inv_insert S p c); [done| |done]. exists n.
    by apply ref_count_pos; [apply Hi| |].
Qed.

Lemma allocate_kv_blocks_cases n s :
  kv_ok s -> 0 < n ->
  (n <= num_free_blocks (kv_pool s) + num_idle_blocks (kv_cache s) /\
   exists t s', allocate_kv_blocks n s = Some (Value t, s') /\ kv_ok s' /\
     forall j, held s' j = held s j + count j (block_ids_ t)) \/
  (num_free_blocks (kv_pool s) + num_idle_blocks (kv_cache s) < n /\
   exists s', allocate_kv_blocks n s = Some (Unexpected KVBlockExhausted, s') /\ kv_ok s' /\
     forall j, held s j <= held s' j).
Proof.
  intros Hi Hn.
  destruct (Z.le_gt_cases n (num_free_blocks (kv_pool s) + num_idle_blocks (kv_cache s))).
  - left. split; [done|].
    destruct (allocate_kv_blocks_ok n _ s Hi) as (t & s' & ? & ? & _ & _ & _ & _ & ?); [lia|].
    exists t, s'. done.
  - right. split; [lia|].
    destruct (allocate_kv_blocks_fail n _ s Hi) as (s' & ? & ? & _ & _ & _ & ?); [lia..|].
    exists s'. done.
Qed.

Lemma kv_step_inv `{BuildMode} x y :
  kv_client_inv x -> kv_step x y -> kv_client_inv y.
Proof.
  intros [Hi Hown] Hstep. unfold kv_client_inv.
  destruct Hstep as [tokens salt r s s' refs Ht Hr|n t s s' refs Hr|n e s s' refs Hr
    |parent tokens id seed h s s' refs Hid Hr|b s s' refs Hr|t s s' refs refs' Hperm Hr]; simpl in *.
  - apply (by_hazards_mono (fun mode => @lookup_prefix_cache mode tokens salt s) _ lenient_build) in Hr;
      [|apply lookup_prefix_cache_hazards|auto with ccdb].
    destruct (@lookup_prefix_cache_ok lenient_build tokens salt s eq_refl (or_introl eq_refl) Hi Ht)
      as (r' & s2 & Hr' & Hi' & _ & _ & _ & _ & _ & _ & _ & Hh).
    rewrite Hr in Hr'. injection Hr' as <- <-. split; [done|].
    intros j. rewrite Hh, count_app. specialize (Hown j). lia.
  - destruct (Z.le_gt_cases n 0) as [Hn|Hn].
    + unfold allocate_kv_blocks in Hr. destruct (Z.leb_spec n 0); [|lia].
      injection Hr as <- <-. done.
    + destruct (allocate_kv_blocks_cases n s Hi Hn) as [(_ & t' & s2 & Hr' & Hi' & Hh)|(_ & s2 & Hr' & _)];
        rewrite Hr in Hr'; [|done]. injection Hr' as <- <-. split; [done|].
      intros j. rewrite Hh, count_app. specialize (Hown j). lia.
  - destruct (Z.le_gt_cases n 0) as [Hn|Hn].
    + unfold allocate_kv_blocks in Hr. destruct (Z.leb_spec n 0); [done|lia].
    + destruct (allocate_kv_blocks_cases n s Hi Hn) as [(_ & t' & s2 & Hr' & _)|(_ & s2 & Hr' & Hi' & Hh)];
        rewrite Hr in Hr'; [done|]. injection Hr' as -> <-. split; [done|].
      intros j. specialize (Hown j). specialize (Hh j). lia.
  - destruct (publish_full_block_inv _ _ _ _ _ _ _ _ Hi Hr) as [Hi' Hp]. split; [done|].
    intros j. unfold held. rewrite Hp. apply Hown.
  - destruct (idle_lru_ (kv_cache s)) as [|it rest] eqn:Hl.
    + rewrite evict_one_nil in Hr by done. injection Hr as <- <-. done.
    + destruct (evict_one_ok _ s it rest Hi Hl) as (e & s2 & _ & Hr' & Hi' & _ & _ & _ & Hz & Hu).
      rewrite Hr in Hr'. injection Hr' as -> <-. split; [done|].
      intros j. rewrite (evict_held s s' _ Hz Hu). apply Hown.
  - destruct (release_request_blocks_ok t s Hi) as (s2 & Hr' & Hi' & _ & _ & Hh).
    { intros j. specialize (Hown j). rewrite (count_perm j _ _ Hperm), count_app in Hown.
      pose proof (count_nonneg j refs'). lia. }
    rewrite Hr in Hr'. injection Hr' as <-. split; [done|].
    intros j. rewrite Hh. specialize (Hown j). rewrite (count_perm j _ _ Hperm), count_app in Hown. lia.
Qed.
