(* ===== verification/BlockCacheProps.v ===== *)
(** * What the pool and the cache promise to the scheduler

    The theorems about [cache/block_cache.cpp] and the scheduler's allocation
    and release of KV blocks, proved from the lemmas of [BlockCacheInv]. *)

From Stdlib Require Import ZArith Lia.
From stdpp Require Import prelude strings gmap fin_maps.
From S2P Require Import Prelude Base BlockPool PrefixCache BlockCache BlockCacheInv.

(** ** Concrete states for the witnesses *)

Definition demo_pool : BlockPool :=
  default default_pool (snd <$> init 4 2 default_pool).
Definition demo_kv : KvState := mkKv demo_pool empty_cache.

Lemma demo_kv_ok : kv_ok demo_kv.
Proof. apply (kv_ok_init 4 2). reflexivity. Qed.

(** Two blocks allocated and published for the prompt [1;2;3;4], then released:
    both are cached and idle. *)
Definition demo_script (s : KvState) : option KvState :=
  '(r, s) ← allocate_kv_blocks 2 s;
  '(h, s) ← publish_full_block 0 [1; 2] 0 0 s;
  '(_, s) ← publish_full_block h [3; 4] 1 0 s;
  release_request_blocks (mkBlockTable [0; 1] 0) s.
Definition demo_cached : KvState := default demo_kv (demo_script demo_kv).

Lemma demo_cached_reach : exists refs, @rtc _ (@kv_step release_build) (demo_kv, []) (demo_cached, refs).
Proof.
  exists []. eapply rtc_l; [eapply (@step_alloc release_build 2); vm_compute; reflexivity|].
  eapply rtc_l; [eapply (@step_publish release_build 0 [1; 2] 0 0); [simpl; set_solver|vm_compute; reflexivity]|].
  eapply rtc_l.
  { eapply (@step_publish release_build (fold_hash 0 [1; 2]) [3; 4] 1 0); [simpl; set_solver|].
    vm_compute. reflexivity. }
  apply rtc_once. eapply (@step_release release_build (mkBlockTable [0; 1] 0)); [by rewrite app_nil_r|].
  vm_compute. reflexivity.
Qed.

Lemma kv_client_reach `{BuildMode} x y :
  kv_client_inv x -> rtc kv_step x y -> kv_client_inv y.
Proof. intros Hx Hr. induction Hr; eauto using kv_step_inv. Qed.

Lemma kv_client_init max_blocks block_size p :
  init max_blocks block_size default_pool = Some (Value tt, p) ->
  kv_client_inv (mkKv p empty_cache, []).
Proof.
  intros Hp. split; [by eapply kv_ok_init|]. simpl. intros j.
  eapply held_nonneg. by eapply kv_ok_init.
Qed.

Lemma demo_cached_ok : kv_ok demo_cached.
Proof.
  destruct demo_cached_reach as [refs Hr].
  by destruct (@kv_client_reach release_build _ _ (kv_client_init 4 2 _ eq_refl) Hr).
Qed.

(** Nobody references a block of it. *)
Lemma demo_cached_idle j : held demo_cached j = 0.
Proof.
  unfold held. destruct (used (kv_pool demo_cached) j) as [n|] eqn:E; [|done]. simpl.
  pose proof (used_range _ _ _ (inv_pool _ _ demo_cached_ok) E) as [[H0 H1] _].
  assert (j = 0 \/ j = 1 \/ j = 2 \/ j = 3) as Hj by (change (max_blocks_ (kv_pool demo_cached)) with 4 in H1; lia).
  destruct Hj as [->|[->|[->| ->]]]; vm_compute in E; congruence.
Qed.

(** ** Safety of every client *)

(** C30: whatever sequence of lookups, allocations, publications, evictions and
    releases of owned references a client performs on a fresh pool and cache, in any
    build, the free list, the LRU and the two indexes stay
    consistent, no block loses a reference that the client still owns, and
    no two of a pool's roles (free, idle, referenced) overlap. *)
Theorem kv_reachable_safe `{BuildMode} max_blocks block_size p s refs :
  init max_blocks block_size default_pool = Some (Value tt, p) ->
  rtc kv_step (mkKv p empty_cache, []) (s, refs) ->
  kv_ok s /\ forall j, count j refs <= held s j.
Proof.
  intros Hp Hr. by apply (kv_client_reach (mkKv p empty_cache, []) (s, refs)); [eapply kv_client_init|].
Qed.

Lemma kv_reachable_safe_witness : exists refs, kv_ok demo_cached /\ forall j, count j refs <= held demo_cached j.
Proof.
  destruct demo_cached_reach as [refs Hr]. exists refs.
  exact (@kv_reachable_safe release_build 4 2 _ demo_cached refs eq_refl Hr).
Defined.

(** ** Accounting *)

Definition all_ids (p : BlockPool) : list Z := Z.of_nat <$> seq 0 (Z.to_nat (max_blocks_ p)).

Lemma elem_of_all_ids p j : pool_wf p -> j ∈ all_ids p <-> 0 <= j < max_blocks_ p.
Proof.
  intros Hwf. unfold all_ids. rewrite list_elem_of_fmap. split.
  - intros (k & -> & Hk). apply elem_of_seq in Hk. pose proof (wf_max_blocks p Hwf). lia.
  - intros Hj. exists (Z.to_nat j). split; [lia|]. apply elem_of_seq. lia.
Qed.

(** The blocks with request references. *)
Definition active_ids (s : KvState) : list Z :=
  filter (fun j => 0 < held s j) (all_ids (kv_pool s)).

(** The blocks of the idle entries, in LRU order. *)
Definition idle_ids (c : BlockCache) : list Z :=
  omap (fun it => entry_block_id <$> entries_ c !! it) (idle_lru_ c).

Lemma idle_ids_spec S s :
  kv_inv S s ->
  length (idle_ids (kv_cache s)) = length (idle_lru_ (kv_cache s)) /\ NoDup (idle_ids (kv_cache s)) /\
  forall j, j ∈ idle_ids (kv_cache s) <->
    exists it e, it ∈ idle_lru_ (kv_cache s) /\ entries_ (kv_cache s) !! it = Some e /\
      entry_block_id e = j.
Proof.
  intros Hi. unfold idle_ids. pose proof (inv_idle_nodup S s Hi) as Hnd.
  pose proof (inv_idle S s Hi) as Hidl.
  assert (forall j, j ∈ omap (fun it => entry_block_id <$> entries_ (kv_cache s) !! it)
                        (idle_lru_ (kv_cache s)) <->
    exists it e, it ∈ idle_lru_ (kv_cache s) /\ entries_ (kv_cache s) !! it = Some e /\
      entry_block_id e = j) as Hel.
  { intros j. rewrite list_elem_of_omap. split.
    - intros (it & Hit & (e & He & ->)%fmap_Some). eauto.
    - intros (it & e & Hit & He & <-). exists it. by rewrite He. }
  split_and!; [| |done].
  - clear Hel. revert Hidl. generalize (idle_lru_ (kv_cache s)) as l. induction l as [|it l IH]; [done|].
    intros Hidl. simpl. destruct (Hidl it ltac:(left)) as (e & He & _). rewrite He. simpl.
    f_equal. apply IH. intros x Hx. apply Hidl. by right.
  - clear Hel. revert Hnd Hidl. generalize (idle_lru_ (kv_cache s)) as l.
    induction l as [|it l IH]; intros Hnd Hidl; simpl; [constructor|].
    apply NoDup_cons in Hnd as [Hit Hnd]. destruct (Hidl it ltac:(left)) as (e & He & _).
    rewrite He. simpl. apply NoDup_cons. split.
    + rewrite list_elem_of_omap. intros (x & Hx & (e' & He' & Heq)%fmap_Some).
      by rewrite (kv_entry_inj S s it x e e' Hi He He' Heq) in Hit.
    + apply IH; [done|]. intros x Hx. apply Hidl. by right.
Qed.

Lemma kv_partition s :
  kv_ok s ->
  all_ids (kv_pool s) ≡ₚ free_list_ (kv_pool s) ++ idle_ids (kv_cache s) ++ active_ids s.
Proof.
  intros Hi. pose proof (inv_pool _ _ Hi) as Hwf.
  destruct (idle_ids_spec _ s Hi) as (_ & Hndi & Hidl).
  assert (NoDup (all_ids (kv_pool s))) as Hnda by (apply NoDup_fmap; [apply _|apply NoDup_seq]).
  assert (forall j, j ∈ idle_ids (kv_cache s) -> used (kv_pool s) j = Some 0) as Hidl0.
  { intros j (it & e & Hit & He & <-)%Hidl.
    destruct (inv_idle _ _ Hi it Hit) as (e' & ? & ? & _). congruence. }
  apply NoDup_Permutation; [done| |].
  - apply NoDup_app. split_and!; [apply Hwf| |apply NoDup_app; split_and!; [done| |]].
    + intros j Hf. pose proof (free_not_used _ _ Hwf Hf) as Hn.
      rewrite elem_of_app. unfold active_ids. rewrite list_elem_of_filter.
      intros [Hj|[Hj _]]; [by rewrite Hidl0 in Hn|]. unfold held in Hj. rewrite Hn in Hj. simpl in Hj. lia.
    + intros j Hj. unfold active_ids. rewrite list_elem_of_filter. intros [Hh _].
      unfold held in Hh. rewrite Hidl0 in Hh by done. simpl in Hh. lia.
    + by apply NoDup_filter.
  - intros j. rewrite elem_of_all_ids by done. rewrite !elem_of_app. unfold active_ids.
    rewrite list_elem_of_filter, elem_of_all_ids by done. split.
    + intros Hj. destruct (used_or_free _ j Hwf Hj) as [[n Hn]|Hf]; [|by left]. right.
      destruct (used_range _ _ _ Hwf Hn) as [_ Hn0]. destruct (decide (n = 0)) as [->|Hne].
      * left. destruct (inv_zero _ _ Hi j Hn) as [[]|(it & Hit & Hin)]. apply Hidl.
        destruct (inv_by_block _ _ Hi j it Hit) as (e & He & ?). eauto.
      * right. split; [|done]. unfold held. rewrite Hn. simpl. lia.
    + intros [Hf|[Hj|[_ Hj]]]; [by apply Hwf| |done].
      by apply (used_range _ _ _ Hwf) in Hidl0 as [? _] || (apply Hidl0 in Hj; by apply (used_range _ _ _ Hwf) in Hj as [? _]).
Qed.

(** the metrics are exact: [block_active = total - free - cached_idle] of
    [stats] is the number of blocks with at least one request reference, so
    the three categories partition the pool. *)
Theorem stats_active_exact s :
  kv_ok s -> block_active (stats s) = size_Z (active_ids s).
Proof.
  intros Hi. unfold stats, num_free_blocks, size_Z. simpl.
  pose proof (Permutation_length (kv_partition s Hi)) as Hl. rewrite !length_app in Hl.
  destruct (idle_ids_spec _ s Hi) as (Hli & _). rewrite Hli in Hl.
  unfold all_ids in Hl. rewrite length_fmap, length_seq in Hl.
  pose proof (wf_max_blocks _ (inv_pool _ _ Hi)). lia.
Qed.

Lemma stats_active_exact_witness :
  block_active (stats demo_cached) = size_Z (active_ids demo_cached) /\
  block_active (stats demo_cached) = 0 /\ block_cached_idle (stats demo_cached) = 2.
Proof. split; [apply stats_active_exact, demo_cached_ok|]. split; vm_compute; reflexivity. Defined.

(** ** Allocation and release *)

(** [allocate_kv_blocks] succeeds exactly when the free and the evictable
    idle blocks cover the request; it then returns that many distinct blocks
    that nobody referenced, gives each one reference, and keeps every other
    count.  Otherwise it fails with [KVBlockExhausted] and loses no reference
    of anybody, but leaves no block free or idle. *)
Theorem allocate_kv_blocks_spec n s :
  kv_ok s -> 0 < n ->
  (n <= num_free_blocks (kv_pool s) + num_idle_blocks (kv_cache s) /\
   exists t s', allocate_kv_blocks n s = Some (Value t, s') /\ kv_ok s' /\
     table_size t = n /\ NoDup (block_ids_ t) /\
     (forall j, j ∈ block_ids_ t -> held s j = 0 /\ held s' j = 1) /\
     (forall j, j ∉ block_ids_ t -> held s' j = held s j)) \/
  (num_free_blocks (kv_pool s) + num_idle_blocks (kv_cache s) < n /\
   exists s', allocate_kv_blocks n s = Some (Unexpected KVBlockExhausted, s') /\ kv_ok s' /\
     (forall j, held s j <= held s' j) /\
     num_free_blocks (kv_pool s') = 0 /\ num_idle_blocks (kv_cache s') = 0).
Proof.
  intros Hi Hn.
  destruct (Z.le_gt_cases n (num_free_blocks (kv_pool s) + num_idle_blocks (kv_cache s))).
  - left. split; [done|].
    destruct (allocate_kv_blocks_ok n _ s Hi) as (t & s' & ? & ? & _ & ? & Hnd & Hz & Hh); [lia|].
    exists t, s'. split_and!; try done.
    + intros j Hj. destruct (Hz j Hj) as [Hz0 _]. split; [done|]. rewrite Hh, Hz0.
      apply elem_of_Permutation in Hj as [k Hk]. rewrite Hk in Hnd. apply NoDup_cons in Hnd as [Hjk _].
      rewrite (count_perm j _ _ Hk). simpl. by rewrite Z.eqb_refl, count_not_elem.
    + intros j Hj. rewrite Hh, count_not_elem by done. lia.
  - right. split; [lia|].
    destruct (allocate_kv_blocks_fail n _ s Hi) as (s' & ? & ? & _ & ? & ? & ?); [lia..|].
    exists s'. done.
Qed.

Lemma allocate_kv_blocks_spec_witness :
  exists t s', allocate_kv_blocks 3 demo_cached = Some (Value t, s') /\ kv_ok s' /\
    table_size t = 3 /\ block_ids_ t = [2; 3; 0].
Proof.
  destruct (allocate_kv_blocks_spec 3 demo_cached demo_cached_ok) as [(_ & t & s' & H & Hi & Ht & _)|(Hlt & _)];
    [lia| |vm_compute in Hlt; discriminate].
  exists t, s'. split_and!; [exact H|exact Hi|exact Ht|].
  vm_compute in H. injection H as <- _. reflexivity.
Defined.

(** taking references and giving them back restores every count: releasing
    the table that [allocate_kv_blocks] returned never trips an assertion and
    leaves each block with the references it had before. *)
Theorem allocate_release_roundtrip n s t s' :
  kv_ok s -> 0 < n -> allocate_kv_blocks n s = Some (Value t, s') ->
  exists s'', release_request_blocks t s' = Some s'' /\ kv_ok s'' /\
    forall j, held s'' j = held s j.
Proof.
  intros Hi Hn Ha.
  destruct (allocate_kv_blocks_cases n s Hi Hn) as [(_ & t' & s1 & Ha' & Hi' & Hh)|(_ & s1 & Ha' & _)];
    rewrite Ha in Ha'; [|done]. injection Ha' as <- <-.
  destruct (release_request_blocks_ok t s' Hi') as (s2 & Hr & Hi2 & _ & _ & Hh2).
  { intros j. rewrite Hh. pose proof (held_nonneg _ s j Hi). lia. }
  exists s2. split_and!; try done. intros j. rewrite Hh2, Hh. lia.
Qed.

Lemma allocate_release_roundtrip_witness :
  exists s1 s2, allocate_kv_blocks 3 demo_cached = Some (Value (mkBlockTable [2; 3; 0] 0), s1) /\
    release_request_blocks (mkBlockTable [2; 3; 0] 0) s1 = Some s2 /\ kv_ok s2 /\
    forall j, held s2 j = held demo_cached j.
Proof.
  eexists. edestruct (allocate_release_roundtrip 3 demo_cached) as (s2 & H1 & H2 & H3);
    [apply demo_cached_ok | lia | vm_compute; reflexivity |].
  exists s2. split_and!; [vm_compute; reflexivity | exact H1 | exact H2 | exact H3].
Defined.

(** ** Lookup *)

(** C31: in a build without assertions, on a consistent pool and cache and as long as no reference count can leave [int]
    ([room]: one reference per token fits), [lookup_prefix_cache] of a non-empty prompt returns
    the longest cached chain: block [i] of the result is cached under hash
    [i] of the prompt's chain, the chain stops at the first hash that is not
    indexed, every returned block gains one reference (leaving the LRU if it
    was idle), and nothing else changes. *)
Theorem lookup_longest_prefix `{BuildMode} tokens salt s :
  NDEBUG = true -> room (size_Z tokens) s -> kv_ok s -> tokens <> [] ->
  exists hashes r s',
    chain_hashes_all tokens (block_size_ (kv_pool s)) salt = Some hashes /\
    lookup_prefix_cache tokens salt s = Some (r, s') /\ kv_ok s' /\
    longest_hit (kv_cache s) hashes (block_ids_ (lk_block_table r)) /\
    prefix_hit_blocks r = table_size (lk_block_table r) /\
    prefix_hit_blocks r * block_size_ (kv_pool s) <= size_Z tokens /\
    (forall j, held s' j = held s j + count j (block_ids_ (lk_block_table r))) /\
    forall j, cached_hash (kv_cache s') j = cached_hash (kv_cache s) j.
Proof.
  intros Hnd Hroom Hi Ht.
  destruct (lookup_prefix_cache_ok tokens salt s Hnd Hroom Hi Ht)
    as (r & s' & Hr & Hi' & _ & Hx & Hk & _ & Hle & _ & Hl & Hh).
  do 3 eexists. split; [apply chain_hashes_all_ok, (kv_block_size_pos _ _ Hi)|].
  split_and!; try done. intros j. by apply same_index_cached.
Qed.

Lemma lookup_longest_prefix_witness :
  exists r s', @lookup_prefix_cache release_build [1; 2; 3; 4; 5; 6] 0 demo_cached = Some (r, s') /\
    kv_ok s' /\ block_ids_ (lk_block_table r) = [0; 1] /\ held s' 0 = 1.
Proof.
  assert (@room release_build (size_Z [1; 2; 3; 4; 5; 6]) demo_cached) as Hroom
    by (right; intros j; rewrite demo_cached_idle; vm_compute; discriminate).
  destruct (@lookup_longest_prefix release_build [1; 2; 3; 4; 5; 6] 0 demo_cached eq_refl Hroom demo_cached_ok)
    as (hs & r & s' & _ & Hr & Hi & _ & _ & _ & Hh & _); [discriminate|].
  exists r, s'. rewrite (Hh 0). split_and!; [exact Hr|exact Hi|..].
  - vm_compute in Hr. injection Hr as <- _. reflexivity.
  - vm_compute in Hr. injection Hr as <- _. reflexivity.
Defined.

(** in a debug build the same lookup aborts when the first block of the
    prompt is cached and idle: the cache takes the block out of the LRU and
    then calls [retain_request], whose assertion demands a positive count. *)
Theorem lookup_idle_hit_aborts `{BuildMode} tokens s h it l e :
  NDEBUG = false -> kv_ok s ->
  head (chain_spec tokens (full_blocks (size_Z tokens) (block_size_ (kv_pool s)))
          (Z.to_nat (block_size_ (kv_pool s))) 0) = Some h ->
  by_hash_ (kv_cache s) !! h = Some (it :: l) -> entries_ (kv_cache s) !! it = Some e ->
  used (kv_pool s) (entry_block_id e) = Some 0 ->
  lookup_prefix_cache tokens 0 s = None.
Proof.
  intros Hnd Hi Hhd Hh He Hu. pose proof (kv_block_size_pos _ _ Hi) as Hb.
  unfold lookup_prefix_cache. case_bool_decide; [done|]. simpl.
  destruct (Z.ltb_spec 0 (block_size_ (kv_pool s))); [|lia].
  rewrite chain_hashes_all_ok by done. unfold chain_start. simpl.
  destruct (chain_spec _ _ _ _) as [|h' hs]; [done|]. injection Hhd as ->. simpl.
  destruct (inv_entry _ _ Hi it e He) as (Hbb & _).
  unfold lookup_one. rewrite Hh, He. simpl. rewrite bool_decide_true by (rewrite Hbb; eauto).
  rewrite (ref_count_used _ _ _ (inv_pool _ _ Hi) Hu). simpl.
  rewrite retain_request_None; [by destruct (is_in_idle_lru it (kv_cache s))|apply Hi|done|].
  intros n Hn Hpos. assert (n = 0) by congruence. lia.
Qed.

Lemma lookup_idle_hit_aborts_witness : @lookup_prefix_cache checked_build [1; 2; 3; 4] 0 demo_cached = None.
Proof.
  eapply (@lookup_idle_hit_aborts checked_build [1; 2; 3; 4] demo_cached);
    [reflexivity | apply demo_cached_ok | vm_compute; reflexivity ..].
Defined.

(** ** Eviction *)

Lemma idle_ids_delete (m : gmap Z BlockCacheEntry) it (rest : list Z) :
  it ∉ rest ->
  omap (fun x => entry_block_id <$> delete it m !! x) rest =
  omap (fun x => entry_block_id <$> m !! x) rest.
Proof.
  induction rest as [|x rest IH]; simpl; [done|]. intros [Hx Hnin]%not_elem_of_cons.
  rewrite lookup_delete_ne by done. destruct (m !! x); simpl; [f_equal|]; by apply IH.
Qed.

(** [evict_one] returns false exactly when no block is idle; otherwise it
    evicts the block at the front of the LRU, unpublishes it, moves it to the
    end of the free list, and changes no reference count. *)
Theorem evict_one_lru s :
  kv_ok s ->
  match idle_ids (kv_cache s) with
  | [] => evict_one s = Some (false, s)
  | victim :: rest =>
      exists s', evict_one s = Some (true, s') /\ kv_ok s' /\
        idle_ids (kv_cache s') = rest /\
        free_list_ (kv_pool s') = free_list_ (kv_pool s) ++ [victim] /\
        cached_hash (kv_cache s') victim = None /\
        forall j, held s' j = held s j
  end.
Proof.
  intros Hi. destruct (idle_ids_spec _ s Hi) as (Hlen & Hnd & _).
  unfold idle_ids in *. destruct (idle_lru_ (kv_cache s)) as [|it rest] eqn:Hl; simpl in *.
  - by apply evict_one_nil.
  - destruct (evict_one_ok _ s it rest Hi Hl)
      as (e & s' & He & Hr & Hi' & _ & Hl' & Hf & Hz & Hu).
    rewrite He in *. simpl in *. exists s'. split_and!; try done.
    + rewrite Hl'. apply NoDup_cons in Hnd as [Hnd _]. clear -Hr Hi Hi' He Hl Hl'.
      unfold evict_one in Hr. rewrite Hl, He in Hr. simpl in Hr.
      destruct (ref_count _ _); [|done]. simpl in Hr. destruct (_ =? 0); [|done].
      destruct (erase_entry_ok _ s it e Hi He) as (c' & Hc & Hent & _). rewrite Hc in Hr. simpl in Hr.
      destruct (recycle _ _) as [p'|]; [|done]. simpl in Hr. injection Hr as <-. simpl. rewrite Hent.
      pose proof (inv_idle_nodup _ _ Hi) as Hnd. rewrite Hl in Hnd. apply NoDup_cons in Hnd as [Hnin _].
      by apply idle_ids_delete.
    + unfold cached_hash. destruct (by_block_ (kv_cache s') !! entry_block_id e) as [x|] eqn:Hx; [|done].
      destruct (inv_by_block _ _ Hi' _ x Hx) as (e' & He' & Hid).
      destruct (inv_entry _ _ Hi' x e' He') as (_ & _ & [n Hn] & _).
      rewrite Hid, Hu, decide_True in Hn by done. done.
    + by eapply evict_held.
Qed.

Lemma evict_one_lru_witness :
  exists s', evict_one demo_cached = Some (true, s') /\ idle_ids (kv_cache s') = [1] /\
    free_list_ (kv_pool s') = [2; 3; 0].
Proof.
  pose proof (evict_one_lru demo_cached demo_cached_ok) as H.
  assert (idle_ids (kv_cache demo_cached) = [0; 1]) as E by (vm_compute; reflexivity).
  rewrite E in H. destruct H as (s' & H1 & _ & H2 & H3 & _).
  exists s'. split; [exact H1|]. split; [exact H2|]. rewrite H3. vm_compute. reflexivity.
Defined.
