(* ===== verification/Scheduler.v ===== *)
(** * The scheduler: [scheduler/scheduler.h], [scheduler/scheduler.cpp]

    Requests wait, run and are suspended under a token budget and a bounded KV
    pool.  The state is the [Scheduler] object; every method is a computation of
    the monad [M], a state transformer whose [None] is a failed assertion, a
    dangling pointer or an out-of-range access.  [RequestPtr]s are addresses in
    [heap]: the registry and the queues share one object per request, and a write
    through one alias is seen by all.

    All methods run on the scheduler thread.  Two things change under its feet
    and are part of the state: [shutdown_in] counts the reads of the atomic
    [accepting_] that still see the old value before another thread's
    [shutdown_async] takes effect, and [expired] is the set of channels whose
    consumer is gone.  [events] and [released_sequences] record the messages
    posted to the sinks and the calls of [Executor::release_sequence].  The two
    id counters are unbounded: 2^64 admissions are out of reach. *)

From Stdlib Require Import ZArith Lia.
From stdpp Require Import prelude strings gmap fin_maps.
From S2P Require Import Prelude Base Config BlockPool PrefixCache BlockCache.

(** ** Data *)

Inductive GenerationPhase := Prefill | ReplayPrefill | Bootstrap | Decode.

#[export] Instance GenerationPhase_eq_dec : EqDecision GenerationPhase.
Proof. solve_decision. Defined.

Record SequenceReservation := mkReservation {
  execution_leases : Z;
  reserved_prompt_tokens : Z;
  reserved_generation_tokens : Z;
  reserved_kv_tokens : Z;
}.


Record SequenceScheduleCursor := mkCursor {
  phase : GenerationPhase;
  prefill_cursor : Z;
  generated_tokens_in_prompt : Z;
}.

Definition set_phase (x : GenerationPhase) (s : SequenceScheduleCursor) : SequenceScheduleCursor :=
  mkCursor x (prefill_cursor s) (generated_tokens_in_prompt s).
Definition set_prefill_cursor (x : Z) (s : SequenceScheduleCursor) : SequenceScheduleCursor :=
  mkCursor (phase s) x (generated_tokens_in_prompt s).

Record SequenceSchedulingState := mkScheduling {
  seq_id : Z;
  reservation : SequenceReservation;
  cursor : SequenceScheduleCursor;
  block_table : BlockTable;
  executed_frontier : Z;
  parent_hash : Z;
  pending_hash_tokens : list Z;
}.

Definition set_reservation (x : SequenceReservation) (s : SequenceSchedulingState) : SequenceSchedulingState :=
  mkScheduling (seq_id s) x (cursor s) (block_table s) (executed_frontier s)
    (parent_hash s) (pending_hash_tokens s).
Definition set_cursor (x : SequenceScheduleCursor) (s : SequenceSchedulingState) : SequenceSchedulingState :=
  mkScheduling (seq_id s) (reservation s) x (block_table s) (executed_frontier s)
    (parent_hash s) (pending_hash_tokens s).
Definition set_block_table (x : BlockTable) (s : SequenceSchedulingState) : SequenceSchedulingState :=
  mkScheduling (seq_id s) (reservation s) (cursor s) x (executed_frontier s)
    (parent_hash s) (pending_hash_tokens s).
Definition set_executed_frontier (x : Z) (s : SequenceSchedulingState) : SequenceSchedulingState :=
  mkScheduling (seq_id s) (reservation s) (cursor s) (block_table s) x (parent_hash
    s) (pending_hash_tokens s).
Definition set_parent_hash (x : Z) (s : SequenceSchedulingState) : SequenceSchedulingState :=
  mkScheduling (seq_id s) (reservation s) (cursor s) (block_table s)
    (executed_frontier s) x (pending_hash_tokens s).
Definition set_pending_hash_tokens (x : list Z) (s : SequenceSchedulingState) : SequenceSchedulingState :=
  mkScheduling (seq_id s) (reservation s) (cursor s) (block_table s)
    (executed_frontier s) (parent_hash s) x.

Record RequestState := mkRequestState {
  request_id : string;
  initial_prompt_tokens : list Z;
  prompt_tokens : list Z;
  status : RequestStatus;
  generated_tokens : list Z;
  sampling : SamplingParams;
  max_context_len : Z;
  sink : Z;
  scheduling : option SequenceSchedulingState;
}.

Definition set_prompt_tokens (x : list Z) (s : RequestState) : RequestState :=
  mkRequestState (request_id s) (initial_prompt_tokens s) x (status s)
    (generated_tokens s) (sampling s) (max_context_len s) (sink s) (scheduling s).
Definition set_status (x : RequestStatus) (s : RequestState) : RequestState :=
  mkRequestState (request_id s) (initial_prompt_tokens s) (prompt_tokens s) x
    (generated_tokens s) (sampling s) (max_context_len s) (sink s) (scheduling s).
Definition set_generated_tokens (x : list Z) (s : RequestState) : RequestState :=
  mkRequestState (request_id s) (initial_prompt_tokens s) (prompt_tokens s) (status
    s) x (sampling s) (max_context_len s) (sink s) (scheduling s).
Definition set_scheduling (x : option SequenceSchedulingState) (s : RequestState) : RequestState :=
  mkRequestState (request_id s) (initial_prompt_tokens s) (prompt_tokens s) (status
    s) (generated_tokens s) (sampling s) (max_context_len s) (sink s) x.

Record BatchBuildContext := mkCtx {
  ctx_batch : ScheduledBatch;
  ctx_token_budget : Z;
  ctx_block_size : Z;
  sampling_set : bool;
}.


Record Scheduler := mkScheduler {
  engine_config_ : EngineConfig;
  heap : gmap Z RequestState;
  next_ptr : Z;
  requests_ : gmap string Z;
  waiting_ : list Z;
  skip_ : list Z;
  running_ : list Z;
  by_seq_id_ : gmap Z Z;
  admission_paused_ : bool;
  block_shortage_pending_ : bool;
  accepting_ : bool;
  next_batch_id_ : Z;
  next_seq_id_ : Z;
  kv : KvState;
  shutdown_requested_ : bool;
  shutdown_done_sent_ : bool;
  shutdown_in : option nat;
  expired : gset Z;
  events : list (Z * Result GeneratedToken);
  released_sequences : list Z;
}.

Definition set_heap (x : gmap Z RequestState) (s : Scheduler) : Scheduler :=
  mkScheduler (engine_config_ s) x (next_ptr s) (requests_ s) (waiting_ s) (skip_ s)
    (running_ s) (by_seq_id_ s) (admission_paused_ s) (block_shortage_pending_ s)
    (accepting_ s) (next_batch_id_ s) (next_seq_id_ s) (kv s) (shutdown_requested_
    s) (shutdown_done_sent_ s) (shutdown_in s) (expired s) (events s)
    (released_sequences s).
Definition set_next_ptr (x : Z) (s : Scheduler) : Scheduler :=
  mkScheduler (engine_config_ s) (heap s) x (requests_ s) (waiting_ s) (skip_ s)
    (running_ s) (by_seq_id_ s) (admission_paused_ s) (block_shortage_pending_ s)
    (accepting_ s) (next_batch_id_ s) (next_seq_id_ s) (kv s) (shutdown_requested_
    s) (shutdown_done_sent_ s) (shutdown_in s) (expired s) (events s)
    (released_sequences s).
Definition set_requests (x : gmap string Z) (s : Scheduler) : Scheduler :=
  mkScheduler (engine_config_ s) (heap s) (next_ptr s) x (waiting_ s) (skip_ s)
    (running_ s) (by_seq_id_ s) (admission_paused_ s) (block_shortage_pending_ s)
    (accepting_ s) (next_batch_id_ s) (next_seq_id_ s) (kv s) (shutdown_requested_
    s) (shutdown_done_sent_ s) (shutdown_in s) (expired s) (events s)
    (released_sequences s).
Definition set_waiting (x : list Z) (s : Scheduler) : Scheduler :=
  mkScheduler (engine_config_ s) (heap s) (next_ptr s) (requests_ s) x (skip_ s)
    (running_ s) (by_seq_id_ s) (admission_paused_ s) (block_shortage_pending_ s)
    (accepting_ s) (next_batch_id_ s) (next_seq_id_ s) (kv s) (shutdown_requested_
    s) (shutdown_done_sent_ s) (shutdown_in s) (expired s) (events s)
    (released_sequences s).
Definition set_skip (x : list Z) (s : Scheduler) : Scheduler :=
  mkScheduler (engine_config_ s) (heap s) (next_ptr s) (requests_ s) (waiting_ s) x
    (running_ s) (by_seq_id_ s) (admission_paused_ s) (block_shortage_pending_ s)
    (accepting_ s) (next_batch_id_ s) (next_seq_id_ s) (kv s) (shutdown_requested_
    s) (shutdown_done_sent_ s) (shutdown_in s) (expired s) (events s)
    (released_sequences s).
Definition set_running (x : list Z) (s : Scheduler) : Scheduler :=
  mkScheduler (engine_config_ s) (heap s) (next_ptr s) (requests_ s) (waiting_ s)
    (skip_ s) x (by_seq_id_ s) (admission_paused_ s) (block_shortage_pending_ s)
    (accepting_ s) (next_batch_id_ s) (next_seq_id_ s) (kv s) (shutdown_requested_
    s) (shutdown_done_sent_ s) (shutdown_in s) (expired s) (events s)
    (released_sequences s).
Definition set_by_seq_id (x : gmap Z Z) (s : Scheduler) : Scheduler :=
  mkScheduler (engine_config_ s) (heap s) (next_ptr s) (requests_ s) (waiting_ s)
    (skip_ s) (running_ s) x (admission_paused_ s) (block_shortage_pending_ s)
    (accepting_ s) (next_batch_id_ s) (next_seq_id_ s) (kv s) (shutdown_requested_
    s) (shutdown_done_sent_ s) (shutdown_in s) (expired s) (events s)
    (released_sequences s).
Definition set_admission_paused (x : bool) (s : Scheduler) : Scheduler :=
  mkScheduler (engine_config_ s) (heap s) (next_ptr s) (requests_ s) (waiting_ s)
    (skip_ s) (running_ s) (by_seq_id_ s) x (block_shortage_pending_ s) (accepting_
    s) (next_batch_id_ s) (next_seq_id_ s) (kv s) (shutdown_requested_ s)
    (shutdown_done_sent_ s) (shutdown_in s) (expired s) (events s)
    (released_sequences s).
Definition set_block_shortage_pending (x : bool) (s : Scheduler) : Scheduler :=
  mkScheduler (engine_config_ s) (heap s) (next_ptr s) (requests_ s) (waiting_ s)
    (skip_ s) (running_ s) (by_seq_id_ s) (admission_paused_ s) x (accepting_ s)
    (next_batch_id_ s) (next_seq_id_ s) (kv s) (shutdown_requested_ s)
    (shutdown_done_sent_ s) (shutdown_in s) (expired s) (events s)
    (released_sequences s).
Definition set_accepting (x : bool) (s : Scheduler) : Scheduler :=
  mkScheduler (engine_config_ s) (heap s) (next_ptr s) (requests_ s) (waiting_ s)
    (skip_ s) (running_ s) (by_seq_id_ s) (admission_paused_ s)
    (block_shortage_pending_ s) x (next_batch_id_ s) (next_seq_id_ s) (kv s)
    (shutdown_requested_ s) (shutdown_done_sent_ s) (shutdown_in s) (expired s)
    (events s) (released_sequences s).
Definition set_next_batch_id (x : Z) (s : Scheduler) : Scheduler :=
  mkScheduler (engine_config_ s) (heap s) (next_ptr s) (requests_ s) (waiting_ s)
    (skip_ s) (running_ s) (by_seq_id_ s) (admission_paused_ s)
    (block_shortage_pending_ s) (accepting_ s) x (next_seq_id_ s) (kv s)
    (shutdown_requested_ s) (shutdown_done_sent_ s) (shutdown_in s) (expired s)
    (events s) (released_sequences s).
Definition set_next_seq_id (x : Z) (s : Scheduler) : Scheduler :=
  mkScheduler (engine_config_ s) (heap s) (next_ptr s) (requests_ s) (waiting_ s)
    (skip_ s) (running_ s) (by_seq_id_ s) (admission_paused_ s)
    (block_shortage_pending_ s) (accepting_ s) (next_batch_id_ s) x (kv s)
    (shutdown_requested_ s) (shutdown_done_sent_ s) (shutdown_in s) (expired s)
    (events s) (released_sequences s).
Definition set_kv (x : KvState) (s : Scheduler) : Scheduler :=
  mkScheduler (engine_config_ s) (heap s) (next_ptr s) (requests_ s) (waiting_ s)
    (skip_ s) (running_ s) (by_seq_id_ s) (admission_paused_ s)
    (block_shortage_pending_ s) (accepting_ s) (next_batch_id_ s) (next_seq_id_ s) x
    (shutdown_requested_ s) (shutdown_done_sent_ s) (shutdown_in s) (expired s)
    (events s) (released_sequences s).
Definition set_shutdown_requested (x : bool) (s : Scheduler) : Scheduler :=
  mkScheduler (engine_config_ s) (heap s) (next_ptr s) (requests_ s) (waiting_ s)
    (skip_ s) (running_ s) (by_seq_id_ s) (admission_paused_ s)
    (block_shortage_pending_ s) (accepting_ s) (next_batch_id_ s) (next_seq_id_ s)
    (kv s) x (shutdown_done_sent_ s) (shutdown_in s) (expired s) (events s)
    (released_sequences s).
Definition set_shutdown_done_sent (x : bool) (s : Scheduler) : Scheduler :=
  mkScheduler (engine_config_ s) (heap s) (next_ptr s) (requests_ s) (waiting_ s)
    (skip_ s) (running_ s) (by_seq_id_ s) (admission_paused_ s)
    (block_shortage_pending_ s) (accepting_ s) (next_batch_id_ s) (next_seq_id_ s)
    (kv s) (shutdown_requested_ s) x (shutdown_in s) (expired s) (events s)
    (released_sequences s).
Definition set_shutdown_in (x : option nat) (s : Scheduler) : Scheduler :=
  mkScheduler (engine_config_ s) (heap s) (next_ptr s) (requests_ s) (waiting_ s)
    (skip_ s) (running_ s) (by_seq_id_ s) (admission_paused_ s)
    (block_shortage_pending_ s) (accepting_ s) (next_batch_id_ s) (next_seq_id_ s)
    (kv s) (shutdown_requested_ s) (shutdown_done_sent_ s) x (expired s) (events s)
    (released_sequences s).
Definition set_expired (x : gset Z) (s : Scheduler) : Scheduler :=
  mkScheduler (engine_config_ s) (heap s) (next_ptr s) (requests_ s) (waiting_ s)
    (skip_ s) (running_ s) (by_seq_id_ s) (admission_paused_ s)
    (block_shortage_pending_ s) (accepting_ s) (next_batch_id_ s) (next_seq_id_ s)
    (kv s) (shutdown_requested_ s) (shutdown_done_sent_ s) (shutdown_in s) x (events
    s) (released_sequences s).
Definition set_events (x : list (Z * Result GeneratedToken)) (s : Scheduler) : Scheduler :=
  mkScheduler (engine_config_ s) (heap s) (next_ptr s) (requests_ s) (waiting_ s)
    (skip_ s) (running_ s) (by_seq_id_ s) (admission_paused_ s)
    (block_shortage_pending_ s) (accepting_ s) (next_batch_id_ s) (next_seq_id_ s)
    (kv s) (shutdown_requested_ s) (shutdown_done_sent_ s) (shutdown_in s) (expired
    s) x (released_sequences s).
Definition set_released_sequences (x : list Z) (s : Scheduler) : Scheduler :=
  mkScheduler (engine_config_ s) (heap s) (next_ptr s) (requests_ s) (waiting_ s)
    (skip_ s) (running_ s) (by_seq_id_ s) (admission_paused_ s)
    (block_shortage_pending_ s) (accepting_ s) (next_batch_id_ s) (next_seq_id_ s)
    (kv s) (shutdown_requested_ s) (shutdown_done_sent_ s) (shutdown_in s) (expired
    s) (events s) x.

(** [Scheduler::Scheduler]: the pool is sized from the configuration. *)
Definition new_scheduler (config : EngineConfig) : option Scheduler :=
  '(r, p) ← init (Config.max_blocks config) (kv_block_size config) default_pool;
  match r with
  | Unexpected _ => None
  | Value _ =>
      Some (mkScheduler config ∅ 1 ∅ [] [] [] ∅ false false false 1 1
              (mkKv p empty_cache) false false None ∅ [] [])
  end.

(** ** The monad of scheduler methods *)

Definition M (A : Type) : Type := Scheduler -> option (A * Scheduler).

#[export] Instance M_ret : MRet M := fun A a s => Some (a, s).
#[export] Instance M_bind : MBind M := fun A B f m s =>
  match m s with None => None | Some (a, s') => f a s' end.

Definition gets {A} (f : Scheduler -> A) : M A := fun s => Some (f s, s).
Definition modify (f : Scheduler -> Scheduler) : M unit := fun s => Some (tt, f s).
Definition assert_ (b : bool) : M unit := fun s => if b then Some (tt, s) else None.
Definition lift_opt {A} (x : option A) : M A := fun s =>
  match x with None => None | Some a => Some (a, s) end.

(** Calls into the pool and the cache the scheduler owns. *)
Definition with_kv {A} (f : KvState -> option (A * KvState)) : M A := fun s =>
  match f (kv s) with None => None | Some (a, k) => Some (a, set_kv k s) end.
Definition with_kv_ (f : KvState -> option KvState) : M unit := fun s =>
  match f (kv s) with None => None | Some k => Some (tt, set_kv k s) end.

(** [*request] and writes through it. *)
Definition deref (p : Z) : M RequestState := fun s =>
  match heap s !! p with None => None | Some st => Some (st, s) end.
Definition store (p : Z) (st : RequestState) : M unit :=
  modify (fun s => set_heap (<[p := st]> (heap s)) s).

(** [accepting_.load()]. *)
Definition accepting_load : M bool := fun s =>
  match shutdown_in s with
  | Some O => Some (false, set_shutdown_in None (set_accepting false s))
  | Some (S n) => Some (accepting_ s, set_shutdown_in (Some n) s)
  | None => Some (accepting_ s, s)
  end.

(** ** Helpers of the anonymous namespace and static members *)

Definition generated_token_count (state : RequestState) : Z := size_Z (generated_tokens state).

Definition kv_token_count (item : WorkItem) : Z :=
  match item with
  | WPrefill work => span_length (prompt_span work)
  | WDecode work => if write_kv work then 1 else 0
  end.

Definition is_schedulable_state (state : RequestState) : bool :=
  bool_decide (status state = Active) && bool_decide (is_Some (scheduling state)).

Definition is_prefill_phase (ph : GenerationPhase) : bool :=
  bool_decide (ph = Prefill) || bool_decide (ph = ReplayPrefill).

Definition is_decode_phase (ph : GenerationPhase) : bool :=
  bool_decide (ph = Bootstrap) || bool_decide (ph = Decode).

(** ** Events *)

Definition send_event (ch : Z) (result : Result GeneratedToken) : M bool := fun s =>
  if bool_decide (ch ∈ expired s) then Some (false, s)
  else Some (true, set_events (events s ++ [(ch, result)]) s).

Definition send_token_event (p : Z) : M bool :=
  state ← deref p;
  token ← lift_opt (last (generated_tokens state));
  sent ← send_event (sink state)
           (Value (mkGeneratedToken token true (bool_decide (status state = Finished))));
  if negb sent && bool_decide (status state = Active)
  then store p (set_status Cancelled state) ≫= fun _ => mret sent
  else mret sent.

Definition no_token_event : Result GeneratedToken := Value (mkGeneratedToken (-1) false true).

Definition send_terminal_event (p : Z) : M bool :=
  state ← deref p;
  _ ← store p (set_status Finished state);
  send_event (sink state) no_token_event.

Definition send_error_event (p : Z) (err : ErrorCode) : M bool :=
  state ← deref p;
  _ ← store p (set_status Failed state);
  send_event (sink state) (Unexpected err).

(** ** Lifetime of a request *)

Definition erase_request (p : Z) : M unit :=
  state ← deref p;
  _ ← assert_ (negb (bool_decide (is_Some (scheduling state))));
  modify (fun s => set_requests (delete (request_id state) (requests_ s)) s).

Definition release_scheduling_blocks (p : Z) : M unit :=
  state ← deref p;
  match scheduling state with
  | None => mret tt
  | Some sc =>
      _ ← modify (fun s => set_by_seq_id (delete (seq_id sc) (by_seq_id_ s)) s);
      _ ← with_kv_ (release_request_blocks (block_table sc));
      store p (set_scheduling None state)
  end.

(** [prepare_for_wait]: [generated_tokens.end() - 1] drops the last token. *)
Definition prepare_for_wait (p : Z) : M unit :=
  state ← deref p;
  if bool_decide (generated_tokens state = []) then mret tt
  else store p (set_prompt_tokens
                  (initial_prompt_tokens state ++ removelast (generated_tokens state)) state).

(** The argument is a reference to the element of [running_] that the loop erases:
    [push_front] then copies a [shared_ptr] out of a freed list node. *)
Definition release_and_move_to_wait `{BuildMode} (p : Z) : M unit :=
  state ← deref p;
  match scheduling state with
  | None => mret tt
  | Some _ =>
      _ ← prepare_for_wait p;
      _ ← release_scheduling_blocks p;
      _ ← modify (fun s => set_running (erase1 p (running_ s)) s);
      _ ← lift_opt (hazard FreedNode);
      modify (fun s => set_waiting (p :: waiting_ s) s)
  end.

(** ** Public operations, as posted to the scheduler thread *)

Definition submit_on_scheduler_thread (req : SchedulerRequest) : M unit :=
  requests ← gets requests_;
  if bool_decide (is_Some (requests !! sreq_request_id req)) then
    _ ← send_event (sreq_sink req) (Unexpected InvalidArgument); mret tt
  else
    waiting ← gets waiting_;
    cfg ← gets engine_config_;
    if u64 (max_pending_requests cfg) <=? size_Z waiting then
      _ ← send_event (sreq_sink req) (Unexpected RequestQueueFull); mret tt
    else
      let mcl := if sreq_max_context_len req <=? 0 then default_max_context_len cfg
                 else sreq_max_context_len req in
      p ← gets next_ptr;
      _ ← modify (set_next_ptr (p + 1));
      _ ← store p (mkRequestState (sreq_request_id req) (sreq_prompt_tokens req)
                     (sreq_prompt_tokens req) Active [] (sreq_sampling req) mcl
                     (sreq_sink req) None);
      _ ← modify (set_requests (<[sreq_request_id req := p]> requests));
      modify (set_waiting (waiting ++ [p])).

(** [Scheduler::submit]: the two reads of the flag, outside and inside the
    posted handler. *)
Definition submit (req : SchedulerRequest) : M unit :=
  accepting ← accepting_load;
  if negb accepting then
    _ ← send_event (sreq_sink req) (Unexpected ServerShuttingDown); mret tt
  else
    accepting ← accepting_load;
    if negb accepting then
      _ ← send_event (sreq_sink req) (Unexpected ServerShuttingDown); mret tt
    else submit_on_scheduler_thread req.

Definition cancel_on_scheduler_thread (id : string) : M unit :=
  requests ← gets requests_;
  match requests !! id with
  | None => mret tt
  | Some p =>
      state ← deref p;
      if bool_decide (status state = Active) then store p (set_status Cancelled state)
      else mret tt
  end.

Definition complete_shutdown_on_scheduler_thread : M unit :=
  done ← gets shutdown_done_sent_;
  if (done : bool) then mret tt else modify (set_shutdown_done_sent true).

Definition capacity (s : Scheduler) : Capacity :=
  let st := stats (kv s) in
  mkCapacity (max_sequences (engine_config_ s))
    (size_Z (running_ s) + size_Z (skip_ s))
    (block_free st) (block_total st) (stat_block_size st) (block_active st)
    (block_cached_idle st) (stat_lookup_hits st) (stat_lookup_misses st)
    (stat_evictions st) (u64 (stat_cached_blocks st)).

(** ** Building work *)

Definition set_items (items : list WorkItem) (b : ScheduledBatch) : ScheduledBatch :=
  mkScheduledBatch (batch_id b) items (batch_sampling b).

(** The lambda [select_sampling]. *)
Definition select_sampling (state : RequestState) (ctx : BatchBuildContext) : BatchBuildContext :=
  if sampling_set ctx then ctx
  else mkCtx (mkScheduledBatch (batch_id (ctx_batch ctx)) (batch_items (ctx_batch ctx))
                (sampling state))
         (ctx_token_budget ctx) (ctx_block_size ctx) true.

(** [ctx.batch.items.push_back(item); ctx.token_budget -= n]. *)
Definition push_item (item : WorkItem) (n : Z) (ctx : BatchBuildContext) : BatchBuildContext :=
  mkCtx (set_items (batch_items (ctx_batch ctx) ++ [item]) (ctx_batch ctx))
    (ctx_token_budget ctx - n) (ctx_block_size ctx) (sampling_set ctx).

Definition reserve (r : SequenceReservation) (prompt gen kvt : Z) : SequenceReservation :=
  mkReservation (execution_leases r + 1) (reserved_prompt_tokens r + prompt)
    (reserved_generation_tokens r + gen) (reserved_kv_tokens r + kvt).

(** The prefill branch of [build_state_work]. *)
Definition build_prefill (ctx : BatchBuildContext) (p : Z) (state : RequestState)
    (sc : SequenceSchedulingState) : M BatchBuildContext :=
  cfg ← gets engine_config_;
  let prompt_len := size_Z (prompt_tokens state) in
  let prompt_start := prefill_cursor (cursor sc) + reserved_prompt_tokens (reservation sc) in
  if prompt_len <=? prompt_start then mret ctx
  else
    let chunk_len := prompt_len - prompt_start in
    let chunk_len := if 0 <? max_seq_prefill_tokens cfg
                     then Z.min chunk_len (max_seq_prefill_tokens cfg) else chunk_len in
    let chunk_len := Z.min chunk_len (ctx_token_budget ctx) in
    if chunk_len <=? 0 then mret ctx
    else
      let ctx := select_sampling state ctx in
      let final_chunk := prompt_len <=? prompt_start + chunk_len in
      let replay := bool_decide (phase (cursor sc) = ReplayPrefill) in
      let needs := final_chunk && negb (replay && negb (bool_decide (generated_tokens state = []))) in
      _ ← assert_ (0 <=? prompt_start);
      let chunk_tokens := take (Z.to_nat chunk_len)
                            (drop (Z.to_nat prompt_start) (prompt_tokens state)) in
      let item := WPrefill (mkPrefillChunk (seq_id sc) (mkTokenSpan prompt_start chunk_len)
                    (Some (executed_frontier sc + reserved_kv_tokens (reservation sc)))
                    needs chunk_tokens (block_table sc)) in
      _ ← store p (set_scheduling (Some (set_reservation
            (reserve (reservation sc) chunk_len (if needs then 1 else 0) chunk_len) sc)) state);
      mret (push_item item chunk_len ctx).

(** [required_blocks] of the decode branch, and of an admission: ceiling division, on [int]. *)
Definition blocks_for `{BuildMode} (tokens block_size : Z) : option Z :=
  sum ← int_sum (tokens + block_size);
  n ← int_sum (sum - 1);
  Some (Z.quot n block_size).

(** The decode branch of [build_state_work], after [select_sampling]. *)
Definition build_decode `{BuildMode} (ctx : BatchBuildContext) (p : Z) (state : RequestState)
    (sc : SequenceSchedulingState) : M BatchBuildContext :=
  let rsv := reservation sc in
  if max_tokens (sampling state) <=? generated_token_count state + reserved_generation_tokens rsv
  then mret ctx
  else
    let bootstrap := bool_decide (phase (cursor sc) = Bootstrap) in
    if bootstrap && (0 <? reserved_generation_tokens rsv) then mret ctx
    else
      input ← (if bootstrap then lift_opt (last (prompt_tokens state)) else mret 0);
      let write := negb bootstrap in
      let late := negb bootstrap in
      let committed_context := size_Z (prompt_tokens state) + generated_token_count state
                               - generated_tokens_in_prompt (cursor sc) in
      if max_context_len state <=? committed_context + reserved_generation_tokens rsv then
        if reserved_generation_tokens rsv =? 0
        then _ ← send_terminal_event p; mret ctx
        else mret ctx
      else
        block_size ← gets (fun s => block_size_ (kv_pool (kv s)));
        let context_len := executed_frontier sc + reserved_kv_tokens rsv in
        let required_tokens := context_len + (if write then 1 else 0) in
        required_blocks ← lift_opt (blocks_for required_tokens block_size);
        r ← (if table_size (block_table sc) <? required_blocks
             then with_kv (allocate_kv_blocks (required_blocks - table_size (block_table sc)))
             else mret (Value empty_table));
        match r with
        | Unexpected _ =>
            _ ← modify (set_block_shortage_pending true); mret ctx
        | Value blocks =>
            let table := table_append (block_table sc) blocks in
            let item := WDecode (mkDecodeOneToken (seq_id sc) input (Some context_len) write late
                                   table) in
            _ ← store p (set_scheduling (Some (set_reservation
                  (reserve rsv 0 1 (if write then 1 else 0)) (set_block_table table sc))) state);
            mret (push_item item 1 ctx)
        end.

Definition build_state_work `{BuildMode} (ctx : BatchBuildContext) (p : Z) : M BatchBuildContext :=
  state ← deref p;
  match scheduling state with
  | None => mret ctx
  | Some sc =>
      if (ctx_token_budget ctx <=? 0) || negb (is_schedulable_state state) then mret ctx
      else if max_tokens (sampling state) <=? generated_token_count state then
        _ ← send_terminal_event p; mret ctx
      else if is_prefill_phase (phase (cursor sc)) then build_prefill ctx p state sc
      else if negb (is_decode_phase (phase (cursor sc))) then mret ctx
      else build_decode (select_sampling state ctx) p state sc
  end.

Fixpoint build_running_loop `{BuildMode} (l : list Z) (ctx : BatchBuildContext) : M BatchBuildContext :=
  match l with
  | [] => mret ctx
  | p :: l =>
      if ctx_token_budget ctx <=? 0 then mret ctx
      else ctx ← build_state_work ctx p; build_running_loop l ctx
  end.

Definition build_running_batch `{BuildMode} (ctx : BatchBuildContext) : M BatchBuildContext :=
  running ← gets running_;
  build_running_loop running ctx.

(** ** Preemption, suspension and admission *)

Definition evict_one_skipped : M bool :=
  skip ← gets skip_;
  match skip with
  | [] => mret false
  | request :: rest =>
      _ ← modify (set_skip rest);
      state ← deref request;
      match scheduling state with
      | None => _ ← modify (fun s => set_waiting (request :: waiting_ s) s); mret true
      | Some _ =>
          _ ← prepare_for_wait request;
          _ ← release_scheduling_blocks request;
          _ ← modify (fun s => set_waiting (request :: waiting_ s) s);
          mret true
      end
  end.

(** The lambda [find_smallest], over [running_] from the back. *)
Fixpoint find_smallest_loop (prefill_phase : bool) (h : gmap Z RequestState) (l : list Z)
    (best : option Z) (best_blocks : Z) : option Z :=
  match l with
  | [] => best
  | p :: l =>
      match h !! p ≫= fun state => sc ← scheduling state; Some (state, sc) with
      | None => find_smallest_loop prefill_phase h l best best_blocks
      | Some (state, sc) =>
          if negb (eqb prefill_phase (is_prefill_phase (phase (cursor sc)))) ||
             negb (is_schedulable_state state) ||
             negb (execution_leases (reservation sc) =? 0)
          then find_smallest_loop prefill_phase h l best best_blocks
          else
            let blocks := table_size (block_table sc) in
            if blocks <? best_blocks then find_smallest_loop prefill_phase h l (Some p) blocks
            else find_smallest_loop prefill_phase h l best best_blocks
      end
  end.

Definition find_smallest (prefill_phase : bool) (s : Scheduler) : option Z :=
  find_smallest_loop prefill_phase (heap s) (reverse (running_ s)) None INT_MAX.

Definition suspend_one_running `{BuildMode} : M bool :=
  running_it ← gets (fun s => match find_smallest true s with
                              | Some p => Some p
                              | None => find_smallest false s
                              end);
  match running_it with
  | None => mret false
  | Some p =>
      _ ← release_and_move_to_wait p;
      _ ← modify (fun s => set_admission_paused (negb (bool_decide (running_ s = []))) s);
      mret true
  end.

(** [if (!co_await evict_one_skipped()) co_await suspend_one_running();] *)
Definition relieve_shortage `{BuildMode} : M unit :=
  evicted ← evict_one_skipped;
  if (evicted : bool) then mret tt else _ ← suspend_one_running; mret tt.

(** The exits of an admission that end a request: the event, then the erase. *)
Definition finish_with (p : Z) (ev : Result GeneratedToken) : M bool :=
  state ← deref p;
  _ ← send_event (sink state) ev;
  _ ← erase_request p;
  mret true.

(** The branches of [admit_one_skipped] after the pop. *)
Definition admit_skipped_request `{BuildMode} (ctx : BatchBuildContext) (request : Z)
  : M (bool * BatchBuildContext) :=
  state ← deref request;
  if bool_decide (status state = Cancelled) then
    _ ← release_scheduling_blocks request;
    r ← finish_with request (Unexpected RequestCancelled); mret (r, ctx)
  else if max_tokens (sampling state) <=? 0 then
    _ ← release_scheduling_blocks request;
    r ← finish_with request no_token_event; mret (r, ctx)
  else
    match scheduling state with
    | None => _ ← modify (fun s => set_waiting (request :: waiting_ s) s); mret (false, ctx)
    | Some sc =>
        accepting ← accepting_load;
        if negb accepting then
          _ ← release_scheduling_blocks request;
          r ← finish_with request (Unexpected ServerShuttingDown); mret (r, ctx)
        else if max_tokens (sampling state) <=? generated_token_count state then
          _ ← release_scheduling_blocks request;
          _ ← send_terminal_event request;
          _ ← erase_request request;
          mret (true, ctx)
        else
          _ ← modify (fun s => set_by_seq_id (<[seq_id sc := request]> (by_seq_id_ s)) s);
          _ ← modify (fun s => set_running (running_ s ++ [request]) s);
          ctx ← build_state_work ctx request;
          mret (true, ctx)
    end.

Definition admit_one_skipped `{BuildMode} (ctx : BatchBuildContext) : M (bool * BatchBuildContext) :=
  skip ← gets skip_;
  running ← gets running_;
  cfg ← gets engine_config_;
  if (ctx_token_budget ctx <=? 0) || bool_decide (skip = []) ||
     (u64 (max_running_requests cfg) <=? size_Z running)
  then mret (false, ctx)
  else
    match skip with
    | [] => mret (false, ctx)
    | request :: rest =>
        _ ← modify (set_skip rest);
        admit_skipped_request ctx request
    end.

(** The new scheduling state of an admitted request. *)
Definition admitted_scheduling (state : RequestState) (seq block_size : Z) (lookup : PrefixLookup)
    (table : BlockTable) : SequenceSchedulingState :=
  let prompt_len := size_Z (prompt_tokens state) in
  let frontier := prefix_hit_blocks lookup * block_size in
  let fresh := bool_decide (generated_tokens state = []) in
  let in_prompt := if fresh then 0 else generated_token_count state - 1 in
  let cur :=
    if (0 <? frontier) && (frontier <? prompt_len) then
      mkCursor (if fresh then Prefill else ReplayPrefill) frontier in_prompt
    else if prompt_len <=? frontier then
      mkCursor (if fresh then Bootstrap else Decode) prompt_len in_prompt
    else mkCursor Prefill 0 in_prompt in
  mkScheduling seq (mkReservation 0 0 0 0) cur table frontier (lk_parent_hash lookup) [].

(** The end of [admit_one_waiting]: all blocks are in hand. *)
Definition admit_with_blocks `{BuildMode} (ctx : BatchBuildContext) (request : Z) (lookup : PrefixLookup)
    (table : BlockTable) : M (bool * BatchBuildContext) :=
  accepting ← accepting_load;
  if negb accepting then
    _ ← with_kv_ (release_request_blocks table);
    r ← finish_with request (Unexpected ServerShuttingDown); mret (r, ctx)
  else
    state ← deref request;
    seq ← gets next_seq_id_;
    _ ← modify (set_next_seq_id (seq + 1));
    block_size ← gets (fun s => block_size_ (kv_pool (kv s)));
    _ ← store request (set_scheduling
          (Some (admitted_scheduling state seq block_size lookup table)) state);
    _ ← modify (fun s => set_by_seq_id (<[seq := request]> (by_seq_id_ s)) s);
    _ ← modify (fun s => set_running (running_ s ++ [request]) s);
    ctx ← build_state_work ctx request;
    mret (true, ctx).

(** The allocation of [admit_one_waiting] and its failure path. *)
Definition admit_allocate `{BuildMode} (ctx : BatchBuildContext) (request : Z) (state : RequestState)
  : M (bool * BatchBuildContext) :=
  lookup ← with_kv (lookup_prefix_cache (prompt_tokens state) 0);
  block_size ← gets (fun s => block_size_ (kv_pool (kv s)));
  blocks_needed ← lift_opt (blocks_for (size_Z (prompt_tokens state)) block_size);
  let missing_blocks := blocks_needed - table_size (lk_block_table lookup) in
  allocated ← (if 0 <? missing_blocks then with_kv (allocate_kv_blocks missing_blocks)
               else mret (Value empty_table));
  match allocated with
  | Unexpected err =>
      _ ← with_kv_ (release_request_blocks (lk_block_table lookup));
      if bool_decide (err = KVBlockExhausted) then
        _ ← relieve_shortage;
        _ ← modify (set_block_shortage_pending false);
        _ ← modify (fun s => set_waiting (request :: waiting_ s) s);
        mret (false, ctx)
      else
        r ← finish_with request (Unexpected err); mret (r, ctx)
  | Value blocks =>
      admit_with_blocks ctx request lookup (table_append (lk_block_table lookup) blocks)
  end.

(** The branches of [admit_one_waiting] after the pop. *)
Definition admit_waiting_request `{BuildMode} (ctx : BatchBuildContext) (request : Z)
  : M (bool * BatchBuildContext) :=
  state ← deref request;
  if bool_decide (status state = Cancelled) then
    r ← finish_with request (Unexpected RequestCancelled); mret (r, ctx)
  else if max_tokens (sampling state) <=? 0 then
    r ← finish_with request no_token_event; mret (r, ctx)
  else
    _ ← assert_ (negb (bool_decide (is_Some (scheduling state))));
    pool ← gets (fun s => kv_pool (kv s));
    let prompt_len := size_Z (prompt_tokens state) in
    let max_context_capacity := max_blocks_ pool * block_size_ pool in
    if (prompt_len <=? 0) || (max_context_len state <? prompt_len) ||
       (max_context_capacity <? max_context_len state) || (max_context_capacity <? prompt_len)
    then r ← finish_with request (Unexpected InvalidArgument); mret (r, ctx)
    else admit_allocate ctx request state.

Definition admit_one_waiting `{BuildMode} (ctx : BatchBuildContext) : M (bool * BatchBuildContext) :=
  waiting ← gets waiting_;
  running ← gets running_;
  skip ← gets skip_;
  cfg ← gets engine_config_;
  if (ctx_token_budget ctx <=? 0) || bool_decide (waiting = []) ||
     (u64 (max_running_requests cfg) <=? size_Z running) ||
     (u64 (max_sequences cfg) <=? size_Z running + size_Z skip)
  then mret (false, ctx)
  else
    match waiting with
    | [] => mret (false, ctx)
    | request :: rest =>
        _ ← modify (set_waiting rest);
        admit_waiting_request ctx request
    end.

(** ** [schedule_step] *)

(** The admission loop; running out of fuel is a failure. *)
Fixpoint admission_loop `{BuildMode} (fuel : nat) (ctx : BatchBuildContext) : M BatchBuildContext :=
  match fuel with
  | O => lift_opt None
  | S fuel =>
      accepting ← accepting_load;
      s ← gets id;
      if accepting && negb (admission_paused_ s) && (0 <? ctx_token_budget ctx) &&
         (size_Z (running_ s) <? u64 (max_running_requests (engine_config_ s))) &&
         (negb (bool_decide (skip_ s = [])) || negb (bool_decide (waiting_ s = [])))
      then
        '(again, ctx) ← (if bool_decide (skip_ s = []) then mret (false, ctx)
                         else admit_one_skipped ctx);
        if (again : bool) then admission_loop fuel ctx
        else
          waiting ← gets waiting_;
          if bool_decide (waiting = []) then mret ctx
          else
            '(admitted, ctx) ← admit_one_waiting ctx;
            if (admitted : bool) then admission_loop fuel ctx else mret ctx
      else mret ctx
  end.

Definition schedule_step `{BuildMode} : M ScheduledBatch :=
  bid ← gets next_batch_id_;
  _ ← modify (set_next_batch_id (bid + 1));
  cfg ← gets engine_config_;
  block_size ← gets (fun s => block_size_ (kv_pool (kv s)));
  let ctx := mkCtx (mkScheduledBatch bid [] default_sampling) (max_token_budget cfg) block_size false in
  _ ← assert_ (0 <? block_size);
  shortage ← gets block_shortage_pending_;
  _ ← (if (shortage : bool) then
         _ ← modify (set_block_shortage_pending false); relieve_shortage
       else mret tt);
  ctx ← build_running_batch ctx;
  fuel ← gets (fun s => S (length (skip_ s) + length (waiting_ s)));
  ctx ← admission_loop fuel ctx;
  paused ← gets admission_paused_;
  if (paused : bool) then
    by_seq ← gets by_seq_id_;
    mret (set_items (List.filter (fun item => bool_decide (is_Some (by_seq !! work_sequence_id item)))
                       (batch_items (ctx_batch ctx))) (ctx_batch ctx))
  else mret (ctx_batch ctx).

(** [has_schedulable_work]. *)
Definition state_has_work (state : RequestState) : bool :=
  match scheduling state with
  | None => false
  | Some sc =>
      if negb (is_schedulable_state state) then false
      else if is_prefill_phase (phase (cursor sc)) then
        prefill_cursor (cursor sc) + reserved_prompt_tokens (reservation sc)
          <? size_Z (prompt_tokens state)
      else if generated_token_count state + reserved_generation_tokens (reservation sc)
                <? max_tokens (sampling state) then
        negb (bool_decide (phase (cursor sc) = Bootstrap)) ||
        (reserved_generation_tokens (reservation sc) =? 0)
      else false
  end.

Definition has_schedulable_work (s : Scheduler) : bool :=
  if negb (bool_decide (skip_ s = [])) &&
     (size_Z (running_ s) <? u64 (max_running_requests (engine_config_ s)))
  then true
  else existsb (fun p => match heap s !! p with Some state => state_has_work state | None => false end)
         (running_ s).

(** ** Retiring results *)

Definition retire_counters (r : SequenceReservation) (item : WorkItem) : SequenceReservation :=
  let leases := if 0 <? execution_leases r then execution_leases r - 1 else execution_leases r in
  let gen := if 0 <? reserved_generation_tokens r then reserved_generation_tokens r - 1
             else reserved_generation_tokens r in
  let kvt := Z.max 0 (reserved_kv_tokens r - kv_token_count item) in
  match item with
  | WPrefill work =>
      mkReservation leases
        (Z.max 0 (reserved_prompt_tokens r - span_length (prompt_span work)))
        (if needs_sample work then gen else reserved_generation_tokens r) kvt
  | WDecode work => mkReservation leases (reserved_prompt_tokens r) gen kvt
  end.

Definition retire_reservation (p : Z) (item : WorkItem) : M unit :=
  state ← deref p;
  match scheduling state with
  | None => mret tt
  | Some sc =>
      store p (set_scheduling (Some (set_reservation (retire_counters (reservation sc) item) sc)) state)
  end.

(** The publication loop of [retire_work]; each round drops a full block, so
    the pending tokens bound the rounds. *)
Fixpoint publish_loop (fuel : nat) (p : Z) (next_block_index : Z) : M unit :=
  match fuel with
  | O => lift_opt None
  | S fuel =>
      state ← deref p;
      sc ← lift_opt (scheduling state);
      block_size ← gets (fun s => block_size_ (kv_pool (kv s)));
      if block_size <=? size_Z (pending_hash_tokens sc) then
        let full_block := take (Z.to_nat block_size) (pending_hash_tokens sc) in
        _ ← assert_ ((0 <=? next_block_index) && (next_block_index <? table_size (block_table sc)));
        id ← lift_opt (table_at (block_table sc) next_block_index);
        hash ← with_kv (publish_full_block (parent_hash sc) full_block id 0);
        _ ← store p (set_scheduling (Some
              (set_pending_hash_tokens (drop (Z.to_nat block_size) (pending_hash_tokens sc))
                 (set_parent_hash hash sc))) state);
        publish_loop fuel p (next_block_index + 1)
      else mret tt
  end.

(** The cursor and frontier update of [retire_work]; [false] is the early
    return of a non-final prefill chunk. *)
Definition advance_cursor (p : Z) (original : WorkItem) (r : WorkItemResult)
    (state : RequestState) (sc : SequenceSchedulingState) : M bool :=
  let context_before := work_context original in
  let kv_tokens := kv_token_count original in
  match res_kind r with
  | KindPrefillChunk =>
      chunk ← lift_opt match original with WPrefill c => Some c | WDecode _ => None end;
      let cur := prefill_cursor (cursor sc) in
      let prompt_len := size_Z (prompt_tokens state) in
      let replay_prefill := bool_decide (phase (cursor sc) = ReplayPrefill) in
      _ ← assert_ (tokens_consumed r =? span_length (prompt_span chunk));
      _ ← assert_ (0 <? tokens_consumed r);
      _ ← assert_ (cur =? span_start (prompt_span chunk));
      _ ← assert_ (cur + tokens_consumed r <=? prompt_len);
      let final_prefill := prompt_len <=? cur + tokens_consumed r in
      let cursor' := mkCursor (if final_prefill then Decode else phase (cursor sc))
                       (cur + tokens_consumed r) (generated_tokens_in_prompt (cursor sc)) in
      let frontier := Z.max (executed_frontier sc) (context_before + tokens_consumed r) in
      _ ← store p (set_scheduling (Some (set_executed_frontier frontier (set_cursor cursor' sc))) state);
      if negb final_prefill then
        _ ← assert_ (bool_decide (sampled_tokens r = []) && negb (eos r));
        mret false
      else
        let replay_without_sample := replay_prefill && negb (bool_decide (generated_tokens state = [])) &&
                                     bool_decide (sampled_tokens r = []) && negb (eos r) in
        _ ← assert_ (negb (bool_decide (sampled_tokens r = [])) || eos r || replay_without_sample);
        mret true
  | KindDecodeOneToken =>
      _ ← assert_ (tokens_consumed r =? 1);
      _ ← store p (set_scheduling (Some (set_executed_frontier
            (Z.max (executed_frontier sc) (context_before + kv_tokens)) sc)) state);
      mret true
  end.

(** The tokens whose KV entries the item wrote. *)
Definition written_tokens (original : WorkItem) (state : RequestState) : list Z :=
  match original with
  | WPrefill chunk => pc_tokens chunk
  | WDecode _ => match last (generated_tokens state) with Some t => [t] | None => [] end
  end.

(** The publication step of [retire_work]. *)
Definition publish_written (p : Z) (original : WorkItem) : M unit :=
  if 0 <? kv_token_count original then
    state ← deref p;
    sc ← lift_opt (scheduling state);
    block_size ← gets (fun s => block_size_ (kv_pool (kv s)));
    let pending_before := size_Z (pending_hash_tokens sc) in
    let next_block_index := Z.quot (work_context original - pending_before) block_size in
    let pending := pending_hash_tokens sc ++ written_tokens original state in
    _ ← store p (set_scheduling (Some (set_pending_hash_tokens pending sc)) state);
    publish_loop (S (length pending)) p next_block_index
  else mret tt.

(** The token, status and event step of [retire_work]. *)
Definition emit_result (p : Z) (r : WorkItemResult) : M unit :=
  state ← deref p;
  sc ← lift_opt (scheduling state);
  let sampled := negb (bool_decide (sampled_tokens r = [])) in
  let limit := max_tokens (sampling state) in
  let finished_ := eos r ||
                   (limit <=? generated_token_count state + (if sampled then 1 else 0)) in
  let state := match sampled_tokens r with
               | [] => state
               | token :: _ =>
                   set_generated_tokens (generated_tokens state ++ [token])
                     (if bool_decide (phase (cursor sc) = Bootstrap)
                      then set_scheduling (Some (set_cursor (set_phase Decode (cursor sc)) sc)) state
                      else state)
               end in
  let state := if finished_ || (limit <=? generated_token_count state)
               then set_status Finished state else state in
  _ ← store p state;
  _ ← (if sampled then _ ← send_token_event p; mret tt else mret tt);
  state ← deref p;
  if bool_decide (status state = Finished) && negb sampled
  then _ ← send_terminal_event p; mret tt
  else mret tt.

Definition retire_work (original : WorkItem) (r : WorkItemResult) : M unit :=
  by_seq ← gets by_seq_id_;
  match by_seq !! res_seq_id r with
  | None => mret tt
  | Some p =>
      state ← deref p;
      match scheduling state with
      | None => mret tt
      | Some _ =>
          _ ← retire_reservation p original;
          state ← deref p;
          sc ← lift_opt (scheduling state);
          if stale r || negb (is_schedulable_state state) then mret tt
          else
            go ← advance_cursor p original r state sc;
            if (go : bool) then
              _ ← publish_written p original;
              emit_result p r
            else mret tt
      end
  end.

(** The checks of [update_from_output] on one result. *)
Definition check_result (batch : ScheduledBatch) (r : WorkItemResult) : bool :=
  match at_Z (batch_items batch) (item_index r) with
  | None => false
  | Some original =>
      (work_sequence_id original =? res_seq_id r) &&
      bool_decide (work_kind original = res_kind r)
  end.

Fixpoint retire_all (batch : ScheduledBatch) (rs : list WorkItemResult) : M unit :=
  match rs with
  | [] => mret tt
  | r :: rs =>
      original ← lift_opt (at_Z (batch_items batch) (item_index r));
      _ ← retire_work original r;
      retire_all batch rs
  end.

Definition update_from_output (batch : ScheduledBatch) (result : BatchResult) : M unit :=
  _ ← assert_ (result_batch_id result =? batch_id batch);
  _ ← assert_ (size_Z (result_items result) =? size_Z (batch_items batch));
  _ ← assert_ (forallb (check_result batch) (result_items result));
  retire_all batch (result_items result).

Fixpoint fail_items (items : list WorkItem) (err : ErrorCode) : M unit :=
  match items with
  | [] => mret tt
  | item :: items =>
      by_seq ← gets by_seq_id_;
      _ ← match by_seq !! work_sequence_id item with
          | None => mret tt
          | Some p =>
              _ ← retire_reservation p item;
              state ← deref p;
              if bool_decide (status state = Active)
              then _ ← send_error_event p err; mret tt
              else mret tt
          end;
      fail_items items err
  end.

Definition fail_batch (batch : ScheduledBatch) (err : ErrorCode) : M unit :=
  fail_items (batch_items batch) err.

(** ** Cleanup *)

(** [executor_.release_sequence(seq)]. *)
Definition release_sequence (seq : Z) : M unit :=
  modify (fun s => set_released_sequences (released_sequences s ++ [seq]) s).

Definition releasable (h : gmap Z RequestState) (p : Z) : bool :=
  match h !! p ≫= fun state => sc ← scheduling state; Some (state, sc) with
  | None => false
  | Some (state, sc) =>
      negb (bool_decide (status state = Active)) && (execution_leases (reservation sc) =? 0)
  end.

Fixpoint release_running (to_release : list Z) : M unit :=
  match to_release with
  | [] => mret tt
  | p :: to_release =>
      state ← deref p;
      _ ← match scheduling state with
          | Some sc => release_sequence (seq_id sc)
          | None => mret tt
          end;
      _ ← release_scheduling_blocks p;
      _ ← modify (fun s => set_running (erase1 p (running_ s)) s);
      _ ← erase_request p;
      _ ← modify (set_admission_paused false);
      release_running to_release
  end.

(** The loop of [cleanup_terminal_queue]: returns the queue of active requests. *)
Fixpoint cleanup_queue_loop (queue active : list Z) : M (list Z) :=
  match queue with
  | [] => mret active
  | p :: queue =>
      state ← deref p;
      if bool_decide (status state = Active) then cleanup_queue_loop queue (active ++ [p])
      else
        _ ← match scheduling state with
            | Some sc => if execution_leases (reservation sc) =? 0
                         then release_sequence (seq_id sc) else mret tt
            | None => mret tt
            end;
        _ ← release_scheduling_blocks p;
        _ ← erase_request p;
        cleanup_queue_loop queue active
  end.

Definition cleanup_terminal_requests : M unit :=
  to_release ← gets (fun s => List.filter (releasable (heap s)) (running_ s));
  _ ← release_running to_release;
  skip ← gets skip_;
  skip ← cleanup_queue_loop skip [];
  _ ← modify (set_skip skip);
  waiting ← gets waiting_;
  waiting ← cleanup_queue_loop waiting [];
  modify (set_waiting waiting).

(** The first preemptible request from the back of [running_]. *)
Definition preemptible (h : gmap Z RequestState) (p : Z) : bool :=
  match h !! p ≫= fun state => sc ← scheduling state; Some (state, sc) with
  | None => false
  | Some (state, sc) =>
      is_schedulable_state state && (execution_leases (reservation sc) =? 0)
  end.

Definition preempt_one_for_admission : M unit :=
  victim ← gets (fun s => List.find (preemptible (heap s)) (reverse (running_ s)));
  match victim with
  | None => mret tt
  | Some p =>
      state ← deref p;
      sc ← lift_opt (scheduling state);
      _ ← modify (fun s => set_by_seq_id (delete (seq_id sc) (by_seq_id_ s)) s);
      _ ← modify (fun s => set_running (erase1 p (running_ s)) s);
      modify (fun s => set_skip (p :: skip_ s) s)
  end.

(** The lambda [fail_one] after the pop. *)
Definition fail_one (p : Z) (err : ErrorCode) : M unit :=
  _ ← release_scheduling_blocks p;
  state ← deref p;
  _ ← send_event (sink state) (Unexpected err);
  erase_request p.

Fixpoint fail_waiting_loop (waiting : list Z) (err : ErrorCode) : M unit :=
  match waiting with
  | [] => mret tt
  | p :: rest =>
      _ ← modify (set_waiting rest);
      _ ← fail_one p err;
      fail_waiting_loop rest err
  end.

Fixpoint fail_skip_loop (skip : list Z) (err : ErrorCode) : M unit :=
  match skip with
  | [] => mret tt
  | p :: rest =>
      _ ← modify (set_skip rest);
      _ ← fail_one p err;
      fail_skip_loop rest err
  end.

Definition fail_all_waiting (err : ErrorCode) : M unit :=
  waiting ← gets waiting_;
  _ ← fail_waiting_loop waiting err;
  skip ← gets skip_;
  fail_skip_loop skip err.

Fixpoint cleanup_running_loop (states : list Z) (shutdown_err : ErrorCode) : M unit :=
  match states with
  | [] => mret tt
  | p :: states =>
      state ← deref p;
      _ ← match scheduling state with
          | None => mret tt
          | Some _ =>
              _ ← (if bool_decide (status state = Active)
                   then _ ← send_error_event p shutdown_err; mret tt else mret tt);
              _ ← release_scheduling_blocks p;
              _ ← modify (fun s => set_running (erase1 p (running_ s)) s);
              erase_request p
          end;
      cleanup_running_loop states shutdown_err
  end.

Definition cleanup_all_running (shutdown_err : ErrorCode) : M unit :=
  states ← gets running_;
  cleanup_running_loop states shutdown_err.

(** [wait_for_work] returns at once, or sleeps until the next wake-up. *)
Definition wait_for_work : M bool :=
  accepting ← accepting_load;
  s ← gets id;
  if negb accepting || has_schedulable_work s then mret true
  else mret (negb (admission_paused_ s) && negb (bool_decide (waiting_ s = []))).

(** [shutdown_async] flips the flags at once; its posted handler is
    [EngineCore::request_shutdown] and, when the engine never ran, the completion. *)
Definition start : M bool :=
  s ← gets id;
  if shutdown_requested_ s then mret false
  else if accepting_ s then mret false
  else _ ← modify (set_accepting true); mret true.
