(* ===== verification/SchedFrame.v ===== *)
(** * What the methods never touch

    Frame properties, for a preorder [R] on scheduler states: a method built from
    steps that respect [R] respects [R].  The instance here: retiring or failing a batch, cancelling,
    and a refused submission leave the queues and the flag alone. *)

From Stdlib Require Import ZArith Lia.
From stdpp Require Import prelude strings gmap fin_maps.
From S2P Require Import Prelude Base Config BlockPool PrefixCache BlockCache Scheduler.

Definition keeps {A} (R : Scheduler -> Scheduler -> Prop) (m : M A) : Prop :=
  forall s a s', m s = Some (a, s') -> R s s'.

Section keeps.
Context (R : Scheduler -> Scheduler -> Prop) `{!PreOrder R}.

Lemma keeps_bind {A B} (m : M A) (f : A -> M B) :
  keeps R m -> (forall a, keeps R (f a)) -> keeps R (m ≫= f).
Proof.
  intros Hm Hf s b s'. unfold mbind, M_bind. destruct (m s) as [[a s1]|] eqn:E; [|done].
  intros H. etrans; [by eapply Hm|by eapply Hf].
Qed.

Lemma keeps_ret {A} (a : A) : keeps R (mret a).
Proof. intros s b s' [= <- <-]. done. Qed.
Lemma keeps_gets {A} (f : Scheduler -> A) : keeps R (gets f).
Proof. intros s b s' [= <- <-]. done. Qed.
Lemma keeps_assert b : keeps R (assert_ b).
Proof. intros s a s'. unfold assert_. destruct b; [by intros [= <- <-]|done]. Qed.
Lemma keeps_lift {A} (x : option A) : keeps R (lift_opt x).
Proof. intros s a s'. unfold lift_opt. destruct x; [by intros [= <- <-]|done]. Qed.
Lemma keeps_deref p : keeps R (deref p).
Proof. intros s a s'. unfold deref. destruct (heap s !! p); [by intros [= <- <-]|done]. Qed.
Lemma keeps_modify f : (forall s, R s (f s)) -> keeps R (modify f).
Proof. intros H s a s' [= <- <-]. apply H. Qed.

Context (R_heap : forall s h, R s (set_heap h s)) (R_kv : forall s k, R s (set_kv k s))
  (R_events : forall s e, R s (set_events e s)).

Lemma keeps_store p st : keeps R (store p st).
Proof. apply keeps_modify. intros. apply R_heap. Qed.
Lemma keeps_with_kv {A} (f : KvState -> option (A * KvState)) : keeps R (with_kv f).
Proof. intros s a s'. unfold with_kv. destruct (f (kv s)) as [[b k]|]; [intros [= <- <-]; apply R_kv|done]. Qed.
Lemma keeps_with_kv_ f : keeps R (with_kv_ f).
Proof. intros s a s'. unfold with_kv_. destruct (f (kv s)); [intros [= <- <-]; apply R_kv|done]. Qed.
Lemma keeps_send_event ch ev : keeps R (send_event ch ev).
Proof.
  intros s a s'. unfold send_event. case_bool_decide; intros [= <- <-]; [done|apply R_events].
Qed.
End keeps.

(** Descends through a method; [auto with keeps] closes the steps and the calls. *)
Create HintDb keeps.
#[export] Hint Resolve keeps_ret keeps_gets keeps_assert keeps_lift keeps_deref keeps_store
  keeps_with_kv keeps_with_kv_ keeps_send_event : keeps.

#[export] Hint Extern 1 (PreOrder _) => typeclasses eauto : keeps.
#[export] Hint Extern 2 (Reflexive _) => typeclasses eauto : keeps.

Ltac keeps_go :=
  repeat (cbv beta zeta;
    match goal with
    | |- forall _, _ => intro
    | |- keeps _ (_ ≫= _) => apply keeps_bind; [typeclasses eauto| |]
    | |- keeps _ (modify _) => apply keeps_modify
    | |- keeps _ (match ?x with _ => _ end) => destruct x
    | |- keeps _ _ => solve [auto with keeps]
    end).

(** ** Retiring and failing: they write requests, the pool and the event log *)

Section retiring.
Context (R : Scheduler -> Scheduler -> Prop) `{!PreOrder R}.
Context (R_heap : forall s x, R s (set_heap x s)) (R_kv : forall s x, R s (set_kv x s))
  (R_events : forall s x, R s (set_events x s)).

#[local] Hint Extern 1 (R _ _) => (first [apply R_heap | apply R_kv | apply R_events]) : keeps.
#[local] Ltac frame := intros; keeps_go; auto with keeps.

Lemma ret_send_token_event p : keeps R (send_token_event p).
Proof. unfold send_token_event. frame. Qed.
Lemma ret_send_terminal_event p : keeps R (send_terminal_event p).
Proof. unfold send_terminal_event. frame. Qed.
Lemma ret_send_error_event p err : keeps R (send_error_event p err).
Proof. unfold send_error_event. frame. Qed.
#[local] Hint Resolve ret_send_token_event ret_send_terminal_event ret_send_error_event : keeps.

Lemma ret_publish_loop fuel p i : keeps R (publish_loop fuel p i).
Proof. revert i. induction fuel as [|fuel IH]; intros i; simpl; frame. Qed.
#[local] Hint Resolve ret_publish_loop : keeps.

Lemma ret_retire_reservation p it : keeps R (retire_reservation p it).
Proof. unfold retire_reservation. frame. Qed.
#[local] Hint Resolve ret_retire_reservation : keeps.

Lemma ret_retire_work it r : keeps R (retire_work it r).
Proof. unfold retire_work, advance_cursor, publish_written, emit_result. frame. Qed.
#[local] Hint Resolve ret_retire_work : keeps.

Lemma ret_update_from_output batch result : keeps R (update_from_output batch result).
Proof.
  assert (forall rs, keeps R (retire_all batch rs)) by (induction rs; simpl; frame).
  unfold update_from_output. frame.
Qed.

Lemma ret_fail_batch batch err : keeps R (fail_batch batch err).
Proof. unfold fail_batch. induction (batch_items batch); simpl; frame. Qed.

Lemma ret_cancel id : keeps R (cancel_on_scheduler_thread id).
Proof. unfold cancel_on_scheduler_thread. frame. Qed.
End retiring.

(** In particular they leave the queues and the flags alone. *)
Record same_queues (s s' : Scheduler) : Prop := mk_same_queues {
  sq_waiting : waiting_ s' = waiting_ s;
  sq_skip : skip_ s' = skip_ s;
  sq_running : running_ s' = running_ s;
  sq_accepting : accepting_ s' = accepting_ s;
  sq_paused : admission_paused_ s' = admission_paused_ s;
}.

#[export] Instance same_queues_preorder : PreOrder same_queues.
Proof. split; [done|]. intros a b c [] []. split; congruence. Qed.

#[export] Hint Extern 1 (same_queues _ _) => done : keeps.

Lemma keeps_update_from_output batch result : keeps same_queues (update_from_output batch result).
Proof. by apply ret_update_from_output; [typeclasses eauto|..]. Qed.
Lemma keeps_fail_batch batch err : keeps same_queues (fail_batch batch err).
Proof. by apply ret_fail_batch; [typeclasses eauto|..]. Qed.
Lemma keeps_cancel id : keeps same_queues (cancel_on_scheduler_thread id).
Proof. by apply ret_cancel; [typeclasses eauto|..]. Qed.

(** A refused submission changes nothing but the event log. *)
Lemma submit_closed req s s' :
  accepting_ s = false -> submit req s = Some (tt, s') -> same_queues s s'.
Proof.
  intros Hacc. unfold submit.
  assert (exists s1, accepting_load s = Some (false, s1) /\ same_queues s s1) as (s1 & E & H1).
  { unfold accepting_load. destruct (shutdown_in s) as [[|n]|]; rewrite ?Hacc.
    - eexists. split; [done|]. by split.
    - eexists. split; [done|]. by split.
    - eexists. split; [done|]. by split. }
  assert (keeps same_queues (_ ← send_event (sreq_sink req) (Unexpected ServerShuttingDown); mret tt))
    as Hk by keeps_go.
  intros H. etrans; [exact H1|]. apply (Hk s1 tt). unfold mbind at 1, M_bind at 1 in H.
  by rewrite E in H.
Qed.

(** ** Scheduling and shutdown

    For a preorder that respects every assignment the scheduling methods make.
    Two uses: the configuration never changes, and none of these methods tells the
    executor to release a sequence. *)

Section scheduling.
Context `{mode : BuildMode} (R : Scheduler -> Scheduler -> Prop) `{!PreOrder R}.
Context (R_heap : forall s x, R s (set_heap x s)) (R_kv : forall s x, R s (set_kv x s))
  (R_events : forall s x, R s (set_events x s)) (R_waiting : forall s x, R s (set_waiting x s))
  (R_skip : forall s x, R s (set_skip x s)) (R_running : forall s x, R s (set_running x s))
  (R_by_seq : forall s x, R s (set_by_seq_id x s)) (R_paused : forall s x, R s (set_admission_paused x s))
  (R_shortage : forall s x, R s (set_block_shortage_pending x s))
  (R_batch : forall s x, R s (set_next_batch_id x s)) (R_seq : forall s x, R s (set_next_seq_id x s))
  (R_requests : forall s x, R s (set_requests x s)) (R_accepting : forall s x, R s (set_accepting x s))
  (R_shutdown : forall s x, R s (set_shutdown_in x s)).

#[local] Hint Extern 1 (R _ _) => (first [apply R_heap | apply R_kv | apply R_events | apply R_waiting
  | apply R_skip | apply R_running | apply R_by_seq | apply R_paused | apply R_shortage
  | apply R_batch | apply R_seq | apply R_requests | apply R_accepting | apply R_shutdown]) : keeps.

#[local] Ltac frame := intros; keeps_go; auto with keeps.

Lemma sched_accepting_load : keeps R accepting_load.
Proof.
  intros s a s'. unfold accepting_load. destruct (shutdown_in s) as [[|n]|]; intros [= <- <-]; [|done|done].
  etrans; [apply R_accepting|apply R_shutdown].
Qed.
#[local] Hint Resolve sched_accepting_load : keeps.

Lemma sched_send_terminal_event p : keeps R (send_terminal_event p).
Proof. unfold send_terminal_event. frame. Qed.
Lemma sched_send_error_event p err : keeps R (send_error_event p err).
Proof. unfold send_error_event. frame. Qed.
Lemma sched_erase_request p : keeps R (erase_request p).
Proof. unfold erase_request. frame. Qed.
Lemma sched_release p : keeps R (release_scheduling_blocks p).
Proof. unfold release_scheduling_blocks. frame. Qed.
Lemma sched_prepare p : keeps R (prepare_for_wait p).
Proof. unfold prepare_for_wait. frame. Qed.
#[local] Hint Resolve sched_send_terminal_event sched_send_error_event sched_erase_request
  sched_release sched_prepare : keeps.

Lemma sched_release_and_move p : keeps R (release_and_move_to_wait p).
Proof. unfold release_and_move_to_wait. frame. Qed.
Lemma sched_finish_with p ev : keeps R (finish_with p ev).
Proof. unfold finish_with. frame. Qed.
Lemma sched_build_state_work ctx p : keeps R (build_state_work ctx p).
Proof. unfold build_state_work, build_prefill, build_decode. frame. Qed.
#[local] Hint Resolve sched_release_and_move sched_finish_with sched_build_state_work : keeps.

Lemma sched_build_running_loop l ctx : keeps R (build_running_loop l ctx).
Proof. revert ctx. induction l; simpl; frame. Qed.
Lemma sched_relieve_shortage : keeps R relieve_shortage.
Proof. unfold relieve_shortage, evict_one_skipped, suspend_one_running. frame. Qed.
#[local] Hint Resolve sched_build_running_loop sched_relieve_shortage : keeps.

Lemma sched_admit_one_skipped ctx : keeps R (admit_one_skipped ctx).
Proof. unfold admit_one_skipped, admit_skipped_request. frame. Qed.
Lemma sched_admit_one_waiting ctx : keeps R (admit_one_waiting ctx).
Proof.
  unfold admit_one_waiting, admit_waiting_request, admit_allocate, admit_with_blocks. frame.
Qed.
#[local] Hint Resolve sched_admit_one_skipped sched_admit_one_waiting : keeps.

Lemma sched_admission_loop fuel ctx : keeps R (admission_loop fuel ctx).
Proof. revert ctx. induction fuel; simpl; frame. Qed.
#[local] Hint Resolve sched_admission_loop : keeps.

Lemma sched_schedule_step : keeps R schedule_step.
Proof. unfold schedule_step, build_running_batch. frame. Qed.

Lemma sched_preempt : keeps R preempt_one_for_admission.
Proof. unfold preempt_one_for_admission. frame. Qed.

Lemma sched_cleanup_terminal :
  (forall s x, R s (set_released_sequences x s)) -> keeps R cleanup_terminal_requests.
Proof.
  intros R_released.
  assert (forall q, keeps R (release_sequence q))
    by (intros q; apply keeps_modify; intros; apply R_released).
  assert (forall l, keeps R (release_running l)) by (induction l; simpl; frame).
  assert (forall l a, keeps R (cleanup_queue_loop l a)) by (induction l; simpl; frame).
  unfold cleanup_terminal_requests. frame.
Qed.

Lemma sched_submit req : (forall s x, R s (set_next_ptr x s)) -> keeps R (submit req).
Proof.
  intros R_ptr. assert (forall x, keeps R (modify (set_next_ptr x)))
    by (intros x; apply keeps_modify; intros; apply R_ptr).
  unfold submit, submit_on_scheduler_thread. frame.
Qed.

Lemma sched_fail_all_waiting err : keeps R (fail_all_waiting err).
Proof.
  assert (forall p, keeps R (fail_one p err)) by (unfold fail_one; frame).
  assert (forall l, keeps R (fail_waiting_loop l err)) by (induction l; simpl; frame).
  assert (forall l, keeps R (fail_skip_loop l err)) by (induction l; simpl; frame).
  unfold fail_all_waiting. frame.
Qed.

Lemma sched_cleanup_all_running err : keeps R (cleanup_all_running err).
Proof.
  assert (forall l, keeps R (cleanup_running_loop l err)) by (induction l; simpl; frame).
  unfold cleanup_all_running. frame.
Qed.
End scheduling.
