(* ===== verification/SchedKv.v ===== *)
(** * Ownership of KV blocks by the scheduler's requests

    The block tables of all live requests, seen as one multiset of references
    into the pool, and the part of the scheduler's invariant that concerns them:
    every reference a request holds is counted by the pool, and the blocks a
    sequence still writes belong to it alone and are not published.  Each
    operation on the pool and the cache is shown to keep that part. *)

From Stdlib Require Import ZArith Lia.
From stdpp Require Import prelude strings gmap fin_maps.
From S2P Require Import Prelude Base Config BlockPool PrefixCache BlockCache BlockCacheInv Scheduler.

(** ** The multiset of references *)

Definition req_table (st : RequestState) : list Z :=
  match scheduling st with Some sc => block_ids_ (block_table sc) | None => [] end.

Definition occ (h : gmap Z RequestState) (j : Z) : Z :=
  map_fold (fun _ st acc => count j (req_table st) + acc) 0 h.

Lemma occ_empty j : occ ∅ j = 0.
Proof. apply map_fold_empty. Qed.

Lemma occ_delete h p st j : h !! p = Some st -> occ h j = count j (req_table st) + occ (delete p h) j.
Proof. intros H. unfold occ. rewrite (map_fold_delete_L _ _ p st) by (done || intros; lia). done. Qed.

Lemma occ_insert_fresh h p st j : h !! p = None -> occ (<[p := st]> h) j = count j (req_table st) + occ h j.
Proof. intros H. unfold occ. rewrite map_fold_insert_L by (done || intros; lia). done. Qed.

Lemma occ_insert h p st st' j :
  h !! p = Some st -> occ (<[p := st']> h) j = occ h j - count j (req_table st) + count j (req_table st').
Proof.
  intros H. rewrite <- insert_delete_eq, occ_insert_fresh by apply lookup_delete_eq.
  rewrite (occ_delete h p st j H). lia.
Qed.

Lemma occ_nonneg h j : 0 <= occ h j.
Proof.
  induction h as [|p st h Hp IH] using map_ind; [by rewrite occ_empty|].
  rewrite occ_insert_fresh by done. pose proof (count_nonneg j (req_table st)). lia.
Qed.

Lemma occ_lookup h p st j : h !! p = Some st -> count j (req_table st) <= occ h j.
Proof. intros H. rewrite (occ_delete h p st j H). pose proof (occ_nonneg (delete p h) j). lia. Qed.

Lemma occ_two h p p' st st' j :
  h !! p = Some st -> h !! p' = Some st' -> p <> p' ->
  count j (req_table st) + count j (req_table st') <= occ h j.
Proof.
  intros H H' Hne. rewrite (occ_delete h p st j H).
  assert (count j (req_table st') <= occ (delete p h) j); [|lia].
  apply (occ_lookup _ p'). by rewrite lookup_delete_ne.
Qed.

Lemma count_lookup j (l : list Z) i : l !! i = Some j -> 1 <= count j l.
Proof. intros H. apply list_elem_of_lookup_2 in H. apply count_elem in H. lia. Qed.

Lemma count_lookup_two j (l : list Z) i i' :
  l !! i = Some j -> l !! i' = Some j -> i <> i' -> 2 <= count j l.
Proof.
  revert i i'. induction l as [|x l IH]; intros i i' H H' Hne; [done|]. simpl.
  destruct i as [|i], i' as [|i']; simpl in *; simplify_eq.
  - rewrite Z.eqb_refl. pose proof (count_lookup _ _ _ H'). lia.
  - rewrite Z.eqb_refl. pose proof (count_lookup _ _ _ H). lia.
  - pose proof (IH i i' H H'). destruct (j =? x); lia.
Qed.

(** ** The invariant on blocks *)

(** The index of the first block whose contents are not published yet. *)
Definition hash_bound (bs : Z) (sc : SequenceSchedulingState) : Z :=
  (executed_frontier sc - size_Z (pending_hash_tokens sc)) / bs.

Definition exclusive (extra : list Z) (h : gmap Z RequestState) (k : KvState) (j : Z) : Prop :=
  count j extra + occ h j = 1 /\ by_block_ (kv_cache k) !! j = None.

Record kv_part (extra : list Z) (h : gmap Z RequestState) (k : KvState) : Prop := mk_kv_part {
  kp_ok : kv_ok k;
  kp_own : forall j, count j extra + occ h j <= held k j;
  kp_excl : forall p st sc i j, h !! p = Some st -> scheduling st = Some sc ->
    block_ids_ (block_table sc) !! i = Some j ->
    hash_bound (block_size_ (kv_pool k)) sc <= Z.of_nat i -> exclusive extra h k j;
}.

Lemma kv_part_bs extra h k : kv_part extra h k -> 0 < block_size_ (kv_pool k).
Proof. intros H. by eapply kv_block_size_pos, kp_ok. Qed.

(** Updating a request without touching its table or lowering its bound. *)
Lemma kv_part_update extra h k p st st' :
  kv_part extra h k -> h !! p = Some st -> req_table st' = req_table st ->
  (forall sc', scheduling st' = Some sc' -> exists sc, scheduling st = Some sc /\
     hash_bound (block_size_ (kv_pool k)) sc <= hash_bound (block_size_ (kv_pool k)) sc') ->
  kv_part extra (<[p := st']> h) k.
Proof.
  intros [Hok Hown Hex] Hp Ht Hb.
  assert (forall j, occ (<[p := st']> h) j = occ h j) as Hocc.
  { intros j. rewrite (occ_insert h p st st' j Hp), Ht. lia. }
  split; [done|intros j; by rewrite Hocc|].
  intros q st1 sc1 i j Hq Hsc Hi Hle. unfold exclusive. rewrite Hocc.
  destruct (decide (q = p)) as [->|Hne].
  - rewrite lookup_insert_eq in Hq. injection Hq as <-.
    destruct (Hb sc1 Hsc) as (sc & Hs & Hle').
    assert (block_ids_ (block_table sc) = block_ids_ (block_table sc1)) as E.
    { unfold req_table in Ht. by rewrite Hsc, Hs in Ht. }
    apply (Hex p st sc i j); try done; [by rewrite E|lia].
  - rewrite lookup_insert_ne in Hq by done. by apply (Hex q st1 sc1 i).
Qed.

(** A new request has no blocks. *)
Lemma kv_part_new extra h k p st :
  kv_part extra h k -> h !! p = None -> scheduling st = None -> kv_part extra (<[p := st]> h) k.
Proof.
  intros [Hok Hown Hex] Hp Hs.
  assert (forall j, occ (<[p := st]> h) j = occ h j) as Hocc.
  { intros j. rewrite occ_insert_fresh by done. unfold req_table. by rewrite Hs. }
  split; [done|intros j; by rewrite Hocc|].
  intros q st1 sc1 i j Hq Hsc Hi Hle. unfold exclusive. rewrite Hocc.
  destruct (decide (q = p)) as [->|Hne].
  - rewrite lookup_insert_eq in Hq. by simplify_eq.
  - rewrite lookup_insert_ne in Hq by done. by apply (Hex q st1 sc1 i).
Qed.

(** Moving a request's table into the references in hand, and dropping it. *)
Lemma kv_part_take extra h k p st st' :
  kv_part extra h k -> h !! p = Some st -> scheduling st' = None ->
  kv_part (req_table st ++ extra) (<[p := st']> h) k.
Proof.
  intros [Hok Hown Hex] Hp Hs.
  assert (forall j, count j (req_table st ++ extra) + occ (<[p := st']> h) j = count j extra + occ h j) as Hocc.
  { intros j. rewrite (occ_insert h p st st' j Hp), count_app. unfold req_table at 3. rewrite Hs.
    simpl. lia. }
  split; [done|intros j; by rewrite Hocc|].
  intros q st1 sc1 i j Hq Hsc Hi Hle. unfold exclusive. rewrite Hocc.
  destruct (decide (q = p)) as [->|Hne].
  - rewrite lookup_insert_eq in Hq. by simplify_eq.
  - rewrite lookup_insert_ne in Hq by done. by apply (Hex q st1 sc1 i).
Qed.

(** Giving the references in hand to a request: all of them lie below its bound
    or are exclusive. *)
Lemma kv_part_give extra ids h k p st st' sc' :
  kv_part (ids ++ extra) h k -> h !! p = Some st -> scheduling st = None ->
  scheduling st' = Some sc' -> block_ids_ (block_table sc') = ids ->
  (forall i j, ids !! i = Some j -> hash_bound (block_size_ (kv_pool k)) sc' <= Z.of_nat i ->
     exclusive (ids ++ extra) h k j) ->
  kv_part extra (<[p := st']> h) k.
Proof.
  intros [Hok Hown Hex] Hp Hs Hs' Hids Hfresh.
  assert (forall j, count j extra + occ (<[p := st']> h) j = count j (ids ++ extra) + occ h j) as Hocc.
  { intros j. rewrite (occ_insert h p st st' j Hp), count_app. unfold req_table.
    rewrite Hs, Hs', Hids. simpl. lia. }
  split; [done|intros j; by rewrite Hocc|].
  intros q st1 sc1 i j Hq Hsc Hi Hle. unfold exclusive. rewrite Hocc.
  destruct (decide (q = p)) as [->|Hne].
  - rewrite lookup_insert_eq in Hq. injection Hq as <-. rewrite Hs' in Hsc. injection Hsc as <-.
    rewrite Hids in Hi. by apply (Hfresh i).
  - rewrite lookup_insert_ne in Hq by done. by apply (Hex q st1 sc1 i).
Qed.

(** ** The operations on the pool and the cache *)

Lemma kv_part_release extra h k t :
  kv_part (block_ids_ t ++ extra) h k ->
  exists k', release_request_blocks t k = Some k' /\ kv_part extra h k' /\ kv_geometry k k'.
Proof.
  intros [Hok Hown Hex].
  destruct (release_request_blocks_ok t k Hok) as (k' & Hr & Hok' & Hg & Hidx & Hh).
  { intros j. specialize (Hown j). rewrite count_app in Hown.
    pose proof (count_nonneg j extra). pose proof (occ_nonneg h j). lia. }
  exists k'. split_and!; [done| |done].
  assert (block_size_ (kv_pool k') = block_size_ (kv_pool k)) as Hbs by apply Hg.
  split; [done|intros j; rewrite Hh; specialize (Hown j); rewrite count_app in Hown; lia|].
  intros p st sc i j Hp Hsc Hi Hle. rewrite Hbs in Hle.
  destruct (Hex p st sc i j Hp Hsc Hi Hle) as [Hc Hn].
  assert (1 <= occ h j).
  { etrans; [|apply (occ_lookup h p st j Hp)]. unfold req_table. rewrite Hsc. by eapply count_lookup. }
  split; [|destruct Hidx as (_ & _ & -> & _); done].
  rewrite count_app in Hc. pose proof (count_nonneg j (block_ids_ t)).
  pose proof (count_nonneg j extra). lia.
Qed.

(** Fresh blocks are exclusive, whatever the reason they were allocated for. *)
Lemma kv_part_alloc extra h k n :
  kv_part extra h k -> 0 < n ->
  (exists t k', allocate_kv_blocks n k = Some (Value t, k') /\ kv_part (block_ids_ t ++ extra) h k' /\
     kv_geometry k k' /\ table_size t = n /\
     (forall j, j ∈ block_ids_ t -> exclusive (block_ids_ t ++ extra) h k' j) /\
     (forall j, by_block_ (kv_cache k) !! j = None -> by_block_ (kv_cache k') !! j = None)) \/
  (exists k', allocate_kv_blocks n k = Some (Unexpected KVBlockExhausted, k') /\
     kv_part extra h k' /\ kv_geometry k k').
Proof.
  intros [Hok Hown Hex] Hn.
  destruct (Z.le_gt_cases n (num_free_blocks (kv_pool k) + num_idle_blocks (kv_cache k))) as [Hle|Hgt].
  - left. destruct (allocate_kv_blocks_ok n _ k Hok) as (t & k' & Hr & Hok' & Hg & Hsz & Hnd & Hz & Hh); [lia|].
    assert (forall j, j ∈ block_ids_ t -> count j extra + occ h j = 0) as Hnew.
    { intros j Hj. destruct (Hz j Hj) as [Hj0 _]. specialize (Hown j). rewrite Hj0 in Hown.
      pose proof (count_nonneg j extra). pose proof (occ_nonneg h j). lia. }
    exists t, k'. split_and!; try done.
    + split; [done|intros j; rewrite Hh, count_app; specialize (Hown j); lia|].
      intros p st sc i j Hp Hsc Hi Hb. destruct Hg as [_ Hbs]. rewrite Hbs in Hb.
      destruct (Hex p st sc i j Hp Hsc Hi Hb) as [Hc Hnb].
      split; [|by eapply allocate_shrinks].
      rewrite count_app, (count_not_elem j (block_ids_ t)); [lia|].
      intros Hj. specialize (Hnew j Hj). lia.
    + intros j Hj. destruct (Hz j Hj) as [_ Hnb]. split; [|done]. specialize (Hnew j Hj).
      rewrite count_app. apply elem_of_Permutation in Hj as [l Hl]. rewrite Hl in Hnd.
      apply NoDup_cons in Hnd as [Hjl _].
      rewrite (count_perm j _ _ Hl). simpl. rewrite Z.eqb_refl, (count_not_elem j l) by done. lia.
    + intros j. by apply (allocate_shrinks n k (Value t)).
  - right. destruct (allocate_kv_blocks_fail n _ k Hok) as (k' & Hr & Hok' & Hg & _ & _ & Hh); [lia..|].
    exists k'. split_and!; try done.
    split; [done|intros j; specialize (Hh j); specialize (Hown j); lia|].
    intros p st sc i j Hp Hsc Hi Hb. destruct Hg as [_ Hbs]. rewrite Hbs in Hb.
    destruct (Hex p st sc i j Hp Hsc Hi Hb) as [Hc Hnb].
    split; [done|by eapply allocate_shrinks].
Qed.

(** A prefix lookup only returns published blocks, so it touches no exclusive one. *)
Lemma kv_part_lookup extra h k tokens :
  kv_part extra h k -> tokens <> [] ->
  exists r k', @lookup_prefix_cache lenient_build tokens 0 k = Some (r, k') /\
    kv_part (block_ids_ (lk_block_table r) ++ extra) h k' /\ kv_geometry k k' /\
    prefix_hit_blocks r = table_size (lk_block_table r) /\
    prefix_hit_blocks r * block_size_ (kv_pool k) <= size_Z tokens.
Proof.
  intros [Hok Hown Hex] Ht.
  destruct (@lookup_prefix_cache_ok lenient_build tokens 0 k eq_refl (or_introl eq_refl) Hok Ht)
    as (r & k' & Hr & Hok' & Hg & Hidx & Hhit & _ & Hlen & _ & [Hlong _] & Hh).
  exists r, k'. split_and!; try done.
  split; [done|intros j; rewrite Hh, count_app; specialize (Hown j); lia|].
  intros p st sc i j Hp Hsc Hi Hb. destruct Hg as [_ Hbs]. rewrite Hbs in Hb.
  destruct (Hex p st sc i j Hp Hsc Hi Hb) as [Hc Hnb].
  split; [|destruct Hidx as (_ & _ & -> & _); done].
  rewrite count_app, (count_not_elem j); [lia|]. intros Hj.
  apply list_elem_of_lookup in Hj as [n Hj].
  destruct (Forall2_lookup_r _ _ _ n j Hlong Hj) as (hh & _ & Hch).
  rewrite (proj2 (cached_hash_None _ k j Hok) Hnb) in Hch. done.
Qed.

(** Publishing the block at a request's bound and moving the bound past it. *)
Lemma kv_part_publish extra h k p st sc i id parent tokens st' sc' :
  kv_part extra h k -> h !! p = Some st -> scheduling st = Some sc ->
  block_ids_ (block_table sc) !! i = Some id -> hash_bound (block_size_ (kv_pool k)) sc = Z.of_nat i ->
  block_size_ (kv_pool k) <= size_Z tokens ->
  scheduling st' = Some sc' -> block_table sc' = block_table sc ->
  hash_bound (block_size_ (kv_pool k)) sc' = Z.of_nat i + 1 ->
  exists k', publish_full_block parent tokens id 0 k = Some (block_hash k parent tokens 0, k') /\
    kv_part extra (<[p := st']> h) k' /\ kv_pool k' = kv_pool k.
Proof.
  intros Hkp Hp Hsc Hi Hb Htok Hsc' Htab Hb'. pose proof Hkp as [Hok Hown Hex].
  destruct (Hex p st sc i id Hp Hsc Hi) as [Hone Hnb]; [lia|].
  assert (1 <= occ h id) as Hocc1.
  { etrans; [|apply (occ_lookup h p st id Hp)]. unfold req_table. rewrite Hsc. by eapply count_lookup. }
  destruct (publish_full_block_ok _ k parent tokens id 0 Hok Htok) as (k' & Hr & Hok' & Hpool & _ & Hch).
  { specialize (Hown id). pose proof (count_nonneg id extra). lia. }
  { intros hh Hhh. rewrite (proj2 (cached_hash_None _ k id Hok) Hnb) in Hhh. done. }
  exists k'. split_and!; [done| |done].
  assert (req_table st' = req_table st) as Ht by (unfold req_table; by rewrite Hsc, Hsc', Htab).
  assert (forall j, occ (<[p := st']> h) j = occ h j) as Hocc.
  { intros j. rewrite (occ_insert h p st st' j Hp), Ht. lia. }
  assert (forall j, j <> id -> by_block_ (kv_cache k) !! j = None ->
            by_block_ (kv_cache k') !! j = None) as Hkeep.
  { intros j Hj Hn. apply (cached_hash_None _ k' j Hok'). rewrite Hch, decide_False by done.
    by apply (cached_hash_None _ k j Hok). }
  split; [done|intros j; rewrite Hocc; unfold held; rewrite Hpool; apply Hown|].
  rewrite Hpool. intros q st1 sc1 n j Hq Hsc1 Hn Hle. unfold exclusive. rewrite Hocc.
  destruct (decide (q = p)) as [->|Hne].
  - rewrite lookup_insert_eq in Hq. injection Hq as <-. rewrite Hsc' in Hsc1. injection Hsc1 as <-.
    rewrite Htab in Hn. destruct (Hex p st sc n j Hp Hsc Hn) as [Hc Hnj]; [lia|].
    split; [done|]. apply Hkeep; [|done]. intros ->.
    assert (2 <= occ h id); [|pose proof (count_nonneg id extra); lia].
    etrans; [|apply (occ_lookup h p st id Hp)]. unfold req_table. rewrite Hsc.
    apply (count_lookup_two id _ i n); [done|done|lia].
  - rewrite lookup_insert_ne in Hq by done.
    destruct (Hex q st1 sc1 n j Hq Hsc1 Hn Hle) as [Hc Hnj]. split; [done|].
    apply Hkeep; [|done]. intros ->.
    assert (2 <= occ h id); [|pose proof (count_nonneg id extra); lia].
    etrans; [|by apply (occ_two h p q st st1 id Hp Hq); congruence].
    unfold req_table. rewrite Hsc, Hsc1.
    pose proof (count_lookup _ _ _ Hi). pose proof (count_lookup _ _ _ Hn). lia.
Qed.
