(* ===== verification/SchedWork.v ===== *)
(** * Work in flight

    What the scheduler must remember about the items it has dispatched for a
    sequence and not retired yet: the reservation counters are their sums, their
    contexts continue the executed frontier, and each fits the block table it
    carries. *)

From Stdlib Require Import ZArith Lia.
From stdpp Require Import prelude strings gmap fin_maps.
From S2P Require Import Prelude Base Config BlockPool PrefixCache BlockCache BlockCacheInv Scheduler SchedKv.

(** ** Items of a sequence and their sums *)

Definition items_of (q : Z) (l : list WorkItem) : list WorkItem :=
  List.filter (fun it => work_sequence_id it =? q) l.

Lemma items_of_app q l k : items_of q (l ++ k) = items_of q l ++ items_of q k.
Proof. apply List.filter_app. Qed.

Lemma items_of_one_eq q it : work_sequence_id it = q -> items_of q [it] = [it].
Proof. intros H. unfold items_of. simpl. rewrite H, Z.eqb_refl. done. Qed.

Lemma items_of_one_ne q it : work_sequence_id it <> q -> items_of q [it] = [].
Proof. intros H. unfold items_of. simpl. by destruct (Z.eqb_spec (work_sequence_id it) q). Qed.

Lemma items_of_nil q l : (forall it, it ∈ l -> work_sequence_id it <> q) -> items_of q l = [].
Proof.
  induction l as [|it l IH]; intros H; [done|]. change (it :: l) with ([it] ++ l).
  rewrite items_of_app, items_of_one_ne, IH; [done| |]; intros; apply H; [by right|by left].
Qed.

Lemma items_of_nil_inv q l it : items_of q l = [] -> it ∈ l -> work_sequence_id it <> q.
Proof.
  intros Hn Hin <-. induction l as [|x l IH]; [by apply elem_of_nil in Hin|].
  change (x :: l) with ([x] ++ l) in Hn. rewrite items_of_app in Hn. apply app_nil in Hn as [Hx Hl].
  apply elem_of_cons in Hin as [->|Hin]; [|auto]. by rewrite items_of_one_eq in Hx.
Qed.

Definition sum_items (f : WorkItem -> Z) (l : list WorkItem) : Z :=
  foldr (fun it acc => f it + acc) 0 l.

Lemma sum_items_app f l k : sum_items f (l ++ k) = sum_items f l + sum_items f k.
Proof. induction l as [|it l IH]; simpl; [done|]. rewrite IH. lia. Qed.

Lemma sum_items_nonneg f l : Forall (fun it => 0 <= f it) l -> 0 <= sum_items f l.
Proof. induction 1; simpl; lia. Qed.

(** Prompt tokens and sampled tokens of one item. *)
Definition prompt_of (it : WorkItem) : Z :=
  match it with WPrefill w => span_length (prompt_span w) | WDecode _ => 0 end.
Definition gen_of (it : WorkItem) : Z :=
  match it with WPrefill w => if needs_sample w then 1 else 0 | WDecode _ => 1 end.

(** ** Well-formed items *)

(** An item the worker can translate: its context is known, and the positions it
    covers exist in the block table it carries. *)
Record item_wf (bs : Z) (it : WorkItem) : Prop := mk_item_wf {
  iw_context : is_Some match it with WPrefill w => pc_expected_context_len w
                                   | WDecode w => dt_expected_context_len w end;
  iw_nonneg : 0 <= work_context it;
  iw_tokens : 0 < work_token_count it;
  iw_length : match it with WPrefill w => size_Z (pc_tokens w) = span_length (prompt_span w)
                          | WDecode _ => True end;
  iw_table : 0 < table_size (work_block_table it);
  iw_fits : work_context it + kv_token_count it <= bs * table_size (work_block_table it);
}.

Lemma kv_token_nonneg bs it : item_wf bs it -> 0 <= kv_token_count it.
Proof.
  intros [_ _ Ht _ _ _]. destruct it as [w|w]; simpl in *; [lia|]. destruct (write_kv w); lia.
Qed.

Lemma prompt_nonneg bs it : item_wf bs it -> 0 <= prompt_of it.
Proof. intros [_ _ Ht _ _ _]. destruct it; simpl in *; lia. Qed.

Lemma gen_nonneg it : 0 <= gen_of it.
Proof. destruct it as [w|w]; simpl; [destruct (needs_sample w)|]; lia. Qed.

(** An item of a sequence: at or past the frontier, on a prefix of its table. *)
Definition item_at (bs : Z) (sc : SequenceSchedulingState) (it : WorkItem) : Prop :=
  item_wf bs it /\ executed_frontier sc <= work_context it /\
  block_ids_ (work_block_table it) `prefix_of` block_ids_ (block_table sc).

(** ** The reservation *)

Record resv_exact (r : SequenceReservation) (l : list WorkItem) : Prop := mk_resv_exact {
  re_leases : execution_leases r = size_Z l;
  re_prompt : reserved_prompt_tokens r = sum_items prompt_of l;
  re_gen : reserved_generation_tokens r = sum_items gen_of l;
  re_kv : reserved_kv_tokens r = sum_items kv_token_count l;
}.

Lemma resv_exact_nil : resv_exact (mkReservation 0 0 0 0) [].
Proof. done. Qed.

Lemma resv_exact_reserve r l it :
  resv_exact r l -> resv_exact (reserve r (prompt_of it) (gen_of it) (kv_token_count it)) (l ++ [it]).
Proof.
  intros [A B C D]. split; simpl; rewrite ?sum_items_app, ?size_Z_app; simpl; try lia.
  rewrite A. done.
Qed.

Lemma resv_exact_retire bs r it l :
  resv_exact r (it :: l) -> Forall (item_wf bs) (it :: l) -> resv_exact (retire_counters r it) l.
Proof.
  intros [A B C D] Hf. rewrite size_Z_cons in A. simpl in *.
  apply Forall_cons in Hf as [Hit Hl].
  pose proof (size_Z_nonneg l). pose proof (gen_nonneg it).
  assert (0 <= sum_items prompt_of l) by (apply sum_items_nonneg; eapply Forall_impl, prompt_nonneg; done).
  assert (0 <= sum_items kv_token_count l)
    by (apply sum_items_nonneg; eapply Forall_impl, kv_token_nonneg; done).
  assert (0 <= sum_items gen_of l) by (apply sum_items_nonneg, Forall_true, gen_nonneg).
  pose proof (kv_token_nonneg bs it Hit). pose proof (prompt_nonneg bs it Hit).
  unfold retire_counters. destruct (Z.ltb_spec 0 (execution_leases r)); [|lia].
  destruct it as [w|w]; simpl in *; split; simpl; try lia.
  - destruct (needs_sample w); [|lia].
    destruct (Z.ltb_spec 0 (reserved_generation_tokens r)); lia.
  - destruct (Z.ltb_spec 0 (reserved_generation_tokens r)); lia.
Qed.

Lemma sum_items_perm f l k : l ≡ₚ k -> sum_items f l = sum_items f k.
Proof. induction 1; simpl; lia. Qed.

(** The counters do not depend on the order of the items. *)
Lemma resv_exact_perm r l k : l ≡ₚ k -> resv_exact r l -> resv_exact r k.
Proof.
  intros Hp [A B C D].
  split; rewrite <- ?(sum_items_perm _ _ _ Hp); try done. rewrite A. unfold size_Z.
  by rewrite (Permutation_length Hp).
Qed.

(** ** Chains: consecutive items of an active sequence *)

(** Prefill chunks from position [pos] at context [ctx]; the last chunk of the
    prompt samples unless [nosample]. *)
Fixpoint pchain (plen : Z) (nosample : bool) (pos ctx : Z) (l : list WorkItem) : Prop :=
  match l with
  | [] => True
  | WPrefill w :: l =>
      let len := span_length (prompt_span w) in
      span_start (prompt_span w) = pos /\ 0 < len /\ pos + len <= plen /\
      pc_expected_context_len w = Some ctx /\
      needs_sample w = (plen <=? pos + len) && negb nosample /\
      pchain plen nosample (pos + len) (ctx + len) l
  | WDecode _ :: _ => False
  end.

(** Decode steps from context [ctx], each writing one token. *)
Fixpoint dchain (ctx : Z) (l : list WorkItem) : Prop :=
  match l with
  | [] => True
  | WDecode w :: l => write_kv w = true /\ dt_expected_context_len w = Some ctx /\ dchain (ctx + 1) l
  | WPrefill _ :: _ => False
  end.

Lemma pchain_snoc plen ns pos ctx l it :
  pchain plen ns pos ctx l ->
  pchain plen ns (pos + sum_items prompt_of l) (ctx + sum_items kv_token_count l) [it] ->
  pchain plen ns pos ctx (l ++ [it]).
Proof.
  revert pos ctx. induction l as [|[w|w] l IH]; intros pos ctx Hl Hit; [|simpl|done].
  - simpl sum_items in Hit. by rewrite !Z.add_0_r in Hit.
  - destruct Hl as (? & ? & ? & ? & ? & Hl). split_and!; try done. apply IH; [done|].
    simpl sum_items in Hit. by rewrite !Z.add_assoc in Hit.
Qed.

Lemma dchain_snoc ctx l it :
  dchain ctx l -> dchain (ctx + sum_items kv_token_count l) [it] -> dchain ctx (l ++ [it]).
Proof.
  revert ctx. induction l as [|[w|w] l IH]; intros ctx Hl Hit; [|done|simpl].
  - simpl sum_items in Hit. by rewrite !Z.add_0_r in Hit.
  - destruct Hl as (Hw & ? & Hl). split_and!; try done. apply IH; [done|].
    simpl sum_items in Hit. rewrite Hw in Hit. by rewrite !Z.add_assoc in Hit.
Qed.

Lemma pchain_contexts plen ns pos ctx l :
  pchain plen ns pos ctx l -> Forall (fun it => ctx <= work_context it) l.
Proof.
  revert pos ctx. induction l as [|[w|w] l IH]; intros pos ctx Hl; [done| |done].
  destruct Hl as (_ & ? & _ & He & _ & Hl). constructor; [unfold work_context; simpl; rewrite He; simpl; lia|].
  eapply Forall_impl; [by eapply IH|]. simpl. intros. lia.
Qed.

Lemma dchain_contexts ctx l : dchain ctx l -> Forall (fun it => ctx <= work_context it) l.
Proof.
  revert ctx. induction l as [|[w|w] l IH]; intros ctx Hl; [done|done|].
  destruct Hl as (_ & He & Hl). constructor; [unfold work_context; simpl; rewrite He; simpl; lia|].
  eapply Forall_impl; [by eapply IH|]. simpl. intros. lia.
Qed.

Lemma pchain_room plen ns pos ctx l :
  pchain plen ns pos ctx l -> pos <= plen -> pos + sum_items prompt_of l <= plen.
Proof.
  revert pos ctx. induction l as [|[w|w] l IH]; intros pos ctx Hl Hp; simpl; [lia| |done].
  destruct Hl as (_ & ? & ? & _ & _ & Hl). apply IH in Hl; lia.
Qed.

Lemma pchain_kv plen ns pos ctx l :
  pchain plen ns pos ctx l -> sum_items kv_token_count l = sum_items prompt_of l.
Proof.
  revert pos ctx. induction l as [|[w|w] l IH]; intros pos ctx Hl; simpl; [done| |done].
  destruct Hl as (_ & _ & _ & _ & _ & Hl). by rewrite (IH _ _ Hl).
Qed.

(** Nothing follows the last chunk. *)
Lemma pchain_end plen ns pos ctx l : pchain plen ns pos ctx l -> plen <= pos -> l = [].
Proof. destruct l as [|[w|w] l]; [done|intros (_ & ? & ? & _); lia|done]. Qed.

(** ** One sequence *)

Definition replay_no_sample (st : RequestState) (sc : SequenceSchedulingState) : bool :=
  bool_decide (phase (cursor sc) = ReplayPrefill) && negb (bool_decide (generated_tokens st = [])).

Definition phase_ok (bs : Z) (st : RequestState) (sc : SequenceSchedulingState)
    (l : list WorkItem) : Prop :=
  let plen := size_Z (prompt_tokens st) in
  let cur := prefill_cursor (cursor sc) in
  match phase (cursor sc) with
  | Prefill | ReplayPrefill =>
      executed_frontier sc = cur /\ cur <= plen <= bs * table_size (block_table sc) /\
      pchain plen (replay_no_sample st sc) cur cur l
  | Bootstrap =>
      prompt_tokens st <> [] /\
      (l = [] \/ exists w, l = [WDecode w] /\ write_kv w = false /\
         dt_expected_context_len w = Some (executed_frontier sc))
  | Decode => generated_tokens st <> [] /\ dchain (executed_frontier sc) l
  end.

Record active_ok (bs : Z) (st : RequestState) (sc : SequenceSchedulingState)
    (l : list WorkItem) : Prop := mk_active_ok {
  ao_pending : size_Z (pending_hash_tokens sc) <= executed_frontier sc;
  ao_frontier : executed_frontier sc <= bs * table_size (block_table sc);
  ao_table : 0 < table_size (block_table sc);
  ao_phase : phase_ok bs st sc l;
}.

Record work_ok (bs : Z) (st : RequestState) (sc : SequenceSchedulingState)
    (l : list WorkItem) : Prop := mk_work_ok {
  wo_resv : resv_exact (reservation sc) l;
  wo_items : Forall (item_at bs sc) l;
  wo_active : status st = Active -> active_ok bs st sc l;
}.

Lemma item_at_wf bs sc l : Forall (item_at bs sc) l -> Forall (item_wf bs) l.
Proof. intros H. eapply Forall_impl; [done|]. by intros it [? _]. Qed.

Lemma work_ok_idle bs st sc l : work_ok bs st sc l -> execution_leases (reservation sc) = 0 -> l = [].
Proof.
  intros [[A _ _ _] _ _] H. rewrite H in A. unfold size_Z in A. destruct l; [done|simpl in A; lia].
Qed.

(** Leaving [Active] frees a request from everything but its reservation. *)
Lemma work_ok_inactive bs st st' sc l :
  work_ok bs st sc l -> status st' <> Active -> work_ok bs st' sc l.
Proof. intros [A B _] H. by split. Qed.
