(* ===== verification/SchedInv.v ===== *)
(** * The scheduler's invariant

    Program logic for the monad [M], and the invariant of the scheduler in four
    parts: the KV blocks ([kv_part]), where each request is ([place]), what is in
    flight for each sequence ([work_part]), and the global side conditions. *)

From Stdlib Require Import ZArith Lia.
From stdpp Require Import prelude strings gmap fin_maps.
From S2P Require Import Prelude Base Config BlockPool PrefixCache BlockCache BlockCacheInv Scheduler SchedKv SchedWork.

(** ** Weakest preconditions: the run ends, without a failed assertion *)

Definition wp {A} (m : M A) (Q : A -> Scheduler -> Prop) (s : Scheduler) : Prop :=
  match m s with Some (a, s') => Q a s' | None => False end.

Lemma wp_bind {A B} (m : M A) (f : A -> M B) Q s :
  wp m (fun a s' => wp (f a) Q s') s -> wp (m ≫= f) Q s.
Proof. unfold wp, mbind, M_bind. destruct (m s) as [[a s']|]; done. Qed.

Lemma wp_mono {A} (m : M A) (Q Q' : A -> Scheduler -> Prop) s :
  wp m Q s -> (forall a s', Q a s' -> Q' a s') -> wp m Q' s.
Proof. unfold wp. destruct (m s) as [[a s']|]; auto. Qed.

Lemma wp_run {A} (m : M A) Q s : wp m Q s <-> exists a s', m s = Some (a, s') /\ Q a s'.
Proof.
  unfold wp. destruct (m s) as [[a s']|]; split; [eauto| |done|].
  - by intros (? & ? & [= <- <-] & ?).
  - by intros (? & ? & ? & _).
Qed.

Lemma wp_ret {A} (a : A) (Q : A -> Scheduler -> Prop) s : Q a s -> wp (mret a) Q s.
Proof. done. Qed.
Lemma wp_gets {A} (f : Scheduler -> A) (Q : A -> Scheduler -> Prop) s : Q (f s) s -> wp (gets f) Q s.
Proof. done. Qed.
Lemma wp_modify f (Q : unit -> Scheduler -> Prop) s : Q tt (f s) -> wp (modify f) Q s.
Proof. done. Qed.
Lemma wp_store p st (Q : unit -> Scheduler -> Prop) s :
  Q tt (set_heap (<[p := st]> (heap s)) s) -> wp (store p st) Q s.
Proof. done. Qed.
Lemma wp_assert b (Q : unit -> Scheduler -> Prop) s : b = true -> Q tt s -> wp (assert_ b) Q s.
Proof. by intros ->. Qed.
Lemma wp_lift {A} (x : option A) a (Q : A -> Scheduler -> Prop) s :
  x = Some a -> Q a s -> wp (lift_opt x) Q s.
Proof. by intros ->. Qed.
Lemma wp_deref p st (Q : RequestState -> Scheduler -> Prop) s :
  heap s !! p = Some st -> Q st s -> wp (deref p) Q s.
Proof. unfold wp, deref. by intros ->. Qed.
Lemma wp_with_kv {A} (f : KvState -> option (A * KvState)) a k (Q : A -> Scheduler -> Prop) s :
  f (kv s) = Some (a, k) -> Q a (set_kv k s) -> wp (with_kv f) Q s.
Proof. unfold wp, with_kv. by intros ->. Qed.
Lemma wp_with_kv_ f k (Q : unit -> Scheduler -> Prop) s :
  f (kv s) = Some k -> Q tt (set_kv k s) -> wp (with_kv_ f) Q s.
Proof. unfold wp, with_kv_. by intros ->. Qed.

(** Steps through the straight-line part of a method. *)
Ltac wp1 :=
  lazymatch goal with
  | |- wp (_ ≫= _) _ _ => apply wp_bind
  | |- wp (mret _) _ _ => apply wp_ret
  | |- wp (gets _) _ _ => apply wp_gets
  | |- wp (modify _) _ _ => apply wp_modify
  | |- wp (store _ _) _ _ => apply wp_store
  end; cbv beta.
Ltac wps := repeat wp1.

(** ** Where each request is *)

(** What the queues, the registry and [by_seq_id_] see of a request: its id and
    its sequence, if it has one. *)
Definition shape (st : RequestState) : string * option Z := (request_id st, seq_id <$> scheduling st).

(** [hand] is the request a method has popped from a queue and not placed yet. *)
Record place (hand : list Z) (hs : gmap Z (string * option Z)) (rq : gmap string Z)
    (w sk rn : list Z) (bseq : gmap Z Z) (nseq nptr : Z) : Prop := mk_place {
  pl_seq : forall p id q, hs !! p = Some (id, Some q) -> q < nseq /\
    ((p ∈ rn /\ bseq !! q = Some p) \/ (p ∈ hand ++ sk /\ bseq !! q = None));
  pl_inj : forall p p' id id' q, hs !! p = Some (id, Some q) -> hs !! p' = Some (id', Some q) -> p = p';
  pl_by_seq : forall q p, bseq !! q = Some p -> exists id, hs !! p = Some (id, Some q);
  pl_running : forall p, p ∈ rn -> exists id q, hs !! p = Some (id, Some q);
  pl_skip : forall p, p ∈ sk -> exists id q, hs !! p = Some (id, Some q);
  pl_waiting : forall p, p ∈ w -> exists id, hs !! p = Some (id, None);
  pl_hand : forall p, p ∈ hand -> is_Some (hs !! p);
  pl_nodup : NoDup (hand ++ w ++ sk ++ rn);
  pl_reg1 : forall id p, rq !! id = Some p -> p ∈ hand ++ w ++ sk ++ rn /\ exists o, hs !! p = Some (id, o);
  pl_reg2 : forall p id o, p ∈ hand ++ w ++ sk ++ rn -> hs !! p = Some (id, o) -> rq !! id = Some p;
  pl_fresh : forall p x, hs !! p = Some x -> p < nptr;
}.

Section place.
Context (hs : gmap Z (string * option Z)) (rq : gmap string Z)
  (w sk rn : list Z) (bseq : gmap Z Z) (nseq nptr : Z).

Lemma pl_running_seq hand p id q :
  place hand hs rq w sk rn bseq nseq nptr -> p ∈ rn -> hs !! p = Some (id, Some q) -> bseq !! q = Some p.
Proof.
  intros H Hp Hs. destruct (pl_seq _ _ _ _ _ _ _ _ _ H p id q Hs) as [_ [[_ ?]|[Hin _]]]; [done|].
  pose proof (pl_nodup _ _ _ _ _ _ _ _ _ H) as Hnd. exfalso.
  rewrite !NoDup_app in Hnd. set_solver.
Qed.

Lemma pl_not_running hand p id q :
  place hand hs rq w sk rn bseq nseq nptr -> p ∈ hand ++ sk -> hs !! p = Some (id, Some q) ->
  bseq !! q = None.
Proof.
  intros H Hp Hs. destruct (pl_seq _ _ _ _ _ _ _ _ _ H p id q Hs) as [_ [[Hin _]|[_ ?]]]; [|done].
  pose proof (pl_nodup _ _ _ _ _ _ _ _ _ H) as Hnd. exfalso.
  rewrite !NoDup_app in Hnd. set_solver.
Qed.

Lemma place_new hand id :
  place hand hs rq w sk rn bseq nseq nptr -> rq !! id = None ->
  place hand (<[nptr := (id, None)]> hs) (<[id := nptr]> rq) (w ++ [nptr]) sk rn bseq nseq (nptr + 1).
Proof.
  intros [Hseq Hinj Hbs Hrn Hsk Hw Hh Hnd H1 H2 Hfr] Hid.
  assert (hs !! nptr = None) as Hn.
  { destruct (hs !! nptr) eqn:E; [|done]. apply Hfr in E. lia. }
  assert (forall p x, hs !! p = Some x -> <[nptr := (id, None)]> hs !! p = Some x) as Hkeep.
  { intros p x Hp. rewrite lookup_insert_ne; [done|]. intros <-. congruence. }
  assert (forall p i q, <[nptr := (id, None)]> hs !! p = Some (i, Some q) ->
            hs !! p = Some (i, Some q)) as Hback.
  { intros p i q. rewrite lookup_insert. case_decide; [done|auto]. }
  assert (forall p, p ∈ hand ++ w ++ sk ++ rn -> is_Some (hs !! p)) as Hdom.
  { intros p. rewrite !elem_of_app. intros [Hp|[Hp|[Hp|Hp]]];
      [auto|destruct (Hw p Hp) as (? & ?)|destruct (Hsk p Hp) as (? & ? & ?)
       |destruct (Hrn p Hp) as (? & ? & ?)]; eauto. }
  assert (nptr ∉ hand ++ w ++ sk ++ rn) as Hnin.
  { intros Hin. destruct (Hdom _ Hin). congruence. }
  assert (hand ++ (w ++ [nptr]) ++ sk ++ rn ≡ₚ nptr :: hand ++ w ++ sk ++ rn) as Hperm.
  { solve_Permutation. }
  split.
  - intros p i q Hp. by eapply Hseq, Hback.
  - intros p p' i i' q Hp Hp'. eapply Hinj; by apply Hback.
  - intros q p Hq. destruct (Hbs q p Hq) as [i Hi]. eauto.
  - intros p Hp. destruct (Hrn p Hp) as (i & q & Hi). eauto.
  - intros p Hp. destruct (Hsk p Hp) as (i & q & Hi). eauto.
  - intros p [Hp| ->%list_elem_of_singleton]%elem_of_app.
    + destruct (Hw p Hp) as (i & Hi). eauto.
    + exists id. by rewrite lookup_insert_eq.
  - intros p Hp. destruct (Hh p Hp) as [x Hx]. eauto.
  - rewrite Hperm. by constructor.
  - intros i p. rewrite lookup_insert. case_decide as E; rewrite Hperm.
    + intros [= <-]. subst i. split; [left|]. rewrite lookup_insert_eq. eauto.
    + intros Hi. destruct (H1 i p Hi) as [Hin [o Ho]]. split; [by right|eauto].
  - intros p i o. rewrite Hperm. rewrite (lookup_insert hs). case_decide as E.
    + intros _ [= <- <-]. rewrite lookup_insert_eq. by subst.
    + intros [->|Hin]%elem_of_cons Hp; [done|]. rewrite lookup_insert_ne; [by eapply H2|].
      intros ->. rewrite (H2 p i o Hin Hp) in Hid. done.
  - intros p x. rewrite lookup_insert. case_decide; [intros; lia|]. intros Hp. apply Hfr in Hp. lia.
Qed.

(** Regrouping the queues and the hand without changing what they hold. *)
Lemma place_regroup hand hand' w' sk' rn' :
  place hand hs rq w sk rn bseq nseq nptr ->
  hand' ++ w' ++ sk' ++ rn' ≡ₚ hand ++ w ++ sk ++ rn ->
  (forall p, p ∈ rn' <-> p ∈ rn) ->
  (forall p, p ∈ sk' -> exists id q, hs !! p = Some (id, Some q)) ->
  (forall p, p ∈ w' -> exists id, hs !! p = Some (id, None)) ->
  place hand' hs rq w' sk' rn' bseq nseq nptr.
Proof.
  intros [Hseq Hinj Hbs Hrn Hsk Hw Hh Hnd H1 H2 Hfr] Hperm Hr Hsk' Hw'.
  assert (forall p, p ∈ hand' ++ w' ++ sk' ++ rn' <-> p ∈ hand ++ w ++ sk ++ rn) as Hel
    by (intros p; by rewrite Hperm).
  assert (forall p, p ∈ hand ++ w ++ sk ++ rn -> is_Some (hs !! p)) as Hdom.
  { intros p. rewrite !elem_of_app. intros [Hp|[Hp|[Hp|Hp]]];
      [auto|destruct (Hw p Hp) as (? & ?)|destruct (Hsk p Hp) as (? & ? & ?)
       |destruct (Hrn p Hp) as (? & ? & ?)]; eauto. }
  rewrite <- Hperm in Hnd. split; try done.
  - intros p id q Hp. destruct (Hseq p id q Hp) as [? Hor]. split; [done|].
    destruct Hor as [[Hin Hb]|[Hin Hb]]; [left; split; [by apply Hr|done]|right; split; [|done]].
    assert (p ∈ hand' ++ w' ++ sk' ++ rn') as Hin' by (apply Hel; set_solver).
    rewrite !elem_of_app in Hin'. rewrite elem_of_app. destruct Hin' as [|[Hx|[|Hx]]]; [auto| |auto|].
    + destruct (Hw' p Hx) as [? E]. congruence.
    + apply Hr in Hx. destruct (Hrn p Hx) as (i2 & q2 & E). rewrite Hp in E. simplify_eq.
      destruct (Hseq p i2 q2 Hp) as [_ [[_ ?]|[_ _]]]; [congruence|].
      exfalso. rewrite Hperm in Hnd. rewrite !NoDup_app in Hnd. set_solver.
  - intros p Hp. apply Hrn, Hr, Hp.
  - intros p Hp. apply Hdom, Hel. set_solver.
  - intros id p Hp. rewrite Hel. by apply H1.
  - intros p id o. rewrite Hel. by apply H2.
Qed.

(** A request in hand starts to run. *)
Lemma place_run hand0 p id q :
  place (p :: hand0) hs rq w sk rn bseq nseq nptr -> hs !! p = Some (id, Some q) ->
  place hand0 hs rq w sk (rn ++ [p]) (<[q := p]> bseq) nseq nptr.
Proof.
  intros Hpl Hp. assert (bseq !! q = None) as Hq by (eapply (pl_not_running _ p); [done|set_solver|done]).
  destruct Hpl as [Hseq Hinj Hbs Hrn Hsk Hw Hh Hnd H1 H2 Hfr].
  assert (hand0 ++ w ++ sk ++ rn ++ [p] ≡ₚ (p :: hand0) ++ w ++ sk ++ rn) as Hperm by solve_Permutation.
  split; try done.
  - intros p' i q' Hp'. destruct (Hseq p' i q' Hp') as [? Hor]. split; [done|].
    destruct (decide (p' = p)) as [->|Hne].
    + rewrite Hp in Hp'. simplify_eq. left. split; [set_solver|by rewrite lookup_insert_eq].
    + assert (q' <> q) by (intros ->; apply Hne; by eapply Hinj).
      rewrite lookup_insert_ne by done. destruct Hor as [[??]|[??]]; [left|right]; split; try done; set_solver.
  - intros q' p'. rewrite lookup_insert. case_decide as E; [intros [= <-]; subst; eauto|apply Hbs].
  - intros p' [?| ->%list_elem_of_singleton]%elem_of_app; eauto.
  - intros p' ?. apply Hh. set_solver.
  - by rewrite Hperm.
  - intros i p'. rewrite Hperm. apply H1.
  - intros p' i o. rewrite Hperm. apply H2.
Qed.

(** A running request leaves [running_] and [by_seq_id_]. *)
Lemma place_stop hand p id q :
  place hand hs rq w sk rn bseq nseq nptr -> p ∈ rn -> hs !! p = Some (id, Some q) ->
  place (p :: hand) hs rq w sk (erase1 p rn) (delete q bseq) nseq nptr.
Proof.
  intros Hpl Hin Hp. destruct Hpl as [Hseq Hinj Hbs Hrn Hsk Hw Hh Hnd H1 H2 Hfr].
  assert ((p :: hand) ++ w ++ sk ++ erase1 p rn ≡ₚ hand ++ w ++ sk ++ rn) as Hperm.
  { rewrite (erase1_perm p rn Hin) at 2. solve_Permutation. }
  assert (NoDup rn) as Hndr by (rewrite !NoDup_app in Hnd; naive_solver).
  split; try done.
  - intros p' i q' Hp'. destruct (Hseq p' i q' Hp') as [? Hor]. split; [done|].
    destruct (decide (p' = p)) as [->|Hne].
    + rewrite Hp in Hp'. simplify_eq. right. split; [set_solver|by rewrite lookup_delete_eq].
    + assert (q' <> q) by (intros ->; apply Hne; by eapply Hinj).
      rewrite lookup_delete_ne by done. destruct Hor as [[??]|[??]]; [left|right]; split; try done.
      * by apply elem_of_erase1.
      * set_solver.
  - intros q' p'. rewrite lookup_delete_Some. intros [_ ?]. by apply Hbs.
  - intros p' ?%erase1_subseteq. by apply Hrn.
  - intros p' [->|?]%elem_of_cons; eauto.
  - by rewrite Hperm.
  - intros i p'. rewrite Hperm. apply H1.
  - intros p' i o. rewrite Hperm. apply H2.
Qed.

(** A request in hand loses its sequence. *)
Lemma place_unschedule hand p id q :
  place hand hs rq w sk rn bseq nseq nptr -> p ∈ hand -> hs !! p = Some (id, Some q) ->
  place hand (<[p := (id, None)]> hs) rq w sk rn (delete q bseq) nseq nptr.
Proof.
  intros Hpl Hin Hp. assert (bseq !! q = None) as Hq by (eapply (pl_not_running _ p); [done|set_solver|done]).
  rewrite delete_id by done.
  destruct Hpl as [Hseq Hinj Hbs Hrn Hsk Hw Hh Hnd H1 H2 Hfr].
  assert (forall p', p' ∈ w ++ sk ++ rn -> p' <> p) as Hne.
  { intros p' Hp' ->. rewrite NoDup_app in Hnd. set_solver. }
  assert (forall p' i q', <[p := (id, None)]> hs !! p' = Some (i, Some q') ->
            hs !! p' = Some (i, Some q')) as Hback.
  { intros p' i q'. rewrite lookup_insert. case_decide; [done|auto]. }
  split; try done.
  - intros p' i q' Hp'. by eapply Hseq, Hback.
  - intros p1 p2 i1 i2 q' A1 A2. eapply Hinj; by apply Hback.
  - intros q' p' Hb. destruct (Hbs q' p' Hb) as [i Hi]. exists i. rewrite lookup_insert_ne; [done|].
    intros ->. congruence.
  - intros p' Hp'. rewrite lookup_insert_ne; [by apply Hrn|]. apply not_eq_sym, Hne. set_solver.
  - intros p' Hp'. rewrite lookup_insert_ne; [by apply Hsk|]. apply not_eq_sym, Hne. set_solver.
  - intros p' Hp'. rewrite lookup_insert_ne; [by apply Hw|]. apply not_eq_sym, Hne. set_solver.
  - intros p' Hp'. rewrite lookup_insert. case_decide; [by eexists|by apply Hh].
  - intros i p' Hi. destruct (H1 i p' Hi) as [? [o Ho]]. split; [done|].
    rewrite lookup_insert. case_decide as E; [|eauto]. subst. rewrite Hp in Ho. simplify_eq. eauto.
  - intros p' i o Hp'. rewrite lookup_insert. case_decide as E; [|by apply H2].
    intros [= <- <-]. subst. by eapply H2.
  - intros p' x. rewrite lookup_insert. case_decide as E; [|by apply Hfr]. intros _. subst. by eapply Hfr.
Qed.

(** A request in hand is given the next sequence id. *)
Lemma place_schedule hand p id :
  place hand hs rq w sk rn bseq nseq nptr -> p ∈ hand -> hs !! p = Some (id, None) ->
  place hand (<[p := (id, Some nseq)]> hs) rq w sk rn bseq (nseq + 1) nptr.
Proof.
  intros Hpl Hin Hp. destruct Hpl as [Hseq Hinj Hbs Hrn Hsk Hw Hh Hnd H1 H2 Hfr].
  assert (bseq !! nseq = None) as Hq.
  { destruct (bseq !! nseq) as [p'|] eqn:E; [|done]. destruct (Hbs _ _ E) as [i Hi].
    destruct (Hseq _ _ _ Hi) as [? _]. lia. }
  assert (forall p', p' ∈ w ++ sk ++ rn -> p' <> p) as Hne.
  { intros p' Hp' ->. rewrite NoDup_app in Hnd. set_solver. }
  split; try done.
  - intros p' i q'. rewrite lookup_insert. case_decide as E.
    + intros [= <- <-]. subst. split; [lia|]. right. split; [set_solver|done].
    + intros Hp'. destruct (Hseq p' i q' Hp'). split; [lia|done].
  - intros p1 p2 i1 i2 q'. rewrite !lookup_insert. do 2 case_decide; intros A1 A2; simplify_eq; try done.
    + destruct (Hseq _ _ _ A2). lia.
    + destruct (Hseq _ _ _ A1). lia.
    + by eapply Hinj.
  - intros q' p' Hb. destruct (Hbs q' p' Hb) as [i Hi]. exists i. rewrite lookup_insert_ne; [done|].
    intros ->. congruence.
  - intros p' Hp'. rewrite lookup_insert_ne; [by apply Hrn|]. apply not_eq_sym, Hne. set_solver.
  - intros p' Hp'. rewrite lookup_insert_ne; [by apply Hsk|]. apply not_eq_sym, Hne. set_solver.
  - intros p' Hp'. rewrite lookup_insert_ne; [by apply Hw|]. apply not_eq_sym, Hne. set_solver.
  - intros p' Hp'. rewrite lookup_insert. case_decide; [by eexists|by apply Hh].
  - intros i p' Hi. destruct (H1 i p' Hi) as [? [o Ho]]. split; [done|].
    rewrite lookup_insert. case_decide as E; [|eauto]. subst. rewrite Hp in Ho. simplify_eq. eauto.
  - intros p' i o Hp'. rewrite lookup_insert. case_decide as E; [|by apply H2].
    intros [= <- <-]. subst. by eapply H2.
  - intros p' x. rewrite lookup_insert. case_decide as E; [|by apply Hfr]. intros _. subst. by eapply Hfr.
Qed.

(** A request in hand is forgotten. *)
Lemma place_erase hand0 p id :
  place (p :: hand0) hs rq w sk rn bseq nseq nptr -> hs !! p = Some (id, None) ->
  place hand0 hs (delete id rq) w sk rn bseq nseq nptr.
Proof.
  intros Hpl Hp. destruct Hpl as [Hseq Hinj Hbs Hrn Hsk Hw Hh Hnd H1 H2 Hfr].
  assert (p ∉ hand0 ++ w ++ sk ++ rn /\ NoDup (hand0 ++ w ++ sk ++ rn)) as [Hpn Hnd'].
  { by apply NoDup_cons in Hnd. }
  split; try done.
  - intros p' i q Hp'. destruct (Hseq p' i q Hp') as [? [?|[Hin ?]]]; split; [done|by left|done|right].
    split; [|done]. apply elem_of_cons in Hin as [->|?]; [congruence|done].
  - intros p' Hp'. apply Hh. by right.
  - intros i p'. rewrite lookup_delete_Some. intros [Hi Hr]. destruct (H1 i p' Hr) as [Hin Ho].
    split; [|done]. apply elem_of_cons in Hin as [->|?]; [|done].
    destruct Ho as [o Ho]. rewrite Hp in Ho. simplify_eq.
  - intros p' i o Hin Hp'. assert (rq !! i = Some p') as Hr by (eapply H2; [by right|done]).
    rewrite lookup_delete_ne; [done|]. intros ->.
    assert (rq !! i = Some p) by (eapply H2; [left|done]). simplify_eq. done.
Qed.
End place.

(** ** The invariant *)

Definition bsz (s : Scheduler) : Z := block_size_ (kv_pool (kv s)).

(** [hand]: requests popped and not placed yet; [extra]: block references in the
    hands of a method; [infl]: items dispatched or being built, oldest first;
    [dead]: sequences the executor has given up. *)
Record sched_inv (hand extra : list Z) (infl : list WorkItem) (dead : gset Z) (s : Scheduler)
  : Prop := mk_sched_inv {
  si_kv : kv_part extra (heap s) (kv s);
  si_place : place hand (shape <$> heap s) (requests_ s) (waiting_ s) (skip_ s) (running_ s)
               (by_seq_id_ s) (next_seq_id_ s) (next_ptr s);
  si_work : forall p st sc, heap s !! p = Some st -> scheduling st = Some sc ->
    work_ok (bsz s) st sc (items_of (seq_id sc) infl) /\ (seq_id sc ∈ dead -> status st <> Active);
  si_infl : forall it, it ∈ infl -> is_Some (by_seq_id_ s !! work_sequence_id it);
  si_dead : forall q, q ∈ dead -> q < next_seq_id_ s;
  si_paused : admission_paused_ s = true -> accepting_ s = true -> running_ s <> [];
  si_limits : size_Z (running_ s) <= u64 (max_running_requests (engine_config_ s)) /\
              size_Z (running_ s) + size_Z (skip_ s) <= u64 (max_sequences (engine_config_ s));
  si_geometry : max_blocks_ (kv_pool (kv s)) = Config.max_blocks (engine_config_ s) /\
                bsz s = kv_block_size (engine_config_ s);
}.

Lemma bsz_pos hand extra infl dead s : sched_inv hand extra infl dead s -> 0 < bsz s.
Proof. intros H. by eapply kv_part_bs, si_kv. Qed.

(** The fields a method that only works on one request and the pool leaves alone. *)
Record same_frame (s s' : Scheduler) : Prop := mk_same_frame {
  sf_config : engine_config_ s' = engine_config_ s;
  sf_next_ptr : next_ptr s' = next_ptr s;
  sf_requests : requests_ s' = requests_ s;
  sf_waiting : waiting_ s' = waiting_ s;
  sf_skip : skip_ s' = skip_ s;
  sf_running : running_ s' = running_ s;
  sf_by_seq : by_seq_id_ s' = by_seq_id_ s;
  sf_paused : admission_paused_ s' = admission_paused_ s;
  sf_accepting : accepting_ s' = true -> accepting_ s = true;
  sf_next_seq : next_seq_id_ s' = next_seq_id_ s;
  sf_geometry : kv_geometry (kv s) (kv s');
}.

Lemma same_frame_refl s : same_frame s s.
Proof. split; first [done | apply kv_geometry_refl]. Qed.

Lemma same_frame_trans s1 s2 s3 : same_frame s1 s2 -> same_frame s2 s3 -> same_frame s1 s3.
Proof.
  intros [] []. split; first [congruence | by eapply kv_geometry_trans | auto].
Qed.

Lemma same_frame_bsz s s' : same_frame s s' -> bsz s' = bsz s.
Proof. intros [_ _ _ _ _ _ _ _ _ _ [_ H]]. exact H. Qed.

Ltac frame := split; simpl; first [done | apply kv_geometry_refl | auto].

Lemma shape_insert (h : gmap Z RequestState) p st st' :
  h !! p = Some st -> shape st' = shape st -> shape <$> <[p := st']> h = shape <$> h.
Proof.
  intros Hp Hs. rewrite fmap_insert, Hs. apply insert_id. by rewrite lookup_fmap, Hp.
Qed.

Lemma shape_lookup (h : gmap Z RequestState) p st :
  h !! p = Some st -> (shape <$> h) !! p = Some (request_id st, seq_id <$> scheduling st).
Proof. intros Hp. by rewrite lookup_fmap, Hp. Qed.

Lemma shape_inv (h : gmap Z RequestState) p id o :
  (shape <$> h) !! p = Some (id, o) ->
  exists st, h !! p = Some st /\ request_id st = id /\ seq_id <$> scheduling st = o.
Proof.
  rewrite lookup_fmap. destruct (h !! p) as [st|]; [|done]. simpl. intros [= <- <-]. eauto.
Qed.

Lemma shape_inv_some (h : gmap Z RequestState) p id q :
  (shape <$> h) !! p = Some (id, Some q) ->
  exists st sc, h !! p = Some st /\ request_id st = id /\ scheduling st = Some sc /\ seq_id sc = q.
Proof.
  intros (st & Hp & Hid & Hs)%shape_inv. destruct (scheduling st) as [sc|] eqn:E; [|done].
  simpl in Hs. injection Hs as <-. eauto 10.
Qed.

Section views.
Context (hand extra : list Z) (infl : list WorkItem) (dead : gset Z) (s : Scheduler)
  (Hinv : sched_inv hand extra infl dead s).

Lemma running_view p : p ∈ running_ s ->
  exists st sc, heap s !! p = Some st /\ scheduling st = Some sc /\ by_seq_id_ s !! seq_id sc = Some p.
Proof.
  intros Hp. pose proof (si_place _ _ _ _ _ Hinv) as Hpl.
  destruct (pl_running _ _ _ _ _ _ _ _ _ Hpl p Hp) as (id & q & Hs).
  pose proof (pl_running_seq _ _ _ _ _ _ _ _ _ p id q Hpl Hp Hs) as Hq.
  apply shape_inv_some in Hs as (st & sc & ? & _ & ? & <-). eauto.
Qed.

Lemma skip_view p : p ∈ skip_ s ->
  exists st sc, heap s !! p = Some st /\ scheduling st = Some sc /\ by_seq_id_ s !! seq_id sc = None.
Proof.
  intros Hp. pose proof (si_place _ _ _ _ _ Hinv) as Hpl.
  destruct (pl_skip _ _ _ _ _ _ _ _ _ Hpl p Hp) as (id & q & Hs).
  assert (by_seq_id_ s !! q = None) as Hq by (eapply (pl_not_running _ _ _ _ _ _ _ _ _ p); [done|set_solver|done]).
  apply shape_inv_some in Hs as (st & sc & ? & _ & ? & <-). eauto.
Qed.

Lemma waiting_view p : p ∈ waiting_ s -> exists st, heap s !! p = Some st /\ scheduling st = None.
Proof.
  intros Hp. pose proof (si_place _ _ _ _ _ Hinv) as Hpl.
  destruct (pl_waiting _ _ _ _ _ _ _ _ _ Hpl p Hp) as (id & Hs).
  apply shape_inv in Hs as (st & ? & _ & E). exists st. split; [done|]. by destruct (scheduling st).
Qed.

Lemma by_seq_view q p : by_seq_id_ s !! q = Some p ->
  p ∈ running_ s /\ exists st sc, heap s !! p = Some st /\ scheduling st = Some sc /\ seq_id sc = q.
Proof.
  intros Hq. pose proof (si_place _ _ _ _ _ Hinv) as Hpl.
  destruct (pl_by_seq _ _ _ _ _ _ _ _ _ Hpl q p Hq) as (id & Hs).
  destruct (pl_seq _ _ _ _ _ _ _ _ _ Hpl p id q Hs) as [_ [[Hr _]|[_ ?]]]; [|congruence].
  split; [done|]. apply shape_inv_some in Hs as (st & sc & ? & _ & ? & ?). eauto.
Qed.

(** A sequence that is not running has nothing in flight. *)
Lemma idle_items q : by_seq_id_ s !! q = None -> items_of q infl = [].
Proof.
  intros Hq. apply items_of_nil. intros it Hit <-.
  destruct (si_infl _ _ _ _ _ Hinv it Hit). congruence.
Qed.

Lemma nodup_queues : NoDup (hand ++ waiting_ s ++ skip_ s ++ running_ s).
Proof. by eapply pl_nodup, si_place. Qed.

Lemma nodup_running : NoDup (running_ s).
Proof.
  pose proof nodup_queues as H. apply NoDup_app in H as (_ & _ & H). apply NoDup_app in H as (_ & _ & H).
  by apply NoDup_app in H as (_ & _ & H).
Qed.

Lemma seq_inj p p' st st' sc sc' :
  heap s !! p = Some st -> heap s !! p' = Some st' -> scheduling st = Some sc ->
  scheduling st' = Some sc' -> seq_id sc = seq_id sc' -> p = p'.
Proof.
  intros Hp Hp' Hs Hs' He. pose proof (si_place _ _ _ _ _ Hinv) as Hpl.
  apply shape_lookup in Hp, Hp'. rewrite Hs in Hp. rewrite Hs' in Hp'. simpl in Hp, Hp'.
  rewrite He in Hp. by eapply (pl_inj _ _ _ _ _ _ _ _ _ Hpl).
Qed.
End views.

(** One request changes in place, together with the items in flight for it. *)
Lemma inv_local hand extra infl infl' dead s s' p st st' sc sc' :
  sched_inv hand extra infl dead s -> same_frame s s' ->
  heap s !! p = Some st -> scheduling st = Some sc ->
  heap s' = <[p := st']> (heap s) -> scheduling st' = Some sc' ->
  request_id st' = request_id st -> seq_id sc' = seq_id sc ->
  kv_part extra (heap s') (kv s') ->
  (forall q, q <> seq_id sc -> items_of q infl' = items_of q infl) ->
  (forall it, it ∈ infl' -> is_Some (by_seq_id_ s !! work_sequence_id it)) ->
  work_ok (bsz s) st' sc' (items_of (seq_id sc) infl') ->
  (seq_id sc ∈ dead -> status st' <> Active) ->
  sched_inv hand extra infl' dead s'.
Proof.
  intros Hinv Hf Hp Hsc Hh Hsc' Hid Hq Hkv Hother Hin Hwork Hd.
  pose proof (same_frame_bsz _ _ Hf) as Hbs.
  pose proof (sf_geometry _ _ Hf) as [Hgm _]. destruct Hf as [F1 F2 F3 F4 F5 F6 F7 F8 F9 F10 _].
  pose proof Hinv as [_ Hpl Hw _ Hdead Hpa Hlim Hgeo]. split.
  - done.
  - rewrite F2, F3, F4, F5, F6, F7, F10, Hh, (shape_insert _ p st); [done|done|].
    unfold shape. rewrite Hsc, Hsc'. simpl. congruence.
  - intros p1 st1 sc1. rewrite Hh, Hbs. rewrite lookup_insert. case_decide as E.
    + intros [= <-] Hs1. rewrite Hsc' in Hs1. injection Hs1 as <-. rewrite Hq. done.
    + intros Hp1 Hs1. rewrite Hother; [by apply (Hw p1)|].
      intros He. apply E. by eapply (seq_inj _ _ _ _ _ Hinv p p1).
  - rewrite F7. done.
  - rewrite F10. done.
  - rewrite F8, F6. auto.
  - by rewrite F1, F6, F5.
  - by rewrite Hgm, F1, Hbs.
Qed.

(** A request's status leaves [Active]; nothing else changes. *)
Lemma inv_set_status hand extra infl dead s s' p st x :
  sched_inv hand extra infl dead s -> same_frame s s' -> heap s !! p = Some st -> x <> Active ->
  heap s' = <[p := set_status x st]> (heap s) -> kv s' = kv s -> sched_inv hand extra infl dead s'.
Proof.
  intros Hinv Hf Hp Hx Hh Hk.
  pose proof (same_frame_bsz _ _ Hf) as Hbs.
  pose proof (sf_geometry _ _ Hf) as [Hgm _]. destruct Hf as [F1 F2 F3 F4 F5 F6 F7 F8 F9 F10 _].
  pose proof Hinv as [Hkv Hpl Hw Hin Hdead Hpa Hlim Hgeo]. split.
  - rewrite Hh, Hk. apply (kv_part_update _ _ _ p st); try done.
    simpl. intros sc' Hs. exists sc'. split; [done|lia].
  - rewrite F2, F3, F4, F5, F6, F7, F10, Hh, (shape_insert _ p st); done.
  - intros p1 st1 sc1. rewrite Hh, Hbs, lookup_insert. case_decide as E; [|apply Hw].
    intros [= <-] Hs1. subst p1. destruct (Hw p st sc1 Hp Hs1) as [Hok _].
    split; [by eapply work_ok_inactive|done].
  - rewrite F7. done.
  - rewrite F10. done.
  - rewrite F8, F6. auto.
  - by rewrite F1, F6, F5.
  - by rewrite Hgm, F1, Hbs.
Qed.

(** Only fields outside the invariant change. *)
Lemma inv_frame hand extra infl dead s s' :
  sched_inv hand extra infl dead s -> same_frame s s' -> heap s' = heap s ->
  kv_part extra (heap s) (kv s') -> sched_inv hand extra infl dead s'.
Proof.
  intros Hinv Hf Hh Hk. pose proof (same_frame_bsz _ _ Hf) as Hbs.
  pose proof (sf_geometry _ _ Hf) as [Hgm _]. destruct Hf as [F1 F2 F3 F4 F5 F6 F7 F8 F9 F10 _]. pose proof Hinv as [Hkv Hpl Hw Hin Hdead Hpa Hlim Hgeo].
  split; rewrite ?Hh, ?F1, ?F2, ?F3, ?F4, ?F5, ?F6, ?F7, ?F8, ?F10, ?Hbs, ?Hgm; try done. auto.
Qed.
