(* ===== verification/SchedBuild.v ===== *)
(** * Building batches preserves the invariant

    [build_state_work] and [build_running_batch]: every item they add extends the
    chain of its sequence, is covered by exclusively owned blocks, and is paid for
    from the token budget. *)

From Stdlib Require Import ZArith Lia.
From stdpp Require Import prelude strings gmap fin_maps.
From S2P Require Import Prelude Base Config BlockPool PrefixCache BlockCache BlockCacheInv.
From S2P Require Import Scheduler SchedKv SchedWork SchedInv.

(** The lemmas on methods that may meet a hazard are about the lenient mode. *)
#[local] Existing Instance lenient_build.

(** ** Events *)

Lemma wp_send_event ch ev (Q : bool -> Scheduler -> Prop) s :
  (forall b evs, Q b (set_events evs s)) -> wp (send_event ch ev) Q s.
Proof.
  intros H. unfold wp, send_event. case_bool_decide; [|apply H].
  assert (set_events (events s) s = s) as <- by (by destruct s). apply H.
Qed.

Lemma inv_events hand extra infl dead s evs :
  sched_inv hand extra infl dead s -> sched_inv hand extra infl dead (set_events evs s).
Proof. intros [A B C D E F G K]. by split. Qed.

(** The three event senders that change a request's status. *)
Lemma wp_send_terminal_event p st (Q : bool -> Scheduler -> Prop) s :
  heap s !! p = Some st ->
  (forall b evs, Q b (set_events evs (set_heap (<[p := set_status Finished st]> (heap s)) s))) ->
  wp (send_terminal_event p) Q s.
Proof.
  intros Hp HQ. unfold send_terminal_event. wps. eapply wp_deref; [done|]. wps.
  by apply wp_send_event.
Qed.

Lemma wp_send_error_event p st err (Q : bool -> Scheduler -> Prop) s :
  heap s !! p = Some st ->
  (forall b evs, Q b (set_events evs (set_heap (<[p := set_status Failed st]> (heap s)) s))) ->
  wp (send_error_event p err) Q s.
Proof.
  intros Hp HQ. unfold send_error_event. wps. eapply wp_deref; [done|]. wps.
  by apply wp_send_event.
Qed.

(** ** What a build step promises *)

Definition build_post (hand extra : list Z) (infl : list WorkItem) (dead : gset Z) (s : Scheduler)
    (ctx ctx' : BatchBuildContext) (s' : Scheduler) : Prop :=
  exists new,
    batch_items (ctx_batch ctx') = batch_items (ctx_batch ctx) ++ new /\
    batch_id (ctx_batch ctx') = batch_id (ctx_batch ctx) /\
    ctx_token_budget ctx' = ctx_token_budget ctx - sum_items work_token_count new /\
    (0 <= ctx_token_budget ctx -> 0 <= ctx_token_budget ctx') /\
    same_frame s s' /\ sched_inv hand extra (infl ++ new) dead s'.

Lemma build_post_nothing hand extra infl dead s ctx ctx' s' :
  sched_inv hand extra infl dead s' -> same_frame s s' ->
  batch_items (ctx_batch ctx') = batch_items (ctx_batch ctx) ->
  batch_id (ctx_batch ctx') = batch_id (ctx_batch ctx) ->
  ctx_token_budget ctx' = ctx_token_budget ctx ->
  build_post hand extra infl dead s ctx ctx' s'.
Proof.
  intros Hinv Hf Hi Hb Ht. exists []. rewrite !app_nil_r, Ht. simpl. split_and!; try done; lia.
Qed.

Lemma select_sampling_same state ctx :
  batch_items (ctx_batch (select_sampling state ctx)) = batch_items (ctx_batch ctx) /\
  batch_id (ctx_batch (select_sampling state ctx)) = batch_id (ctx_batch ctx) /\
  ctx_token_budget (select_sampling state ctx) = ctx_token_budget ctx.
Proof. unfold select_sampling. by destruct (sampling_set ctx). Qed.

(** One item is added for a running sequence. *)
Lemma build_post_item hand extra infl dead s s' p st sc st' sc' it n ctx ctx0 :
  sched_inv hand extra infl dead s -> same_frame s s' ->
  heap s !! p = Some st -> scheduling st = Some sc -> by_seq_id_ s !! seq_id sc = Some p ->
  status st = Active -> heap s' = <[p := st']> (heap s) -> scheduling st' = Some sc' ->
  request_id st' = request_id st -> status st' = Active -> seq_id sc' = seq_id sc ->
  kv_part extra (heap s') (kv s') ->
  work_sequence_id it = seq_id sc -> work_token_count it = n -> n <= ctx_token_budget ctx0 ->
  work_ok (bsz s) st' sc' (items_of (seq_id sc) infl ++ [it]) ->
  batch_items (ctx_batch ctx) = batch_items (ctx_batch ctx0) ->
  batch_id (ctx_batch ctx) = batch_id (ctx_batch ctx0) ->
  ctx_token_budget ctx = ctx_token_budget ctx0 ->
  build_post hand extra infl dead s ctx0 (push_item it n ctx) s'.
Proof.
  intros Hinv Hf Hp Hsc Hq Hact Hh Hsc' Hid Hact' Hseq Hkv Hitq Hn Hbud Hwork Hi Hb Ht.
  exists [it]. simpl. rewrite Hi, Hb, Ht, Hn. split_and!; try done; [lia|lia|].
  eapply inv_local; try done.
  - intros q Hne. rewrite items_of_app, items_of_one_ne by congruence. apply app_nil_r.
  - intros it' [Hin| ->%list_elem_of_singleton]%elem_of_app; [by eapply si_infl|]. rewrite Hitq. eauto.
  - by rewrite items_of_app, items_of_one_eq.
  - rewrite Hact'. destruct (si_work _ _ _ _ _ Hinv p st sc Hp Hsc) as [_ Hd].
    by rewrite Hact in Hd.
Qed.

(** ** The prefill branch *)

Section prefill.
Context (bs plen cur start chunk seq : Z) (st : RequestState) (sc : SequenceSchedulingState)
  (l : list WorkItem) (needs : bool).

(** The item [build_prefill] makes. *)
Definition chunk_item : WorkItem :=
  WPrefill (mkPrefillChunk (seq_id sc) (mkTokenSpan start chunk)
    (Some (executed_frontier sc + reserved_kv_tokens (reservation sc))) needs
    (take (Z.to_nat chunk) (drop (Z.to_nat start) (prompt_tokens st))) (block_table sc)).

Lemma prefill_work_ok st' :
  0 < bs -> work_ok bs st sc l -> status st = Active -> is_prefill_phase (phase (cursor sc)) = true ->
  start = prefill_cursor (cursor sc) + reserved_prompt_tokens (reservation sc) ->
  0 < chunk -> start + chunk <= size_Z (prompt_tokens st) ->
  needs = (size_Z (prompt_tokens st) <=? start + chunk) && negb (replay_no_sample st sc) ->
  prompt_tokens st' = prompt_tokens st -> generated_tokens st' = generated_tokens st ->
  0 <= start /\
  work_ok bs st' (set_reservation
    (reserve (reservation sc) chunk (if needs then 1 else 0) chunk) sc) (l ++ [chunk_item]).
Proof.
  intros Hbs [Hr Hi Ha] Hact Hph Hst Hc Hlen Hneeds Hpt Hgt.
  destruct (Ha Hact) as [Hpend Hfr Htab Hphase].
  assert (executed_frontier sc = prefill_cursor (cursor sc) /\
          prefill_cursor (cursor sc) <= size_Z (prompt_tokens st) <= bs * table_size (block_table sc) /\
          pchain (size_Z (prompt_tokens st)) (replay_no_sample st sc)
            (prefill_cursor (cursor sc)) (prefill_cursor (cursor sc)) l) as (Hfe & [Hle Hcap] & Hch).
  { unfold phase_ok in Hphase. by destruct (phase (cursor sc)). }
  pose proof (pchain_kv _ _ _ _ _ Hch) as Hsame.
  pose proof Hr as [_ Hrp _ Hrk]. pose proof (size_Z_nonneg (pending_hash_tokens sc)).
  assert (0 <= sum_items prompt_of l).
  { apply sum_items_nonneg. eapply Forall_impl; [by eapply item_at_wf|]. apply prompt_nonneg. }
  assert (executed_frontier sc + reserved_kv_tokens (reservation sc) = start) as Hctx by lia.
  split; [lia|].
  assert (item_wf bs chunk_item) as Hwf.
  { split; unfold chunk_item, work_context; simpl; [eauto|lia|lia| |done|lia].
    unfold size_Z in *. rewrite length_take, length_drop. lia. }
  split; simpl.
  - apply (resv_exact_reserve _ l chunk_item Hr).
  - apply Forall_app. split; [done|]. apply Forall_singleton. split; [done|].
    unfold chunk_item, work_context. simpl. split; [lia|done].
  - intros _. split; try done. unfold phase_ok, replay_no_sample. simpl. rewrite Hpt, Hgt.
    fold (replay_no_sample st sc).
    assert (pchain (size_Z (prompt_tokens st)) (replay_no_sample st sc) (prefill_cursor (cursor sc))
              (prefill_cursor (cursor sc)) (l ++ [chunk_item])) as Hch'.
    { apply pchain_snoc; [done|]. rewrite Hsame, <- Hrp, <- Hst. simpl. split_and!; try done.
      by rewrite Hctx. }
    unfold is_prefill_phase in Hph. by destruct (phase (cursor sc)).
Qed.
End prefill.

Lemma wp_build_prefill hand extra infl dead s ctx p st sc :
  sched_inv hand extra infl dead s -> heap s !! p = Some st -> scheduling st = Some sc ->
  by_seq_id_ s !! seq_id sc = Some p -> status st = Active ->
  is_prefill_phase (phase (cursor sc)) = true ->
  wp (build_prefill ctx p st sc) (build_post hand extra infl dead s ctx) s.
Proof.
  intros Hinv Hp Hsc Hq Hact Hph. unfold build_prefill. wps.
  destruct (Z.leb_spec (size_Z (prompt_tokens st))
              (prefill_cursor (cursor sc) + reserved_prompt_tokens (reservation sc))) as [Hd|Hlt].
  { wps. by apply build_post_nothing; [|apply same_frame_refl|..]. }
  set (start := prefill_cursor (cursor sc) + reserved_prompt_tokens (reservation sc)) in *.
  set (chunk := Z.min (if 0 <? max_seq_prefill_tokens (engine_config_ s)
                       then _ else _) (ctx_token_budget ctx)).
  assert (chunk <= size_Z (prompt_tokens st) - start /\ chunk <= ctx_token_budget ctx) as [Hc1 Hc2].
  { subst chunk. destruct (0 <? max_seq_prefill_tokens (engine_config_ s)); lia. }
  destruct (Z.leb_spec chunk 0) as [Hd|Hpos].
  { wps. by apply build_post_nothing; [|apply same_frame_refl|..]. }
  destruct (select_sampling_same st ctx) as (S1 & S2 & S3).
  set (needs := (_ && _)%bool).
  destruct (si_work _ _ _ _ _ Hinv p st sc Hp Hsc) as [Hwork _].
  set (st' := set_scheduling (Some (set_reservation
                (reserve (reservation sc) chunk (if needs then 1 else 0) chunk) sc)) st).
  destruct (prefill_work_ok (bsz s) start chunk st sc _ needs st' (bsz_pos _ _ _ _ _ Hinv) Hwork Hact Hph)
    as [Hnn Hok]; try done; [lia|].
  wps. apply wp_assert; [by apply Z.leb_le|]. wps.
  eapply (build_post_item _ _ _ _ s _ p st sc st'); try done.
  simpl. apply (kv_part_update _ _ _ p st); [by eapply si_kv|done| |].
  - unfold req_table. simpl. by rewrite Hsc.
  - intros sc' [= <-]. exists sc. split; [done|]. unfold hash_bound. simpl. lia.
Qed.

(** ** The decode branch *)

Lemma blocks_for_spec tokens bs : 0 <= tokens -> 0 < bs ->
  exists need, blocks_for tokens bs = Some need /\ tokens <= bs * need.
Proof.
  intros Ht Hb. eexists. split; [done|]. rewrite Z.quot_div_nonneg by lia.
  pose proof (Z.div_mod (tokens + bs - 1) bs). pose proof (Z.mod_pos_bound (tokens + bs - 1) bs). lia.
Qed.

(** Appending fresh blocks to a running request's table. *)
Lemma kv_part_grow extra ids h k p st sc st' sc' :
  kv_part (ids ++ extra) h k -> h !! p = Some st -> scheduling st = Some sc ->
  scheduling st' = Some sc' ->
  block_ids_ (block_table sc') = block_ids_ (block_table sc) ++ ids ->
  hash_bound (block_size_ (kv_pool k)) sc' = hash_bound (block_size_ (kv_pool k)) sc ->
  (forall j, j ∈ ids -> exclusive (ids ++ extra) h k j) ->
  kv_part extra (<[p := st']> h) k.
Proof.
  intros [Hok Hown Hex] Hp Hsc Hsc' Hids Hb Hfresh.
  assert (forall j, count j extra + occ (<[p := st']> h) j = count j (ids ++ extra) + occ h j) as Hocc.
  { intros j. rewrite (occ_insert h p st st' j Hp), count_app. unfold req_table.
    rewrite Hsc, Hsc', Hids, count_app. lia. }
  split; [done|intros j; by rewrite Hocc|].
  intros q st1 sc1 i j Hq Hs1 Hi Hle. unfold exclusive. rewrite Hocc.
  destruct (decide (q = p)) as [->|Hne].
  - rewrite lookup_insert_eq in Hq. injection Hq as <-. rewrite Hsc' in Hs1. injection Hs1 as <-.
    rewrite Hids in Hi. apply lookup_app_Some in Hi as [Hi|[_ Hi]].
    + rewrite Hb in Hle. by apply (Hex p st sc i).
    + apply Hfresh. by eapply list_elem_of_lookup_2.
  - rewrite lookup_insert_ne in Hq by done. by apply (Hex q st1 sc1 i).
Qed.

Definition decode_item (sc : SequenceSchedulingState) (input : Z) (write : bool) (table : BlockTable)
  : WorkItem :=
  WDecode (mkDecodeOneToken (seq_id sc) input
    (Some (executed_frontier sc + reserved_kv_tokens (reservation sc))) write write table).

Lemma decode_work_ok bs st st' sc l input write table :
  0 < bs -> work_ok bs st sc l -> status st = Active -> is_decode_phase (phase (cursor sc)) = true ->
  write = negb (bool_decide (phase (cursor sc) = Bootstrap)) ->
  (phase (cursor sc) = Bootstrap -> reserved_generation_tokens (reservation sc) <= 0) ->
  block_ids_ (block_table sc) `prefix_of` block_ids_ table ->
  executed_frontier sc + reserved_kv_tokens (reservation sc) + (if write then 1 else 0)
    <= bs * table_size table ->
  prompt_tokens st' = prompt_tokens st -> generated_tokens st' = generated_tokens st ->
  work_ok bs st' (set_reservation (reserve (reservation sc) 0 1 (if write then 1 else 0))
    (set_block_table table sc)) (l ++ [decode_item sc input write table]).
Proof.
  intros Hbs [Hr Hi Ha] Hact Hph Hw Hboot Hpre Hcap Hpt Hgt.
  destruct (Ha Hact) as [Hpend Hfr Htab Hphase]. pose proof Hr as [_ _ Hrg Hrk].
  pose proof (size_Z_nonneg (pending_hash_tokens sc)).
  assert (0 <= sum_items kv_token_count l).
  { apply sum_items_nonneg. eapply Forall_impl; [by eapply item_at_wf|]. apply kv_token_nonneg. }
  assert (table_size (block_table sc) <= table_size table) as Hgrow.
  { apply prefix_length in Hpre. unfold table_size, size_Z. lia. }
  assert (item_wf bs (decode_item sc input write table)) as Hwf.
  { split; unfold decode_item, work_context; simpl; [eauto|lia|lia|done|lia|lia]. }
  assert (l = [] \/ phase (cursor sc) <> Bootstrap) as Hempty.
  { destruct (decide (phase (cursor sc) = Bootstrap)) as [E|]; [left|by right].
    unfold phase_ok in Hphase. rewrite E in Hphase.
    destruct Hphase as [_ [->|(w & -> & _)]]; [done|]. specialize (Hboot E). simpl in Hrg. lia. }
  split; simpl.
  - apply (resv_exact_reserve _ l (decode_item sc input write table) Hr).
  - apply Forall_app. split.
    + eapply Forall_impl; [done|]. intros it (H1 & H2 & H3). split_and!; [done|done|]. by etrans.
    + apply Forall_singleton. split; [done|]. unfold decode_item, work_context. simpl. split; [lia|done].
  - intros _. split; simpl; try done; [nia|lia|]. unfold phase_ok in *. simpl. rewrite Hpt, Hgt.
    destruct (phase (cursor sc)) eqn:E; try done.
    + destruct Hphase as [Hne _]. split; [done|]. right. destruct Hempty as [->|?]; [|done].
      eexists. split; [done|]. simpl. simpl in Hrk. rewrite Hw, Hrk, Z.add_0_r. done.
    + destruct Hphase as [Hne Hch]. split; [done|]. apply dchain_snoc; [done|]. simpl.
      rewrite Hw. split_and!; try done. by rewrite Hrk.
Qed.

Lemma wp_build_decode hand extra infl dead s ctx0 ctx p st sc :
  sched_inv hand extra infl dead s -> heap s !! p = Some st -> scheduling st = Some sc ->
  by_seq_id_ s !! seq_id sc = Some p -> status st = Active ->
  is_decode_phase (phase (cursor sc)) = true -> 0 < ctx_token_budget ctx0 ->
  batch_items (ctx_batch ctx) = batch_items (ctx_batch ctx0) ->
  batch_id (ctx_batch ctx) = batch_id (ctx_batch ctx0) ->
  ctx_token_budget ctx = ctx_token_budget ctx0 ->
  wp (build_decode ctx p st sc) (build_post hand extra infl dead s ctx0) s.
Proof.
  intros Hinv Hp Hsc Hq Hact Hph Hbud C1 C2 C3. unfold build_decode.
  assert (forall s', sched_inv hand extra infl dead s' -> same_frame s s' ->
            build_post hand extra infl dead s ctx0 ctx s') as Hnone
    by (intros; by apply build_post_nothing).
  destruct (_ <=? _). { wps. apply Hnone; [done|apply same_frame_refl]. }
  destruct (bool_decide (phase (cursor sc) = Bootstrap) &&
            (0 <? reserved_generation_tokens (reservation sc))) eqn:Hb.
  { wps. apply Hnone; [done|apply same_frame_refl]. }
  destruct (si_work _ _ _ _ _ Hinv p st sc Hp Hsc) as [Hwork _].
  destruct (wo_active _ _ _ _ Hwork Hact) as [Hpend Hfr Htab Hphase].
  wps. eapply (wp_mono _ (fun _ s' => s' = s)).
  { case_bool_decide as E; [|done]. unfold phase_ok in Hphase. rewrite E in Hphase.
    destruct Hphase as [Hne _]. apply last_is_Some in Hne as [t Ht]. by eapply wp_lift. }
  intros input ? ->. cbv beta.
  destruct (_ <=? _).
  { destruct (_ =? 0); [|wps; apply Hnone; [done|apply same_frame_refl]].
    wps. eapply wp_send_terminal_event; [done|]. intros b evs. wps. apply Hnone; [|done].
    by apply (inv_set_status _ _ _ _ s _ p st Finished). }
  wps. set (write := negb _).
  set (bs := block_size_ (kv_pool (kv s))). pose proof (bsz_pos _ _ _ _ _ Hinv) as Hbs.
  pose proof (wo_resv _ _ _ _ Hwork) as [_ _ _ Hrk]. pose proof (size_Z_nonneg (pending_hash_tokens sc)).
  assert (0 <= reserved_kv_tokens (reservation sc)) as Hrk0.
  { rewrite Hrk. apply sum_items_nonneg. eapply Forall_impl; [eapply item_at_wf, Hwork|].
    apply kv_token_nonneg. }
  destruct (blocks_for_spec (executed_frontier sc + reserved_kv_tokens (reservation sc) + (if write then 1 else 0))
    bs) as (need & En & Hneed); [destruct write; lia|done|].
  eapply wp_lift; [exact En|]. wps.
  assert (phase (cursor sc) = Bootstrap -> reserved_generation_tokens (reservation sc) <= 0) as Hboot.
  { intros E. rewrite E in Hb. simpl in Hb. bprop. lia. }
  destruct (Z.ltb_spec (table_size (block_table sc)) need) as [Hlt|Hge].
  - destruct (kv_part_alloc extra (heap s) (kv s) (need - table_size (block_table sc)))
      as [(t & k' & Hr & Hk & Hg & Hsz & Hex & _)|(k' & Hr & Hk & Hg)]; [by eapply si_kv|lia| |].
    + eapply wp_with_kv; [exact Hr|]. wps.
      eapply (build_post_item _ _ _ _ s _ p st sc); try done; [|lia|]; simpl.
      * eapply (kv_part_grow _ _ _ _ p st sc); try done. apply table_append_ids.
      * eapply (decode_work_ok _ st); try done.
        { rewrite table_append_ids. by eexists. }
        unfold table_size. rewrite table_append_ids, size_Z_app. unfold table_size in Hsz, Hlt |- *.
        replace (size_Z (block_ids_ (block_table sc)) + size_Z (block_ids_ t)) with need by lia. done.
    + eapply wp_with_kv; [exact Hr|]. wps. apply Hnone; [|done].
      eapply inv_frame; done.
  - wps. eapply (build_post_item _ _ _ _ s _ p st sc); try done; [|lia|]; simpl.
    + apply (kv_part_update _ _ _ p st); [by eapply si_kv|done| |].
      * unfold req_table. simpl. rewrite Hsc, table_append_ids. apply app_nil_r.
      * intros sc' [= <-]. exists sc. split; [done|]. unfold hash_bound. simpl. lia.
    + eapply (decode_work_ok _ st); try done.
      change (table_append (block_table sc) empty_table) with (block_table sc).
      change bs with (bsz s) in Hneed. nia.
Qed.

Lemma wp_build_state_work hand extra infl dead s ctx p :
  sched_inv hand extra infl dead s -> p ∈ running_ s ->
  wp (build_state_work ctx p) (build_post hand extra infl dead s ctx) s.
Proof.
  intros Hinv Hp. destruct (running_view _ _ _ _ _ Hinv p Hp) as (st & sc & Hst & Hsc & Hq).
  unfold build_state_work. wps. eapply wp_deref; [done|]. rewrite Hsc.
  assert (build_post hand extra infl dead s ctx ctx s) as Hnone
    by (by apply build_post_nothing; [|apply same_frame_refl|..]).
  destruct ((ctx_token_budget ctx <=? 0) || negb (is_schedulable_state st)) eqn:Hg; [by wps|].
  assert (0 < ctx_token_budget ctx /\ status st = Active) as [Hbud Hact].
  { unfold is_schedulable_state in Hg. bprop. split; [lia|done]. }
  clear Hg. destruct (_ <=? _).
  { wps. eapply wp_send_terminal_event; [done|]. intros b evs. wps.
    apply build_post_nothing; try done. by apply (inv_set_status _ _ _ _ s _ p st Finished). }
  destruct (is_prefill_phase _) eqn:Hph; [by apply wp_build_prefill|].
  assert (is_decode_phase (phase (cursor sc)) = true) as Hd by (by destruct (phase (cursor sc))).
  rewrite Hd. simpl. destruct (select_sampling_same st ctx) as (S1 & S2 & S3).
  by apply wp_build_decode.
Qed.

Lemma build_post_trans hand extra infl dead s1 s2 s3 c1 c2 c3 new :
  batch_items (ctx_batch c2) = batch_items (ctx_batch c1) ++ new ->
  batch_id (ctx_batch c2) = batch_id (ctx_batch c1) ->
  ctx_token_budget c2 = ctx_token_budget c1 - sum_items work_token_count new ->
  (0 <= ctx_token_budget c1 -> 0 <= ctx_token_budget c2) -> same_frame s1 s2 ->
  build_post hand extra (infl ++ new) dead s2 c2 c3 s3 -> build_post hand extra infl dead s1 c1 c3 s3.
Proof.
  intros A1 A2 A3 A4 A5 (new' & B1 & B2 & B3 & B4 & B5 & B6). exists (new ++ new').
  rewrite sum_items_app. rewrite (app_assoc infl). rewrite B1, A1, <- app_assoc.
  split_and!; try done; [congruence|lia|auto|by eapply same_frame_trans].
Qed.

Lemma wp_build_running_loop hand extra infl dead l s ctx :
  sched_inv hand extra infl dead s -> (forall p, p ∈ l -> p ∈ running_ s) ->
  wp (build_running_loop l ctx) (build_post hand extra infl dead s ctx) s.
Proof.
  revert infl s ctx. induction l as [|p l IH]; intros infl s ctx Hinv Hl; simpl.
  { wps. by apply build_post_nothing; [|apply same_frame_refl|..]. }
  destruct (_ <=? 0).
  { wps. by apply build_post_nothing; [|apply same_frame_refl|..]. }
  wps. eapply wp_mono; [apply wp_build_state_work; [done|apply Hl; by left]|].
  intros ctx' s' (new & A1 & A2 & A3 & A4 & A5 & Hinv'). cbv beta.
  eapply wp_mono; [apply IH; [done|]|].
  - intros q Hq. rewrite (sf_running _ _ A5). apply Hl. by right.
  - intros ctx'' s'' Hb. by eapply build_post_trans.
Qed.

Lemma wp_build_running_batch hand extra infl dead s ctx :
  sched_inv hand extra infl dead s ->
  wp (build_running_batch ctx) (build_post hand extra infl dead s ctx) s.
Proof. intros Hinv. unfold build_running_batch. wps. by apply wp_build_running_loop. Qed.
