(* ===== verification/SchedMoves.v ===== *)
(** * Moving requests between the queues preserves the invariant

    The elementary moves: popping a request, releasing its sequence, starting it,
    stopping it, forgetting it.  The scheduler's methods are compositions of them. *)

From Stdlib Require Import ZArith Lia.
From stdpp Require Import prelude strings gmap fin_maps.
From S2P Require Import Prelude Base Config BlockPool PrefixCache BlockCache BlockCacheInv.
From S2P Require Import Scheduler SchedKv SchedWork SchedInv SchedBuild.

(** The lemmas on methods that may meet a hazard are about the lenient mode. *)
#[local] Existing Instance lenient_build.

Section moves.
Context (extra : list Z) (infl : list WorkItem) (dead : gset Z).
Implicit Types s : Scheduler.

Lemma inv_pop_skip hand s p rest :
  sched_inv hand extra infl dead s -> skip_ s = p :: rest ->
  sched_inv (p :: hand) extra infl dead (set_skip rest s).
Proof.
  intros [A B C D E F [G1 G2] K] Hs. rewrite Hs in *. split; simpl; try done.
  - eapply place_regroup; [exact B|solve_Permutation|done| |by eapply pl_waiting].
    intros q Hq. eapply pl_skip; [exact B|by right].
  - split; [done|]. rewrite size_Z_cons in G2. lia.
Qed.

Lemma inv_pop_waiting hand s p rest :
  sched_inv hand extra infl dead s -> waiting_ s = p :: rest ->
  sched_inv (p :: hand) extra infl dead (set_waiting rest s).
Proof.
  intros [A B C D E F G K] Hs. rewrite Hs in *. split; simpl; try done.
  eapply place_regroup; [exact B|solve_Permutation|done|by eapply pl_skip|].
  intros q Hq. eapply pl_waiting; [exact B|by right].
Qed.

Lemma inv_push_waiting hand s p st :
  sched_inv (p :: hand) extra infl dead s -> heap s !! p = Some st -> scheduling st = None ->
  sched_inv hand extra infl dead (set_waiting (p :: waiting_ s) s).
Proof.
  intros [A B C D E F G K] Hp Hs. split; simpl; try done.
  eapply place_regroup; [exact B|solve_Permutation|done|by eapply pl_skip|].
  intros q [->|Hq]%elem_of_cons; [|by eapply pl_waiting].
  exists (request_id st). rewrite (shape_lookup _ _ _ Hp), Hs. done.
Qed.

Lemma inv_push_skip hand s p st sc :
  sched_inv (p :: hand) extra infl dead s -> heap s !! p = Some st -> scheduling st = Some sc ->
  size_Z (running_ s) + size_Z (skip_ s) < u64 (max_sequences (engine_config_ s)) ->
  sched_inv hand extra infl dead (set_skip (p :: skip_ s) s).
Proof.
  intros [A B C D E F [G1 G2] K] Hp Hs Hroom. split; simpl; try done.
  - eapply place_regroup; [exact B|solve_Permutation|done| |by eapply pl_waiting].
    intros q [->|Hq]%elem_of_cons; [|by eapply pl_skip].
    exists (request_id st), (seq_id sc). rewrite (shape_lookup _ _ _ Hp), Hs. done.
  - split; [done|]. rewrite size_Z_cons. lia.
Qed.

Lemma inv_run hand s p st sc :
  sched_inv (p :: hand) extra infl dead s -> heap s !! p = Some st -> scheduling st = Some sc ->
  size_Z (running_ s) < u64 (max_running_requests (engine_config_ s)) ->
  size_Z (running_ s) + size_Z (skip_ s) < u64 (max_sequences (engine_config_ s)) ->
  sched_inv hand extra infl dead
    (set_running (running_ s ++ [p]) (set_by_seq_id (<[seq_id sc := p]> (by_seq_id_ s)) s)).
Proof.
  intros Hinv Hp Hs Hr1 Hr2. pose proof Hinv as [A B C D E F G K]. split; simpl; try done.
  - eapply place_run; [done|]. rewrite (shape_lookup _ _ _ Hp), Hs. done.
  - intros it Hit. destruct (D it Hit) as [q Hq]. rewrite lookup_insert.
    case_decide; [by eexists|by rewrite Hq].
  - intros _ _ Hn. by apply app_nil in Hn as [_ ?].
  - rewrite size_Z_app. change (size_Z [p]) with 1. lia.
Qed.

(** A running request with nothing in flight stops; [b] is the pause flag after it. *)
Lemma inv_stop hand s p st sc b :
  sched_inv hand extra infl dead s -> p ∈ running_ s -> heap s !! p = Some st ->
  scheduling st = Some sc -> execution_leases (reservation sc) = 0 ->
  (b = true -> accepting_ s = true -> erase1 p (running_ s) <> []) ->
  sched_inv (p :: hand) extra infl dead (set_admission_paused b
    (set_running (erase1 p (running_ s)) (set_by_seq_id (delete (seq_id sc) (by_seq_id_ s)) s))).
Proof.
  intros Hinv Hin Hp Hs Hl Hb. pose proof Hinv as [A B C D E F [G1 G2] K].
  destruct (C p st sc Hp Hs) as [Hw _]. apply work_ok_idle in Hw; [|done].
  assert (size_Z (running_ s) = 1 + size_Z (erase1 p (running_ s))) as Hlen.
  { unfold size_Z. rewrite (length_erase1 p (running_ s) Hin). lia. }
  split; simpl; try done.
  - eapply place_stop; [done|done|]. rewrite (shape_lookup _ _ _ Hp), Hs. done.
  - intros it Hit. rewrite lookup_delete_ne; [by apply D|].
    apply not_eq_sym. by eapply items_of_nil_inv.
  - lia.
Qed.

(** A request in hand loses its sequence and its blocks. *)
Lemma inv_unschedule hand s p st sc st' k' :
  sched_inv (p :: hand) extra infl dead s -> heap s !! p = Some st -> scheduling st = Some sc ->
  scheduling st' = None -> request_id st' = request_id st ->
  kv_part extra (<[p := st']> (heap s)) k' -> kv_geometry (kv s) k' ->
  sched_inv (p :: hand) extra infl dead (set_heap (<[p := st']> (heap s))
    (set_kv k' (set_by_seq_id (delete (seq_id sc) (by_seq_id_ s)) s))).
Proof.
  intros Hinv Hp Hs Hs' Hid Hk [Hgm Hg]. pose proof Hinv as [A B C D E F G K].
  assert (by_seq_id_ s !! seq_id sc = None) as Hq.
  { eapply (pl_not_running _ _ _ _ _ _ _ _ _ p); [exact B|set_solver|].
    by rewrite (shape_lookup _ _ _ Hp), Hs. }
  split; simpl; try done.
  - rewrite fmap_insert. unfold shape at 1. rewrite Hs', Hid. simpl.
    eapply place_unschedule; [done|by left|]. by rewrite (shape_lookup _ _ _ Hp), Hs.
  - intros p1 st1 sc1. rewrite lookup_insert. case_decide as E1; [intros [= <-]; congruence|].
    unfold bsz in *. simpl. rewrite Hg. apply C.
  - rewrite delete_id by done. done.
  - unfold bsz in *. simpl. by rewrite Hg, Hgm.
Qed.

(** A request in hand is given a fresh sequence. *)
Lemma inv_schedule ids hand s p st sc :
  sched_inv (p :: hand) (ids ++ extra) infl dead s -> heap s !! p = Some st -> scheduling st = None ->
  seq_id sc = next_seq_id_ s ->
  kv_part extra (<[p := set_scheduling (Some sc) st]> (heap s)) (kv s) ->
  work_ok (bsz s) (set_scheduling (Some sc) st) sc [] ->
  sched_inv (p :: hand) extra infl dead (set_heap (<[p := set_scheduling (Some sc) st]> (heap s))
    (set_next_seq_id (next_seq_id_ s + 1) s)).
Proof.
  intros Hinv Hp Hs Hq Hk Hw. pose proof Hinv as [A B C D E F G K].
  assert (by_seq_id_ s !! next_seq_id_ s = None) as Hn.
  { destruct (by_seq_id_ s !! next_seq_id_ s) as [p'|] eqn:Eq; [|done].
    destruct (pl_by_seq _ _ _ _ _ _ _ _ _ B _ _ Eq) as [i Hi].
    destruct (pl_seq _ _ _ _ _ _ _ _ _ B _ _ _ Hi) as [? _]. lia. }
  split; simpl; try done.
  - rewrite fmap_insert. unfold shape at 1. simpl. rewrite Hq.
    apply place_schedule; [done|by left|]. by rewrite (shape_lookup _ _ _ Hp), Hs.
  - intros p1 st1 sc1. rewrite lookup_insert. case_decide as E1; [|apply C].
    intros [= <-] Hs1. simpl in Hs1. injection Hs1 as <-. rewrite Hq, (idle_items _ _ _ _ _ Hinv) by done.
    split; [done|]. intros Hd. apply E in Hd. lia.
  - intros q Hd. apply E in Hd. lia.
Qed.

Lemma inv_erase hand s p st :
  sched_inv (p :: hand) extra infl dead s -> heap s !! p = Some st -> scheduling st = None ->
  sched_inv hand extra infl dead (set_requests (delete (request_id st) (requests_ s)) s).
Proof.
  intros [A B C D E F G K] Hp Hs. split; simpl; try done.
  eapply place_erase; [done|]. by rewrite (shape_lookup _ _ _ Hp), Hs.
Qed.

Lemma inv_submit s st :
  sched_inv [] extra infl dead s -> requests_ s !! request_id st = None -> scheduling st = None ->
  sched_inv [] extra infl dead (set_waiting (waiting_ s ++ [next_ptr s])
    (set_requests (<[request_id st := next_ptr s]> (requests_ s))
      (set_heap (<[next_ptr s := st]> (heap s)) (set_next_ptr (next_ptr s + 1) s)))).
Proof.
  intros [A B C D E F G K] Hid Hs.
  assert (heap s !! next_ptr s = None) as Hn.
  { destruct (heap s !! next_ptr s) as [x|] eqn:Eh; [|done].
    apply shape_lookup in Eh. apply (pl_fresh _ _ _ _ _ _ _ _ _ B) in Eh. lia. }
  split; simpl; try done.
  - by apply kv_part_new.
  - rewrite fmap_insert. unfold shape at 1. rewrite Hs. by apply place_new.
  - intros p st1 sc1. rewrite lookup_insert. case_decide as E1; [intros [= <-]; congruence|]. apply C.
Qed.
End moves.

(** ** Methods that release a request *)

Lemma wp_release extra p st sc (Q : unit -> Scheduler -> Prop) s :
  heap s !! p = Some st -> scheduling st = Some sc -> kv_part extra (heap s) (kv s) ->
  (forall k', kv_part extra (<[p := set_scheduling None st]> (heap s)) k' -> kv_geometry (kv s) k' ->
     Q tt (set_heap (<[p := set_scheduling None st]> (heap s))
            (set_kv k' (set_by_seq_id (delete (seq_id sc) (by_seq_id_ s)) s)))) ->
  wp (release_scheduling_blocks p) Q s.
Proof.
  intros Hp Hs Hk HQ. unfold release_scheduling_blocks. wps. eapply wp_deref; [done|]. rewrite Hs. wps.
  pose proof (kv_part_take extra _ _ p st (set_scheduling None st) Hk Hp eq_refl) as Ht.
  unfold req_table in Ht. rewrite Hs in Ht.
  destruct (kv_part_release _ _ _ _ Ht) as (k' & Hr & Hk' & Hg).
  eapply wp_with_kv_; [exact Hr|]. wps. by apply HQ.
Qed.

Lemma wp_release_none p st (Q : unit -> Scheduler -> Prop) s :
  heap s !! p = Some st -> scheduling st = None -> Q tt s -> wp (release_scheduling_blocks p) Q s.
Proof.
  intros Hp Hs HQ. unfold release_scheduling_blocks. wps. eapply wp_deref; [done|]. rewrite Hs. by wps.
Qed.

Lemma wp_prepare_release {B} extra p st sc (K : unit -> M B) (Q : B -> Scheduler -> Prop) s :
  heap s !! p = Some st -> scheduling st = Some sc -> kv_part extra (heap s) (kv s) ->
  (forall st' k', scheduling st' = None -> request_id st' = request_id st -> status st' = status st ->
     kv_part extra (<[p := st']> (heap s)) k' -> kv_geometry (kv s) k' ->
     wp (K tt) Q (set_heap (<[p := st']> (heap s))
                   (set_kv k' (set_by_seq_id (delete (seq_id sc) (by_seq_id_ s)) s)))) ->
  wp (prepare_for_wait p) (fun _ s' => wp (release_scheduling_blocks p ≫= K) Q s') s.
Proof.
  intros Hp Hs Hk HQ. unfold prepare_for_wait. wps. eapply wp_deref; [done|].
  case_bool_decide; wps.
  { eapply wp_release; try done. intros k' Hk' Hg. by apply HQ. }
  set (st1 := set_prompt_tokens _ st).
  assert (kv_part extra (<[p := st1]> (heap s)) (kv s)) as Hk1.
  { apply (kv_part_update _ _ _ p st); try done. simpl. intros sc' Hs'. exists sc'. split; [done|lia]. }
  eapply (wp_release extra p st1 sc); try done.
  { simpl. apply lookup_insert_eq. }
  simpl. intros k' Hk' Hg. rewrite insert_insert_eq in Hk' |- *. by apply HQ.
Qed.

Lemma wp_erase_request p st (Q : unit -> Scheduler -> Prop) s :
  heap s !! p = Some st -> scheduling st = None ->
  Q tt (set_requests (delete (request_id st) (requests_ s)) s) -> wp (erase_request p) Q s.
Proof.
  intros Hp Hs HQ. unfold erase_request. wps. eapply wp_deref; [done|]. wps.
  apply wp_assert; [by rewrite Hs|]. by wps.
Qed.

(** Number of requests that wait for admission. *)
Definition queue_len (s : Scheduler) : nat := length (skip_ s) + length (waiting_ s).

(** The end of a request that is in hand: an event, then forgotten. *)
Lemma wp_finish_with hand extra infl dead p st ev s :
  sched_inv (p :: hand) extra infl dead s -> heap s !! p = Some st -> scheduling st = None ->
  wp (finish_with p ev) (fun b s' => b = true /\ sched_inv hand extra infl dead s' /\
                                     queue_len s' = queue_len s) s.
Proof.
  intros Hinv Hp Hs. unfold finish_with. wps. eapply wp_deref; [done|]. wps.
  apply wp_send_event. intros b evs. wps. eapply wp_erase_request; [done|done|]. wps.
  split_and!; try done. apply (inv_erase _ _ _ _ _ p st); try done. by apply inv_events.
Qed.

(** Releasing a request in hand, whether it has a sequence or not. *)
Lemma wp_release_hand hand extra infl dead p st s :
  sched_inv (p :: hand) extra infl dead s -> heap s !! p = Some st ->
  wp (release_scheduling_blocks p) (fun _ s' => sched_inv (p :: hand) extra infl dead s' /\
    heap s' !! p = Some (set_scheduling None st) /\ queue_len s' = queue_len s /\
    waiting_ s' = waiting_ s /\ skip_ s' = skip_ s /\ running_ s' = running_ s /\
    accepting_ s' = accepting_ s /\
    forall q, q <> p -> heap s' !! q = heap s !! q) s.
Proof.
  intros Hinv Hp. destruct (scheduling st) as [sc|] eqn:Hs.
  - eapply (wp_release extra); [done|done|by eapply si_kv|]. intros k' Hk Hg. split_and!; try done.
    + by eapply inv_unschedule.
    + simpl. apply lookup_insert_eq.
    + intros q Hq. simpl. by apply lookup_insert_ne.
  - eapply wp_release_none; [done|done|]. split_and!; try done. rewrite Hp. f_equal.
    destruct st. simpl in *. by subst.
Qed.

(** ** Eviction and suspension *)

Lemma wp_evict_one_skipped hand extra infl dead s :
  sched_inv hand extra infl dead s ->
  wp evict_one_skipped (fun b s' => sched_inv hand extra infl dead s' /\
    (b = false -> s' = s) /\
    forall q, q ∈ hand -> heap s' !! q = heap s !! q) s.
Proof.
  intros Hinv. unfold evict_one_skipped. wps. destruct (skip_ s) as [|p rest] eqn:Hsk.
  { by wps. }
  destruct (skip_view _ _ _ _ _ Hinv p) as (st & sc & Hp & Hs & _); [rewrite Hsk; left|].
  pose proof (inv_pop_skip _ _ _ _ s p rest Hinv Hsk) as H1.
  wps. eapply wp_deref; [done|]. rewrite Hs. wps.
  eapply (wp_prepare_release extra); [done|done|apply H1|]. intros st' k' Hs' Hid _ Hk Hg. wps.
  pose proof (inv_unschedule _ _ _ _ _ p st sc st' k' H1 Hp Hs Hs' Hid Hk Hg) as H2.
  split_and!; [|done|].
  - eapply inv_push_waiting; [exact H2| |exact Hs']. simpl. apply lookup_insert_eq.
  - intros q Hq. simpl. apply lookup_insert_ne. intros <-.
    pose proof (nodup_queues _ _ _ _ _ H1) as Hnd. simpl in Hnd.
    apply NoDup_cons in Hnd as [Hnd _]. apply Hnd. set_solver.
Qed.

Lemma find_smallest_loop_spec ph h l best n p :
  find_smallest_loop ph h l best n = Some p ->
  best = Some p \/ (p ∈ l /\ exists st sc, h !! p = Some st /\ scheduling st = Some sc /\
    status st = Active /\ execution_leases (reservation sc) = 0 /\
    is_prefill_phase (phase (cursor sc)) = ph).
Proof.
  revert best n. induction l as [|x l IH]; simpl; intros best n H; [by left|].
  destruct (h !! x) as [st|] eqn:Hx; simpl in H.
  2:{ destruct (IH _ _ H) as [?|[? ?]]; [by left|right; split; [by right|done]]. }
  destruct (scheduling st) as [sc|] eqn:Hs; simpl in H.
  2:{ destruct (IH _ _ H) as [?|[? ?]]; [by left|right; split; [by right|done]]. }
  destruct (negb (eqb ph _) || _ || _) eqn:Hg.
  { destruct (IH _ _ H) as [?|[? ?]]; [by left|right; split; [by right|done]]. }
  destruct (_ <? n).
  - destruct (IH _ _ H) as [[= <-]|[? ?]]; [right; split; [by left|]|right; split; [by right|done]].
    exists st, sc. unfold is_schedulable_state in Hg. bprop. split_and!; try done.
    symmetry. by apply eqb_prop.
  - destruct (IH _ _ H) as [?|[? ?]]; [by left|right; split; [by right|done]].
Qed.

Lemma find_smallest_spec ph s p :
  find_smallest ph s = Some p ->
  p ∈ running_ s /\ exists st sc, heap s !! p = Some st /\ scheduling st = Some sc /\
    status st = Active /\ execution_leases (reservation sc) = 0 /\
    is_prefill_phase (phase (cursor sc)) = ph.
Proof.
  intros [?|[Hin H]]%find_smallest_loop_spec; [done|]. split; [|done]. by apply elem_of_reverse.
Qed.

Lemma wp_suspend_one_running hand extra infl dead s :
  sched_inv hand extra infl dead s ->
  wp suspend_one_running (fun _ s' => sched_inv hand extra infl dead s' /\
    forall q, q ∈ hand -> heap s' !! q = heap s !! q) s.
Proof.
  intros Hinv. unfold suspend_one_running. wps.
  destruct (match find_smallest true s with Some p => Some p | None => find_smallest false s end)
    as [p|] eqn:Hfind; [|by wps].
  assert (exists ph, find_smallest ph s = Some p) as [ph Hph].
  { destruct (find_smallest true s) eqn:E1; simplify_eq; eauto. }
  destruct (find_smallest_spec ph s p Hph) as (Hin & st & sc & Hp & Hs & _ & Hl & _).
  wps. unfold release_and_move_to_wait. wps. eapply wp_deref; [done|]. rewrite Hs. wps.
  eapply (wp_prepare_release extra); [done|done|by eapply si_kv|].
  intros st' k' Hs' Hid _ Hk Hg. wps. eapply wp_lift; [done|]. wps. simpl.
  set (paused := negb (bool_decide (erase1 p (running_ s) = []))).
  pose proof (inv_stop _ _ _ _ s p st sc paused Hinv Hin Hp Hs Hl) as H1.
  assert (paused = true -> accepting_ s = true -> erase1 p (running_ s) <> []) as Hpa.
  { subst paused. intros E _. by bprop. }
  specialize (H1 Hpa).
  pose proof (inv_unschedule _ _ _ _ _ p st sc st' k' H1 Hp Hs Hs' Hid Hk Hg) as H2.
  simpl in H2. rewrite delete_delete_eq in H2.
  split.
  - eapply (inv_push_waiting _ _ _ _ _ p st' H2); [|done]. simpl. apply lookup_insert_eq.
  - intros q Hq. apply lookup_insert_ne. intros <-.
    pose proof (nodup_queues _ _ _ _ _ H1) as Hnd. simpl in Hnd.
    apply NoDup_cons in Hnd as [Hnd _]. apply Hnd. set_solver.
Qed.

Lemma wp_relieve_shortage hand extra infl dead s :
  sched_inv hand extra infl dead s ->
  wp relieve_shortage (fun _ s' => sched_inv hand extra infl dead s' /\
    forall q, q ∈ hand -> heap s' !! q = heap s !! q) s.
Proof.
  intros Hinv. unfold relieve_shortage. wps.
  eapply wp_mono; [by apply wp_evict_one_skipped|]. intros b s' (H1 & Hb & Hh). cbv beta.
  destruct b; [by wps|]. rewrite Hb in * by done. wps.
  eapply wp_mono; [by apply wp_suspend_one_running|]. intros b s'' [H2 Hh2]. by wps.
Qed.
