(* ===== verification/SchedAdmit.v ===== *)
(** * Admission and [schedule_step] preserve the invariant

    Admission pops a request, finds its cached prefix, allocates the missing
    blocks and starts it; under a KV shortage it evicts or suspends instead.
    [schedule_step] always ends: each admission takes one request off the queues. *)

From Stdlib Require Import ZArith Lia.
From stdpp Require Import prelude strings gmap fin_maps.
From S2P Require Import Prelude Base Config BlockPool PrefixCache BlockCache BlockCacheInv.
From S2P Require Import Scheduler SchedKv SchedWork SchedInv SchedBuild SchedMoves.

(** The lemmas on methods that may meet a hazard are about the lenient mode. *)
#[local] Existing Instance lenient_build.

(** ** Small steps *)

Lemma wp_accepting (Q : bool -> Scheduler -> Prop) s :
  (forall b s', same_frame s s' -> heap s' = heap s -> kv s' = kv s ->
     b = accepting_ s' -> Q b s') ->
  wp accepting_load Q s.
Proof.
  intros HQ. unfold wp, accepting_load. destruct (shutdown_in s) as [[|n]|].
  - apply HQ; done.
  - apply HQ; done.
  - apply HQ; [apply same_frame_refl|done..].
Qed.

Lemma inv_same hand extra infl dead s s' :
  sched_inv hand extra infl dead s -> same_frame s s' -> heap s' = heap s -> kv s' = kv s ->
  sched_inv hand extra infl dead s'.
Proof. intros Hinv Hf Hh Hk. apply (inv_frame _ _ _ _ s); try done. rewrite Hk. by eapply si_kv. Qed.

Lemma same_frame_queue s s' : same_frame s s' -> queue_len s' = queue_len s.
Proof. intros []. unfold queue_len. congruence. Qed.

Lemma inv_kv hand extra extra' infl dead s k' :
  sched_inv hand extra infl dead s -> kv_part extra' (heap s) k' -> kv_geometry (kv s) k' ->
  sched_inv hand extra' infl dead (set_kv k' s).
Proof.
  intros [A B C D E F G K] Hk [Hgm Hg]. split; simpl; try done;
    unfold bsz in *; simpl; rewrite ?Hg, ?Hgm; done.
Qed.

Lemma kv_part_perm extra extra' h k : extra ≡ₚ extra' -> kv_part extra h k -> kv_part extra' h k.
Proof.
  intros Hp [A B C]. split; [done|intros j; by rewrite <- (count_perm j _ _ Hp)|].
  intros p st sc i j H1 H2 H3 H4. destruct (C p st sc i j H1 H2 H3 H4) as [Hc Hn].
  split; [by rewrite <- (count_perm j _ _ Hp)|done].
Qed.

(** ** Post-condition of an admission step *)

Definition admit_post (infl : list WorkItem) (dead : gset Z) (ctx : BatchBuildContext)
    (bnd : bool -> nat -> Prop) (r : bool * BatchBuildContext) (s' : Scheduler) : Prop :=
  exists new,
    batch_items (ctx_batch r.2) = batch_items (ctx_batch ctx) ++ new /\
    batch_id (ctx_batch r.2) = batch_id (ctx_batch ctx) /\
    ctx_token_budget r.2 = ctx_token_budget ctx - sum_items work_token_count new /\
    (0 <= ctx_token_budget ctx -> 0 <= ctx_token_budget r.2) /\
    sched_inv [] [] (infl ++ new) dead s' /\
    bnd r.1 (queue_len s').

Lemma admit_post_nothing infl dead ctx (bnd : bool -> nat -> Prop) b s' :
  sched_inv [] [] infl dead s' -> bnd b (queue_len s') ->
  admit_post infl dead ctx bnd (b, ctx) s'.
Proof. intros Hinv Hq. exists []. rewrite !app_nil_r. simpl. split_and!; try done; lia. Qed.

Lemma wp_finish_admit infl dead ctx (bnd : bool -> nat -> Prop) p st ev s :
  sched_inv [p] [] infl dead s -> heap s !! p = Some st -> scheduling st = None ->
  bnd true (queue_len s) ->
  wp (r ← finish_with p ev; mret (r, ctx)) (admit_post infl dead ctx bnd) s.
Proof.
  intros Hinv Hp Hs Hm. wps. eapply wp_mono; [by eapply wp_finish_with|].
  intros b s' (-> & Hinv' & Hq). wps. apply admit_post_nothing; [done|]. by rewrite Hq.
Qed.

Lemma wp_release_finish infl dead ctx (bnd : bool -> nat -> Prop) p st ev s :
  sched_inv [p] [] infl dead s -> heap s !! p = Some st -> bnd true (queue_len s) ->
  wp (_ ← release_scheduling_blocks p; r ← finish_with p ev; mret (r, ctx))
    (admit_post infl dead ctx bnd) s.
Proof.
  intros Hinv Hp Hm. wps. eapply wp_mono; [by eapply wp_release_hand|].
  intros _ s' (Hinv' & Hp' & Hq & _). cbv beta. apply wp_bind.
  eapply wp_mono; [eapply wp_finish_with; [done|exact Hp'|done]|].
  intros b s'' (-> & Hinv'' & Hq'). wps. apply admit_post_nothing; [done|]. by rewrite Hq', Hq.
Qed.

(** A request in hand with a sequence starts and gets its first work. *)
Lemma wp_start_running infl dead ctx (bnd : bool -> nat -> Prop) p st sc s :
  sched_inv [p] [] infl dead s -> heap s !! p = Some st -> scheduling st = Some sc ->
  size_Z (running_ s) < u64 (max_running_requests (engine_config_ s)) ->
  size_Z (running_ s) + size_Z (skip_ s) < u64 (max_sequences (engine_config_ s)) ->
  bnd true (queue_len s) ->
  wp (_ ← modify (fun s => set_by_seq_id (<[seq_id sc := p]> (by_seq_id_ s)) s);
      _ ← modify (fun s => set_running (running_ s ++ [p]) s);
      ctx ← build_state_work ctx p; mret (true, ctx)) (admit_post infl dead ctx bnd) s.
Proof.
  intros Hinv Hp Hs H1 H2 Hm. wps.
  pose proof (inv_run _ _ _ _ _ p st sc Hinv Hp Hs H1 H2) as Hinv'.
  eapply wp_mono; [apply wp_build_state_work; [exact Hinv'|simpl; set_solver]|].
  intros ctx' s' (new & A1 & A2 & A3 & A4 & A5 & A6). wps. exists new. split_and!; try done.
  by rewrite (same_frame_queue _ _ A5).
Qed.

(** ** Admission from [skip_] *)

Lemma wp_admit_skipped_request infl dead ctx (bnd : bool -> nat -> Prop) p s :
  sched_inv [p] [] infl dead s ->
  size_Z (running_ s) < u64 (max_running_requests (engine_config_ s)) ->
  size_Z (running_ s) + size_Z (skip_ s) < u64 (max_sequences (engine_config_ s)) ->
  bnd true (queue_len s) -> bnd false (S (queue_len s)) ->
  wp (admit_skipped_request ctx p) (admit_post infl dead ctx bnd) s.
Proof.
  intros Hinv H1 H2 Hm Hm2. unfold admit_skipped_request.
  destruct (pl_hand _ _ _ _ _ _ _ _ _ (si_place _ _ _ _ _ Hinv) p) as [x Hx]; [by left|].
  rewrite lookup_fmap in Hx. apply fmap_Some in Hx as (st & Hp & _).
  wps. eapply wp_deref; [done|].
  case_bool_decide; [by eapply wp_release_finish|].
  destruct (_ <=? 0); [by eapply wp_release_finish|].
  destruct (scheduling st) as [sc|] eqn:Hs.
  2:{ wps. apply admit_post_nothing; [by eapply inv_push_waiting|].
      unfold queue_len in *. simpl. by rewrite Nat.add_succ_r. }
  wps. apply wp_accepting. intros b s' Hf Hh Hk _. cbv beta.
  assert (sched_inv [p] [] infl dead s') as Hinv' by (by eapply inv_same).
  assert (heap s' !! p = Some st) as Hp' by (by rewrite Hh).
  assert (bnd true (queue_len s')) as Hm' by (by rewrite (same_frame_queue _ _ Hf)).
  destruct b; simpl; [|by eapply wp_release_finish].
  destruct (_ <=? _).
  - apply wp_bind. eapply wp_mono; [by eapply wp_release_hand|].
    intros _ s2 (Hinv2 & Hp2 & Hq2 & _). cbv beta. apply wp_bind.
    eapply wp_send_terminal_event; [exact Hp2|]. intros b evs. apply wp_bind.
    set (st3 := set_status Finished (set_scheduling None st)).
    eapply (wp_erase_request _ st3); [simpl; apply lookup_insert_eq|done|]. apply wp_ret.
    apply admit_post_nothing; [|by rewrite <- Hq2 in Hm'].
    eapply (inv_erase _ _ _ _ _ p st3); [|simpl; apply lookup_insert_eq|done].
    by apply (inv_set_status _ _ _ _ s2 _ p (set_scheduling None st) Finished).
  - eapply wp_start_running; try done.
    + by rewrite (sf_running _ _ Hf), (sf_config _ _ Hf).
    + by rewrite (sf_running _ _ Hf), (sf_config _ _ Hf), (sf_skip _ _ Hf).
Qed.

Lemma wp_admit_one_skipped infl dead ctx s :
  sched_inv [] [] infl dead s ->
  wp (admit_one_skipped ctx) (admit_post infl dead ctx
    (fun b n => (n <= if b then queue_len s - 1 else queue_len s)%nat)) s.
Proof.
  intros Hinv. unfold admit_one_skipped. wps.
  destruct (_ || _ || _) eqn:Hg; [wps; by apply admit_post_nothing|].
  destruct (skip_ s) as [|p rest] eqn:Hsk; [wps; by apply admit_post_nothing|].
  wps. bprop. pose proof (si_limits _ _ _ _ _ Hinv) as [L1 L2]. rewrite Hsk, size_Z_cons in L2.
  apply wp_admit_skipped_request; simpl; [by apply inv_pop_skip|lia|lia|..];
    unfold queue_len; simpl; rewrite Hsk; simpl; lia.
Qed.

(** ** Admission from [waiting_] *)

Lemma admitted_work_ok bs st seq lookup table :
  0 < bs -> prompt_tokens st <> [] -> 0 <= prefix_hit_blocks lookup ->
  prefix_hit_blocks lookup * bs <= size_Z (prompt_tokens st) <= bs * table_size table ->
  let sc := admitted_scheduling st seq bs lookup table in
  work_ok bs (set_scheduling (Some sc) st) sc [].
Proof.
  intros Hbs Hne Hh [Hle Hcap] sc.
  assert (0 < size_Z (prompt_tokens st)) as Hpos.
  { unfold size_Z. destruct (prompt_tokens st); [done|simpl; lia]. }
  split; [done|done|]. intros _. split; simpl.
  - change (size_Z []) with 0. nia.
  - lia.
  - nia.
  - unfold phase_ok. subst sc. unfold admitted_scheduling. simpl.
    set (f := prefix_hit_blocks lookup * bs) in *. assert (0 <= f) by (subst f; nia).
    destruct ((0 <? f) && (f <? size_Z (prompt_tokens st))) eqn:E.
    + bprop. simpl. case_bool_decide; split_and!; simpl; try done; lia.
    + destruct (Z.leb_spec (size_Z (prompt_tokens st)) f); simpl.
      * case_bool_decide; simpl; [split; [done|by left]|done].
      * assert (f = 0) by (apply andb_false_iff in E as [?|?]; bprop; lia).
        split_and!; simpl; try done; lia.
Qed.

(** The blocks in hand cover the prompt, and those past the cached prefix are fresh. *)
Definition blocks_ready (lookup : PrefixLookup) (table : BlockTable) (st : RequestState)
    (s : Scheduler) : Prop :=
  0 <= prefix_hit_blocks lookup /\
  prefix_hit_blocks lookup * bsz s <= size_Z (prompt_tokens st) <= bsz s * table_size table /\
  forall i j, block_ids_ table !! i = Some j -> prefix_hit_blocks lookup <= Z.of_nat i ->
    exclusive (block_ids_ table) (heap s) (kv s) j.

Lemma wp_admit_with_blocks infl dead ctx (bnd : bool -> nat -> Prop) p st lookup table s :
  sched_inv [p] (block_ids_ table) infl dead s -> heap s !! p = Some st -> scheduling st = None ->
  prompt_tokens st <> [] -> blocks_ready lookup table st s ->
  size_Z (running_ s) < u64 (max_running_requests (engine_config_ s)) ->
  size_Z (running_ s) + size_Z (skip_ s) < u64 (max_sequences (engine_config_ s)) ->
  bnd true (queue_len s) ->
  wp (admit_with_blocks ctx p lookup table) (admit_post infl dead ctx bnd) s.
Proof.
  intros Hinv Hp Hs Hne Hready H1 H2 Hm. unfold admit_with_blocks. apply wp_bind.
  apply wp_accepting. intros b s' Hf Hh Hk _. cbv beta.
  assert (sched_inv [p] (block_ids_ table) infl dead s') as Hinv' by (by eapply inv_same).
  rewrite <- Hh in Hp. rewrite <- (same_frame_queue _ _ Hf) in Hm.
  rewrite <- (sf_running _ _ Hf), <- (sf_config _ _ Hf) in H1, H2. rewrite <- (sf_skip _ _ Hf) in H2.
  unfold blocks_ready in Hready. rewrite <- (same_frame_bsz _ _ Hf), <- Hh, <- Hk in Hready.
  clear Hh Hk Hf Hinv s. destruct Hready as (Hh0 & Hlen & Hex).
  destruct b; simpl.
  - apply wp_bind. eapply wp_deref; [exact Hp|]. do 8 wp1. simpl.
    set (sc := admitted_scheduling st (next_seq_id_ s') (block_size_ (kv_pool (kv s'))) lookup table).
    pose proof (bsz_pos _ _ _ _ _ Hinv') as Hbs.
    assert (sched_inv [p] [] infl dead (set_heap (<[p := set_scheduling (Some sc) st]> (heap s'))
              (set_next_seq_id (next_seq_id_ s' + 1) s'))) as Hinv2.
    { apply (inv_schedule _ _ _ (block_ids_ table)); try done.
      - by rewrite app_nil_r.
      - apply (kv_part_give [] (block_ids_ table) _ _ _ st _ sc); try done.
        + rewrite app_nil_r. by eapply si_kv.
        + rewrite app_nil_r. intros i j Hi Hle. apply (Hex i j Hi).
          unfold hash_bound in Hle. simpl in Hle. change (size_Z []) with 0 in Hle.
          rewrite Z.sub_0_r, Z.div_mul in Hle; [done|]. unfold bsz in Hbs. lia.
      - by apply admitted_work_ok. }
    eapply (wp_start_running _ _ _ _ p _ sc _ Hinv2); [simpl; apply lookup_insert_eq|done..].
  - apply wp_bind.
    destruct (kv_part_release [] (heap s') (kv s') table) as (k' & Hr & Hk' & Hg).
    { rewrite app_nil_r. by eapply si_kv. }
    eapply wp_with_kv_; [exact Hr|]. eapply wp_finish_admit; [by eapply inv_kv|done|done|done].
Qed.

(** The failure path: the prefix is released, something is evicted or suspended,
    and the request goes back to the front. *)
Lemma wp_admit_shortage infl dead ctx (bnd : bool -> nat -> Prop) p st table s :
  (forall n, bnd false n) -> sched_inv [p] (block_ids_ table) infl dead s -> heap s !! p = Some st -> scheduling st = None ->
  wp (_ ← with_kv_ (release_request_blocks table);
      if bool_decide (KVBlockExhausted = KVBlockExhausted) then
        _ ← relieve_shortage;
        _ ← modify (set_block_shortage_pending false);
        _ ← modify (fun s => set_waiting (p :: waiting_ s) s);
        mret (false, ctx)
      else r ← finish_with p (Unexpected KVBlockExhausted); mret (r, ctx))
    (admit_post infl dead ctx bnd) s.
Proof.
  intros Hbnd Hinv Hp Hs. apply wp_bind.
  destruct (kv_part_release [] (heap s) (kv s) table) as (k' & Hr & Hk' & Hg).
  { rewrite app_nil_r. by eapply si_kv. }
  eapply wp_with_kv_; [exact Hr|]. rewrite bool_decide_eq_true_2 by done. apply wp_bind.
  eapply wp_mono; [eapply wp_relieve_shortage; by eapply inv_kv|].
  intros _ s' [Hinv' Hh]. wps. apply admit_post_nothing; [|apply Hbnd].
  eapply (inv_push_waiting _ _ _ _ (set_block_shortage_pending false s') p st).
  - by destruct Hinv'.
  - simpl. rewrite Hh by (by left). done.
  - done.
Qed.

Lemma wp_admit_allocate infl dead ctx (bnd : bool -> nat -> Prop) p st s :
  sched_inv [p] [] infl dead s -> heap s !! p = Some st -> scheduling st = None ->
  prompt_tokens st <> [] ->
  size_Z (running_ s) < u64 (max_running_requests (engine_config_ s)) ->
  size_Z (running_ s) + size_Z (skip_ s) < u64 (max_sequences (engine_config_ s)) ->
  bnd true (queue_len s) -> (forall n, bnd false n) ->
  wp (admit_allocate ctx p st) (admit_post infl dead ctx bnd) s.
Proof.
  intros Hinv Hp Hs Hne H1 H2 Hm Hbnd. unfold admit_allocate. apply wp_bind.
  destruct (kv_part_lookup [] (heap s) (kv s) (prompt_tokens st) (si_kv _ _ _ _ _ Hinv) Hne)
    as (r & k1 & Hr & Hk1 & Hg1 & Hhit & Hlen).
  eapply wp_with_kv; [exact Hr|]. rewrite app_nil_r in Hk1.
  assert (sched_inv [p] (block_ids_ (lk_block_table r)) infl dead (set_kv k1 s)) as Hinv1
    by (by eapply inv_kv).
  pose proof (bsz_pos _ _ _ _ _ Hinv) as Hbs.
  assert (0 <= prefix_hit_blocks r) as Hh0 by (rewrite Hhit; apply size_Z_nonneg).
  destruct (blocks_for_spec (size_Z (prompt_tokens st)) (bsz s)) as (need & En & Hneed);
    [apply size_Z_nonneg|done|].
  wps. simpl. replace (block_size_ (kv_pool k1)) with (bsz s) by (symmetry; apply Hg1).
  eapply wp_lift; [exact En|]. wps.
  destruct (Z.ltb_spec 0 (need - table_size (lk_block_table r))) as [Hmiss|Hmiss].
  - destruct (kv_part_alloc _ (heap s) k1 _ Hk1 Hmiss)
      as [(t & k2 & Ha & Hk2 & Hg2 & Hsz & Hex & _)|(k2 & Ha & Hk2 & Hg2)].
    + eapply wp_with_kv; [exact Ha|]. simpl.
      set (table := table_append (lk_block_table r) t).
      assert (block_ids_ t ++ block_ids_ (lk_block_table r) ≡ₚ block_ids_ table) as Hperm.
      { subst table. rewrite table_append_ids. apply Permutation_app_comm. }
      apply (wp_admit_with_blocks _ _ _ _ _ st); try done.
      * eapply inv_kv; [exact Hinv1| |done]. by eapply kv_part_perm.
      * split; [done|]. split.
        { unfold bsz. simpl. destruct Hg1 as [_ E1], Hg2 as [_ E2]. rewrite E2, E1. fold (bsz s).
          split; [done|]. unfold table_size in *. subst table. rewrite table_append_ids, size_Z_app.
          replace (size_Z (block_ids_ (lk_block_table r)) + size_Z (block_ids_ t)) with need by lia. done. }
        simpl. intros i j Hi Hle. subst table. rewrite table_append_ids in Hi.
        apply lookup_app_Some in Hi as [Hi|[_ Hi]].
        { apply lookup_lt_Some in Hi. rewrite Hhit in Hle. unfold table_size, size_Z in Hle. lia. }
        apply list_elem_of_lookup_2 in Hi. destruct (Hex j Hi) as [Hc Hn].
        split; [|done]. by rewrite <- (count_perm j _ _ Hperm).
    + eapply wp_with_kv; [exact Ha|]. cbv beta iota.
      eapply wp_admit_shortage; [done|by eapply inv_kv|done|done].
  - wps. apply (wp_admit_with_blocks _ _ _ _ _ st); try done.
    split; [done|]. split.
    { unfold bsz. simpl. destruct Hg1 as [_ E1]. rewrite E1. fold (bsz s). split; [done|].
      change (table_append (lk_block_table r) empty_table) with (lk_block_table r). nia. }
    intros i j Hi Hle. change (table_append (lk_block_table r) empty_table) with (lk_block_table r) in Hi.
    apply lookup_lt_Some in Hi. rewrite Hhit in Hle. unfold table_size, size_Z in Hle. lia.
Qed.

Lemma wp_admit_one_waiting infl dead ctx s :
  sched_inv [] [] infl dead s ->
  wp (admit_one_waiting ctx) (admit_post infl dead ctx
    (fun b n => b = true -> (n <= queue_len s - 1)%nat)) s.
Proof.
  intros Hinv. unfold admit_one_waiting. wps.
  destruct (_ || _ || _ || _) eqn:Hg; [wps; by apply admit_post_nothing|].
  destruct (waiting_ s) as [|p rest] eqn:Hw; [wps; by apply admit_post_nothing|].
  destruct (waiting_view _ _ _ _ _ Hinv p) as (st & Hp & Hs); [rewrite Hw; left|].
  wps. bprop. pose proof (inv_pop_waiting _ _ _ _ _ p rest Hinv Hw) as Hinv'.
  assert ((queue_len (set_waiting rest s) <= queue_len s - 1)%nat) as Hm.
  { unfold queue_len. simpl. rewrite Hw. simpl. lia. }
  unfold admit_waiting_request. apply wp_bind. eapply wp_deref; [done|].
  case_bool_decide; [by eapply wp_finish_admit|].
  destruct (_ <=? 0); [by eapply wp_finish_admit|].
  apply wp_bind. apply wp_assert; [by rewrite Hs|]. wps.
  destruct (_ || _ || _ || _) eqn:Hg2; [by eapply wp_finish_admit|].
  apply wp_admit_allocate; simpl; try done.
  intros E. bprop. rewrite E in *. change (size_Z []) with 0 in *. lia.
Qed.

(** ** The admission loop ends *)

Definition loop_post (infl : list WorkItem) (dead : gset Z) (ctx ctx' : BatchBuildContext)
    (s' : Scheduler) : Prop := admit_post infl dead ctx (fun _ _ => True) (false, ctx') s'.

Lemma loop_post_trans infl dead c1 c2 c3 b bnd s2 s3 new :
  batch_items (ctx_batch c2) = batch_items (ctx_batch c1) ++ new ->
  batch_id (ctx_batch c2) = batch_id (ctx_batch c1) ->
  ctx_token_budget c2 = ctx_token_budget c1 - sum_items work_token_count new ->
  (0 <= ctx_token_budget c1 -> 0 <= ctx_token_budget c2) ->
  sched_inv [] [] (infl ++ new) dead s2 ->
  admit_post (infl ++ new) dead c2 bnd (b, c3) s3 -> loop_post infl dead c1 c3 s3.
Proof.
  intros A1 A2 A3 A4 A5 (new' & B1 & B2 & B3 & B4 & B5 & _). exists (new ++ new'). simpl in *.
  rewrite sum_items_app. rewrite (app_assoc infl). rewrite B1, A1, <- app_assoc.
  split_and!; try done; [congruence|lia|auto].
Qed.

Lemma wp_admission_loop fuel infl dead ctx s :
  sched_inv [] [] infl dead s -> (queue_len s < fuel)%nat ->
  wp (admission_loop fuel ctx) (loop_post infl dead ctx) s.
Proof.
  revert infl ctx s. induction fuel as [|fuel IH]; intros infl ctx s Hinv Hfuel; [lia|].
  simpl. apply wp_bind, wp_accepting. intros b s' Hf Hh Hk _. cbv beta.
  assert (sched_inv [] [] infl dead s') as Hinv' by (by eapply inv_same).
  rewrite <- (same_frame_queue _ _ Hf) in Hfuel. clear Hf Hh Hk Hinv. wps. simpl.
  destruct (_ && _ && _ && _ && _) eqn:Hg; [|wps; by apply admit_post_nothing].
  assert (0 < queue_len s')%nat as Hpos.
  { unfold queue_len. bprop. destruct (skip_ s'), (waiting_ s'); simpl in *; done || lia. }
  clear Hg. apply wp_bind.
  eapply (wp_mono _ (admit_post infl dead ctx
    (fun b n => (n <= if b then queue_len s' - 1 else queue_len s')%nat))).
  { case_bool_decide; [wps; by apply admit_post_nothing|by apply wp_admit_one_skipped]. }
  intros [again ctx1] s1 (new & A1 & A2 & A3 & A4 & A5 & A6). simpl in *.
  destruct again; simpl in A6.
  - eapply wp_mono; [apply IH; [exact A5|lia]|].
    intros ctx2 s2 Hl. by eapply loop_post_trans.
  - wps. case_bool_decide as Hw; wps; simpl.
    { by exists new. }
    eapply wp_mono; [apply (wp_admit_one_waiting _ _ _ _ A5)|].
    intros [adm ctx2] s2 Hpost. destruct adm; simpl.
    + pose proof Hpost as (new2 & B1 & B2 & B3 & B4 & B5 & B6). simpl in *.
      eapply wp_mono; [apply IH; [exact B5|specialize (B6 eq_refl); lia]|].
      intros ctx3 s3 Hl. apply (loop_post_trans _ _ ctx ctx1 ctx3 false (fun _ _ => True) s1 s3 new);
        try done. by eapply loop_post_trans.
    + wps. by eapply loop_post_trans.
Qed.

(** ** [schedule_step] *)

Lemma inv_block_shortage b hand extra infl dead s :
  sched_inv hand extra infl dead s -> sched_inv hand extra infl dead (set_block_shortage_pending b s).
Proof. intros Hinv. by apply (inv_same _ _ _ _ s). Qed.

Lemma filter_true {A} (f : A -> bool) (l : list A) : (forall x, x ∈ l -> f x = true) -> List.filter f l = l.
Proof.
  induction l as [|x l IH]; intros H; simpl; [done|].
  rewrite H by (by left). f_equal. apply IH. intros y Hy. apply H. by right.
Qed.

Lemma wp_schedule_step infl dead s :
  sched_inv [] [] infl dead s ->
  wp schedule_step (fun b s' => sched_inv [] [] (infl ++ batch_items b) dead s' /\
    batch_id b = next_batch_id_ s /\
    (0 <= max_token_budget (engine_config_ s) ->
     sum_items work_token_count (batch_items b) <= max_token_budget (engine_config_ s))) s.
Proof.
  intros Hinv. pose proof (bsz_pos _ _ _ _ _ Hinv) as Hbs. unfold schedule_step. wps. simpl.
  apply wp_assert; [by apply Z.ltb_lt|]. wps. simpl.
  set (s0 := set_next_batch_id _ s).
  assert (sched_inv [] [] infl dead s0) as Hinv0 by (by apply (inv_same _ _ _ _ s)).
  set (ctx0 := mkCtx _ _ _ _).
  apply (wp_mono _ (fun _ s' => sched_inv [] [] infl dead s')).
  { destruct (block_shortage_pending_ s); [|by wps]. wps.
    eapply wp_mono; [apply wp_relieve_shortage; by apply inv_block_shortage|]. by intros _ s' [? _]. }
  intros _ s1 Hinv1. cbv beta. apply wp_bind.
  eapply wp_mono; [by apply wp_build_running_batch|].
  intros ctx1 s2 (new1 & A1 & A2 & A3 & A4 & A5 & Hinv2). wps.
  eapply wp_mono; [apply wp_admission_loop; [exact Hinv2|unfold queue_len; lia]|].
  intros ctx2 s3 (new2 & B1 & B2 & B3 & B4 & Hinv3 & _). wps. simpl in *.
  rewrite <- app_assoc in Hinv3.
  assert (batch_items (ctx_batch ctx2) = new1 ++ new2) as Hitems by (by rewrite B1, A1).
  assert (0 <= max_token_budget (engine_config_ s) ->
    sum_items work_token_count (new1 ++ new2) <= max_token_budget (engine_config_ s)) as Hbud.
  { rewrite sum_items_app. intros. lia. }
  assert (batch_id (ctx_batch ctx2) = next_batch_id_ s) as Hid by congruence.
  destruct (admission_paused_ s3); wps; simpl; [|by rewrite Hitems].
  rewrite filter_true; [by rewrite Hitems|].
  intros it Hit. apply bool_decide_eq_true_2. rewrite Hitems in Hit.
  eapply (si_infl _ _ _ _ _ Hinv3). set_solver.
Qed.
