(* ===== verification/SchedRetire.v ===== *)
(** * Retiring results preserves the invariant

    [retire_work], [update_from_output] and [fail_batch].  Results arrive in the
    order of dispatch; each takes the oldest item of its sequence off the chain,
    moves the cursor and the frontier, publishes the blocks that became full and
    emits the sampled token. *)

From Stdlib Require Import ZArith Lia.
From stdpp Require Import prelude strings gmap fin_maps.
From S2P Require Import Prelude Base Config BlockPool PrefixCache BlockCache BlockCacheInv.
From S2P Require Import Scheduler SchedKv SchedWork SchedInv SchedBuild SchedMoves SchedAdmit.

(** ** What the executor promises about one result *)

Record honest_item (dead : gset Z) (it : WorkItem) (i : Z) (r : WorkItemResult) : Prop := mk_honest_item {
  hi_index : item_index r = i;
  hi_seq : res_seq_id r = work_sequence_id it;
  hi_kind : res_kind r = work_kind it;
  hi_stale : stale r = true -> work_sequence_id it ∈ dead;
  hi_tokens : stale r = false -> tokens_consumed r = work_token_count it;
  hi_sampled : stale r = false -> sampled_tokens r <> [] <-> gen_of it = 1;
  hi_eos : stale r = false -> eos r = true -> sampled_tokens r <> [];
}.

(** ** Publication *)

(** Publishing changes only the chain hash and the pending tokens. *)
Record same_but_hash (sc sc' : SequenceSchedulingState) : Prop := mk_same_but_hash {
  sh_seq : seq_id sc' = seq_id sc;
  sh_resv : reservation sc' = reservation sc;
  sh_cursor : cursor sc' = cursor sc;
  sh_table : block_table sc' = block_table sc;
  sh_frontier : executed_frontier sc' = executed_frontier sc;
  sh_pending : size_Z (pending_hash_tokens sc') <= size_Z (pending_hash_tokens sc);
}.

Lemma same_but_hash_trans a b c : same_but_hash a b -> same_but_hash b c -> same_but_hash a c.
Proof. intros [] []. split; congruence || lia. Qed.

Lemma hash_bound_drop bs sc sc' :
  0 < bs -> executed_frontier sc' = executed_frontier sc ->
  size_Z (pending_hash_tokens sc') = size_Z (pending_hash_tokens sc) - bs ->
  hash_bound bs sc' = hash_bound bs sc + 1.
Proof.
  intros Hbs Hf Hp. unfold hash_bound. rewrite Hf, Hp.
  replace (executed_frontier sc - (size_Z (pending_hash_tokens sc) - bs))
    with ((executed_frontier sc - size_Z (pending_hash_tokens sc)) + 1 * bs) by lia.
  rewrite Z.div_add by lia. lia.
Qed.

Lemma wp_publish_loop fuel extra p st sc idx (Q : unit -> Scheduler -> Prop) s :
  heap s !! p = Some st -> scheduling st = Some sc -> kv_part extra (heap s) (kv s) ->
  hash_bound (bsz s) sc = idx -> size_Z (pending_hash_tokens sc) <= executed_frontier sc ->
  executed_frontier sc <= bsz s * table_size (block_table sc) ->
  (length (pending_hash_tokens sc) < fuel)%nat ->
  (forall s' sc', same_frame s s' -> same_but_hash sc sc' ->
     heap s' = <[p := set_scheduling (Some sc') st]> (heap s) ->
     kv_part extra (heap s') (kv s') -> Q tt s') ->
  wp (publish_loop fuel p idx) Q s.
Proof.
  revert st sc idx s. induction fuel as [|fuel IH]; intros st sc idx s Hp Hs Hk Hb Hpend Hcap Hfuel HQ;
    [lia|]. simpl.
  pose proof (kv_part_bs _ _ _ Hk) as Hbs. fold (bsz s) in Hbs.
  wps. eapply wp_deref; [done|]. wps. eapply wp_lift; [done|]. wps. fold (bsz s).
  destruct (Z.leb_spec (bsz s) (size_Z (pending_hash_tokens sc))) as [Hfull|Hlt].
  2:{ wps. apply (HQ s sc); [apply same_frame_refl|done| |done].
      rewrite insert_id; [done|]. rewrite Hp. f_equal. destruct st; simpl in *; by subst. }
  assert (0 <= idx < table_size (block_table sc)) as Hidx.
  { subst idx. unfold hash_bound. split; [apply Z.div_pos; lia|].
    apply Z.div_lt_upper_bound; lia. }
  destruct (at_Z_is_Some (block_ids_ (block_table sc)) idx) as [id Hid]; [done|].
  apply at_Z_Some in Hid as [_ Hid'].
  wps. apply wp_assert; [apply andb_true_iff; split; [apply Z.leb_le|apply Z.ltb_lt]; lia|].
  wps. eapply wp_lift; [unfold table_at, at_Z; destruct (Z.leb_spec 0 idx); [exact Hid'|lia]|].
  set (full := take _ _).
  set (sc1 := set_pending_hash_tokens (drop (Z.to_nat (bsz s)) (pending_hash_tokens sc))
                (set_parent_hash (block_hash (kv s) (parent_hash sc) full 0) sc)).
  assert (size_Z (pending_hash_tokens sc1) = size_Z (pending_hash_tokens sc) - bsz s) as Hdrop.
  { unfold size_Z in *. simpl. rewrite length_drop. lia. }
  assert (hash_bound (bsz s) sc1 = idx + 1) as Hb1 by (rewrite (hash_bound_drop _ sc); done || lia).
  destruct (kv_part_publish extra (heap s) (kv s) p st sc (Z.to_nat idx) id (parent_hash sc) full
              (set_scheduling (Some sc1) st) sc1) as (k1 & Hr & Hk1 & Hpool); try done.
  { change (hash_bound (bsz s) sc = Z.of_nat (Z.to_nat idx)). lia. }
  { unfold full, size_Z in *. rewrite length_take. unfold bsz in *. lia. }
  { change (hash_bound (bsz s) sc1 = Z.of_nat (Z.to_nat idx) + 1). lia. }
  wps. eapply wp_with_kv; [exact Hr|]. wps. simpl.
  set (s1 := set_heap _ (set_kv k1 s)).
  assert (bsz s1 = bsz s) as Hbs1 by (unfold bsz; simpl; by rewrite Hpool).
  assert (same_frame s s1) as Hf1.
  { split; try done. unfold kv_geometry. simpl. rewrite Hpool. apply same_geometry_refl. }
  apply (IH (set_scheduling (Some sc1) st) sc1); try done.
  - simpl. apply lookup_insert_eq.
  - by rewrite Hbs1.
  - rewrite Hdrop. simpl. lia.
  - by rewrite Hbs1.
  - unfold sc1. simpl. rewrite length_drop. unfold size_Z in *. lia.
  - intros s2 sc2 Hf2 Hh2 Hheap Hk2. apply (HQ s2 sc2); try done.
    + by eapply same_frame_trans.
    + eapply same_but_hash_trans; [|exact Hh2]. split; try done. lia.
    + rewrite Hheap. simpl. by rewrite insert_insert_eq.
Qed.

Lemma wp_publish_written extra p st sc it (Q : unit -> Scheduler -> Prop) s :
  heap s !! p = Some st -> scheduling st = Some sc -> 0 < kv_token_count it ->
  0 < bsz s -> executed_frontier sc = work_context it + kv_token_count it ->
  size_Z (pending_hash_tokens sc) <= work_context it ->
  executed_frontier sc <= bsz s * table_size (block_table sc) ->
  size_Z (written_tokens it st) = kv_token_count it ->
  (forall st', req_table st' = req_table st ->
     (forall sc', scheduling st' = Some sc' ->
        (work_context it - size_Z (pending_hash_tokens sc)) / bsz s <= hash_bound (bsz s) sc') ->
     kv_part extra (<[p := st']> (heap s)) (kv s)) ->
  (forall s' sc', same_frame s s' -> same_but_hash (set_pending_hash_tokens
       (pending_hash_tokens sc ++ written_tokens it st) sc) sc' ->
     heap s' = <[p := set_scheduling (Some sc') st]> (heap s) ->
     kv_part extra (heap s') (kv s') -> Q tt s') ->
  wp (publish_written p it) Q s.
Proof.
  intros Hp Hs Hpos0 Hbs Hfr Hpend Hcap Hwr Hk HQ. unfold publish_written.
  set (sc1 := set_pending_hash_tokens (pending_hash_tokens sc ++ written_tokens it st) sc) in *.
  assert (size_Z (pending_hash_tokens sc1) = size_Z (pending_hash_tokens sc) + kv_token_count it) as Hsz.
  { simpl. by rewrite size_Z_app, Hwr. }
  assert (hash_bound (bsz s) sc1 = (work_context it - size_Z (pending_hash_tokens sc)) / bsz s) as Hb.
  { unfold hash_bound. rewrite Hsz. simpl. rewrite Hfr. f_equal. lia. }
  destruct (Z.ltb_spec 0 (kv_token_count it)) as [Hpos|Hz].
  - wps. eapply wp_deref; [done|]. wps. eapply wp_lift; [done|]. wps. fold (bsz s). fold sc1.
    set (s1 := set_heap _ s).
    apply (wp_publish_loop _ extra p (set_scheduling (Some sc1) st) sc1); try done.
    + simpl. apply lookup_insert_eq.
    + apply Hk; [unfold req_table; simpl; by rewrite Hs|]. intros sc' [= <-]. rewrite Hb. lia.
    + change (bsz s1) with (bsz s). rewrite Hb. rewrite Z.quot_div_nonneg; [done|lia|lia].
    + rewrite Hsz. simpl. lia.
    + simpl. lia.
    + intros s2 sc2 Hf Hsh Hh Hk2. apply (HQ s2 sc2); try done.
      { eapply same_frame_trans; [|exact Hf]. done. }
      rewrite Hh. simpl. by rewrite insert_insert_eq.
  - lia.
Qed.

Lemma wp_publish_none p it (Q : unit -> Scheduler -> Prop) s :
  kv_token_count it <= 0 -> Q tt s -> wp (publish_written p it) Q s.
Proof. intros Hk HQ. unfold publish_written. destruct (Z.ltb_spec 0 (kv_token_count it)); [lia|by wps]. Qed.

(** ** Emitting the token *)

Lemma wp_send_token_event p st (Q : bool -> Scheduler -> Prop) s :
  heap s !! p = Some st -> generated_tokens st <> [] ->
  (forall b s' x, same_frame s s' -> kv s' = kv s -> heap s' = <[p := set_status x st]> (heap s) ->
     (x = status st \/ x = Cancelled) -> Q b s') ->
  wp (send_token_event p) Q s.
Proof.
  intros Hp Hg HQ. apply last_is_Some in Hg as [t Ht]. unfold send_token_event.
  wps. eapply wp_deref; [done|]. wps. eapply wp_lift; [done|]. wps. apply wp_send_event.
  intros b evs. cbv beta. destruct (_ && _); wps.
  - apply (HQ b _ Cancelled); try done. by right.
  - apply (HQ b _ (status st)); try done; [|by left]. simpl. rewrite insert_id; [done|].
    rewrite Hp. f_equal. by destruct st.
Qed.

(** The request after its result was emitted: the first sampled token is appended,
    and a bootstrapped sequence decodes from now on. *)
Definition emitted_scheduling (r : WorkItemResult) (sc : SequenceSchedulingState)
  : SequenceSchedulingState :=
  match sampled_tokens r with
  | [] => sc
  | _ => if bool_decide (phase (cursor sc) = Bootstrap)
         then set_cursor (set_phase Decode (cursor sc)) sc else sc
  end.

Lemma wp_emit_result p st sc r (Q : unit -> Scheduler -> Prop) s :
  heap s !! p = Some st -> scheduling st = Some sc ->
  (forall s' st', same_frame s s' -> kv s' = kv s -> heap s' = <[p := st']> (heap s) ->
     request_id st' = request_id st -> prompt_tokens st' = prompt_tokens st ->
     scheduling st' = Some (emitted_scheduling r sc) ->
     generated_tokens st' = generated_tokens st ++ take 1 (sampled_tokens r) -> Q tt s') ->
  wp (emit_result p r) Q s.
Proof.
  intros Hp Hs HQ. unfold emit_result. wps. eapply wp_deref; [done|]. wps.
  eapply wp_lift; [done|]. cbv beta zeta. apply wp_bind, wp_store.
  set (st1 := match sampled_tokens r with [] => st | _ => _ end).
  set (st2 := if _ || _ then set_status Finished st1 else st1).
  assert (request_id st2 = request_id st /\ prompt_tokens st2 = prompt_tokens st /\
          scheduling st2 = Some (emitted_scheduling r sc) /\
          generated_tokens st2 = generated_tokens st ++ take 1 (sampled_tokens r)) as (E1 & E2 & E3 & E4).
  { assert (request_id st2 = request_id st1 /\ prompt_tokens st2 = prompt_tokens st1 /\
            scheduling st2 = scheduling st1 /\ generated_tokens st2 = generated_tokens st1)
      as (-> & -> & -> & ->) by (subst st2; by destruct (_ || _)).
    subst st1. unfold emitted_scheduling. destruct (sampled_tokens r) as [|t ts].
    - by rewrite app_nil_r.
    - simpl. by case_bool_decide. }
  apply wp_bind.
  apply (wp_mono _ (fun _ s' => exists x, same_frame s s' /\ kv s' = kv s /\
                                heap s' = <[p := set_status x st2]> (heap s))).
  { case_bool_decide as Hnil; simpl; wps.
    - exists (status st2). split_and!; try done. simpl. f_equal. by destruct st2.
    - apply (wp_send_token_event p st2).
      + simpl. apply lookup_insert_eq.
      + rewrite E4. destruct (sampled_tokens r); [done|]. simpl. by destruct (generated_tokens st).
      + intros b s' x Hf Hk Hh _. wps. exists x. split_and!; try done.
        * eapply same_frame_trans; [|exact Hf]. done.
        * rewrite Hh. simpl. by rewrite insert_insert_eq. }
  intros _ s1 (x & Hf & Hk & Hh). cbv beta. apply wp_bind. eapply wp_deref; [rewrite Hh; apply lookup_insert_eq|].
  destruct (_ && _); wps.
  - eapply wp_send_terminal_event; [rewrite Hh; apply lookup_insert_eq|]. intros b evs. wps.
    apply (HQ _ (set_status Finished st2)); try done; simpl.
    + eapply same_frame_trans; [exact Hf|]. done.
    + rewrite Hh. by rewrite insert_insert_eq.
  - by apply (HQ _ (set_status x st2)).
Qed.

(** ** One result *)

(** The items of the other sequences do not move. *)
Lemma items_of_tail it infl q : q <> work_sequence_id it -> items_of q infl = items_of q (it :: infl).
Proof.
  intros Hne. change (it :: infl) with ([it] ++ infl). rewrite items_of_app, items_of_one_ne by congruence.
  done.
Qed.

Lemma items_of_head it infl :
  items_of (work_sequence_id it) (it :: infl) = it :: items_of (work_sequence_id it) infl.
Proof.
  change (it :: infl) with ([it] ++ infl). rewrite items_of_app, items_of_one_eq by done. done.
Qed.

(** Everything [inv_local] needs when the oldest item of a sequence is retired. *)
Lemma inv_retire hand extra it infl dead s s' p st st' sc sc' :
  sched_inv hand extra (it :: infl) dead s -> same_frame s s' ->
  heap s !! p = Some st -> scheduling st = Some sc -> seq_id sc = work_sequence_id it ->
  heap s' = <[p := st']> (heap s) -> scheduling st' = Some sc' ->
  request_id st' = request_id st -> seq_id sc' = seq_id sc ->
  kv_part extra (heap s') (kv s') ->
  work_ok (bsz s) st' sc' (items_of (seq_id sc) infl) ->
  (seq_id sc ∈ dead -> status st' <> Active) ->
  sched_inv hand extra infl dead s'.
Proof.
  intros Hinv Hf Hp Hs Hq Hh Hs' Hid Hq' Hk Hw Hd. eapply (inv_local _ _ (it :: infl)); try done.
  - intros q Hne. apply items_of_tail. congruence.
  - intros it' Hin. apply (si_infl _ _ _ _ _ Hinv). by right.
Qed.

Section retire.
Context (infl : list WorkItem) (dead : gset Z) (s : Scheduler) (p : Z) (st : RequestState)
  (sc : SequenceSchedulingState) (it : WorkItem) (r : WorkItemResult).
Context (Hinv : sched_inv [] [] (it :: infl) dead s) (Hp : heap s !! p = Some st)
  (Hs : scheduling st = Some sc) (Hq : seq_id sc = work_sequence_id it).

(** The reservation after the item is retired. *)
Definition sc_retired : SequenceSchedulingState :=
  set_reservation (retire_counters (reservation sc) it) sc.

Lemma retire_work_view :
  work_ok (bsz s) st sc (it :: items_of (seq_id sc) infl) /\
  resv_exact (retire_counters (reservation sc) it) (items_of (seq_id sc) infl) /\
  Forall (item_at (bsz s) sc) (items_of (seq_id sc) infl) /\ item_at (bsz s) sc it.
Proof.
  destruct (si_work _ _ _ _ _ Hinv p st sc Hp Hs) as [Hw _].
  rewrite Hq, items_of_head, <- Hq in Hw. split; [done|]. destruct Hw as [A B C].
  apply Forall_cons in B as [B1 B2]. split_and!; try done.
  eapply resv_exact_retire; [done|]. constructor; [by destruct B1|]. by eapply item_at_wf.
Qed.

(** A result for a request that is no longer active only frees its reservation. *)
Lemma retire_inactive s' :
  same_frame s s' -> kv s' = kv s -> heap s' = <[p := set_scheduling (Some sc_retired) st]> (heap s) ->
  status st <> Active -> sched_inv [] [] infl dead s'.
Proof.
  intros Hf Hk Hh Hna. destruct retire_work_view as (_ & Hr & Hi & _).
  eapply (inv_retire _ _ it); try done.
  rewrite Hh, Hk. apply (kv_part_update _ _ _ p st); [by eapply si_kv|done| |].
  - unfold req_table. simpl. by rewrite Hs.
  - intros sc' [= <-]. exists sc. split; [done|]. unfold hash_bound. simpl. lia.
Qed.

(** [kv_part] after any rewrite of the request that keeps its table and does not
    lower the bound. *)
Lemma retire_kv s1 st' :
  heap s1 = <[p := st']> (heap s) -> kv s1 = kv s -> forall st2,
  req_table st2 = req_table st ->
  (forall sc', scheduling st2 = Some sc' -> hash_bound (bsz s) sc <= hash_bound (bsz s) sc') ->
  kv_part [] (<[p := st2]> (heap s1)) (kv s1).
Proof.
  intros Hh Hk st2 Ht Hb. rewrite Hh, Hk, insert_insert_eq.
  apply (kv_part_update _ _ _ p st); [by eapply si_kv|done|done|]. eauto.
Qed.

(** The two ways a retired item that wrote its KV entries continues: publish,
    emit, and the sequence is in the decode phase with the rest of its chain. *)
Lemma wp_finish_retire sc2 s2 :
  status st = Active -> same_frame s s2 -> kv s2 = kv s ->
  heap s2 = <[p := set_scheduling (Some sc2) st]> (heap s) ->
  seq_id sc2 = seq_id sc -> block_table sc2 = block_table sc ->
  reservation sc2 = retire_counters (reservation sc) it -> phase (cursor sc2) = Decode ->
  pending_hash_tokens sc2 = pending_hash_tokens sc ->
  0 < kv_token_count it -> work_context it = executed_frontier sc ->
  executed_frontier sc2 = work_context it + kv_token_count it ->
  size_Z (written_tokens it st) = kv_token_count it ->
  dchain (executed_frontier sc2) (items_of (seq_id sc) infl) ->
  (generated_tokens st <> [] \/ sampled_tokens r <> []) ->
  (seq_id sc ∈ dead -> False) ->
  wp (publish_written p it)
    (fun _ s' => wp (emit_result p r) (fun _ s'' => sched_inv [] [] infl dead s'') s') s2.
Proof.
  intros Hact Hf Hk Hh E1 E2 E3 E4 E5 Hpos Hctx Hfr Hwr Hch Hgen Hnd.
  destruct retire_work_view as ([_ _ Ha] & Hr & Hi & [Hwf [_ Hpre]]).
  destruct (Ha Hact) as [Hpend Hcap0 Htab _].
  pose proof (bsz_pos _ _ _ _ _ Hinv) as Hbs. pose proof (same_frame_bsz _ _ Hf) as Hbs2.
  assert (executed_frontier sc2 <= bsz s * table_size (block_table sc)) as Hcap.
  { rewrite Hfr. apply prefix_length in Hpre. pose proof (iw_fits _ _ Hwf) as Hfits.
    unfold table_size, size_Z in *. nia. }
  apply (wp_publish_written [] p (set_scheduling (Some sc2) st) sc2); try done.
  - rewrite Hh. apply lookup_insert_eq.
  - by rewrite Hbs2.
  - rewrite E5. lia.
  - by rewrite Hbs2, E2.
  - intros st2 Ht Hb. eapply (retire_kv s2); try done.
    + rewrite Ht. unfold req_table. simpl. by rewrite Hs, E2.
    + intros sc' Hsc'. specialize (Hb sc' Hsc'). rewrite Hbs2, E5, Hctx in Hb. done.
  - intros s3 sc3 Hf3 [G1 G2 G3 G4 G5 G6] Hh3 Hk3. simpl in *.
    assert (heap s3 = <[p := set_scheduling (Some sc3) st]> (heap s)) as Hh3'.
    { rewrite Hh3, Hh, insert_insert_eq. done. }
    apply (wp_emit_result p (set_scheduling (Some sc3) st) sc3); [rewrite Hh3'; apply lookup_insert_eq|done|].
    intros s4 st4 Hf4 Hk4 Hh4 F1 F2 F3 F4.
    assert (emitted_scheduling r sc3 = sc3) as Hem.
    { unfold emitted_scheduling. rewrite G3, E4. by destruct (sampled_tokens r). }
    rewrite Hem in F3. simpl in F1, F2, F4.
    assert (heap s4 = <[p := st4]> (heap s)) as Hh4' by (rewrite Hh4, Hh3', insert_insert_eq; done).
    eapply (inv_retire _ _ it _ _ s s4 p st st4 sc sc3); try done.
    + eapply same_frame_trans; [exact Hf|]. by eapply same_frame_trans.
    + congruence.
    + rewrite Hh4, Hk4. apply (kv_part_update _ _ _ p (set_scheduling (Some sc3) st));
        [done|rewrite Hh3'; apply lookup_insert_eq|unfold req_table; simpl; by rewrite F3|].
      intros sc' Hsc'. rewrite F3 in Hsc'. injection Hsc' as <-. exists sc3. split; [done|lia].
    + assert (size_Z (pending_hash_tokens sc3) <= executed_frontier sc3) as Hp3.
      { assert (size_Z (pending_hash_tokens sc3) <=
                size_Z (pending_hash_tokens sc ++ written_tokens it st)) as G6'
          by (rewrite E5 in G6; exact G6).
        rewrite G5, Hfr. rewrite size_Z_app, Hwr in G6'. lia. }
      split.
      * by rewrite G2, E3.
      * apply dchain_contexts in Hch. apply Forall_forall. intros x Hx.
        rewrite Forall_forall in Hch, Hi. destruct (Hi x Hx) as (I1 & I2 & I3).
        split_and!; [done|rewrite G5; by apply Hch|by rewrite G4, E2].
      * intros _. split; [done|by rewrite G5, G4, E2|by rewrite G4, E2|].
        unfold phase_ok. rewrite G3, E4, G5. split; [|done]. rewrite F4.
        destruct Hgen as [Hg|Hg]; [by destruct (generated_tokens st)|].
        destruct (sampled_tokens r); [done|]. simpl. by destruct (generated_tokens st).
Qed.
End retire.

(** A prefill chunk that is not the last one: the cursor moves, nothing is sampled. *)
Lemma retire_chunk infl dead s s' p st sc w :
  sched_inv [] [] (WPrefill w :: infl) dead s -> heap s !! p = Some st -> scheduling st = Some sc ->
  seq_id sc = pc_seq_id w -> status st = Active -> ~ seq_id sc ∈ dead ->
  phase_ok (bsz s) st sc (WPrefill w :: items_of (seq_id sc) infl) ->
  prefill_cursor (cursor sc) + span_length (prompt_span w) < size_Z (prompt_tokens st) ->
  same_frame s s' -> kv s' = kv s ->
  heap s' = <[p := set_scheduling (Some
      (set_executed_frontier (executed_frontier sc + span_length (prompt_span w))
        (set_cursor (mkCursor (phase (cursor sc))
                       (prefill_cursor (cursor sc) + span_length (prompt_span w))
                       (generated_tokens_in_prompt (cursor sc)))
          (sc_retired sc (WPrefill w))))) st]> (heap s) ->
  sched_inv [] [] infl dead s'.
Proof.
  intros Hinv Hp Hs Hq Hact Hnd Hph Hlt Hf Hk Hh.
  destruct (retire_work_view _ _ _ _ _ _ _ Hinv Hp Hs Hq) as ([_ _ Ha] & Hr & Hi & [Hwf [_ Hpre]]).
  destruct (Ha Hact) as [Hpend Hcap Htab _]. set (len := span_length (prompt_span w)) in *.
  assert (0 < len /\ executed_frontier sc = prefill_cursor (cursor sc) /\
          size_Z (prompt_tokens st) <= bsz s * table_size (block_table sc) /\
          pchain (size_Z (prompt_tokens st)) (replay_no_sample st sc)
            (prefill_cursor (cursor sc) + len) (prefill_cursor (cursor sc) + len)
            (items_of (seq_id sc) infl) /\ is_prefill_phase (phase (cursor sc)) = true)
    as (Hlen & Hfe & Hpl & Hch & Hpf).
  { unfold phase_ok in Hph. destruct (phase (cursor sc)); simpl in Hph.
    1, 2: by destruct Hph as (? & [? ?] & _ & ? & _ & _ & _ & ?).
    - by destruct Hph as [_ [?|(? & ? & _)]].
    - by destruct Hph as [_ ?]. }
  eapply (inv_retire _ _ (WPrefill w) _ _ s s' p st); try done.
  - rewrite Hh, Hk. apply (kv_part_update _ _ _ p st); [by eapply si_kv|done| |].
    + unfold req_table. simpl. by rewrite Hs.
    + intros sc' [= <-]. exists sc. split; [done|]. unfold hash_bound. simpl.
      apply Z.div_le_mono; [by eapply kv_part_bs, si_kv|lia].
  - split; simpl; [done| |].
    + apply pchain_contexts in Hch. apply Forall_forall. intros x Hx.
      rewrite Forall_forall in Hch, Hi. destruct (Hi x Hx) as (I1 & I2 & I3).
      split_and!; [done|simpl; rewrite Hfe; by apply Hch|done].
    + intros _. split; simpl; [lia|lia|done|].
      unfold phase_ok, replay_no_sample in *. simpl.
      destruct (phase (cursor sc)); try done; split_and!; simpl; try done; lia.
Qed.

Lemma wp_retire_prefill infl dead s p st sc w i r :
  sched_inv [] [] (WPrefill w :: infl) dead s -> heap s !! p = Some st -> scheduling st = Some sc ->
  seq_id sc = pc_seq_id w -> status st = Active -> stale r = false ->
  honest_item dead (WPrefill w) i r ->
  let sc1 := sc_retired sc (WPrefill w) in
  let s1 := set_heap (<[p := set_scheduling (Some sc1) st]> (heap s)) s in
  wp (go ← advance_cursor p (WPrefill w) r (set_scheduling (Some sc1) st) sc1;
      if (go : bool) then _ ← publish_written p (WPrefill w); emit_result p r else mret tt)
    (fun _ s' => sched_inv [] [] infl dead s') s1.
Proof.
  intros Hinv Hp Hs Hq Hact Hst [_ _ Hkind _ Htok Hsam Heos] sc1 s1.
  specialize (Htok Hst). specialize (Hsam Hst). specialize (Heos Hst). simpl in Htok, Hkind, Hsam.
  destruct (retire_work_view _ _ _ _ _ _ _ Hinv Hp Hs Hq) as ([_ _ Ha] & Hr & Hi & [Hwf [_ Hpre]]).
  destruct (Ha Hact) as [Hpend Hcap Htab Hph].
  assert (~ seq_id sc ∈ dead) as Hnd.
  { intros Hd. destruct (si_work _ _ _ _ _ Hinv p st sc Hp Hs) as [_ Hw]. by apply Hw. }
  set (len := span_length (prompt_span w)) in *. set (cur := prefill_cursor (cursor sc)) in *.
  set (plen := size_Z (prompt_tokens st)) in *.
  assert (executed_frontier sc = cur /\ span_start (prompt_span w) = cur /\ 0 < len /\ cur + len <= plen /\
          pc_expected_context_len w = Some cur /\
          needs_sample w = (plen <=? cur + len) && negb (replay_no_sample st sc) /\
          pchain plen (replay_no_sample st sc) (cur + len) (cur + len) (items_of (seq_id sc) infl))
    as (Hfe & Hstart & Hlen & Hle & Hctx & Hneeds & Hch).
  { unfold phase_ok in Hph. destruct (phase (cursor sc)); simpl in Hph.
    1, 2: by destruct Hph as (? & [? ?] & ? & ? & ? & ? & ? & ?).
    - by destruct Hph as [_ [?|(? & ? & _)]].
    - by destruct Hph as [_ ?]. }
  unfold advance_cursor. rewrite Hkind.
  assert (work_context (WPrefill w) = cur) as Hwc by (unfold work_context; by rewrite Hctx).
  rewrite Hwc, Htok. simpl prefill_cursor. simpl prompt_tokens. fold cur plen len.
  do 2 apply wp_bind. eapply wp_lift; [done|]. fold len.
  apply wp_bind, wp_assert; [by rewrite Z.eqb_refl|].
  apply wp_bind, wp_assert; [by apply Z.ltb_lt|].
  apply wp_bind, wp_assert; [by rewrite Hstart, Z.eqb_refl|].
  apply wp_bind, wp_assert; [by apply Z.leb_le|].
  apply wp_bind, wp_store. simpl executed_frontier.
  replace (Z.max (executed_frontier sc) (cur + len)) with (cur + len) by lia.
  destruct (Z.leb_spec plen (cur + len)) as [Hfin|Hnf]; simpl negb; cbv iota.
  - (* final chunk *)
    apply pchain_end in Hch; [|done].
    assert (generated_tokens st <> [] \/ sampled_tokens r <> []) as Hgen.
    { destruct (replay_no_sample st sc) eqn:E.
      - left. unfold replay_no_sample in E. by bprop.
      - right. apply Hsam. rewrite Hneeds. done. }
    apply wp_bind, wp_assert.
    { destruct Hgen as [Hg|Hg]; [|by rewrite (bool_decide_eq_false_2 (sampled_tokens r = []))].
      case_bool_decide as E; [|done]. simpl.
      assert (replay_no_sample st sc = true) as Hrs.
      { destruct (replay_no_sample st sc) eqn:E2; [done|].
        exfalso. apply (proj2 Hsam); [by rewrite Hneeds|done]. }
      unfold replay_no_sample in Hrs. simpl. rewrite Hrs. simpl.
      destruct (eos r) eqn:Ee; [by exfalso; apply Heos|done]. }
    wps. set (sc2 := set_executed_frontier _ _).
    apply (wp_finish_retire infl dead s p st sc (WPrefill w) r Hinv Hp Hs Hq sc2); try done.
    + simpl. by rewrite insert_insert_eq.
    + simpl. rewrite Hwc. done.
    + simpl. rewrite Hwc. done.
    + by destruct Hwf.
    + by rewrite Hch.
  - (* a chunk in the middle *)
    assert (sampled_tokens r = []) as Hns.
    { destruct (sampled_tokens r) eqn:E; [done|].
      assert ((if needs_sample w then 1 else 0) = 1) as Hone by (by apply Hsam). by rewrite Hneeds in Hone. }
    assert (eos r = false) as Hne.
    { destruct (eos r) eqn:Ee; [|done]. exfalso. by apply Heos. }
    apply wp_bind, wp_assert; [by rewrite Hns, Hne|]. wps.
    eapply (retire_chunk _ _ s _ p st sc w); try done. simpl. rewrite insert_insert_eq, Hfe. done.
Qed.

Lemma wp_retire_decode infl dead s p st sc w i r :
  sched_inv [] [] (WDecode w :: infl) dead s -> heap s !! p = Some st -> scheduling st = Some sc ->
  seq_id sc = dt_seq_id w -> status st = Active -> stale r = false ->
  honest_item dead (WDecode w) i r ->
  let sc1 := sc_retired sc (WDecode w) in
  let s1 := set_heap (<[p := set_scheduling (Some sc1) st]> (heap s)) s in
  wp (go ← advance_cursor p (WDecode w) r (set_scheduling (Some sc1) st) sc1;
      if (go : bool) then _ ← publish_written p (WDecode w); emit_result p r else mret tt)
    (fun _ s' => sched_inv [] [] infl dead s') s1.
Proof.
  intros Hinv Hp Hs Hq Hact Hst [_ _ Hkind _ Htok Hsam _] sc1 s1.
  specialize (Htok Hst). specialize (Hsam Hst). simpl in Htok, Hkind, Hsam.
  destruct (retire_work_view _ _ _ _ _ _ _ Hinv Hp Hs Hq) as ([_ _ Ha] & Hr & Hi & [Hwf [_ Hpre]]).
  destruct (Ha Hact) as [Hpend Hcap Htab Hph].
  assert (~ seq_id sc ∈ dead) as Hnd.
  { intros Hd. destruct (si_work _ _ _ _ _ Hinv p st sc Hp Hs) as [_ Hw]. by apply Hw. }
  assert (sampled_tokens r <> []) as Hne by (by apply Hsam).
  unfold advance_cursor. rewrite Hkind, Htok.
  do 2 apply wp_bind. apply wp_assert; [done|]. wps. simpl heap. rewrite insert_insert_eq.
  assert (executed_frontier sc1 = executed_frontier sc) as Hfr by done. rewrite Hfr.
  unfold phase_ok in Hph. destruct (phase (cursor sc)) eqn:Hphase.
  1, 2: by destruct Hph as (_ & _ & ?).
  - destruct Hph as [Hpr [?|(w' & Hw & Hwk & Hctx)]]; [done|]. injection Hw as <- Hnil.
    assert (work_context (WDecode w) = executed_frontier sc) as Hwc
      by (unfold work_context; by rewrite Hctx).
    rewrite Hwc. simpl kv_token_count. rewrite Hwk, Z.add_0_r, Z.max_id.
    apply wp_publish_none; [simpl; rewrite Hwk; lia|].
    set (sc2 := set_executed_frontier _ _). set (s2 := set_heap _ _).
    apply (wp_emit_result p (set_scheduling (Some sc2) st) sc2); [apply lookup_insert_eq|done|].
    intros s4 st4 Hf4 Hk4 Hh4 F1 F2 F3 F4. simpl in F1, F2, F4, Hh4. rewrite insert_insert_eq in Hh4.
    unfold emitted_scheduling in F3. simpl in F3. rewrite Hphase in F3. simpl in F3.
    destruct (sampled_tokens r) as [|t ts] eqn:Ht; [done|].
    eapply (inv_retire _ _ (WDecode w) _ _ s s4 p st st4 sc); try done.
    + eapply same_frame_trans; [|exact Hf4]. done.
    + rewrite Hh4, Hk4. change (kv s2) with (kv s).
      apply (kv_part_update _ _ _ p st); [by eapply si_kv|done| |].
      * unfold req_table. by rewrite F3, Hs.
      * rewrite F3. intros sc' [= <-]. exists sc. split; [done|]. unfold hash_bound. simpl. lia.
    + rewrite Hnil. rewrite Hnil in Hr. split; simpl; [done|done|]. intros _. split; simpl; try done.
      unfold phase_ok. simpl. split; [|done]. rewrite F4. simpl. by destruct (generated_tokens st).
  - destruct Hph as (Hgen & Hwk & Hctx & Hch).
    assert (work_context (WDecode w) = executed_frontier sc) as Hwc
      by (unfold work_context; by rewrite Hctx).
    rewrite Hwc. simpl kv_token_count. rewrite Hwk.
    replace (Z.max (executed_frontier sc) (executed_frontier sc + 1)) with (executed_frontier sc + 1) by lia.
    apply (wp_finish_retire infl dead s p st sc (WDecode w) r Hinv Hp Hs Hq
             (set_executed_frontier (executed_frontier sc + 1) sc1)); try done.
    + simpl. rewrite Hwk. lia.
    + simpl. by rewrite Hwc, Hwk.
    + simpl. apply last_is_Some in Hgen as [t ->]. by rewrite Hwk.
    + by left.
Qed.

Lemma wp_retire_work it infl dead i r s :
  sched_inv [] [] (it :: infl) dead s -> honest_item dead it i r ->
  wp (retire_work it r) (fun _ s' => sched_inv [] [] infl dead s') s.
Proof.
  intros Hinv Hr. destruct (si_infl _ _ _ _ _ Hinv it) as [p Hp]; [by left|].
  destruct (by_seq_view _ _ _ _ _ Hinv _ _ Hp) as (_ & st & sc & Hst & Hs & Hq).
  unfold retire_work. wps. rewrite (hi_seq _ _ _ _ Hr), Hp. wps. eapply wp_deref; [done|]. rewrite Hs.
  apply wp_bind. unfold retire_reservation. apply wp_bind. eapply wp_deref; [done|]. rewrite Hs.
  apply wp_store. fold (sc_retired sc it). apply wp_bind.
  eapply wp_deref; [simpl; apply lookup_insert_eq|]. apply wp_bind. eapply wp_lift; [done|].
  destruct (stale r || negb (is_schedulable_state (set_scheduling (Some (sc_retired sc it)) st))) eqn:Hg.
  - wps. eapply (retire_inactive _ _ s p st sc it Hinv Hst Hs Hq); try done.
    apply orb_true_iff in Hg as [Hg|Hg].
    + destruct (si_work _ _ _ _ _ Hinv p st sc Hst Hs) as [_ Hd]. apply Hd. rewrite Hq.
      by eapply hi_stale.
    + unfold is_schedulable_state in Hg. simpl in Hg. rewrite andb_true_r in Hg. by bprop.
  - unfold is_schedulable_state in Hg. bprop. simpl in *.
    destruct it as [w|w]; [by eapply wp_retire_prefill|by eapply wp_retire_decode].
Qed.

(** ** A whole batch *)

Record honest_result (dead : gset Z) (batch : ScheduledBatch) (result : BatchResult) : Prop :=
  mk_honest_result {
  hr_id : result_batch_id result = batch_id batch;
  hr_length : length (result_items result) = length (batch_items batch);
  hr_items : forall i it r, batch_items batch !! i = Some it -> result_items result !! i = Some r ->
    honest_item dead it (Z.of_nat i) r;
}.

Lemma wp_retire_all batch items rs infl dead off s :
  sched_inv [] [] (items ++ infl) dead s -> length rs = length items ->
  drop off (batch_items batch) = items ->
  (forall i it r, items !! i = Some it -> rs !! i = Some r -> honest_item dead it (Z.of_nat (off + i)) r) ->
  wp (retire_all batch rs) (fun _ s' => sched_inv [] [] infl dead s') s.
Proof.
  revert rs off s. induction items as [|it items IH]; intros rs off s Hinv Hlen Hoff Hh.
  { destruct rs; [by wps|done]. }
  destruct rs as [|r rs]; [done|]. simpl.
  pose proof (Hh 0%nat it r eq_refl eq_refl) as Hr. rewrite Nat.add_0_r in Hr.
  assert (batch_items batch !! off = Some it) as Hit.
  { rewrite <- (Nat.add_0_r off), <- lookup_drop, Hoff. done. }
  apply wp_bind. eapply wp_lift; [rewrite (hi_index _ _ _ _ Hr), at_Z_nat; exact Hit|].
  apply wp_bind. eapply wp_mono; [by eapply wp_retire_work|]. intros ? s' Hinv'. cbv beta.
  apply (IH rs (S off)); [done|by injection Hlen|..].
  - rewrite <- Nat.add_1_r, <- drop_drop, Hoff. done.
  - intros i it' r' H1 H2. rewrite Nat.add_succ_l, <- Nat.add_succ_r. by apply Hh.
Qed.

Lemma wp_update_from_output batch result infl dead s :
  sched_inv [] [] (batch_items batch ++ infl) dead s -> honest_result dead batch result ->
  wp (update_from_output batch result) (fun _ s' => sched_inv [] [] infl dead s') s.
Proof.
  intros Hinv [Hid Hlen Hit]. unfold update_from_output.
  apply wp_bind, wp_assert; [by apply Z.eqb_eq|].
  apply wp_bind, wp_assert; [apply Z.eqb_eq; unfold size_Z; by rewrite Hlen|].
  apply wp_bind, wp_assert.
  { apply forallb_forall. intros r Hr%list_elem_of_In. apply list_elem_of_lookup in Hr as [i Hi].
    destruct (lookup_lt_is_Some_2 (batch_items batch) i) as [it Hi'].
    { rewrite <- Hlen. by eapply lookup_lt_Some. }
    destruct (Hit i it r Hi' Hi) as [H1 H2 H3 _ _ _ _]. unfold check_result.
    rewrite H1, at_Z_nat, Hi', H2, H3, Z.eqb_refl. by rewrite bool_decide_eq_true_2. }
  by apply (wp_retire_all batch (batch_items batch) _ _ _ 0).
Qed.

(** ** A batch that failed *)

Lemma inv_dead_weaken dead dead' hand extra infl s :
  sched_inv hand extra infl dead' s -> dead ⊆ dead' -> sched_inv hand extra infl dead s.
Proof.
  intros [A B C D E F G K] Hsub. split; try done.
  - intros p st sc Hp Hs. destruct (C p st sc Hp Hs) as [? Hd]. split; [done|]. auto.
  - intros q Hq. apply E. auto.
Qed.

Lemma inv_dead_add q hand extra infl dead s p st sc :
  sched_inv hand extra infl dead s -> heap s !! p = Some st -> scheduling st = Some sc ->
  seq_id sc = q -> status st <> Active -> sched_inv hand extra infl ({[q]} ∪ dead) s.
Proof.
  intros Hinv Hp Hs Hq Hna. pose proof Hinv as [A B C D E F G K]. split; try done.
  - intros p' st' sc' Hp' Hs'. destruct (C p' st' sc' Hp' Hs') as [? Hd]. split; [done|].
    intros [Hin|Hin]%elem_of_union; [|auto]. apply elem_of_singleton in Hin.
    assert (p = p') as <- by (eapply (seq_inj _ _ _ _ _ Hinv); try done; congruence).
    by simplify_eq.
  - intros q' [->%elem_of_singleton|?]%elem_of_union; [|auto].
    apply shape_lookup in Hp. rewrite Hs in Hp. simpl in Hp.
    destruct (pl_seq _ _ _ _ _ _ _ _ _ B _ _ _ Hp) as [Hlt _]. by rewrite <- Hq.
Qed.

(** Dropping an item of a request that is not active afterwards, wherever the item
    is in the queue. *)
Lemma inv_drop_item pre it infl dead s s' p st sc x :
  sched_inv [] [] (pre ++ it :: infl) dead s -> same_frame s s' -> kv s' = kv s ->
  heap s !! p = Some st -> scheduling st = Some sc -> seq_id sc = work_sequence_id it ->
  x <> Active -> heap s' = <[p := set_status x (set_scheduling (Some (sc_retired sc it)) st)]> (heap s) ->
  sched_inv [] [] (pre ++ infl) ({[work_sequence_id it]} ∪ dead) s'.
Proof.
  intros Hinv Hf Hk Hp Hs Hq Hx Hh.
  set (st' := set_status x (set_scheduling (Some (sc_retired sc it)) st)) in *.
  eapply (inv_dead_add _ _ _ _ _ _ p st' (sc_retired sc it)); [|rewrite Hh; apply lookup_insert_eq|done..].
  destruct (si_work _ _ _ _ _ Hinv p st sc Hp Hs) as [[A B _] _].
  assert (items_of (seq_id sc) (pre ++ it :: infl) ≡ₚ it :: items_of (seq_id sc) (pre ++ infl)) as Hperm.
  { rewrite !items_of_app, Hq, items_of_head. by rewrite <- Permutation_middle. }
  rewrite Hperm in B. apply Forall_cons in B as [B1 B2].
  eapply (inv_local _ _ (pre ++ it :: infl) _ _ s s' p st st' sc (sc_retired sc it)); try done.
  - rewrite Hh, Hk. apply (kv_part_update _ _ _ p st); [by eapply si_kv|done| |].
    + unfold req_table. simpl. by rewrite Hs.
    + intros sc' [= <-]. exists sc. split; [done|]. unfold hash_bound. simpl. lia.
  - intros q Hne. rewrite !items_of_app, (items_of_tail it infl q); [done|congruence].
  - intros it' Hin. apply (si_infl _ _ _ _ _ Hinv). set_solver.
  - split; [|done|done]. apply (resv_exact_retire (bsz s)); [by eapply resv_exact_perm|].
    constructor; [by destruct B1|by eapply item_at_wf].
Qed.

Lemma wp_fail_items pre items err infl dead s :
  sched_inv [] [] (pre ++ items ++ infl) dead s ->
  wp (fail_items items err)
    (fun _ s' => sched_inv [] [] (pre ++ infl) (list_to_set (work_sequence_id <$> items) ∪ dead) s') s.
Proof.
  revert dead s. induction items as [|it items IH]; intros dead s Hinv; simpl.
  { wps. eapply inv_dead_weaken; [exact Hinv|]. set_solver. }
  destruct (si_infl _ _ _ _ _ Hinv it) as [p Hp]; [set_solver|].
  destruct (by_seq_view _ _ _ _ _ Hinv _ _ Hp) as (_ & st & sc & Hst & Hs & Hq).
  wps. rewrite Hp. apply wp_bind. unfold retire_reservation. apply wp_bind. eapply wp_deref; [done|].
  rewrite Hs. apply wp_store. fold (sc_retired sc it). apply wp_bind.
  eapply wp_deref; [simpl; apply lookup_insert_eq|].
  apply (wp_mono _ (fun _ s' => sched_inv [] [] (pre ++ items ++ infl) ({[work_sequence_id it]} ∪ dead) s')).
  2:{ intros ? s' Hinv'. cbv beta. eapply wp_mono; [by apply IH|]. intros ? s'' Hinv''.
      eapply inv_dead_weaken; [exact Hinv''|]. set_solver. }
  case_bool_decide as Hact; simpl in Hact.
  - apply wp_bind. eapply wp_send_error_event; [simpl; apply lookup_insert_eq|]. intros b evs. wps.
    apply (inv_drop_item pre it (items ++ infl) dead s _ p st sc Failed); try done.
    simpl. by rewrite insert_insert_eq.
  - wps. apply (inv_drop_item pre it (items ++ infl) dead s _ p st sc (status st)); try done.
Qed.

Lemma wp_fail_batch pre batch err infl dead s :
  sched_inv [] [] (pre ++ batch_items batch ++ infl) dead s ->
  wp (fail_batch batch err)
    (fun _ s' => sched_inv [] [] (pre ++ infl)
                   (list_to_set (work_sequence_id <$> batch_items batch) ∪ dead) s') s.
Proof. apply wp_fail_items. Qed.
