(* ===== verification/SchedCleanup.v ===== *)
(** * Submission, cancellation, cleanup and shutdown preserve the invariant *)

From Stdlib Require Import ZArith Lia.
From stdpp Require Import prelude strings gmap fin_maps.
From S2P Require Import Prelude Base Config BlockPool PrefixCache BlockCache BlockCacheInv.
From S2P Require Import Scheduler SchedKv SchedWork SchedInv SchedBuild SchedMoves SchedAdmit.

(** ** Submission and cancellation *)

Lemma wp_submit_on_scheduler_thread req infl dead s :
  sched_inv [] [] infl dead s ->
  wp (submit_on_scheduler_thread req) (fun _ s' => sched_inv [] [] infl dead s') s.
Proof.
  intros Hinv. unfold submit_on_scheduler_thread. wps. case_bool_decide as Hdup.
  { wps. apply wp_send_event. intros b evs. wps. by apply inv_events. }
  wps. destruct (_ <=? _).
  { wps. apply wp_send_event. intros b evs. wps. by apply inv_events. }
  wps. simpl. set (st := mkRequestState _ _ _ _ _ _ _ _ _).
  apply (inv_submit _ _ _ s st Hinv); [|done]. simpl. by apply eq_None_not_Some.
Qed.

Lemma wp_submit req infl dead s :
  sched_inv [] [] infl dead s -> wp (submit req) (fun _ s' => sched_inv [] [] infl dead s') s.
Proof.
  intros Hinv. unfold submit. apply wp_bind, wp_accepting. intros b s' Hf Hh Hk _. cbv beta.
  assert (sched_inv [] [] infl dead s') as Hinv' by (by eapply inv_same).
  destruct b; simpl; wps; [|apply wp_send_event; intros; wps; by apply inv_events].
  apply wp_accepting. intros b s2 Hf2 Hh2 Hk2 _. cbv beta.
  assert (sched_inv [] [] infl dead s2) as Hinv2 by (by eapply inv_same).
  destruct b; simpl; wps; [by apply wp_submit_on_scheduler_thread|].
  apply wp_send_event; intros; wps; by apply inv_events.
Qed.

Lemma wp_cancel id infl dead s :
  sched_inv [] [] infl dead s ->
  wp (cancel_on_scheduler_thread id) (fun _ s' => sched_inv [] [] infl dead s') s.
Proof.
  intros Hinv. unfold cancel_on_scheduler_thread. wps.
  destruct (requests_ s !! id) as [p|] eqn:Hr; [|by wps].
  destruct (pl_reg1 _ _ _ _ _ _ _ _ _ (si_place _ _ _ _ _ Hinv) id p Hr) as [_ [o Ho]].
  apply shape_inv in Ho as (st & Hp & _). wps. eapply wp_deref; [done|].
  case_bool_decide; wps; [|done]. by apply (inv_set_status _ _ _ _ s _ p st Cancelled).
Qed.

(** ** Releasing terminal requests that run *)

(** The state after a running request was taken out of everything. *)
Lemma inv_remove_running infl dead s p st st' sc k' b :
  sched_inv [] [] infl dead s -> p ∈ running_ s -> heap s !! p = Some st -> scheduling st = Some sc ->
  execution_leases (reservation sc) = 0 ->
  scheduling st' = None -> request_id st' = request_id st ->
  kv_part [] (<[p := st']> (heap s)) k' -> kv_geometry (kv s) k' ->
  (b = true -> accepting_ s = true -> erase1 p (running_ s) <> []) ->
  sched_inv [] [] infl dead (set_admission_paused b
    (set_requests (delete (request_id st') (requests_ s))
      (set_running (erase1 p (running_ s))
        (set_heap (<[p := st']> (heap s))
          (set_kv k' (set_by_seq_id (delete (seq_id sc) (by_seq_id_ s)) s)))))).
Proof.
  intros Hinv Hin Hp Hs Hl Hs' Hid Hk Hg Hb.
  pose proof (inv_stop _ _ _ _ s p st sc b Hinv Hin Hp Hs Hl Hb) as H1.
  pose proof (inv_unschedule _ _ _ _ _ p st sc st' k' H1 Hp Hs Hs' Hid Hk Hg) as H2.
  simpl in H2. rewrite delete_delete_eq in H2.
  apply (inv_erase _ _ _ _ _ p st') in H2; [exact H2| |done]. simpl. apply lookup_insert_eq.
Qed.

Lemma wp_release_running l infl dead s :
  sched_inv [] [] infl dead s -> NoDup l ->
  (forall p, p ∈ l -> p ∈ running_ s /\ exists st sc, heap s !! p = Some st /\
     scheduling st = Some sc /\ execution_leases (reservation sc) = 0) ->
  wp (release_running l) (fun _ s' => sched_inv [] [] infl dead s') s.
Proof.
  revert s. induction l as [|p l IH]; intros s Hinv Hnd Hl; simpl; [by wps|].
  apply NoDup_cons in Hnd as [Hpl Hnd].
  destruct (Hl p) as (Hin & st & sc & Hp & Hs & Hle); [by left|].
  wps. eapply wp_deref; [done|]. rewrite Hs. unfold release_sequence. wps.
  eapply (wp_release []); [done|done|exact (si_kv _ _ _ _ _ Hinv)|]. intros k' Hk Hg. wps.
  eapply wp_erase_request; [simpl; apply lookup_insert_eq|done|]. wps. simpl.
  pose proof (inv_remove_running _ _ s p st (set_scheduling None st) sc k' false Hinv Hin Hp Hs Hle eq_refl eq_refl Hk Hg)
    as Hinv'.
  apply IH; [|done|].
  - apply (inv_same _ _ _ _ _ _ (Hinv' ltac:(done))); done.
  - intros q Hq. destruct (Hl q) as (Hqin & stq & scq & Hqp & Hqs & Hqe); [by right|].
    assert (q <> p) by (intros ->; done). simpl. split.
    + apply elem_of_erase1; [by eapply nodup_running|done].
    + exists stq, scq. by rewrite lookup_insert_ne.
Qed.

(** ** Cleaning a queue *)

(** The queue being cleaned keeps its old contents while the loop runs; the
    invariant is that of the state with the queue the loop will store. *)
Definition put (which : bool) (l : list Z) (s : Scheduler) : Scheduler :=
  if which then set_skip l s else set_waiting l s.

Lemma put_take which a p q infl dead s :
  sched_inv [] [] infl dead (put which (a ++ p :: q) s) ->
  sched_inv [p] [] infl dead (put which (a ++ q) s).
Proof.
  intros [A B C D E F [G1 G2] K]. destruct which; simpl in *; split; simpl; try done.
  - eapply place_regroup; [exact B|solve_Permutation|done| |by eapply pl_waiting].
    intros x Hx. eapply pl_skip; [exact B|]. set_solver.
  - split; [done|]. rewrite size_Z_app, size_Z_cons in G2. rewrite size_Z_app. lia.
  - eapply place_regroup; [exact B|solve_Permutation|done|by eapply pl_skip|].
    intros x Hx. eapply pl_waiting; [exact B|]. set_solver.
Qed.

Lemma put_heap which l s : heap (put which l s) = heap s.
Proof. by destruct which. Qed.

(** One request leaves the queue for good. *)
Lemma wp_cleanup_one which l p st infl dead s (Q : unit -> Scheduler -> Prop) :
  sched_inv [p] [] infl dead (put which l s) -> heap s !! p = Some st ->
  (forall s', sched_inv [] [] infl dead (put which l s') ->
     (forall q, q <> p -> heap s' !! q = heap s !! q) -> Q tt s') ->
  wp (_ ← match scheduling st with
          | Some sc => if execution_leases (reservation sc) =? 0
                       then release_sequence (seq_id sc) else mret tt
          | None => mret tt
          end;
      _ ← release_scheduling_blocks p; erase_request p) Q s.
Proof.
  intros Hinv Hp HQ. apply wp_bind.
  apply (wp_mono _ (fun _ s' => exists rel, s' = set_released_sequences rel s)).
  { assert (s = set_released_sequences (released_sequences s) s) as Heta by (by destruct s).
    destruct (scheduling st) as [sc|]; [destruct (_ =? 0)|]; unfold release_sequence; wps; eauto. }
  intros _ s1 [rel ->]. cbv beta. apply wp_bind.
  assert (kv_part [] (heap s) (kv s)) as Hk by (destruct which; by destruct Hinv).
  destruct (scheduling st) as [sc|] eqn:Hs.
  - eapply (wp_release []); [done|done|done|]. intros k' Hk' Hg.
    eapply wp_erase_request; [simpl; apply lookup_insert_eq|done|]. simpl.
    apply HQ; [|intros q Hq; simpl; by rewrite lookup_insert_ne].
    assert (sched_inv [p] [] infl dead (set_heap (<[p := set_scheduling None st]> (heap s))
              (set_kv k' (set_by_seq_id (delete (seq_id sc) (by_seq_id_ s)) (put which l s))))) as H2.
    { destruct which;
        exact (inv_unschedule [] infl dead [] _ p st sc
          (set_scheduling None st) k' Hinv Hp Hs eq_refl eq_refl Hk' Hg). }
    eapply (inv_erase _ _ _ _ _ p (set_scheduling None st)) in H2;
      [|simpl; apply lookup_insert_eq|done]. destruct which; by apply (inv_same _ _ _ _ _ _ H2).
  - eapply wp_release_none; [done|done|].
    eapply wp_erase_request; [done|done|]. apply HQ; [|done].
    assert (heap (put which l s) !! p = Some st) as Hp2 by (by rewrite put_heap).
    pose proof (inv_erase _ _ _ _ _ p st Hinv Hp2 Hs) as H2.
    destruct which; by apply (inv_same _ _ _ _ _ _ H2).
Qed.

Lemma wp_cleanup_queue_loop which queue active infl dead s :
  sched_inv [] [] infl dead (put which (active ++ queue) s) ->
  wp (cleanup_queue_loop queue active) (fun l s' => sched_inv [] [] infl dead (put which l s')) s.
Proof.
  revert active s. induction queue as [|p queue IH]; intros active s Hinv; simpl.
  { wps. by rewrite app_nil_r in Hinv. }
  assert (exists st, heap s !! p = Some st) as [st Hp].
  { pose proof (put_take _ _ _ _ _ _ _ Hinv) as H1.
    destruct (pl_hand _ _ _ _ _ _ _ _ _ (si_place _ _ _ _ _ H1) p) as [x Hx]; [by left|].
    rewrite put_heap, lookup_fmap in Hx. apply fmap_Some in Hx as (st & ? & _). eauto. }
  apply wp_bind. eapply wp_deref; [done|]. case_bool_decide.
  { apply IH. by rewrite <- app_assoc. }
  apply put_take in Hinv.
  pose proof (fun Q => wp_cleanup_one which (active ++ queue) p st infl dead s Q Hinv Hp) as Hone.
  specialize (Hone (fun _ s' => wp (cleanup_queue_loop queue active)
    (fun l s'' => sched_inv [] [] infl dead (put which l s'')) s')).
  assert (forall (A B C D : Type) (m : M A) (f : M B) (g : M C) (k : M D) Q s,
            wp (_ ← m; _ ← f; g) (fun _ s' => wp k Q s') s -> wp (_ ← m; _ ← f; _ ← g; k) Q s) as Hassoc.
  { intros A B C D m f g k Q s0. unfold wp, mbind, M_bind.
    destruct (m s0) as [[? s1]|]; [|done]. destruct (f s1) as [[? s2]|]; [|done].
    by destruct (g s2) as [[? s3]|]. }
  apply Hassoc. apply Hone. intros s' Hinv' _. by apply IH.
Qed.

Lemma wp_cleanup_terminal_requests infl dead s :
  sched_inv [] [] infl dead s ->
  wp cleanup_terminal_requests (fun _ s' => sched_inv [] [] infl dead s') s.
Proof.
  intros Hinv. unfold cleanup_terminal_requests. wps.
  eapply wp_mono; [apply wp_release_running; [done| |]|].
  - apply NoDup_ListNoDup, List.NoDup_filter, NoDup_ListNoDup. by eapply nodup_running.
  - intros p Hp. apply list_elem_of_In, List.filter_In in Hp as [Hp Hr].
    apply list_elem_of_In in Hp. split; [done|]. unfold releasable in Hr.
    destruct (heap s !! p) as [st|] eqn:Hh; [|done]. simpl in Hr.
    destruct (scheduling st) as [sc|] eqn:Hs; [|done]. simpl in Hr. bprop. eauto.
  - intros ? s1 Hinv1. wps.
    eapply wp_mono; [apply (wp_cleanup_queue_loop true)|].
    { simpl. by destruct Hinv1. }
    intros sk s2 Hinv2. wps. simpl.
    eapply wp_mono; [apply (wp_cleanup_queue_loop false)|].
    { simpl. by destruct Hinv2. }
    intros w s3 Hinv3. by wps.
Qed.

(** ** Preemption *)

Lemma wp_preempt infl dead s :
  sched_inv [] [] infl dead s -> admission_paused_ s = false ->
  wp preempt_one_for_admission (fun _ s' => sched_inv [] [] infl dead s') s.
Proof.
  intros Hinv Hpa. unfold preempt_one_for_admission. wps.
  destruct (List.find _ _) as [p|] eqn:Hf; [|by wps].
  apply List.find_some in Hf as [Hin Hpre]. apply list_elem_of_In in Hin. rewrite elem_of_reverse in Hin.
  unfold preemptible in Hpre. destruct (heap s !! p) as [st|] eqn:Hp; [|done]. simpl in Hpre.
  destruct (scheduling st) as [sc|] eqn:Hs; [|done]. simpl in Hpre. bprop.
  wps. eapply wp_deref; [done|]. wps. eapply wp_lift; [done|]. wps. simpl.
  pose proof (inv_stop _ _ _ _ s p st sc false Hinv Hin Hp Hs ltac:(done) ltac:(done)) as H1.
  apply (inv_push_skip _ _ _ _ _ p st sc) in H1; [|done|done|].
  - by apply (inv_same _ _ _ _ _ _ H1).
  - simpl. pose proof (si_limits _ _ _ _ _ Hinv) as [_ L2].
    pose proof (length_erase1 p (running_ s) Hin) as Hlen. unfold size_Z in *. lia.
Qed.

(** ** Failing all waiting requests *)

Lemma wp_fail_one hand p err infl dead s :
  sched_inv (p :: hand) [] infl dead s ->
  wp (fail_one p err) (fun _ s' => sched_inv hand [] infl dead s' /\ waiting_ s' = waiting_ s /\
    skip_ s' = skip_ s /\ running_ s' = running_ s /\ accepting_ s' = accepting_ s) s.
Proof.
  intros Hinv. unfold fail_one.
  destruct (pl_hand _ _ _ _ _ _ _ _ _ (si_place _ _ _ _ _ Hinv) p) as [x Hx]; [by left|].
  rewrite lookup_fmap in Hx. apply fmap_Some in Hx as (st & Hp & _). apply wp_bind.
  eapply wp_mono; [by eapply wp_release_hand|]. intros _ s1 (H1 & Hp1 & _ & E1 & E2 & E3 & E4 & _). wps.
  eapply wp_deref; [done|]. wps. apply wp_send_event. intros b evs. cbv beta.
  eapply wp_erase_request; [exact Hp1|done|]. split_and!; try done.
  eapply (inv_erase _ _ _ _ _ p (set_scheduling None st)); [by apply inv_events|done|done].
Qed.

Lemma wp_fail_waiting_loop l err infl dead s :
  sched_inv [] [] infl dead s -> waiting_ s = l ->
  wp (fail_waiting_loop l err) (fun _ s' => sched_inv [] [] infl dead s' /\ waiting_ s' = [] /\
    skip_ s' = skip_ s /\ running_ s' = running_ s /\ accepting_ s' = accepting_ s) s.
Proof.
  revert s. induction l as [|p l IH]; intros s Hinv Hw; simpl; [by wps|].
  wps. eapply wp_mono; [eapply wp_fail_one; by apply inv_pop_waiting|].
  intros ? s1 (H1 & E1 & E2 & E3 & E4). cbv beta. simpl in *.
  eapply wp_mono; [by apply IH|]. intros ? s2 (? & ? & F2 & F3 & F4). split_and!; try done; congruence.
Qed.

Lemma wp_fail_skip_loop l err infl dead s :
  sched_inv [] [] infl dead s -> skip_ s = l ->
  wp (fail_skip_loop l err) (fun _ s' => sched_inv [] [] infl dead s' /\ skip_ s' = [] /\
    waiting_ s' = waiting_ s /\ running_ s' = running_ s /\ accepting_ s' = accepting_ s) s.
Proof.
  revert s. induction l as [|p l IH]; intros s Hinv Hw; simpl; [by wps|].
  wps. eapply wp_mono; [eapply wp_fail_one; by apply inv_pop_skip|].
  intros ? s1 (H1 & E1 & E2 & E3 & E4). cbv beta. simpl in *.
  eapply wp_mono; [by apply IH|]. intros ? s2 (? & ? & F2 & F3 & F4). split_and!; try done; congruence.
Qed.

Lemma wp_fail_all_waiting err infl dead s :
  sched_inv [] [] infl dead s ->
  wp (fail_all_waiting err) (fun _ s' => sched_inv [] [] infl dead s' /\ waiting_ s' = [] /\
    skip_ s' = [] /\ running_ s' = running_ s /\ accepting_ s' = accepting_ s) s.
Proof.
  intros Hinv. unfold fail_all_waiting. wps.
  eapply wp_mono; [by apply wp_fail_waiting_loop|]. intros ? s1 (H1 & E1 & E2 & E3 & E4). wps.
  eapply wp_mono; [by apply wp_fail_skip_loop|]. intros ? s2 (H2 & F1 & F2 & F3 & F4).
  split_and!; try done; congruence.
Qed.

(** ** Releasing everything that runs, after the in-flight batches were drained *)

Lemma wp_cleanup_running_loop l err dead s :
  sched_inv [] [] [] dead s -> accepting_ s = false -> running_ s = l ->
  wp (cleanup_running_loop l err) (fun _ s' => sched_inv [] [] [] dead s' /\ running_ s' = [] /\
    waiting_ s' = waiting_ s /\ skip_ s' = skip_ s /\ accepting_ s' = false) s.
Proof.
  revert s. induction l as [|p l IH]; intros s Hinv Hacc Hr; simpl; [by wps|].
  destruct (running_view _ _ _ _ _ Hinv p) as (st & sc & Hp & Hs & _); [rewrite Hr; left|].
  assert (p ∈ running_ s) as Hin by (rewrite Hr; left).
  destruct (si_work _ _ _ _ _ Hinv p st sc Hp Hs) as [[[Hle _ _ _] _ _] _].
  apply wp_bind. eapply wp_deref; [done|]. rewrite Hs. do 2 apply wp_bind.
  apply (wp_mono _ (fun _ s1 => exists x evs, s1 = set_events evs
    (set_heap (<[p := set_status x st]> (heap s)) s))).
  { case_bool_decide; wps.
    - eapply wp_send_error_event; [done|]. intros b evs. wps. eauto.
    - exists (status st), (events s). assert (set_status (status st) st = st) as -> by (by destruct st).
      rewrite insert_id by done. by destruct s. }
  intros _ s1 (x & evs & ->). cbv beta. apply wp_bind.
  eapply (wp_release [] p (set_status x st) sc); [simpl; apply lookup_insert_eq|done| |].
  { simpl. apply (kv_part_update _ _ _ p st); [by eapply si_kv|done|done|].
    simpl. intros sc' E. exists sc'. split; [done|lia]. }
  simpl. intros k' Hk Hg. rewrite insert_insert_eq in Hk |- *. wps.
  eapply wp_erase_request; [simpl; apply lookup_insert_eq|done|]. simpl.
  set (st' := set_scheduling None (set_status x st)) in *.
  pose proof (inv_remove_running [] dead s p st st' sc k' (admission_paused_ s) Hinv Hin Hp Hs Hle
    eq_refl eq_refl Hk Hg) as H1.
  assert (erase1 p (running_ s) = l) as Her by (rewrite Hr; simpl; by rewrite decide_True).
  eapply wp_mono; [apply IH|].
  - eapply (inv_same _ _ _ _ _ _ (H1 _)); done.
  - done.
  - done.
  - intros ? s2 (? & ? & ? & ? & ?). by split_and!.
Unshelve. rewrite Hacc. done.
Qed.

Lemma wp_cleanup_all_running err dead s :
  sched_inv [] [] [] dead s -> accepting_ s = false ->
  wp (cleanup_all_running err) (fun _ s' => sched_inv [] [] [] dead s' /\ running_ s' = [] /\
    waiting_ s' = waiting_ s /\ skip_ s' = skip_ s /\ accepting_ s' = false) s.
Proof. intros Hinv Hacc. unfold cleanup_all_running. wps. by apply wp_cleanup_running_loop. Qed.
