(* ===== verification/SchedModes.v ===== *)
(** * Scheduler methods in different build modes

    Building a batch is the only part of the scheduler whose outcome depends on the build
    mode: it may retain an idle cached block, copy a request out of a freed list node, and
    round up a number of tokens that leaves [int].  Each method below has one outcome,
    that of the lenient mode, in every mode that tolerates the hazards it meets. *)

From Stdlib Require Import ZArith Lia.
From stdpp Require Import prelude strings gmap fin_maps.
From S2P Require Import Prelude Base Config BlockPool PrefixCache BlockCache Scheduler.

(** A method with a mode, from every state. *)
Definition method_hazards {A} (m : BuildMode -> M A) : Prop := forall s, by_hazards (fun mode => m mode s).

Section rules.
Context {A B : Type}.

Lemma hazards_same (m : M A) : method_hazards (fun _ => m).
Proof. intros s. apply by_hazards_const. Qed.

Lemma hazards_bind (m : BuildMode -> M A) (k : BuildMode -> A -> M B) :
  method_hazards m -> (forall a, method_hazards (fun mode => k mode a)) ->
  method_hazards (fun mode => m mode ≫= k mode).
Proof.
  intros Hm Hk s.
  apply (by_hazards_bind (fun mode => m mode s) (fun mode '(a, s') => k mode a s') (Hm s)).
  intros [a s'] _. apply Hk.
Qed.

Lemma hazards_lift (x : BuildMode -> option A) : by_hazards x -> method_hazards (fun mode => lift_opt (x mode)).
Proof.
  intros Hx s. apply (by_hazards_bind x (fun _ a => Some (a, s)) Hx). intros a _. apply by_hazards_const.
Qed.

Lemma hazards_with_kv (f : BuildMode -> KvState -> option (A * KvState)) :
  (forall k, by_hazards (fun mode => f mode k)) -> method_hazards (fun mode => with_kv (f mode)).
Proof.
  intros Hf s. apply (by_hazards_bind (fun mode => f mode (kv s)) (fun _ '(a, k) => Some (a, set_kv k s)) (Hf (kv s))).
  intros [a k] _. apply by_hazards_const.
Qed.
End rules.

Create HintDb modes.

(** One step of such a proof; [go] repeats it and closes methods already treated. *)
Ltac hazards_step :=
  match goal with
  | |- method_hazards _ => first [apply hazards_same | solve [auto with modes]]
  | |- method_hazards (fun mode => mbind _ _) => apply hazards_bind; [|intros ?]
  | |- method_hazards (fun mode => if ?b then _ else _) => destruct b
  | |- method_hazards (fun mode => match ?x with _ => _ end) => destruct x
  end.
Ltac hazards_go := repeat (cbv beta zeta; hazards_step).

Lemma release_and_move_hazards p : method_hazards (fun mode => @release_and_move_to_wait mode p).
Proof.
  assert (method_hazards (fun mode => lift_opt (@hazard mode FreedNode)))
    by (apply hazards_lift, by_hazards_hazard).
  unfold release_and_move_to_wait. hazards_go.
Qed.

Lemma blocks_for_hazards tokens bs : method_hazards (fun mode => lift_opt (@blocks_for mode tokens bs)).
Proof.
  apply hazards_lift. unfold blocks_for. apply by_hazards_bind; [apply by_hazards_int_sum|]. intros sum _.
  apply by_hazards_bind; [apply by_hazards_int_sum|]. intros n _. apply by_hazards_const.
Qed.

Lemma lookup_hazards tokens salt : method_hazards (fun mode => with_kv (@lookup_prefix_cache mode tokens salt)).
Proof. apply hazards_with_kv. intros k. apply lookup_prefix_cache_hazards. Qed.

#[export] Hint Resolve release_and_move_hazards blocks_for_hazards lookup_hazards : modes.

Lemma build_state_work_hazards ctx p : method_hazards (fun mode => @build_state_work mode ctx p).
Proof. unfold build_state_work, build_decode. hazards_go. Qed.
#[export] Hint Resolve build_state_work_hazards : modes.

Lemma build_running_loop_hazards l ctx : method_hazards (fun mode => @build_running_loop mode l ctx).
Proof. revert ctx. induction l as [|p l IH]; intros ctx; simpl; hazards_go. Qed.
#[export] Hint Resolve build_running_loop_hazards : modes.

Lemma relieve_shortage_hazards : method_hazards (@relieve_shortage).
Proof. unfold relieve_shortage, suspend_one_running. hazards_go. Qed.

Lemma admit_one_skipped_hazards ctx : method_hazards (fun mode => @admit_one_skipped mode ctx).
Proof. unfold admit_one_skipped, admit_skipped_request. hazards_go. Qed.
#[export] Hint Resolve relieve_shortage_hazards admit_one_skipped_hazards : modes.

Lemma admit_one_waiting_hazards ctx : method_hazards (fun mode => @admit_one_waiting mode ctx).
Proof. unfold admit_one_waiting, admit_waiting_request, admit_allocate, admit_with_blocks. hazards_go. Qed.
#[export] Hint Resolve admit_one_waiting_hazards : modes.

Lemma admission_loop_hazards fuel ctx : method_hazards (fun mode => @admission_loop mode fuel ctx).
Proof. revert ctx. induction fuel as [|fuel IH]; intros ctx; simpl; hazards_go. Qed.
#[export] Hint Resolve admission_loop_hazards : modes.

Lemma schedule_step_hazards : method_hazards (@schedule_step).
Proof. unfold schedule_step, build_running_batch. hazards_go. Qed.
