(* ===== verification/Engine.v ===== *)
(** * The execution loop: [engine/engine_core.cpp]

    [EngineCore::run] is a coroutine on the scheduler thread.  [Engine] is the
    scheduler, the FIFO of dispatched batches and the point the coroutine has
    reached; [run_step] is its progress to the next call into the executor or the
    next suspension, and the remaining events are the answers of the executor and
    what other threads and posted handlers do.  Handlers posted to the io_context
    ([submit], [cancel], the shutdown handler) run only while the coroutine is
    suspended: on the completion channel, on the idle timer, or outside its life.

    Steps and reachable states are those of a build mode.  The invariant is proved in the
    lenient mode, whose runs include the runs of every mode. *)

From Stdlib Require Import ZArith Lia.
From stdpp Require Import prelude strings gmap fin_maps.
From S2P Require Import Prelude Base Config BlockPool PrefixCache BlockCache BlockCacheInv.
From S2P Require Import Scheduler SchedFrame SchedKv SchedWork SchedInv SchedBuild SchedMoves.
From S2P Require Import SchedAdmit SchedRetire SchedCleanup SchedModes.

(** ** State *)

Inductive RunPoint :=
| NotStarted
| LoopHead                          (* while (accepting_) *)
| Filling                           (* while (in_flight_.size() < max_concurrent_batches) *)
| Dispatching (batch : ScheduledBatch)   (* executor_.execute_batch(batch) *)
| Filled                            (* if (in_flight_.empty()) *)
| Sleeping                          (* wait_for_work suspended *)
| Collecting (batch : ScheduledBatch)    (* collect_oldest suspended, in the loop *)
| Leaving                           (* after the loop *)
| Draining                          (* drain_in_flight *)
| DrainCollecting (batch : ScheduledBatch)
| Stopped.

(** [failed_seqs] is what the executor remembers of earlier failures: the
    sequences whose later items it answers with stale results.  [handler] is the
    posted shutdown handler, with [was_running]. *)
Record Engine := mkEngine {
  sched : Scheduler;
  in_flight_ : list ScheduledBatch;
  point : RunPoint;
  failed_seqs : gset Z;
  handler : option bool;
}.

Definition new_engine (config : EngineConfig) : option Engine :=
  s ← new_scheduler config;
  Some (mkEngine s [] NotStarted ∅ None).

Definition at_point (pt : RunPoint) (s : Scheduler) (e : Engine) : Engine :=
  mkEngine s (in_flight_ e) pt (failed_seqs e) (handler e).

(** Runs a scheduler method and moves on. *)
Definition run_method {A} (m : M A) (k : A -> Scheduler -> Engine) (e : Engine) : option Engine :=
  match m (sched e) with None => None | Some (a, s) => Some (k a s) end.

(** ** The coroutine *)

(** The idle branch of [run]: returns whether the coroutine goes to sleep. *)
Definition idle_branch : M bool :=
  _ ← cleanup_terminal_requests;
  s ← gets id;
  if negb (admission_paused_ s) &&
     (negb (bool_decide (waiting_ s = [])) || has_schedulable_work s)
  then _ ← preempt_one_for_admission; mret false
  else r ← wait_for_work; mret (negb r).

Definition run_step `{BuildMode} (e : Engine) : option Engine :=
  match point e with
  | LoopHead =>
      run_method accepting_load
        (fun b s => at_point (if (b : bool) then Filling else Leaving) s e) e
  | Filling =>
      if size_Z (in_flight_ e) <? u64 (max_concurrent_batches (engine_config_ (sched e)))
      then run_method schedule_step
             (fun b s => at_point (if bool_decide (batch_items b = []) then Filled else Dispatching b) s e) e
      else Some (at_point Filled (sched e) e)
  | Filled =>
      match in_flight_ e with
      | [] => run_method idle_branch
                (fun sleep s => at_point (if (sleep : bool) then Sleeping else LoopHead) s e) e
      | current :: rest =>
          Some (mkEngine (sched e) rest (Collecting current) (failed_seqs e) (handler e))
      end
  | Leaving =>
      run_method (fail_all_waiting ServerShuttingDown) (fun _ s => at_point Draining s e) e
  | Draining =>
      match in_flight_ e with
      | [] => run_method (_ ← cleanup_all_running ServerShuttingDown;
                          complete_shutdown_on_scheduler_thread)
                (fun _ s => at_point Stopped s e) e
      | current :: rest =>
          Some (mkEngine (sched e) rest (DrainCollecting current) (failed_seqs e) (handler e))
      end
  | _ => Some e
  end.

(** [execute_batch] returned: queued, or refused with an error. *)
Definition dispatch_step (answer : Result unit) (e : Engine) : option Engine :=
  match point e with
  | Dispatching batch =>
      match answer with
      | Value _ => Some (mkEngine (sched e) (in_flight_ e ++ [batch]) Filling (failed_seqs e) (handler e))
      | Unexpected err =>
          run_method (_ ← fail_batch batch err; cleanup_terminal_requests)
            (fun _ s => at_point Filling s e) e
      end
  | _ => Some e
  end.

(** [collect_oldest] after the completion channel delivered. *)
Definition retire_batch (batch : ScheduledBatch) (answer : Result BatchResult) : M unit :=
  match answer with
  | Value result => update_from_output batch result
  | Unexpected err => fail_batch batch err
  end.

(** A failed batch makes the executor give up its sequences. *)
Definition failed_after (batch : ScheduledBatch) (answer : Result BatchResult) (failed : gset Z) : gset Z :=
  match answer with
  | Value _ => failed
  | Unexpected _ => list_to_set (work_sequence_id <$> batch_items batch) ∪ failed
  end.

Definition collect_step (answer : Result BatchResult) (e : Engine) : option Engine :=
  match point e with
  | Collecting batch =>
      run_method (_ ← retire_batch batch answer; cleanup_terminal_requests)
        (fun _ s => mkEngine s (in_flight_ e) LoopHead (failed_after batch answer (failed_seqs e)) (handler e)) e
  | DrainCollecting batch =>
      run_method (retire_batch batch answer)
        (fun _ s => mkEngine s (in_flight_ e) Draining (failed_after batch answer (failed_seqs e)) (handler e)) e
  | _ => Some e
  end.

(** ** Other threads and posted handlers *)

Definition suspended (pt : RunPoint) : bool :=
  match pt with
  | NotStarted | Sleeping | Collecting _ | DrainCollecting _ | Stopped => true
  | _ => false
  end.

(** [Scheduler::start]. *)
Definition start_step (e : Engine) : option Engine :=
  run_method start
    (fun started s => at_point (if (started : bool) then
                                  match point e with NotStarted => LoopHead | pt => pt end
                                else point e) s e) e.

(** [Scheduler::shutdown_async] on another thread: the flag flips before the
    [n]-th following read, and the handler is posted. *)
Definition shutdown_step (n : nat) (e : Engine) : Engine :=
  let s := sched e in
  if shutdown_requested_ s then e
  else mkEngine (set_shutdown_in (Some n) (set_shutdown_requested true s)) (in_flight_ e) (point e)
         (failed_seqs e) (Some (accepting_ s)).

(** The posted handler: [EngineCore::request_shutdown], then the completion if
    the engine never ran.  The exchange of the flag happened before the post. *)
Definition handler_step (e : Engine) : option Engine :=
  match handler e with
  | None => Some e
  | Some was_running =>
      run_method
        (_ ← modify (fun s => set_shutdown_in None (set_accepting false s));
         _ ← fail_all_waiting ServerShuttingDown;
         if (was_running : bool) then mret tt else complete_shutdown_on_scheduler_thread)
        (fun _ s => mkEngine s (in_flight_ e) (point e) (failed_seqs e) None) e
  end.

(** ** Events *)

Inductive Event :=
| EvRun
| EvDispatched (answer : Result unit)
| EvCollected (answer : Result BatchResult)
| EvStart
| EvSubmit (req : SchedulerRequest)
| EvCancel (id : string)
| EvWake
| EvShutdown (n : nat)
| EvHandler
| EvExpire (ch : Z).

Definition exec `{BuildMode} (ev : Event) (e : Engine) : option Engine :=
  match ev with
  | EvRun => run_step e
  | EvDispatched answer => dispatch_step answer e
  | EvCollected answer => collect_step answer e
  | EvStart => start_step e
  | EvSubmit req => run_method (submit req) (fun _ s => at_point (point e) s e) e
  | EvCancel id => run_method (cancel_on_scheduler_thread id) (fun _ s => at_point (point e) s e) e
  | EvWake => Some (at_point LoopHead (sched e) e)
  | EvShutdown n => Some (shutdown_step n e)
  | EvHandler => handler_step e
  | EvExpire ch => Some (at_point (point e) (set_expired ({[ch]} ∪ expired (sched e)) (sched e)) e)
  end.

(** When an event can happen, and what the executor's results satisfy. *)
Definition enabled (ev : Event) (e : Engine) : Prop :=
  match ev with
  | EvRun | EvDispatched _ | EvShutdown _ | EvExpire _ => True
  | EvCollected (Value result) =>
      match point e with
      | Collecting batch | DrainCollecting batch => honest_result (failed_seqs e) batch result
      | _ => True
      end
  | EvCollected (Unexpected _) => True
  | EvStart => point e = NotStarted
  | EvWake => point e = Sleeping
  | EvSubmit _ | EvCancel _ | EvHandler => suspended (point e) = true
  end.

Inductive engine_step `{BuildMode} : Engine -> Engine -> Prop :=
| step_event ev e e' : enabled ev e -> exec ev e = Some e' -> engine_step e e'.

Definition reachable `{BuildMode} (config : EngineConfig) (e : Engine) : Prop :=
  exists e0, new_engine config = Some e0 /\ rtc engine_step e0 e.

(** ** The invariant of the engine *)

(** Every batch the executor may still work on, oldest first. *)
Definition pending_batches (e : Engine) : list ScheduledBatch :=
  match point e with
  | Collecting b | DrainCollecting b => b :: in_flight_ e
  | Dispatching b => in_flight_ e ++ [b]
  | _ => in_flight_ e
  end.

Definition pending_items (e : Engine) : list WorkItem := pending_batches e ≫= batch_items.

(** Outside the loop the scheduler accepts nothing; before it and once
    [fail_all_waiting] ran, nothing waits. *)
Definition outside_loop (pt : RunPoint) : bool :=
  match pt with NotStarted | Leaving | Draining | DrainCollecting _ | Stopped => true | _ => false end.

Definition nothing_waits (pt : RunPoint) : bool :=
  match pt with NotStarted | Draining | DrainCollecting _ | Stopped => true | _ => false end.

Record engine_inv (e : Engine) : Prop := mk_engine_inv {
  ei_sched : sched_inv [] [] (pending_items e) (failed_seqs e) (sched e);
  ei_fresh : point e = NotStarted -> admission_paused_ (sched e) = false;
  ei_closed : outside_loop (point e) = true -> accepting_ (sched e) = false;
  ei_queues : nothing_waits (point e) = true -> waiting_ (sched e) = [] /\ skip_ (sched e) = [];
  ei_stopped : point e = Stopped -> running_ (sched e) = [] /\ in_flight_ e = [];
}.

Lemma run_method_wp {A} (m : M A) (k : A -> Scheduler -> Engine) Q e :
  wp m Q (sched e) -> exists a s, m (sched e) = Some (a, s) /\ Q a s /\ run_method m k e = Some (k a s).
Proof.
  rewrite wp_run. intros (a & s & E & HQ). exists a, s. unfold run_method. by rewrite E.
Qed.

Lemma wp_complete_shutdown infl dead s :
  sched_inv [] [] infl dead s ->
  wp complete_shutdown_on_scheduler_thread (fun _ s' => sched_inv [] [] infl dead s' /\
    waiting_ s' = waiting_ s /\ skip_ s' = skip_ s /\ running_ s' = running_ s /\
    accepting_ s' = accepting_ s) s.
Proof.
  intros Hinv. unfold complete_shutdown_on_scheduler_thread. wps.
  destruct (shutdown_done_sent_ s); wps; [done|]. split; [by apply (inv_same _ _ _ _ s)|done].
Qed.

Lemma wp_idle_branch infl dead s :
  sched_inv [] [] infl dead s -> wp idle_branch (fun _ s' => sched_inv [] [] infl dead s') s.
Proof.
  intros Hinv. unfold idle_branch. apply wp_bind.
  eapply wp_mono; [by apply wp_cleanup_terminal_requests|]. intros ? s1 H1. wps. simpl.
  destruct (_ && _) eqn:Hg.
  - apply wp_bind. eapply wp_mono; [apply wp_preempt; [exact H1|]|].
    { apply andb_true_iff in Hg as [Hg _]. by apply negb_true_iff in Hg. }
    intros ? s2 H2. by wps.
  - unfold wait_for_work. wps. apply wp_accepting. intros b s2 Hf Hh Hk _. wps.
    assert (sched_inv [] [] infl dead s2) by (by apply (inv_same _ _ _ _ s1)).
    match goal with |- wp (if ?c then _ else _) _ _ => destruct c end; by wps.
Qed.

Lemma wp_retire_batch batch answer infl failed s :
  sched_inv [] [] (batch_items batch ++ infl) failed s ->
  (forall result, answer = Value result -> honest_result failed batch result) ->
  wp (retire_batch batch answer) (fun _ s' => same_queues s s' /\
    sched_inv [] [] infl (failed_after batch answer failed) s') s.
Proof.
  intros Hinv Hh. destruct answer as [result|err]; simpl.
  - pose proof (wp_update_from_output batch result infl failed s Hinv (Hh _ eq_refl)) as H.
    apply wp_run in H as (a & s' & E & H'). apply wp_run. exists a, s'. split; [done|].
    split; [by eapply keeps_update_from_output|done].
  - pose proof (wp_fail_batch [] batch err infl failed s Hinv) as H.
    apply wp_run in H as (a & s' & E & H'). apply wp_run. exists a, s'. split; [done|].
    split; [by eapply keeps_fail_batch|done].
Qed.

Ltac done_inv := split; simpl in *; try done.

Lemma run_step_inv e : engine_inv e -> exists e', @run_step lenient_build e = Some e' /\ engine_inv e'.
Proof.
  intros Hinv. pose proof Hinv as [Hs Hfr Hc Hq Hst]. unfold run_step.
  unfold pending_items, pending_batches in Hs.
  destruct (point e) eqn:Hpt; simpl in Hc, Hq, Hst; try (exists e; done).
  - destruct (run_method_wp accepting_load
      (fun b s => at_point (if (b : bool) then Filling else Leaving) s e)
      (fun b s' => sched_inv [] [] (in_flight_ e ≫= batch_items) (failed_seqs e) s' /\ b = accepting_ s') e)
      as (b & s & _ & [H1 Hb] & ->).
    { apply wp_accepting. intros b s' Hf Hh Hk Hb. split; [by eapply inv_same|done]. }
    eexists. split; [done|]. destruct b; done_inv.
  - destruct (_ <? _).
    + destruct (run_method_wp (@schedule_step lenient_build) (fun b s => at_point
        (if bool_decide (batch_items b = []) then Filled else Dispatching b) s e) _ e
        (wp_schedule_step _ _ _ Hs)) as (b & s & _ & (H1 & _) & ->).
      eexists. split; [done|]. case_bool_decide as Hb; done_inv.
      * by rewrite Hb, app_nil_r in H1.
      * unfold pending_items, pending_batches. simpl. rewrite bind_app. simpl. by rewrite app_nil_r.
    + eexists. split; [done|]. done_inv.
  - destruct (in_flight_ e) as [|b rest] eqn:Hfl.
    + destruct (run_method_wp idle_branch (fun sleep s => at_point
        (if (sleep : bool) then Sleeping else LoopHead) s e) _ e (wp_idle_branch _ _ _ Hs))
        as (sl & s & _ & H1 & ->).
      eexists. split; [done|].
      destruct sl; done_inv; unfold pending_items, pending_batches; simpl; by rewrite Hfl.
    + eexists. split; [done|]. done_inv.
  - destruct (run_method_wp (fail_all_waiting ServerShuttingDown) (fun _ s => at_point Draining s e) _ e
      (wp_fail_all_waiting _ _ _ _ Hs)) as (u & s & _ & (H1 & H2 & H3 & _ & H4) & ->).
    eexists. split; [done|]. done_inv. intros _. rewrite H4. auto.
  - destruct (in_flight_ e) as [|b rest] eqn:Hfl.
    + destruct (run_method_wp (_ ← cleanup_all_running ServerShuttingDown;
          complete_shutdown_on_scheduler_thread) (fun _ s => at_point Stopped s e)
        (fun _ s' => sched_inv [] [] [] (failed_seqs e) s' /\ running_ s' = [] /\
           waiting_ s' = waiting_ (sched e) /\ skip_ s' = skip_ (sched e) /\ accepting_ s' = false) e)
        as (u & s & _ & (H1 & H2 & H3 & H4 & H5) & ->).
      { apply wp_bind. eapply wp_mono; [apply wp_cleanup_all_running; [exact Hs|by apply Hc]|].
        intros ? s1 (G1 & G2 & G3 & G4 & G5). cbv beta.
        eapply wp_mono; [by apply wp_complete_shutdown|].
        intros ? s2 (F1 & F2 & F3 & F4 & F5). split_and!; try done; congruence. }
      eexists. split; [done|]. done_inv.
      * unfold pending_items, pending_batches. simpl. by rewrite Hfl.
      * intros _. rewrite H3, H4. auto.
    + eexists. split; [done|]. done_inv.
Qed.

Lemma dispatch_step_inv answer e :
  engine_inv e -> exists e', dispatch_step answer e = Some e' /\ engine_inv e'.
Proof.
  intros Hinv. pose proof Hinv as [Hs Hfr Hc Hq Hst]. unfold dispatch_step.
  unfold pending_items, pending_batches in Hs. destruct (point e) eqn:Hpt; try (exists e; done).
  destruct answer as [[]|err].
  - eexists. split; [done|]. done_inv.
  - destruct (run_method_wp (_ ← fail_batch batch err; cleanup_terminal_requests)
      (fun _ s => at_point Filling s e)
      (fun _ s' => sched_inv [] [] (in_flight_ e ≫= batch_items) (failed_seqs e) s') e)
      as (u & s & _ & H1 & ->).
    { apply wp_bind. rewrite bind_app in Hs. simpl in Hs.
      eapply wp_mono; [apply wp_fail_batch, Hs|]. intros ? s1 H1. cbv beta. rewrite app_nil_r in H1.
      apply wp_cleanup_terminal_requests. eapply inv_dead_weaken; [exact H1|]. set_solver. }
    eexists. split; [done|]. done_inv.
Qed.

Lemma collect_step_inv answer e :
  engine_inv e -> enabled (EvCollected answer) e ->
  exists e', collect_step answer e = Some e' /\ engine_inv e'.
Proof.
  intros Hinv Hen. pose proof Hinv as [Hs Hfr Hc Hq Hst]. unfold collect_step. simpl in Hen.
  unfold pending_items, pending_batches in Hs. destruct (point e) eqn:Hpt; try (exists e; done).
  all: assert (forall result, answer = Value result -> honest_result (failed_seqs e) batch result) as Hh
    by (intros result ->; done).
  all: pose proof (wp_retire_batch batch answer _ _ _ Hs Hh) as Hw; simpl in Hc, Hq, Hst.
  - destruct (run_method_wp (_ ← retire_batch batch answer; cleanup_terminal_requests)
      (fun _ s => mkEngine s (in_flight_ e) LoopHead (failed_after batch answer (failed_seqs e)) (handler e))
      (fun _ s' => sched_inv [] [] (in_flight_ e ≫= batch_items)
                     (failed_after batch answer (failed_seqs e)) s') e) as (u & s & _ & H1 & ->).
    { apply wp_bind. eapply wp_mono; [exact Hw|]. intros ? s1 [_ H1]. cbv beta.
      by apply wp_cleanup_terminal_requests. }
    eexists. split; [done|]. done_inv.
  - destruct (run_method_wp (retire_batch batch answer)
      (fun _ s => mkEngine s (in_flight_ e) Draining (failed_after batch answer (failed_seqs e)) (handler e))
      _ e Hw) as (u & s & _ & [[F1 F2 F3 F4 _] H1] & ->).
    eexists. split; [done|]. done_inv; intros _; rewrite ?F1, ?F2, ?F4; auto.
Qed.

Lemma start_step_inv e :
  engine_inv e -> point e = NotStarted -> exists e', start_step e = Some e' /\ engine_inv e'.
Proof.
  intros [Hs Hfr Hc Hq Hst] Hpt. unfold start_step, pending_items, pending_batches in *. rewrite Hpt in *.
  simpl in Hs. destruct (run_method_wp start
    (fun started s => at_point (if (started : bool) then LoopHead else NotStarted) s e)
    (fun b s' => sched_inv [] [] (in_flight_ e ≫= batch_items) (failed_seqs e) s' /\
                 (b = false -> s' = sched e)) e) as (b & s & _ & [H1 H2] & ->).
  { unfold start. wps. simpl. destruct (shutdown_requested_ (sched e)); [by wps|].
    destruct (accepting_ (sched e)) eqn:Ha; [by wps|]. wps.
    pose proof Hs as [A B C D E F G K]. split; [|done]. split; simpl; try done. by rewrite Hfr. }
  eexists. split; [done|]. destruct b; [done_inv|]. rewrite H2 by done. done_inv.
Qed.

(** Methods run by posted handlers, at whatever point the coroutine is suspended. *)
Lemma posted_inv m h e :
  engine_inv e -> suspended (point e) = true ->
  wp m (fun _ s' => sched_inv [] [] (pending_items e) (failed_seqs e) s' /\
    (nothing_waits (point e) = true -> accepting_ s' = false /\ waiting_ s' = [] /\ skip_ s' = [] /\
       running_ s' = running_ (sched e) /\ admission_paused_ s' = admission_paused_ (sched e)))
    (sched e) ->
  exists e', run_method m (fun (_ : unit) s => mkEngine s (in_flight_ e) (point e) (failed_seqs e) h) e
             = Some e' /\ engine_inv e'.
Proof.
  intros [Hs Hfr Hc Hq Hst] Hsus Hm.
  destruct (run_method_wp m (fun _ s => mkEngine s (in_flight_ e) (point e) (failed_seqs e) h) _ e Hm)
    as (u & s & _ & (H1 & H2) & ->).
  eexists. split; [done|]. split; simpl; [done| | | |].
  - intros E. rewrite E in H2. destruct H2 as (_ & _ & _ & _ & ->); [done|]. auto.
  - intros E. destruct (point e); try done; by destruct H2 as (-> & _).
  - intros E. by destruct H2 as (_ & -> & -> & _).
  - intros E. rewrite E in H2. destruct H2 as (_ & _ & _ & -> & _); [done|]. auto.
Qed.

Lemma closed_queues e s' :
  engine_inv e -> nothing_waits (point e) = true -> same_queues (sched e) s' ->
  accepting_ s' = false /\ waiting_ s' = [] /\ skip_ s' = [] /\
  running_ s' = running_ (sched e) /\ admission_paused_ s' = admission_paused_ (sched e).
Proof.
  intros [_ _ Hc Hq _] Hn [-> -> -> -> ->]. destruct (Hq Hn) as [-> ->].
  rewrite Hc; [done|]. by destruct (point e).
Qed.

Lemma posted_submit_inv req e :
  engine_inv e -> suspended (point e) = true ->
  exists e', @exec lenient_build (EvSubmit req) e = Some e' /\ engine_inv e'.
Proof.
  intros Hinv Hsus. apply (posted_inv (submit req) (handler e)); [done|done|].
  pose proof (wp_submit req _ _ _ (ei_sched _ Hinv)) as Hw.
  apply wp_run in Hw as ([] & s' & E & H). apply wp_run. exists tt, s'. split_and!; try done.
  intros Hn. apply closed_queues; try done. eapply submit_closed; [|exact E].
  apply (ei_closed _ Hinv). by destruct (point e).
Qed.

Lemma posted_cancel_inv id e :
  engine_inv e -> suspended (point e) = true ->
  exists e', @exec lenient_build (EvCancel id) e = Some e' /\ engine_inv e'.
Proof.
  intros Hinv Hsus. apply (posted_inv (cancel_on_scheduler_thread id) (handler e)); [done|done|].
  pose proof (wp_cancel id _ _ _ (ei_sched _ Hinv)) as Hw.
  apply wp_run in Hw as ([] & s' & E & H). apply wp_run. exists tt, s'. split_and!; try done.
  intros Hn. apply closed_queues; try done. by eapply keeps_cancel.
Qed.

Lemma fail_all_waiting_nil err s :
  waiting_ s = [] -> skip_ s = [] -> fail_all_waiting err s = Some (tt, s).
Proof.
  intros Hw Hs. unfold fail_all_waiting, mbind, M_bind, gets. rewrite Hw. simpl. by rewrite Hs.
Qed.

Lemma handler_step_inv e :
  engine_inv e -> suspended (point e) = true -> exists e', handler_step e = Some e' /\ engine_inv e'.
Proof.
  intros Hinv Hsus. unfold handler_step. destruct (handler e) as [was|] eqn:Hh; [|by exists e].
  apply posted_inv; [done|done|]. wps. set (s1 := set_shutdown_in _ _).
  assert (sched_inv [] [] (pending_items e) (failed_seqs e) s1) as H1
    by (by apply (inv_same _ _ _ _ _ _ (ei_sched _ Hinv))).
  apply (wp_mono _ (fun _ s' => sched_inv [] [] (pending_items e) (failed_seqs e) s' /\
    (nothing_waits (point e) = true -> same_queues s1 s'))).
  { destruct (nothing_waits (point e)) eqn:Hn.
    - destruct (ei_queues _ Hinv Hn) as [Q1 Q2]. unfold wp. rewrite fail_all_waiting_nil by done. done.
    - eapply wp_mono; [by apply wp_fail_all_waiting|]. by intros ? s2 [? _]. }
  intros ? s2 [H2 Hq]. cbv beta.
  apply (wp_mono _ (fun _ s' => sched_inv [] [] (pending_items e) (failed_seqs e) s' /\
    (nothing_waits (point e) = true -> same_queues s1 s'))).
  { destruct was; [by wps|]. unfold complete_shutdown_on_scheduler_thread. wps.
    destruct (shutdown_done_sent_ s2); wps; [done|]. split; [by apply (inv_same _ _ _ _ s2)|].
    intros Hn. etrans; [by apply Hq|done]. }
  intros ? s3 [H3 Hq3]. split; [done|]. intros Hn. destruct (Hq3 Hn) as [-> -> -> -> ->].
  destruct (ei_queues _ Hinv Hn) as [Q1 Q2]. simpl. by rewrite Q1, Q2.
Qed.

Lemma quiet_inv f e :
  engine_inv e -> (forall s, same_frame s (f s) /\ heap (f s) = heap s /\ kv (f s) = kv s /\
                             same_queues s (f s)) ->
  forall h, engine_inv (mkEngine (f (sched e)) (in_flight_ e) (point e) (failed_seqs e) h).
Proof.
  intros [Hs Hfr Hc Hq Hst] Hf h. destruct (Hf (sched e)) as (F1 & F2 & F3 & [Hw Hk Hr Ha Hp]).
  split; simpl; rewrite ?Hw, ?Hk, ?Hr, ?Ha, ?Hp; try done.
  by apply (inv_same _ _ _ _ (sched e)).
Qed.

(** Every event that can happen is carried out in the lenient mode, and the invariant
    survives it. *)
Lemma exec_inv ev e :
  engine_inv e -> enabled ev e -> exists e', @exec lenient_build ev e = Some e' /\ engine_inv e'.
Proof.
  intros Hinv Hen. destruct ev; simpl in Hen.
  - by apply run_step_inv.
  - by apply dispatch_step_inv.
  - by apply collect_step_inv.
  - by apply start_step_inv.
  - by apply posted_submit_inv.
  - by apply posted_cancel_inv.
  - eexists. split; [done|]. destruct Hinv as [Hs Hfr Hc Hq Hst].
    unfold pending_items, pending_batches in Hs. rewrite Hen in Hs. done_inv.
  - eexists. split; [done|]. unfold shutdown_step. destruct (shutdown_requested_ (sched e)); [done|].
    by apply (quiet_inv (fun s => set_shutdown_in (Some n) (set_shutdown_requested true s))).
  - by apply handler_step_inv.
  - eexists. split; [done|].
    by apply (quiet_inv (fun s => set_expired ({[ch]} ∪ expired s) s)).
Qed.

Lemma new_engine_inv config e : new_engine config = Some e -> engine_inv e.
Proof.
  unfold new_engine, new_scheduler. intros H. apply bind_Some in H as (s & H & He).
  apply bind_Some in H as ([r p] & Hp & H). destruct r as [[]|]; [|done]. simplify_eq.
  assert (kv_ok (mkKv p empty_cache)) as Hok by (by eapply kv_ok_init).
  split; simpl; try done. split; simpl; try done.
  - split; simpl; [done| |].
    + intros j. rewrite occ_empty. by eapply held_nonneg.
    + intros q st sc i j Hq. by rewrite lookup_empty in Hq.
  - rewrite fmap_empty. split; try done; try (intros *; rewrite lookup_empty; done);
      try (intros * Hin; by apply elem_of_nil in Hin). by constructor.
  - intros it Hit. by apply elem_of_nil in Hit.
  - change (size_Z []) with 0. pose proof (u64_range (max_running_requests config)).
    pose proof (u64_range (max_sequences config)). lia.
  - by eapply init_geometry.
Qed.

(** ** Other modes *)

(** Only building a batch depends on the mode. *)
Definition builds_batch (ev : Event) (e : Engine) : bool :=
  match ev, point e with EvRun, Filling => true | _, _ => false end.

Lemma exec_same_mode m m' ev e : builds_batch ev e = false -> @exec m ev e = @exec m' ev e.
Proof.
  intros Hb. destruct ev; [|reflexivity..]. unfold builds_batch in Hb. simpl. unfold run_step.
  destruct (point e); first [discriminate Hb|reflexivity].
Qed.

Lemma run_method_hazards {A} (m : BuildMode -> M A) k e :
  method_hazards m -> by_hazards (fun mode => run_method (m mode) k e).
Proof.
  intros Hm. apply (by_hazards_bind (fun mode => m mode (sched e)) (fun _ '(a, s) => Some (k a s)) (Hm (sched e))).
  intros [a s] _. apply by_hazards_const.
Qed.

Lemma exec_hazards ev e : by_hazards (fun mode => @exec mode ev e).
Proof.
  destruct (builds_batch ev e) eqn:Hb.
  - unfold builds_batch in Hb. destruct ev; try discriminate Hb. simpl. unfold run_step.
    destruct (point e); try discriminate Hb.
    destruct (_ <? _); [|apply by_hazards_const]. apply (run_method_hazards (@schedule_step)), schedule_step_hazards.
  - exists []. intros mode. by apply exec_same_mode.
Qed.

(** More tolerant modes make the same steps. *)
Lemma exec_mono m m' ev e e' : tolerates_less m m' -> @exec m ev e = Some e' -> @exec m' ev e = Some e'.
Proof. apply (by_hazards_mono (fun mode => @exec mode ev e)), exec_hazards. Qed.

Lemma reachable_mono m m' config e : tolerates_less m m' -> @reachable m config e -> @reachable m' config e.
Proof.
  intros Hle (e0 & H0 & Hr). exists e0. split; [done|]. clear H0. induction Hr as [|x y z Hs _ IH]; [constructor|].
  destruct Hs as [ev x y Hen Hex]. eapply rtc_l; [|exact IH]. econstructor; [exact Hen|exact (exec_mono _ _ _ _ _ Hle Hex)].
Qed.

Lemma reachable_inv `{mode : BuildMode} config e : reachable config e -> engine_inv e.
Proof.
  intros (e0 & H0 & Hr). apply new_engine_inv in H0. induction Hr as [|x y z Hstep _ IH]; [done|].
  apply IH. destruct Hstep as [ev x y Hen Hex]. apply (exec_mono mode lenient_build _ _ _ (lenient_most mode)) in Hex.
  destruct (exec_inv ev x H0 Hen) as (y' & Hex' & Hinv). congruence.
Qed.

(** The modes in which an event is carried out, and its outcome in all of them. *)
Lemma exec_outcome ev e :
  engine_inv e -> enabled ev e ->
  exists hs e', (forall mode, @exec mode ev e = if forallb mode hs then Some e' else None) /\
    engine_inv e' /\ (builds_batch ev e = false -> hs = []).
Proof.
  intros Hinv Hen. destruct (exec_inv ev e Hinv Hen) as (e' & Hex & Hinv').
  destruct (builds_batch ev e) eqn:Hb.
  - destruct (exec_hazards ev e) as [hs Hs]. exists hs, e'. split_and!; [|done|done].
    intros mode. by rewrite Hs, Hex.
  - exists [], e'. split_and!; [|done|done]. intros mode. rewrite (exec_same_mode mode lenient_build) by done. exact Hex.
Qed.

(** An event that builds no batch, in any mode. *)
Lemma exec_quiet `{mode : BuildMode} ev e :
  engine_inv e -> enabled ev e -> builds_batch ev e = false -> exists e', exec ev e = Some e' /\ engine_inv e'.
Proof.
  intros Hinv Hen Hb. destruct (exec_outcome ev e Hinv Hen) as (hs & e' & Hex & Hinv' & Hq).
  rewrite (Hq Hb) in Hex. exists e'. split; [apply Hex|done].
Qed.
