(* ===== verification/EngineProps.v ===== *)
(** * What the scheduler and the execution loop guarantee

    Theorems about every reachable state of the engine, from the invariant of
    [Engine], with concrete runs as witnesses. *)

From Stdlib Require Import ZArith Lia.
From stdpp Require Import prelude strings gmap fin_maps.
From S2P Require Import Prelude Base Config BlockPool PrefixCache BlockCache BlockCacheInv.
From S2P Require Import Scheduler SchedFrame SchedKv SchedWork SchedInv SchedBuild SchedMoves.
From S2P Require Import SchedAdmit SchedRetire SchedCleanup Engine.

(** ** Checked runs *)

Definition honest_itemb (dead : gset Z) (it : WorkItem) (i : Z) (r : WorkItemResult) : bool :=
  (item_index r =? i) && (res_seq_id r =? work_sequence_id it) &&
  bool_decide (res_kind r = work_kind it) &&
  (if stale r then bool_decide (work_sequence_id it ∈ dead)
   else (tokens_consumed r =? work_token_count it) &&
        eqb (negb (bool_decide (sampled_tokens r = []))) (gen_of it =? 1) &&
        (negb (eos r) || negb (bool_decide (sampled_tokens r = [])))).

Lemma honest_itemb_sound dead it i r : honest_itemb dead it i r = true -> honest_item dead it i r.
Proof.
  unfold honest_itemb. intros H. bprop. destruct (stale r) eqn:Hs; bprop.
  { split; try done; congruence. }
  match goal with E : eqb _ _ = true |- _ => apply eqb_prop in E; rename E into Hsam end.
  match goal with E : negb (eos r) || _ = true |- _ => rename E into Heos end.
  assert (sampled_tokens r <> [] <-> gen_of it = 1) as Hiff.
  { destruct (Z.eqb_spec (gen_of it) 1); case_bool_decide; simpl in Hsam; done. }
  split; try done; [congruence|]. intros _ He. rewrite He in Heos. simpl in Heos. by bprop.
Qed.

Definition honest_resultb (dead : gset Z) (batch : ScheduledBatch) (result : BatchResult) : bool :=
  (result_batch_id result =? batch_id batch) &&
  Nat.eqb (length (result_items result)) (length (batch_items batch)) &&
  forallb (fun '(i, (it, r)) => honest_itemb dead it (Z.of_nat i) r)
    (imap (fun i x => (i, x)) (zip (batch_items batch) (result_items result))).

Lemma honest_resultb_sound dead batch result :
  honest_resultb dead batch result = true -> honest_result dead batch result.
Proof.
  unfold honest_resultb. rewrite !andb_true_iff. intros [[H1 H2] H3].
  bprop. apply Nat.eqb_eq in H2. split; [done|done|].
  intros i it r Hi Hr. apply honest_itemb_sound. rewrite forallb_forall in H3.
  apply (H3 (i, (it, r))). apply list_elem_of_In, list_elem_of_lookup. exists i.
  rewrite list_lookup_imap, lookup_zip_with, Hi, Hr. done.
Qed.

Definition enabledb (ev : Event) (e : Engine) : bool :=
  match ev with
  | EvRun | EvDispatched _ | EvShutdown _ | EvExpire _ => true
  | EvCollected (Value result) =>
      match point e with
      | Collecting batch | DrainCollecting batch => honest_resultb (failed_seqs e) batch result
      | _ => true
      end
  | EvCollected (Unexpected _) => true
  | EvStart => match point e with NotStarted => true | _ => false end
  | EvWake => match point e with Sleeping => true | _ => false end
  | EvSubmit _ | EvCancel _ | EvHandler => suspended (point e)
  end.

Lemma enabledb_sound ev e : enabledb ev e = true -> enabled ev e.
Proof.
  destruct ev as [| |[result|]| | | | | | |]; simpl; try done; destruct (point e); try done;
    apply honest_resultb_sound.
Qed.

(** Runs a list of events, checking that each can happen. *)
Fixpoint run_events `{BuildMode} (evs : list Event) (e : Engine) : option Engine :=
  match evs with
  | [] => Some e
  | ev :: evs => if enabledb ev e then e' ← exec ev e; run_events evs e' else None
  end.

Lemma run_events_reachable `{mode : BuildMode} config evs e0 e :
  new_engine config = Some e0 -> run_events evs e0 = Some e -> reachable config e.
Proof.
  intros H0 Hr. exists e0. split; [done|]. clear H0. revert e0 Hr.
  induction evs as [|ev evs IH]; simpl; intros e0 Hr; [by simplify_eq|].
  destruct (enabledb ev e0) eqn:Hen; [|done]. apply bind_Some in Hr as (e1 & He & Hr).
  eapply rtc_l; [|by apply IH]. econstructor; [by apply enabledb_sound|done].
Qed.

(** ** A concrete engine *)

Definition demo_config : EngineConfig :=
  {| device_id := 0; max_blocks := 8; kv_block_size := 2; max_sequences := 4;
     max_running_requests := 2; max_concurrent_batches := 2; max_pending_requests := 4;
     max_token_budget := 8; max_seq_prefill_tokens := 2; default_max_context_len := 8;
     state_prefix_cache_blocks := 0 |}.

Definition demo_request (id : string) (prompt : list Z) : SchedulerRequest :=
  mkSchedulerRequest id prompt (mkSamplingParams 3 0 f32_one f32_zero 42 (-1)) 0 7.

(** A run of the checked build is a run of every build. *)
Definition demo_engine (evs : list Event) : option Engine :=
  e0 ← new_engine demo_config; @run_events checked_build evs e0.

Lemma run_events_mono m m' evs e0 e :
  tolerates_less m m' -> @run_events m evs e0 = Some e -> @run_events m' evs e0 = Some e.
Proof.
  intros Hle. revert e0. induction evs as [|ev evs IH]; [done|]. intros e0. cbn [run_events].
  destruct (enabledb ev e0); [|done]. intros (e1 & He & Hr)%bind_Some.
  rewrite (exec_mono _ _ _ _ _ Hle He). by apply IH.
Qed.

(** Two requests, admitted and dispatched in one batch. *)
Definition demo_events : list Event :=
  [EvStart; EvRun; EvRun; EvRun;
   EvSubmit (demo_request "a" [1; 2; 3]); EvSubmit (demo_request "b" [4; 5]); EvWake;
   EvRun; EvRun; EvDispatched (Value tt)].

Definition stub_engine : Engine :=
  mkEngine (mkScheduler demo_config ∅ 1 ∅ [] [] [] ∅ false false false 1 1
    (mkKv default_pool empty_cache) false false None ∅ [] []) [] NotStarted ∅ None.

Definition demo_state : Engine := default stub_engine (demo_engine demo_events).

Lemma demo_reachable `{mode : BuildMode} evs e : demo_engine evs = Some e -> reachable demo_config e.
Proof.
  unfold demo_engine. intros (e0 & H0 & H)%bind_Some.
  apply (run_events_mono checked_build mode _ _ _ (checked_least mode)) in H. by eapply run_events_reachable.
Qed.

Lemma demo_state_reachable `{mode : BuildMode} : reachable demo_config demo_state.
Proof. apply (demo_reachable demo_events). vm_compute. reflexivity. Qed.

(** ** The configuration is fixed *)

Definition same_config (s s' : Scheduler) : Prop := engine_config_ s' = engine_config_ s.

#[export] Instance same_config_preorder : PreOrder same_config.
Proof. split; [done|]. intros a b c H1 H2. unfold same_config in *. congruence. Qed.

Lemma run_method_config {A} (m : M A) k e e' :
  keeps same_config m -> (forall a s, sched (k a s) = s) -> run_method m k e = Some e' ->
  engine_config_ (sched e') = engine_config_ (sched e).
Proof.
  unfold run_method. intros Hm Hk H. destruct (m (sched e)) as [[a s]|] eqn:E; [|done].
  simplify_eq. rewrite Hk. by eapply Hm.
Qed.

Lemma exec_config `{mode : BuildMode} ev e e' : exec ev e = Some e' -> engine_config_ (sched e') = engine_config_ (sched e).
Proof.
  assert (keeps same_config complete_shutdown_on_scheduler_thread) as Hcs.
  { unfold complete_shutdown_on_scheduler_thread. keeps_go. done. }
  assert (keeps same_config cleanup_terminal_requests) as Hct
    by (by apply sched_cleanup_terminal; [typeclasses eauto|..]).
  assert (forall err, keeps same_config (fail_all_waiting err)) as Hfa
    by (intros; by apply sched_fail_all_waiting; [typeclasses eauto|..]).
  assert (forall b err, keeps same_config (fail_batch b err)) as Hfb
    by (intros; by apply ret_fail_batch; [typeclasses eauto|..]).
  assert (forall b a, keeps same_config (retire_batch b a)) as Hrb.
  { intros b [r|err]; simpl; [|done]. by apply ret_update_from_output; [typeclasses eauto|..]. }
  assert (keeps same_config accepting_load) as Hal
    by (by apply sched_accepting_load; [typeclasses eauto|..]).
  destruct ev as [|ans|ans| |req|id| |n| |ch]; simpl.
  - unfold run_step. destruct (point e); try (intros; by simplify_eq).
    + by apply run_method_config.
    + destruct (_ <? _); [|intros; by simplify_eq]. apply run_method_config; [|done].
      by apply sched_schedule_step; [typeclasses eauto|..].
    + destruct (in_flight_ e); [|intros; by simplify_eq]. apply run_method_config; [|done].
      unfold idle_branch, wait_for_work. keeps_go; try done; auto with keeps.
      by apply sched_preempt; [typeclasses eauto|..].
    + by apply run_method_config.
    + destruct (in_flight_ e); [|intros; by simplify_eq]. apply run_method_config; [|done].
      apply keeps_bind; [typeclasses eauto| |done].
      by apply sched_cleanup_all_running; [typeclasses eauto|..].
  - unfold dispatch_step. destruct (point e); try (intros; by simplify_eq).
    destruct ans; [intros; by simplify_eq|]. apply run_method_config; [|done].
    apply keeps_bind; [typeclasses eauto|done|done].
  - unfold collect_step. destruct (point e); try (intros; by simplify_eq).
    + apply run_method_config; [|done]. apply keeps_bind; [typeclasses eauto|done|done].
    + by apply run_method_config.
  - apply run_method_config; [|done]. unfold start. keeps_go; done.
  - apply run_method_config; [|done]. by apply sched_submit; [typeclasses eauto|..].
  - apply run_method_config; [|done]. by apply ret_cancel; [typeclasses eauto|..].
  - intros; by simplify_eq.
  - unfold shutdown_step. intros; simplify_eq. by destruct (shutdown_requested_ (sched e)).
  - unfold handler_step. destruct (handler e) as [w|]; [|intros; by simplify_eq].
    apply run_method_config; [|done]. keeps_go; try done.
  - intros; by simplify_eq.
Qed.

Lemma reachable_config `{mode : BuildMode} config e : reachable config e -> engine_config_ (sched e) = config.
Proof.
  intros (e0 & H0 & Hr).
  assert (engine_config_ (sched e0) = config) as E0.
  { unfold new_engine, new_scheduler in H0. apply bind_Some in H0 as (s & H & He).
    apply bind_Some in H as ([r p] & _ & H). destruct r; [|done]. by simplify_eq. }
  clear H0. induction Hr as [|x y z Hstep _ IH]; [done|]. apply IH.
  destruct Hstep as [ev x y _ Hex]. by rewrite (exec_config ev x y Hex).
Qed.

(** ** Safety *)

Lemma step_reachable `{mode : BuildMode} config e ev e' :
  reachable config e -> enabled ev e -> exec ev e = Some e' -> reachable config e'.
Proof.
  intros (e0 & H0 & Hr) Hen Hex. exists e0. split; [done|]. eapply rtc_r; [done|]. by econstructor.
Qed.

(** In the lenient mode every event is carried out. *)
Lemma lenient_step config e ev :
  @reachable lenient_build config e -> enabled ev e ->
  exists e', @exec lenient_build ev e = Some e' /\ @reachable lenient_build config e'.
Proof.
  intros Hr Hen. destruct (exec_inv ev e (reachable_inv _ _ Hr) Hen) as (e' & Hex & _).
  exists e'. split; [done|]. by eapply step_reachable.
Qed.

(** C1: what can go wrong in a reachable state of the engine, in any build mode, under any
    interleaving of submissions, cancellations, shutdown, expiring clients and any honest
    or failing executor.  Every event that can happen meets a list of hazards, and it is
    carried out, always with the same outcome, in exactly the modes that tolerate all of
    them; there it leads to a reachable state.  Only the building of a batch can meet a
    hazard, and it is a failed assertion of the block pool (such as that of
    [retain_request] on an idle prefix block), the [shared_ptr] copied out of a freed list
    node at a suspension, or an [int] sum out of range.  With these tolerated every event
    of every reachable state is carried out: the assertions of the scheduler and of the
    cache hold, no other pointer dangles, and every loop ends. *)
Theorem engine_fails_only_at_hazards (mode : BuildMode) config e ev :
  reachable config e -> enabled ev e ->
  exists hs e', (forall mode', @exec mode' ev e = if forallb mode' hs then Some e' else None) /\
    (hs <> [] -> ev = EvRun /\ point e = Filling) /\
    (forallb mode hs = true -> reachable config e') /\ @reachable lenient_build config e'.
Proof.
  intros Hr Hen. destruct (exec_outcome ev e (reachable_inv _ _ Hr) Hen) as (hs & e' & Hex & _ & Hq).
  exists hs, e'. split; [done|]. split; [|split].
  - intros Hne. unfold builds_batch in Hq. destruct ev; try (by destruct Hne; apply Hq).
    destruct (point e); try (by destruct Hne; apply Hq). done.
  - intros Hok. eapply step_reachable; [done..|]. by rewrite Hex, Hok.
  - eapply step_reachable; [exact (reachable_mono _ _ _ _ (lenient_most mode) Hr)|done|]. rewrite Hex.
    by replace (forallb lenient_build hs) with true by (symmetry; by apply forallb_forall).
Qed.

Lemma engine_fails_only_at_hazards_witness :
  exists e', @exec checked_build EvRun demo_state = Some e' /\ @reachable checked_build demo_config e'.
Proof.
  destruct (engine_fails_only_at_hazards checked_build demo_config demo_state EvRun (@demo_state_reachable checked_build) I)
    as (hs & e' & Hex & Hpt & Hr & _).
  specialize (Hex checked_build). destruct (forallb checked_build hs).
  - exists e'. split; [exact Hex|exact (Hr eq_refl)].
  - exfalso. vm_compute in Hex. discriminate Hex.
Defined.

(** The request behind an item that is dispatched and not retired. *)
Lemma pending_item_view `{mode : BuildMode} config e it :
  reachable config e -> it ∈ pending_items e ->
  exists p st sc, by_seq_id_ (sched e) !! work_sequence_id it = Some p /\ p ∈ running_ (sched e) /\
    heap (sched e) !! p = Some st /\ scheduling st = Some sc /\ seq_id sc = work_sequence_id it /\
    item_at (bsz (sched e)) sc it.
Proof.
  intros Hr Hit. apply reachable_inv in Hr as [Hs _ _ _ _].
  destruct (si_infl _ _ _ _ _ Hs it Hit) as [p Hp].
  destruct (by_seq_view _ _ _ _ _ Hs _ _ Hp) as (Hrun & st & sc & Hst & Hsc & Hq).
  exists p, st, sc. split_and!; try done.
  destruct (si_work _ _ _ _ _ Hs p st sc Hst Hsc) as [[_ Hi _] _]. rewrite Forall_forall in Hi.
  apply Hi. unfold items_of. apply list_elem_of_In, List.filter_In. split; [by apply list_elem_of_In|].
  rewrite Hq. apply Z.eqb_refl.
Qed.

(** Block [j] is in no table but that of sequence [seq]: neither in the table of any other
    sequence that holds blocks, running, suspended or skipped, with or without an item in
    flight, nor in the copy an unfinished item of another sequence carries. *)
Definition owned_by (e : Engine) (seq j : Z) : Prop :=
  (forall p st sc, heap (sched e) !! p = Some st -> scheduling st = Some sc -> seq_id sc <> seq ->
     j ∉ block_ids_ (block_table sc)) /\
  forall it, it ∈ pending_items e -> work_sequence_id it <> seq -> j ∉ block_ids_ (work_block_table it).

(** The block behind a position that an unfinished item writes. *)
Lemma written_block `{mode : BuildMode} config e it pos :
  reachable config e -> it ∈ pending_items e ->
  work_context it <= pos < work_context it + kv_token_count it ->
  exists j, table_at (work_block_table it) (pos / bsz (sched e)) = Some j /\
    contains j (kv_cache (kv (sched e))) = false /\ owned_by e (work_sequence_id it) j.
Proof.
  intros Hr Hit Hpos. destruct (pending_item_view _ _ _ Hr Hit)
    as (p & st & sc & Hq & Hrun & Hst & Hsc & Hseq & [Hwf [Hfr Hpre]]).
  pose proof (reachable_inv _ _ Hr) as [Hs _ _ _ _]. pose proof (bsz_pos _ _ _ _ _ Hs) as Hbs.
  set (bs := bsz (sched e)) in *.
  assert (0 <= pos / bs < table_size (work_block_table it)) as Hidx.
  { pose proof (iw_nonneg _ _ Hwf). pose proof (iw_fits _ _ Hwf).
    split; [apply Z.div_pos; lia|apply Z.div_lt_upper_bound; lia]. }
  destruct (at_Z_is_Some _ _ Hidx) as [j Hj]. exists j. split; [done|].
  apply at_Z_Some in Hj as [_ Hj].
  assert (block_ids_ (block_table sc) !! Z.to_nat (pos / bs) = Some j) as Hj'
    by (by eapply prefix_lookup_Some).
  destruct (kp_excl _ _ _ (si_kv _ _ _ _ _ Hs) p st sc _ j Hst Hsc Hj') as [Hone Hnc].
  { change (block_size_ (kv_pool (kv (sched e)))) with bs. rewrite Z2Nat.id by lia. unfold hash_bound.
    apply Z.div_le_mono; [done|]. pose proof (size_Z_nonneg (pending_hash_tokens sc)). lia. }
  split; [unfold contains; rewrite Hnc; done|].
  assert (forall p2 st2 sc2, heap (sched e) !! p2 = Some st2 -> scheduling st2 = Some sc2 ->
    seq_id sc2 <> work_sequence_id it -> j ∉ block_ids_ (block_table sc2)) as Htables.
  { intros p2 st2 sc2 Hst2 Hsc2 Hne Hin. simpl in Hone. assert (p <> p2) as Hpp by (intros ->; congruence).
    pose proof (occ_two _ p p2 st st2 j Hst Hst2 Hpp) as Htwo. unfold req_table in Htwo.
    rewrite Hsc, Hsc2 in Htwo. pose proof (count_lookup _ _ _ Hj'). apply count_elem in Hin. lia. }
  split; [done|]. intros it2 Hit2 Hne Hin.
  destruct (pending_item_view _ _ _ Hr Hit2) as (p2 & st2 & sc2 & _ & _ & Hst2 & Hsc2 & Hseq2 & [_ [_ Hpre2]]).
  apply (Htables p2 st2 sc2 Hst2 Hsc2); [congruence|]. destruct Hpre2 as [k ->]. set_solver.
Qed.

(** C2: a KV block that an unfinished item writes belongs to that sequence alone: it
    exists in the item's table, is not in the prefix cache, and occurs in no block
    table of another sequence, whatever that sequence is doing.  So a batch never writes
    a block that somebody else reads or may be given. *)
Theorem kv_writes_exclusive `{mode : BuildMode} config e it pos :
  reachable config e -> it ∈ pending_items e ->
  work_context it <= pos < work_context it + kv_token_count it ->
  exists j, table_at (work_block_table it) (pos / bsz (sched e)) = Some j /\
    contains j (kv_cache (kv (sched e))) = false /\ owned_by e (work_sequence_id it) j.
Proof. apply written_block. Qed.

(** The second request of the demo run. *)
Definition demo_other : option (RequestState * SequenceSchedulingState) :=
  st ← heap (sched demo_state) !! 2; sc ← scheduling st; Some (st, sc).

Lemma kv_writes_exclusive_witness :
  exists it j st sc, it ∈ pending_items demo_state /\ table_at (work_block_table it) 0 = Some j /\
    contains j (kv_cache (kv (sched demo_state))) = false /\ owned_by demo_state (work_sequence_id it) j /\
    demo_other = Some (st, sc) /\ seq_id sc <> work_sequence_id it /\
    block_ids_ (block_table sc) <> [] /\ j ∉ block_ids_ (block_table sc).
Proof.
  destruct (pending_items demo_state) as [|it l] eqn:E; [vm_compute in E; discriminate|].
  assert (it ∈ pending_items demo_state) as Hin by (rewrite E; left).
  destruct (kv_writes_exclusive (mode := checked_build) demo_config demo_state it 0 demo_state_reachable Hin)
    as (j & Hj & Hc & Ho).
  { vm_compute in E. injection E as <- _. vm_compute. split; [discriminate|reflexivity]. }
  destruct (heap (sched demo_state) !! 2) as [st|] eqn:Hst; [|vm_compute in Hst; discriminate].
  destruct (scheduling st) as [sc|] eqn:Hsc; [|exfalso; vm_compute in Hst; injection Hst as <-; discriminate Hsc].
  assert (seq_id sc <> work_sequence_id it /\ block_ids_ (block_table sc) <> []) as [Hne Hnn].
  { clear -E Hst Hsc. vm_compute in Hst. injection Hst as <-. injection Hsc as <-. vm_compute in E.
    injection E as <- _. split; discriminate. }
  exists it, j, st, sc. split; [left|]. split; [exact Hj|]. split; [exact Hc|]. split; [exact Ho|].
  split; [unfold demo_other; rewrite Hst; simpl; rewrite Hsc; reflexivity|].
  split; [exact Hne|]. split; [exact Hnn|]. exact (proj1 Ho 2 st sc Hst Hsc Hne).
Defined.

(** what [schedule_step] hands to the executor, in any reachable state: every
    item carries a known context, at least one token, and a block table that covers
    every position it touches, as the worker's translation asserts; the batch stays
    within the token budget (in the lenient mode, and so in every mode that gets there). *)
Theorem schedule_step_batches_fit `{mode : BuildMode} config e :
  reachable config e -> point e = Filling -> 0 <= max_token_budget config ->
  exists b s', @schedule_step lenient_build (sched e) = Some (b, s') /\
    Forall (item_wf (bsz (sched e))) (batch_items b) /\
    sum_items work_token_count (batch_items b) <= max_token_budget config.
Proof.
  intros Hr Hpt Hb. pose proof (reachable_inv _ _ Hr) as [Hs _ _ _ _].
  pose proof (wp_schedule_step _ _ _ Hs) as Hw.
  apply wp_run in Hw as (b & s' & E & H1 & _ & H3). exists b, s'. split; [done|].
  rewrite (reachable_config _ _ Hr) in H3. split; [|auto].
  assert (bsz s' = bsz (sched e)) as Hbs.
  { destruct (si_geometry _ _ _ _ _ H1) as [_ ->], (si_geometry _ _ _ _ _ Hs) as [_ ->]. f_equal.
    assert (keeps same_config (@schedule_step lenient_build)) as Hk
      by (by apply sched_schedule_step; [typeclasses eauto|..]).
    by apply (Hk _ _ _ E). }
  apply Forall_forall. intros it Hit. rewrite <- Hbs.
  destruct (si_infl _ _ _ _ _ H1 it) as [p Hp]; [set_solver|].
  destruct (by_seq_view _ _ _ _ _ H1 _ _ Hp) as (_ & st & sc & Hst & Hsc & Hq).
  destruct (si_work _ _ _ _ _ H1 p st sc Hst Hsc) as [[_ Hi _] _]. rewrite Forall_forall in Hi.
  destruct (Hi it) as [? _]; [|done].
  unfold items_of. apply list_elem_of_In, List.filter_In. split; [apply list_elem_of_In; set_solver|].
  rewrite Hq. apply Z.eqb_refl.
Qed.

(** The engine about to build a batch for the two requests. *)
Definition filling_state : Engine := default stub_engine (demo_engine (take 8 demo_events)).

Lemma filling_state_reachable `{mode : BuildMode} : reachable demo_config filling_state.
Proof. apply (demo_reachable (take 8 demo_events)). vm_compute. reflexivity. Qed.

Lemma schedule_step_batches_fit_witness :
  exists b s', @schedule_step lenient_build (sched filling_state) = Some (b, s') /\
    sum_items work_token_count (batch_items b) <= 8.
Proof.
  destruct (schedule_step_batches_fit (mode := checked_build) demo_config filling_state filling_state_reachable) as (b & s' & E & _ & H).
  - vm_compute. reflexivity.
  - vm_compute. discriminate.
  - exists b, s'. split; [exact E|exact H].
Defined.
