(* ===== verification/SchedulerProps.v ===== *)
(** * Consequences of the invariant for requests and reservations

    What a reader of [scheduler.cpp] relies on: where a request can be, what its
    counters mean, how much is admitted, what a submission answers, which request
    a shortage suspends, and that a shutdown ends with nothing held. *)

From Stdlib Require Import ZArith Lia.
From stdpp Require Import prelude strings gmap fin_maps.
From S2P Require Import Prelude Base Config BlockPool PrefixCache BlockCache BlockCacheInv.
From S2P Require Import Scheduler SchedFrame SchedKv SchedWork SchedInv SchedBuild SchedMoves.
From S2P Require Import SchedAdmit SchedRetire SchedCleanup Engine EngineProps.

(** ** Where a request is *)

(** C15: the registry names exactly the requests in the queues, each under its own
    id; a request is in exactly one of waiting, skip and running, once; the sequence
    index names exactly the running requests by their sequence id, and only running
    and skipped requests carry scheduling state. *)
Theorem requests_in_one_place `{mode : BuildMode} config e :
  reachable config e ->
  let s := sched e in
  NoDup (waiting_ s ++ skip_ s ++ running_ s) /\
  (forall id p, requests_ s !! id = Some p <->
     p ∈ waiting_ s ++ skip_ s ++ running_ s /\ request_id <$> heap s !! p = Some id) /\
  (forall q p, by_seq_id_ s !! q = Some p <->
     p ∈ running_ s /\ exists st sc, heap s !! p = Some st /\ scheduling st = Some sc /\ seq_id sc = q) /\
  (forall p st, heap s !! p = Some st ->
     (is_Some (scheduling st) <-> p ∈ skip_ s ++ running_ s)).
Proof.
  intros Hr s. apply reachable_inv in Hr as [Hs _ _ _ _]. fold s in Hs.
  pose proof (si_place _ _ _ _ _ Hs) as Hp. pose proof (pl_nodup _ _ _ _ _ _ _ _ _ Hp) as Hnd.
  split; [done|]. split; [|split].
  - intros id p. split.
    + intros H. apply (pl_reg1 _ _ _ _ _ _ _ _ _ Hp) in H as [Hin [o Ho]]. split; [done|].
      apply shape_inv in Ho as (st & -> & <- & _). done.
    + intros [Hin H]. destruct (heap s !! p) as [st|] eqn:E; [|done]. simpl in H. simplify_eq.
      eapply (pl_reg2 _ _ _ _ _ _ _ _ _ Hp); [done|]. by apply shape_lookup.
  - intros q p. split; [by apply (by_seq_view _ _ _ _ _ Hs)|].
    intros (Hrun & st & sc & Hst & Hsc & <-).
    destruct (running_view _ _ _ _ _ Hs p Hrun) as (st' & sc' & H1 & H2 & H3). by simplify_eq.
  - intros p st Hst. split.
    + intros [sc Hsc]. assert ((shape <$> heap s) !! p = Some (request_id st, Some (seq_id sc))) as Hl.
      { rewrite (shape_lookup _ _ _ Hst). unfold shape. by rewrite Hsc. }
      destruct (pl_seq _ _ _ _ _ _ _ _ _ Hp _ _ _ Hl) as [_ [[H _]|[H _]]]; set_solver.
    + rewrite elem_of_app. intros [H|H].
      * destruct (skip_view _ _ _ _ _ Hs p H) as (? & ? & ? & ? & _). by simplify_eq.
      * destruct (running_view _ _ _ _ _ Hs p H) as (? & ? & ? & ? & _). by simplify_eq.
Qed.

Lemma requests_in_one_place_witness : NoDup (waiting_ (sched demo_state) ++ skip_ (sched demo_state) ++ running_ (sched demo_state)).
Proof. exact (proj1 (requests_in_one_place demo_config demo_state demo_state_reachable)). Defined.

(** ** What the counters mean *)

(** C16: the four counters of a sequence's reservation are the number, the prompt
    tokens, the samples and the KV positions of its items that the executor has and
    the scheduler did not retire yet; a request the scheduler may drop (skipped, or
    without leases) has no such item. *)
Theorem reservations_exact `{mode : BuildMode} config e p st sc :
  reachable config e -> heap (sched e) !! p = Some st -> scheduling st = Some sc ->
  let l := items_of (seq_id sc) (pending_items e) in
  let r := reservation sc in
  (execution_leases r = size_Z l /\ reserved_prompt_tokens r = sum_items prompt_of l /\
   reserved_generation_tokens r = sum_items gen_of l /\
   reserved_kv_tokens r = sum_items kv_token_count l) /\
  (p ∈ skip_ (sched e) \/ execution_leases r = 0 -> l = []).
Proof.
  intros Hr Hst Hsc l r. apply reachable_inv in Hr as [Hs _ _ _ _].
  destruct (si_work _ _ _ _ _ Hs p st sc Hst Hsc) as [Hw _]. destruct (wo_resv _ _ _ _ Hw). split; [done|].
  intros [Hin|H0]; [|by eapply work_ok_idle].
  destruct (skip_view _ _ _ _ _ Hs p Hin) as (? & ? & ? & ? & Hq). simplify_eq.
  by eapply idle_items.
Qed.

Definition first_running (e : Engine) : option (Z * RequestState * SequenceSchedulingState) :=
  p ← head (running_ (sched e)); st ← heap (sched e) !! p; sc ← scheduling st; Some (p, st, sc).

Lemma first_running_is e p st sc : first_running e = Some (p, st, sc) ->
  heap (sched e) !! p = Some st /\ scheduling st = Some sc.
Proof.
  unfold first_running. intros H. apply bind_Some in H as (p' & _ & H).
  apply bind_Some in H as (st' & H1 & H). apply bind_Some in H as (sc' & H2 & H). by simplify_eq.
Qed.

Lemma reservations_exact_witness :
  exists p st sc, first_running demo_state = Some (p, st, sc) /\
    execution_leases (reservation sc) = size_Z (items_of (seq_id sc) (pending_items demo_state)) /\
    execution_leases (reservation sc) = 1.
Proof.
  destruct (first_running demo_state) as [[[p st] sc]|] eqn:E; [|vm_compute in E; discriminate E].
  destruct (first_running_is demo_state p st sc E) as [H1 H2].
  exists p, st, sc. split; [reflexivity|]. split.
  - exact (proj1 (proj1 (reservations_exact demo_config demo_state p st sc demo_state_reachable H1 H2))).
  - vm_compute in E. injection E as _ _ <-. reflexivity.
Defined.

Lemma pchain_split plen ns pos ctx l1 it l2 :
  pchain plen ns pos ctx (l1 ++ it :: l2) ->
  exists w, it = WPrefill w /\ pc_expected_context_len w = Some (ctx + sum_items kv_token_count l1).
Proof.
  revert pos ctx. induction l1 as [|[w|w] l1 IH]; intros pos ctx H; [|simpl in *|done].
  - destruct it as [w|w]; [|done]. destruct H as (_ & _ & _ & H & _). exists w. simpl. by rewrite Z.add_0_r.
  - destruct H as (_ & _ & _ & _ & _ & H). apply IH in H as (w' & -> & H). exists w'. split; [done|].
    rewrite H. f_equal. lia.
Qed.

Lemma dchain_split ctx l1 it l2 :
  dchain ctx (l1 ++ it :: l2) ->
  exists w, it = WDecode w /\ dt_expected_context_len w = Some (ctx + sum_items kv_token_count l1).
Proof.
  revert ctx. induction l1 as [|[w|w] l1 IH]; intros ctx H; [|done|simpl in *].
  - destruct it as [w|w]; [done|]. destruct H as (_ & H & _). exists w. simpl. by rewrite Z.add_0_r.
  - destruct H as (Hw & _ & H). apply IH in H as (w' & -> & H). exists w'. split; [done|].
    rewrite Hw, H. f_equal. lia.
Qed.

(** the unretired items of an active sequence are consecutive: each starts at the
    executed frontier plus what the items dispatched before it write, so that with
    several batches in flight no position is computed twice or left out. *)
Theorem pending_contexts_consecutive `{mode : BuildMode} config e p st sc l1 it l2 :
  reachable config e -> heap (sched e) !! p = Some st -> scheduling st = Some sc ->
  status st = Active ->
  items_of (seq_id sc) (pending_items e) = l1 ++ it :: l2 ->
  work_context it = executed_frontier sc + sum_items kv_token_count l1 /\
  work_context it + kv_token_count it <= bsz (sched e) * table_size (block_table sc).
Proof.
  intros Hr Hst Hsc Ha Hl. apply reachable_inv in Hr as [Hs _ _ _ _].
  pose proof (bsz_pos _ _ _ _ _ Hs) as Hbs.
  destruct (si_work _ _ _ _ _ Hs p st sc Hst Hsc) as [[_ Hi Hact] _]. rewrite Hl in *.
  assert (item_at (bsz (sched e)) sc it) as [Hwf [_ Hpre]]
    by (rewrite Forall_forall in Hi; apply Hi; set_solver).
  split.
  - pose proof (ao_phase _ _ _ _ (Hact Ha)) as Hph. unfold phase_ok in Hph. unfold work_context.
    destruct (phase (cursor sc)).
    + destruct Hph as (-> & _ & H). apply pchain_split in H as (w & -> & E). by rewrite E.
    + destruct Hph as (-> & _ & H). apply pchain_split in H as (w & -> & E). by rewrite E.
    + destruct Hph as (_ & [H|(w & H & _ & E)]); [by destruct l1|].
      destruct l1 as [|x [|? ?]]; simplify_eq/=. rewrite E. simpl. lia.
    + destruct Hph as (_ & H). apply dchain_split in H as (w & -> & E). by rewrite E.
  - pose proof (iw_fits _ _ Hwf). destruct Hpre as [k Hk].
    assert (table_size (work_block_table it) <= table_size (block_table sc)).
    { unfold table_size, size_Z. rewrite Hk, length_app. lia. }
    nia.
Qed.

Lemma pending_contexts_consecutive_witness :
  exists p st sc it, first_running demo_state = Some (p, st, sc) /\
    items_of (seq_id sc) (pending_items demo_state) = [it] /\ work_context it = 0.
Proof.
  destruct (first_running demo_state) as [[[p st] sc]|] eqn:E; [|vm_compute in E; discriminate E].
  destruct (first_running_is demo_state p st sc E) as [H1 H2].
  destruct (items_of (seq_id sc) (pending_items demo_state)) as [|it l] eqn:El;
    [vm_compute in E; injection E as _ _ <-; vm_compute in El; discriminate El|].
  assert (status st = Active) as Ha by (vm_compute in E; injection E as _ <- _; reflexivity).
  pose proof (proj1 (pending_contexts_consecutive demo_config demo_state p st sc [] it l
                demo_state_reachable H1 H2 Ha El)) as Hc.
  exists p, st, sc, it. split; [reflexivity|].
  assert (executed_frontier sc = 0 /\ l = []) as [Hf ->].
  { vm_compute in E. injection E as _ _ <-. vm_compute in El. injection El as _ <-.
    split; reflexivity. }
  split; [exact El|]. rewrite Hc, Hf. reflexivity.
Defined.

(** ** Limits *)

(** the engine never runs more requests than [max_running_requests] and never
    holds more sequences than [max_sequences]; what [capacity] reports is the KV
    geometry of the configuration. *)
Theorem admission_limits `{mode : BuildMode} config e :
  reachable config e -> config_valid config -> max_sequences config <= INT_MAX ->
  size_Z (running_ (sched e)) <= max_running_requests config /\
  cap_active_sequences (capacity (sched e)) <= cap_max_sequences (capacity (sched e)) /\
  cap_max_blocks (capacity (sched e)) = Config.max_blocks config /\
  cap_block_size (capacity (sched e)) = kv_block_size config.
Proof.
  intros Hr Hv Hi. pose proof (reachable_inv _ _ Hr) as [Hs _ _ _ _].
  pose proof (si_limits _ _ _ _ _ Hs) as [H1 H2]. pose proof (si_geometry _ _ _ _ _ Hs) as [H3 H4].
  rewrite (reachable_config _ _ Hr) in *. destruct (cv_running _ Hv).
  unfold INT_MAX in Hi. rewrite !u64_small in * by lia.
  unfold capacity. simpl. rewrite (reachable_config _ _ Hr). done.
Qed.

Lemma admission_limits_witness : cap_active_sequences (capacity (sched demo_state)) <= 4.
Proof.
  assert (config_valid demo_config) as Hv by (split; vm_compute; repeat split; discriminate).
  assert (max_sequences demo_config <= INT_MAX) as Hi by (vm_compute; discriminate).
  exact (proj1 (proj2 (admission_limits demo_config demo_state demo_state_reachable Hv Hi))).
Defined.

(** ** Shutdown *)

(** C27: when the coroutine has ended nothing is held: no request is registered,
    queued, running or scheduled, no batch is in flight, and no block table is left. *)
Theorem stopped_holds_nothing `{mode : BuildMode} config e :
  reachable config e -> point e = Stopped ->
  let s := sched e in
  requests_ s = ∅ /\ waiting_ s = [] /\ skip_ s = [] /\ running_ s = [] /\ by_seq_id_ s = ∅ /\
  in_flight_ e = [] /\ forall p st, heap s !! p = Some st -> scheduling st = None.
Proof.
  intros Hr Hpt s. apply reachable_inv in Hr as [Hs _ _ Hq Hst]. fold s in Hs, Hq, Hst.
  destruct (Hst Hpt) as [Hrun Hfl]. rewrite Hpt in Hq. destruct (Hq eq_refl) as [Hw Hk].
  pose proof (si_place _ _ _ _ _ Hs) as Hp. rewrite Hw, Hk, Hrun in Hp. split_and!; try done.
  - apply map_empty. intros id. destruct (requests_ s !! id) eqn:E; [|done].
    apply (pl_reg1 _ _ _ _ _ _ _ _ _ Hp) in E as [H _]. by apply elem_of_nil in H.
  - apply map_empty. intros q. destruct (by_seq_id_ s !! q) eqn:E; [|done].
    apply (by_seq_view _ _ _ _ _ Hs) in E as [H _]. rewrite Hrun in H. by apply elem_of_nil in H.
  - intros p st Hst'. destruct (scheduling st) as [sc|] eqn:E; [|done].
    pose proof (shape_lookup _ _ _ Hst') as Hl. rewrite E in Hl.
    destruct (pl_seq _ _ _ _ _ _ _ _ _ Hp _ _ _ Hl) as [_ [[H _]|[H _]]]; by apply elem_of_nil in H.
Qed.

(** The coroutine after its loop, with an executor that answers each batch. *)
Definition drain_event (answer : gset Z -> ScheduledBatch -> Result BatchResult) (e : Engine) : Event :=
  match point e with DrainCollecting b => EvCollected (answer (failed_seqs e) b) | _ => EvRun end.

Fixpoint drain_run `{mode : BuildMode} (answer : gset Z -> ScheduledBatch -> Result BatchResult) (n : nat) (e : Engine)
  : option Engine :=
  match n with
  | O => Some e
  | S n => e' ← exec (drain_event answer e) e; drain_run answer n e'
  end.

Definition honest_executor (answer : gset Z -> ScheduledBatch -> Result BatchResult) : Prop :=
  forall dead b result, answer dead b = Value result -> honest_result dead b result.

Lemma run_method_Some {A} (m : M A) k e e' :
  run_method m k e = Some e' -> exists a s, e' = k a s.
Proof. unfold run_method. destruct (m (sched e)) as [[a s]|]; [|done]. intros [= <-]. eauto. Qed.

Lemma drain_from `{mode : BuildMode} answer n e :
  honest_executor answer -> engine_inv e -> point e = Draining -> length (in_flight_ e) = n ->
  exists e', drain_run answer (2 * n + 1) e = Some e' /\ point e' = Stopped /\ rtc engine_step e e'.
Proof.
  intros Hans. revert e. induction n as [|n IH]; intros e Hinv Hpt Hlen.
  - assert (enabled EvRun e) as Hen by done. destruct (exec_quiet EvRun e Hinv Hen) as (e1 & Hex & _);
      [by unfold builds_batch; rewrite Hpt|]. exists e1. simpl. unfold drain_event. rewrite Hpt, Hex. split; [done|]. split; [|by eapply rtc_once; econstructor].
    simpl in Hex. unfold run_step in Hex. rewrite Hpt in Hex. destruct (in_flight_ e); [|done].
    by apply run_method_Some in Hex as (a & s & ->).
  - destruct (in_flight_ e) as [|b rest] eqn:Hfl; [done|]. simpl in Hlen.
    set (e1 := mkEngine (sched e) rest (DrainCollecting b) (failed_seqs e) (handler e)).
    assert (exec EvRun e = Some e1) as Hex1 by (simpl; unfold run_step; by rewrite Hpt, Hfl).
    destruct (exec_quiet EvRun e Hinv I) as (e1' & Hex1' & Hinv1);
      [by unfold builds_batch; rewrite Hpt|]. assert (e1' = e1) as -> by congruence.
    assert (enabled (EvCollected (answer (failed_seqs e) b)) e1) as Hen2.
    { simpl. destruct (answer (failed_seqs e) b) eqn:Ha; [|done]. by apply Hans. }
    destruct (exec_quiet _ e1 Hinv1 Hen2 eq_refl) as (e2 & Hex2 & Hinv2).
    assert (point e2 = Draining /\ in_flight_ e2 = rest) as [Hpt2 Hfl2].
    { simpl in Hex2. by apply run_method_Some in Hex2 as (a & s & ->). }
    destruct (IH e2 Hinv2 Hpt2) as (e3 & Hrun & Hp3 & Hrtc); [rewrite Hfl2; lia|].
    exists e3. replace (2 * S n + 1)%nat with (S (S (2 * n + 1))) by lia. split; [|split; [done|]].
    + assert (drain_event answer e = EvRun) as Hd by (unfold drain_event; by rewrite Hpt).
      cbn [drain_run]. rewrite Hd, Hex1. cbn [mbind option_bind].
      change (drain_event answer e1) with (EvCollected (answer (failed_seqs e) b)). by rewrite Hex2.
    + eapply rtc_l; [by apply (step_event EvRun)|]. eapply rtc_l; [by eapply step_event|done].
Qed.

(** C26: a shutdown terminates: from the end of the loop, with any executor that
    answers honestly or fails, the coroutine drains the batches in flight, one
    collect each, and stops. *)
Theorem shutdown_terminates `{mode : BuildMode} config e answer :
  reachable config e -> point e = Leaving -> honest_executor answer ->
  exists e', drain_run answer (2 * length (in_flight_ e) + 2) e = Some e' /\
    reachable config e' /\ point e' = Stopped.
Proof.
  intros Hr Hpt Hans. pose proof (reachable_inv _ _ Hr) as Hinv.
  destruct (exec_quiet EvRun e Hinv I) as (e1 & Hex & Hinv1); [by unfold builds_batch; rewrite Hpt|].
  assert (point e1 = Draining /\ in_flight_ e1 = in_flight_ e) as [Hp1 Hfl].
  { simpl in Hex. unfold run_step in Hex. rewrite Hpt in Hex.
    by apply run_method_Some in Hex as (a & s & ->). }
  destruct (drain_from answer (length (in_flight_ e)) e1 Hans Hinv1 Hp1) as (e2 & Hrun & Hp2 & Hrtc);
    [by rewrite Hfl|].
  exists e2. replace (2 * length (in_flight_ e) + 2)%nat with (S (2 * length (in_flight_ e) + 1)) by lia.
  assert (drain_event answer e = EvRun) as Hd by (unfold drain_event; by rewrite Hpt).
  cbn [drain_run]. rewrite Hd, Hex. split; [done|]. split; [|done].
  destruct Hr as (e0 & H0 & Hr). exists e0. split; [done|]. etrans; [done|].
  eapply rtc_l; [by eapply (step_event EvRun)|done].
Qed.

(** Two requests in flight, then a shutdown whose handler runs while the first batch
    is being collected. *)
Definition leaving_events : list Event :=
  demo_events ++ [EvRun; EvDispatched (Value tt); EvRun; EvRun; EvShutdown 0; EvHandler;
                  EvCollected (Unexpected CudaRuntimeError); EvRun].

Definition leaving_state : Engine := default stub_engine (demo_engine leaving_events).

Lemma leaving_state_reachable `{mode : BuildMode} : reachable demo_config leaving_state.
Proof. apply (demo_reachable leaving_events). vm_compute. reflexivity. Qed.

Definition failing_executor : gset Z -> ScheduledBatch -> Result BatchResult :=
  fun _ _ => Unexpected CudaRuntimeError.

Lemma shutdown_terminates_witness :
  point leaving_state = Leaving /\
  exists e', drain_run failing_executor (2 * length (in_flight_ leaving_state) + 2) leaving_state = Some e' /\
    reachable demo_config e' /\ point e' = Stopped.
Proof.
  assert (point leaving_state = Leaving) as Hpt by (vm_compute; reflexivity).
  assert (honest_executor failing_executor) as Hh by (intros dead b r H; discriminate H).
  split; [exact Hpt|].
  exact (shutdown_terminates demo_config leaving_state failing_executor leaving_state_reachable Hpt Hh).
Defined.

Definition stopped_state : Engine :=
  default stub_engine (demo_engine
    (leaving_events ++ [EvRun; EvRun; EvCollected (Unexpected CudaRuntimeError); EvRun])).

Lemma stopped_state_reachable `{mode : BuildMode} : reachable demo_config stopped_state.
Proof.
  apply (demo_reachable (leaving_events ++
    [EvRun; EvRun; EvCollected (Unexpected CudaRuntimeError); EvRun])).
  vm_compute. reflexivity.
Qed.

Lemma stopped_holds_nothing_witness : point stopped_state = Stopped /\ requests_ (sched stopped_state) = ∅.
Proof.
  assert (point stopped_state = Stopped) as Hpt by (vm_compute; reflexivity).
  split; [exact Hpt|].
  exact (proj1 (stopped_holds_nothing demo_config stopped_state stopped_state_reachable Hpt)).
Defined.

(** ** Submissions *)

(** What the client's channel receives. *)
Definition reply (ch : Z) (r : Result GeneratedToken) (s : Scheduler) : Scheduler :=
  if bool_decide (ch ∈ expired s) then s else set_events (events s ++ [(ch, r)]) s.

Lemma send_event_reply ch r s : exists b, send_event ch r s = Some (b, reply ch r s).
Proof. unfold send_event, reply. case_bool_decide; eauto. Qed.

(** a submission is refused with the error of the first failing check (shutting
    down, duplicate id, full queue), leaving everything else as it was; otherwise the
    request joins the end of the waiting queue under its id, [Active], without
    generated tokens or blocks, with the default context length unless it asks for a
    positive one. *)
Theorem submit_spec req s :
  shutdown_in s = None ->
  exists s', submit req s = Some (tt, s') /\
    let id := sreq_request_id req in
    let refuse err := s' = reply (sreq_sink req) (Unexpected err) s in
    if negb (accepting_ s) then refuse ServerShuttingDown
    else if bool_decide (is_Some (requests_ s !! id)) then refuse InvalidArgument
    else if u64 (max_pending_requests (engine_config_ s)) <=? size_Z (waiting_ s)
    then refuse RequestQueueFull
    else
      let p := next_ptr s in
      let st := heap s' !! p in
      waiting_ s' = waiting_ s ++ [p] /\ requests_ s' = <[id := p]> (requests_ s) /\
      (forall q, q <> p -> heap s' !! q = heap s !! q) /\
      (request_id <$> st = Some id /\ status <$> st = Some Active /\
       prompt_tokens <$> st = Some (sreq_prompt_tokens req) /\ generated_tokens <$> st = Some [] /\
       st ≫= scheduling = None /\
       max_context_len <$> st = Some (if 0 <? sreq_max_context_len req then sreq_max_context_len req
                                      else default_max_context_len (engine_config_ s))) /\
      (running_ s', skip_ s', by_seq_id_ s', kv s', events s') =
      (running_ s, skip_ s, by_seq_id_ s, kv s, events s).
Proof.
  intros Hsd. unfold submit, mbind, M_bind, accepting_load. rewrite !Hsd.
  destruct (accepting_ s) eqn:Ha; simpl.
  2: { destruct (send_event_reply (sreq_sink req) (Unexpected ServerShuttingDown) s) as [b Hb].
       rewrite Hb. by eexists. }
  rewrite Hsd, Ha. simpl. unfold submit_on_scheduler_thread, gets, mbind, M_bind. simpl.
  case_bool_decide as Hd.
  { destruct (send_event_reply (sreq_sink req) (Unexpected InvalidArgument) s) as [b Hb].
    rewrite Hb. by eexists. }
  destruct (_ <=? size_Z _).
  { destruct (send_event_reply (sreq_sink req) (Unexpected RequestQueueFull) s) as [b Hb].
    rewrite Hb. by eexists. }
  eexists. split; [done|]. simpl. rewrite lookup_insert_eq. split_and!; try done.
  - intros q Hq. by rewrite lookup_insert_ne.
  - simpl. destruct (Z.leb_spec (sreq_max_context_len req) 0), (Z.ltb_spec 0 (sreq_max_context_len req));
      try lia; done.
Qed.

Lemma submit_spec_witness :
  exists s', submit (demo_request "c" [9; 9]) (sched filling_state) = Some (tt, s') /\
    waiting_ s' = waiting_ (sched filling_state) ++ [3].
Proof.
  assert (shutdown_in (sched filling_state) = None) as H by (vm_compute; reflexivity).
  destruct (submit_spec (demo_request "c" [9; 9]) (sched filling_state) H) as (s' & E & H').
  exists s'. split; [exact E|]. vm_compute in E. injection E as <-. vm_compute. reflexivity.
Defined.

(** ** Suspension *)

(** Requests a shortage may suspend: schedulable, in the wanted phase, nothing in
    flight; with their number of blocks. *)
Definition suspendable (prefill : bool) (s : Scheduler) (p n : Z) : Prop :=
  exists st sc, heap s !! p = Some st /\ scheduling st = Some sc /\ is_schedulable_state st = true /\
    is_prefill_phase (phase (cursor sc)) = prefill /\ execution_leases (reservation sc) = 0 /\
    table_size (block_table sc) = n.

Lemma suspendable_inj prefill s p n m : suspendable prefill s p n -> suspendable prefill s p m -> n = m.
Proof. intros (? & ? & ? & ? & _ & _ & _ & <-) (? & ? & ? & ? & _ & _ & _ & <-). by simplify_eq. Qed.

(** What the search over [l] answers when it starts with [best] of size [b]: the
    first of the smallest, if smaller than [b]. *)
Definition first_smallest (prefill : bool) (s : Scheduler) (l : list Z) (best : option Z) (b : Z)
    (r : option Z) : Prop :=
  (r = best /\ forall q n, q ∈ l -> suspendable prefill s q n -> b <= n) \/
  (exists l1 p l2 n, r = Some p /\ l = l1 ++ p :: l2 /\ suspendable prefill s p n /\ n < b /\
     (forall q m, q ∈ l1 -> suspendable prefill s q m -> n < m) /\
     (forall q m, q ∈ l2 -> suspendable prefill s q m -> n <= m)).

Lemma first_smallest_take prefill s p l best b n r :
  suspendable prefill s p n -> n < b ->
  first_smallest prefill s l (Some p) n r -> first_smallest prefill s (p :: l) best b r.
Proof.
  intros Hp Hn [[-> H]|(l1 & p0 & l2 & n0 & -> & -> & H0 & H1 & H2 & H3)]; right.
  - exists [], p, l, n. split_and!; try done. intros q m Hq. by apply elem_of_nil in Hq.
  - exists (p :: l1), p0, l2, n0. split_and!; try done; [lia|]. intros q m [->|Hq]%elem_of_cons Hm.
    + rewrite <- (suspendable_inj _ _ _ _ _ Hp Hm). lia.
    + by eapply H2.
Qed.

Lemma first_smallest_skip prefill s p l best b r :
  (forall n, suspendable prefill s p n -> b <= n) ->
  first_smallest prefill s l best b r -> first_smallest prefill s (p :: l) best b r.
Proof.
  intros Hp [[-> H]|(l1 & p0 & l2 & n0 & -> & -> & H0 & H1 & H2 & H3)]; [left|right].
  - split; [done|]. intros q m [->|Hq]%elem_of_cons Hm; eauto.
  - exists (p :: l1), p0, l2, n0. split_and!; try done. intros q m [->|Hq]%elem_of_cons Hm; [|by eapply H2].
    apply Hp in Hm. lia.
Qed.

Lemma first_smallest_loop prefill s l best b :
  first_smallest prefill s l best b (find_smallest_loop prefill (heap s) l best b).
Proof.
  revert best b. induction l as [|p l IH]; intros best b; simpl.
  { left. split; [done|]. intros q n Hq. by apply elem_of_nil in Hq. }
  destruct (heap s !! p) as [st|] eqn:Hst; simpl.
  2: { apply first_smallest_skip; [|apply IH]. intros n (st & sc & H1 & _). by rewrite H1 in Hst. }
  destruct (scheduling st) as [sc|] eqn:Hsc; simpl.
  2: { apply first_smallest_skip; [|apply IH]. intros n (st' & sc & H1 & H2 & _). by simplify_eq. }
  destruct (_ || _ || _) eqn:Hc.
  { apply first_smallest_skip; [|apply IH]. intros n (st' & sc' & H1 & H2 & H3 & H4 & H5 & _).
    simplify_eq. rewrite H3, H5, eqb_reflx in Hc. done. }
  assert (suspendable prefill s p (table_size (block_table sc))) as Hp.
  { apply orb_false_iff in Hc as [Hc H3]. apply orb_false_iff in Hc as [H1 H2].
    apply negb_false_iff in H1, H2, H3. apply eqb_prop in H1. apply Z.eqb_eq in H3.
    exists st, sc. by split_and!. }
  destruct (Z.ltb_spec (table_size (block_table sc)) b) as [Hlt|Hge].
  - by apply (first_smallest_take _ _ _ _ _ _ _ _ Hp Hlt), IH.
  - apply first_smallest_skip; [|apply IH]. intros n Hn. by rewrite <- (suspendable_inj _ _ _ _ _ Hp Hn).
Qed.

(** the victim of a shortage is a suspendable running request of the wanted phase
    with the fewest blocks, and of those the most recently admitted; there is none
    only when no running request is suspendable. *)
Theorem find_smallest_victim prefill s :
  match find_smallest prefill s with
  | Some p => exists older newer n, running_ s = older ++ p :: newer /\ suspendable prefill s p n /\
      (forall q m, q ∈ newer -> suspendable prefill s q m -> n < m) /\
      (forall q m, q ∈ older -> suspendable prefill s q m -> n <= m)
  | None => forall q m, q ∈ running_ s -> suspendable prefill s q m -> INT_MAX <= m
  end.
Proof.
  unfold find_smallest.
  destruct (first_smallest_loop prefill s (reverse (running_ s)) None INT_MAX)
    as [[-> H]|(l1 & p & l2 & n & -> & Hl & Hp & _ & H2 & H3)].
  - intros q m Hq. apply H. by rewrite elem_of_reverse.
  - exists (reverse l2), (reverse l1), n. split_and!; try done.
    + rewrite <- (reverse_involutive (running_ s)), Hl, reverse_app, reverse_cons. by rewrite <- app_assoc.
    + intros q m Hq. apply H2. by rewrite elem_of_reverse in Hq.
    + intros q m Hq. apply H3. by rewrite elem_of_reverse in Hq.
Qed.

(** what [prepare_for_wait] makes of a request that generated tokens: its prompt
    becomes the original prompt followed by everything generated but the last token,
    so that replaying the prompt and feeding the last token continues the same text;
    a request without tokens, and every other request, is left alone. *)
Theorem prepare_for_wait_resumes p s st :
  heap s !! p = Some st ->
  exists st', prepare_for_wait p s = Some (tt, set_heap (<[p := st']> (heap s)) s) /\
    generated_tokens st' = generated_tokens st /\
    match last (generated_tokens st) with
    | None => st' = st
    | Some t => prompt_tokens st' ++ [t] = initial_prompt_tokens st ++ generated_tokens st
    end.
Proof.
  intros Hst. unfold prepare_for_wait, deref, mbind, M_bind. rewrite Hst.
  case_bool_decide as Hg.
  - exists st. rewrite Hg, (insert_id _ _ _ Hst). by destruct s.
  - eexists. split; [done|]. split; [done|]. simpl.
    destruct (List.exists_last Hg) as (l & t & ->). rewrite last_snoc.
    rewrite List.removelast_last. by rewrite <- app_assoc.
Qed.

Lemma prepare_for_wait_resumes_witness :
  exists st st', prepare_for_wait 1 (sched demo_state) = Some (tt, set_heap (<[1 := st']> (heap (sched demo_state))) (sched demo_state)) /\
    generated_tokens st' = generated_tokens st.
Proof.
  destruct (heap (sched demo_state) !! 1) as [st|] eqn:E; [|vm_compute in E; discriminate E].
  destruct (prepare_for_wait_resumes 1 (sched demo_state) st E) as (st' & H1 & H2 & _).
  exists st, st'. split; [exact H1|exact H2].
Defined.
