(* ===== verification/SchedulerFindings.v ===== *)
(** * Where the scheduler does not do what it means to

    Concrete runs of the engine, with an executor that computes the token at a
    position from the position alone, and the general fact that suspensions and
    shutdowns never tell the executor to release a sequence. *)

From Stdlib Require Import ZArith Lia.
From stdpp Require Import prelude strings gmap fin_maps.
From S2P Require Import Prelude Base Config BlockPool PrefixCache BlockCache BlockCacheInv.
From S2P Require Import Scheduler SchedFrame SchedKv SchedWork SchedInv Engine EngineProps.

(** ** A deterministic executor *)

Definition position_token (pos : Z) : Z := 100 + pos.

Definition ok_item (i : nat) (it : WorkItem) : WorkItemResult :=
  mkWorkItemResult (Z.of_nat i) (work_sequence_id it) (work_kind it)
    (if gen_of it =? 1 then [position_token (work_context it + kv_token_count it)] else [])
    (work_token_count it) false false.

Definition ok_result (b : ScheduledBatch) : BatchResult :=
  mkBatchResult (batch_id b) (imap ok_item (batch_items b)).

Definition next_event (e : Engine) : Event :=
  match point e with
  | Dispatching _ => EvDispatched (Value tt)
  | Collecting b | DrainCollecting b => EvCollected (Value (ok_result b))
  | _ => EvRun
  end.

(** [n] steps of the coroutine with that executor. *)
Fixpoint drive `{BuildMode} (n : nat) (e : Engine) : option Engine :=
  match n with
  | O => Some e
  | S n => let ev := next_event e in
           if enabledb ev e then e' ← exec ev e; drive n e' else None
  end.

Definition scenario `{BuildMode} (config : EngineConfig) (evs : list Event) (n : nat) : option Engine :=
  e0 ← new_engine config; e1 ← run_events evs e0; drive n e1.

Lemma drive_reachable `{mode : BuildMode} config n e e' : reachable config e -> drive n e = Some e' -> reachable config e'.
Proof.
  revert e. induction n as [|n IH]; simpl; intros e Hr H; [by simplify_eq|].
  destruct (enabledb (next_event e) e) eqn:Hen; [|done]. apply bind_Some in H as (e1 & He & H).
  eapply IH; [|done]. destruct Hr as (e0 & H0 & Hr). exists e0. split; [done|].
  eapply rtc_r; [done|]. econstructor; [by apply enabledb_sound|done].
Qed.

Lemma scenario_reachable `{mode : BuildMode} config evs n e : scenario config evs n = Some e -> reachable config e.
Proof.
  unfold scenario. intros H. apply bind_Some in H as (e0 & H0 & H). apply bind_Some in H as (e1 & H1 & H).
  eapply drive_reachable; [|done]. by eapply run_events_reachable.
Qed.

(** A scenario of a mode is one of every mode that tolerates more. *)
Lemma drive_mono m m' n e e' : tolerates_less m m' -> @drive m n e = Some e' -> @drive m' n e = Some e'.
Proof.
  intros Hle. revert e. induction n as [|n IH]; [done|]. intros e. cbn [drive].
  destruct (enabledb _ e); [|done]. intros (e1 & He & Hr)%bind_Some. rewrite (exec_mono _ _ _ _ _ Hle He). by apply IH.
Qed.

Lemma scenario_mono m m' config evs n e :
  tolerates_less m m' -> @scenario m config evs n = Some e -> @scenario m' config evs n = Some e.
Proof.
  intros Hle. unfold scenario. intros (e0 & -> & H)%bind_Some. apply bind_Some in H as (e1 & H1 & H2).
  simpl. rewrite (run_events_mono _ _ _ _ _ Hle H1). simpl. exact (drive_mono _ _ _ _ _ Hle H2).
Qed.

(** Builds in which a suspension works: the freed list node can still be read. *)
Definition suspending_build : BuildMode := fun h => match h with FreedNode => true | _ => false end.

Lemma suspending_least `{mode : BuildMode} : tolerates FreedNode = true -> tolerates_less suspending_build mode.
Proof. intros Hf h. by destruct h. Qed.

(** ** Chunked prefill and the prefix cache *)

Definition chunked_events : list Event :=
  [EvStart; EvRun; EvRun; EvRun; EvSubmit (demo_request "a" [1; 2; 3; 4]); EvWake].

Definition hit_blocks (tokens : list Z) (e : Engine) : option (list Z) :=
  '(l, _) ← @lookup_prefix_cache release_build tokens 0 (kv (sched e)); Some (block_ids_ (lk_block_table l)).

(** C28: in every build, with a prefill chunk limit, a prompt published in chunks poisons the cache: a
    reachable engine has computed the prompt [1 2 3 4] into blocks [0 1], yet a prompt
    starting with [1 2] misses, and one starting with [3 4] is served block 1, whose
    keys and values were computed after [1 2]. *)
Theorem chunked_prefill_poisons_cache (mode : BuildMode) :
  exists e st sc, reachable demo_config e /\
    heap (sched e) !! 1 = Some st /\ scheduling st = Some sc /\
    prompt_tokens st = [1; 2; 3; 4] /\ executed_frontier sc = 4 /\
    take 2 (block_ids_ (block_table sc)) = [0; 1] /\
    hit_blocks [1; 2; 9] e = Some [] /\ hit_blocks [3; 4; 9] e = Some [1].
Proof.
  destruct (@scenario checked_build demo_config chunked_events 14) as [e|] eqn:E; [|vm_compute in E; discriminate].
  pose proof (scenario_reachable _ _ _ _ (scenario_mono _ mode _ _ _ _ (checked_least mode) E)) as Hr.
  destruct (heap (sched e) !! 1) as [st|] eqn:E1.
  2: { vm_compute in E. injection E as <-. vm_compute in E1. discriminate. }
  destruct (scheduling st) as [sc|] eqn:E2.
  2: { vm_compute in E. injection E as <-. vm_compute in E1. injection E1 as <-. vm_compute in E2. discriminate. }
  exists e, st, sc. split; [done|]. split; [done|]. split; [done|]. clear Hr.
  vm_compute in E. injection E as <-. vm_compute in E1. injection E1 as <-.
  vm_compute in E2. injection E2 as <-. vm_compute. done.
Qed.

(** ** Re-admission without a prefix hit *)

Definition tight_config : EngineConfig :=
  {| device_id := 0; max_blocks := 2; kv_block_size := 4; max_sequences := 4;
     max_running_requests := 2; max_concurrent_batches := 1; max_pending_requests := 4;
     max_token_budget := 8; max_seq_prefill_tokens := 0; default_max_context_len := 8;
     state_prefix_cache_blocks := 0 |}.

Definition tight_request (id : string) (prompt : list Z) (ch : Z) : SchedulerRequest :=
  mkSchedulerRequest id prompt (mkSamplingParams 4 0 f32_one f32_zero 42 (-1)) 0 ch.

Definition tight_events : list Event :=
  [EvStart; EvRun; EvRun; EvRun; EvSubmit (tight_request "a" [1; 1; 1; 1] 7);
   EvSubmit (tight_request "b" [2] 8); EvWake].

Definition sent_to (ch : Z) (e : Engine) : list Z :=
  flat_map (fun '(c, r) => if c =? ch then match r with
                             | Value t => if has_token t then [token_id t] else []
                             | Unexpected _ => [] end else []) (events (sched e)).

(** a request that was suspended and comes back without a prefix hit samples its
    last token a second time: with a deterministic executor the client of [b] gets
    101, 102 and then 102 again, and the prompt it was resumed with ends before the
    first 102. *)
Theorem readmission_repeats_token (mode : BuildMode) :
  tolerates FreedNode = true ->
  exists e st, reachable tight_config e /\ heap (sched e) !! 2 = Some st /\
    initial_prompt_tokens st = [2] /\ prompt_tokens st = [2; 101] /\
    generated_tokens st = [101; 102; 102] /\ sent_to 8 e = [101; 102; 102].
Proof.
  intros Hf. destruct (@scenario suspending_build tight_config tight_events 40) as [e|] eqn:E; [|vm_compute in E; discriminate].
  pose proof (scenario_reachable _ _ _ _ (scenario_mono _ mode _ _ _ _ (suspending_least Hf) E)) as Hr.
  destruct (heap (sched e) !! 2) as [st|] eqn:E1.
  2: { vm_compute in E. injection E as <-. vm_compute in E1. discriminate. }
  exists e, st. split; [done|]. split; [done|]. clear Hr.
  vm_compute in E. injection E as <-. vm_compute in E1. injection E1 as <-. vm_compute. done.
Qed.

(** ** A suspension reads a freed list node *)

(** [suspend_one_running] passes the [shared_ptr] in a node of [running_] by reference to
    [release_and_move_to_wait], which erases that node and then copies the pointer: in a
    state that every build reaches, the next run of the loop is carried out by exactly the
    modes in which the freed node still has its contents. *)
Theorem suspension_reads_freed_node :
  exists e, (forall mode, @reachable mode tight_config e) /\
    forall mode, is_Some (@exec mode EvRun e) <-> @tolerates mode FreedNode = true.
Proof.
  destruct (@scenario checked_build tight_config tight_events 13) as [e|] eqn:E; [|vm_compute in E; discriminate].
  assert (forall mode, @reachable mode tight_config e) as Hr by
    (intros mode; exact (scenario_reachable _ _ _ _ (scenario_mono _ mode _ _ _ _ (checked_least mode) E))).
  exists e. split; [exact Hr|].
  assert (enabled EvRun e) as Hen by (vm_compute in E; injection E as <-; exact I).
  assert (@exec checked_build EvRun e = None) as Hc.
  { clear Hr Hen. vm_compute in E. injection E as <-. vm_compute. reflexivity. }
  assert (is_Some (@exec suspending_build EvRun e)) as Hs.
  { clear Hr Hen Hc. vm_compute in E. injection E as <-. vm_compute. by eexists. }
  destruct (exec_outcome EvRun e (reachable_inv _ _ (Hr checked_build)) Hen) as (hs & e' & Hex & _). clear E.
  rewrite Hex in Hc, Hs. destruct (forallb checked_build hs) eqn:H1; [discriminate|].
  destruct (forallb suspending_build hs) eqn:H2; [|by destruct Hs].
  intros mode. rewrite Hex. assert (forallb mode hs = @tolerates mode FreedNode) as ->.
  { clear Hex Hc Hs e' Hen Hr e. induction hs as [|h hs IH]; [discriminate|]. simpl in *.
    destruct h; try discriminate. unfold tolerates in *. destruct hs as [|h hs]; [simpl; by rewrite andb_true_r|].
    rewrite IH; [by destruct (mode FreedNode)|done|]. simpl in H2. exact H2. }
  destruct (@tolerates mode FreedNode); split; [done|by eexists|by intros [? ?]|done].
Qed.

(** ** Sequences the executor is never told about *)

Definition same_released (s s' : Scheduler) : Prop := released_sequences s' = released_sequences s.

#[export] Instance same_released_preorder : PreOrder same_released.
Proof. split; [done|]. intros a b c H1 H2. unfold same_released in *. congruence. Qed.

(** only [cleanup_terminal_requests] releases sequences in the executor: building
    a batch (which evicts and suspends requests and gives them new sequence ids
    later), preempting, failing the waiting requests and ending the running ones at
    shutdown never call [release_sequence], whatever they drop. *)
Theorem released_only_by_cleanup (H : BuildMode) err s :
  (forall b s', schedule_step s = Some (b, s') -> released_sequences s' = released_sequences s) /\
  (forall s', relieve_shortage s = Some (tt, s') -> released_sequences s' = released_sequences s) /\
  (forall s', preempt_one_for_admission s = Some (tt, s') -> released_sequences s' = released_sequences s) /\
  (forall s', fail_all_waiting err s = Some (tt, s') -> released_sequences s' = released_sequences s) /\
  (forall s', cleanup_all_running err s = Some (tt, s') -> released_sequences s' = released_sequences s).
Proof.
  split_and!; intros *; [| | | |]; intros E; change (same_released s s').
  - assert (keeps same_released schedule_step) as Hk by (by apply sched_schedule_step; [typeclasses eauto|..]).
    by eapply Hk.
  - assert (keeps same_released relieve_shortage) as Hk by (by apply sched_relieve_shortage; [typeclasses eauto|..]).
    by eapply Hk.
  - assert (keeps same_released preempt_one_for_admission) as Hk by (by apply sched_preempt; [typeclasses eauto|..]).
    by eapply Hk.
  - assert (keeps same_released (fail_all_waiting err)) as Hk
      by (by apply sched_fail_all_waiting; [typeclasses eauto|..]).
    by eapply Hk.
  - assert (keeps same_released (cleanup_all_running err)) as Hk
      by (by apply sched_cleanup_all_running; [typeclasses eauto|..]).
    by eapply Hk.
Qed.

Lemma released_only_by_cleanup_witness :
  exists s', cleanup_all_running ServerShuttingDown (sched demo_state) = Some (tt, s') /\
    by_seq_id_ s' = ∅ /\ released_sequences s' = released_sequences (sched demo_state).
Proof.
  destruct (cleanup_all_running ServerShuttingDown (sched demo_state)) as [[[] s']|] eqn:E;
    [|vm_compute in E; discriminate E].
  destruct (released_only_by_cleanup checked_build ServerShuttingDown (sched demo_state)) as (_ & _ & _ & _ & H).
  exists s'. split; [reflexivity|]. split; [|exact (H s' E)].
  vm_compute in E. injection E as <-. vm_compute. reflexivity.
Defined.
