(* ===== verification/Bytes.v ===== *)
(** * Little-endian words

    Integers in device buffers and in files are little-endian byte strings; a byte
    is an integer from 0 to 255. *)

From Stdlib Require Import ZArith Lia.
From stdpp Require Import prelude strings gmap fin_maps.
From S2P Require Import Prelude.

(** The [n] low bytes of an integer. *)
Fixpoint le_bytes (n : nat) (z : Z) : list Z :=
  match n with
  | O => []
  | S n => u8 z :: le_bytes n (Z.shiftr z 8)
  end.

(** The unsigned integer of a byte string. *)
Fixpoint of_le (l : list Z) : Z :=
  match l with
  | [] => 0
  | b :: l => b + 256 * of_le l
  end.

Definition is_bytes (l : list Z) : Prop := Forall (fun b => 0 <= b < 256) l.

Definition is_bytes_b (l : list Z) : bool := forallb (fun b => (0 <=? b) && (b <? 256)) l.

Lemma is_bytes_b_ok l : is_bytes_b l = true -> is_bytes l.
Proof.
  intros Hl. unfold is_bytes_b in Hl. rewrite forallb_forall in Hl. apply Forall_forall. intros b Hb.
  apply list_elem_of_In, Hl in Hb. lia.
Qed.

Lemma length_le_bytes n z : length (le_bytes n z) = n.
Proof. revert z. induction n as [|n IH]; intros z; simpl; [done|]. by rewrite IH. Qed.

Lemma le_bytes_bytes n z : is_bytes (le_bytes n z).
Proof.
  revert z. induction n as [|n IH]; intros z; constructor; [|apply IH].
  unfold u8. apply Z.mod_pos_bound. lia.
Qed.

Lemma of_le_range l : is_bytes l -> 0 <= of_le l < 256 ^ size_Z l.
Proof.
  induction 1 as [|b l Hb _ IH]; [done|]. cbn [of_le]. rewrite size_Z_cons, Z.pow_add_r by (unfold size_Z; lia). lia.
Qed.

(** Reading back what was written gives the integer modulo the width. *)
Lemma of_le_le_bytes n z : of_le (le_bytes n z) = z mod 256 ^ Z.of_nat n.
Proof.
  revert z. induction n as [|n IH]; intros z; [by rewrite Z.mod_1_r|]. cbn [le_bytes of_le].
  rewrite IH, Nat2Z.inj_succ, Z.pow_succ_r by lia. unfold u8. change (2 ^ 8) with 256.
  rewrite (Z.rem_mul_r z 256) by (try apply Z.pow_nonzero; lia). by rewrite Z.shiftr_div_pow2 by lia.
Qed.

Lemma le_bytes_of_le l : is_bytes l -> le_bytes (length l) (of_le l) = l.
Proof.
  induction 1 as [|b l Hb _ IH]; [done|]. cbn [length le_bytes of_le]. f_equal.
  - unfold u8. change (2 ^ 8) with 256. rewrite Z.mul_comm, Z_mod_plus_full. by apply Z.mod_small.
  - rewrite Z.shiftr_div_pow2 by lia. change (2 ^ 8) with 256.
    rewrite Z.mul_comm, Z.div_add, Z.div_small by lia. simpl. exact IH.
Qed.

(** ** Vectors of [int32_t] *)

Definition encode_i32 (l : list Z) : list Z := l ≫= le_bytes 4.

Fixpoint decode_i32 (l : list Z) : list Z :=
  match l with
  | a :: b :: c :: d :: l => i32 (of_le [a; b; c; d]) :: decode_i32 l
  | _ => []
  end.

Definition is_i32 (z : Z) : Prop := INT_MIN <= z <= INT_MAX.

Lemma size_encode_i32 l : size_Z (encode_i32 l) = size_Z l * 4.
Proof.
  induction l as [|z l IH]; [done|]. unfold encode_i32 in *. cbn [mbind list_bind].
  rewrite size_Z_app, size_Z_cons, IH. unfold size_Z. rewrite length_le_bytes. lia.
Qed.

Lemma decode_encode_i32 l : Forall is_i32 l -> decode_i32 (encode_i32 l) = l.
Proof.
  induction 1 as [|z l Hz _ IH]; [done|]. unfold encode_i32 in *. cbn [mbind list_bind].
  change (le_bytes 4 z ++ (l ≫= le_bytes 4)) with
    (u8 z :: u8 (Z.shiftr z 8) :: u8 (Z.shiftr (Z.shiftr z 8) 8) :: u8 (Z.shiftr (Z.shiftr (Z.shiftr z 8) 8) 8) ::
     (l ≫= le_bytes 4)).
  cbn [decode_i32]. rewrite IH. f_equal. change [_; _; _; _] with (le_bytes 4 z).
  rewrite of_le_le_bytes. change (256 ^ Z.of_nat 4) with (2 ^ 32). unfold is_i32, INT_MIN, INT_MAX in Hz.
  unfold i32, sint. rewrite Zplus_mod_idemp_l.
  change (2 ^ (32 - 1)) with (2 ^ 31). rewrite Z.mod_small by lia. lia.
Qed.
