(* ===== verification/Floats.v ===== *)
(** * Floating point on bits

    A [float] of the program is the 32 bits of its representation; the arithmetic is
    the one of the Standard Library's [SpecFloat], rounded to nearest, ties to even.
    This file has the decoding and the encoding of the IEEE formats and a closed form
    of [SpecFloat]'s rounding: one rounded shift of the mantissa. *)

From Stdlib Require Import ZArith Lia SpecFloat.
From stdpp Require Import prelude.
From S2P Require Import Prelude.

(** ** Formats

    A format has [w] exponent bits and [p] fraction bits: binary32 is [8, 23],
    binary16 [5, 10], bfloat16 [8, 7], binary64 [11, 52]. *)

(** The value of IEEE bits. *)
Definition float_of_bits (w p bits : Z) : spec_float :=
  let s := Z.testbit bits (w + p) in
  let e := Z.land (Z.shiftr bits p) (2 ^ w - 1) in
  let m := Z.land bits (2 ^ p - 1) in
  let bias := 2 ^ (w - 1) - 1 in
  if e =? 2 ^ w - 1 then if m =? 0 then S754_infinity s else S754_nan
  else
    match (if e =? 0 then m else m + 2 ^ p) with
    | Zpos m => S754_finite s m ((if e =? 0 then 1 else e) - bias - p)
    | _ => S754_zero s
    end.

(** The bits of a value of the format; [nan] are the bits of a NaN. *)
Definition bits_of_float (w p nan : Z) (x : spec_float) : Z :=
  let sign s := Z.b2z s * 2 ^ (w + p) in
  match x with
  | S754_zero s => sign s
  | S754_infinity s => sign s + (2 ^ w - 1) * 2 ^ p
  | S754_nan => nan
  | S754_finite s m e => sign s + (e + (2 ^ (w - 1) - 2 + p)) * 2 ^ p + Zpos m
  end.

Definition f32 : Z -> spec_float := float_of_bits 8 23.
Definition f16 : Z -> spec_float := float_of_bits 5 10.
Definition bf16 : Z -> spec_float := float_of_bits 8 7.

(** Conversion to a narrower format; [prec] counts the hidden bit. *)
Definition sf_convert (prec emax : Z) (x : spec_float) : spec_float :=
  match x with
  | S754_finite s m e => binary_normalize prec emax (cond_Zopp s (Zpos m)) e s
  | x => x
  end.

(** [static_cast<float>(double)]. *)
Definition f32_of_f64 (x : spec_float) : spec_float := sf_convert 24 128 x.

(** The NaN an operation returns is left to the machine. *)
Class NanResult := nan_result : Z -> Z -> Z.
Class NanResultLaws `{NanResult} := nan_result_nan : forall a b, f32 (nan_result a b) = S754_nan.

Section arithmetic.
Context `{NanResult}.

Definition f32_op (op : spec_float -> spec_float -> spec_float) (a b : Z) : Z :=
  bits_of_float 8 23 (nan_result a b) (op (f32 a) (f32 b)).
Definition f32_mul : Z -> Z -> Z := f32_op (SFmul 24 128).
Definition f32_div : Z -> Z -> Z := f32_op (SFdiv 24 128).
End arithmetic.

(** [static_cast<float>] of a small integer. *)
Definition f32_of_int (z : Z) : Z := bits_of_float 8 23 0 (binary_normalize 24 128 z 0 false).

(** ** Rounding a shift to nearest, ties to even *)

Definition rne (m n : Z) : Z :=
  let q := m / 2 ^ n in
  let r := m mod 2 ^ n in
  if (2 ^ n <? 2 * r) || ((2 * r =? 2 ^ n) && Z.odd q) then q + 1 else q.

(** The value of mantissa [q] and exponent [e] after rounding to [prec] bits. *)
Definition sf_finish (prec emax : Z) (s : bool) (q e : Z) : spec_float :=
  let '(q, e) := if q =? 2 ^ prec then (2 ^ (prec - 1), e + 1) else (q, e) in
  match q with
  | Z0 => S754_zero s
  | Zpos m => if e <=? emax - prec then S754_finite s m e else S754_infinity s
  | Zneg _ => S754_nan
  end.

Lemma pow2_step n : 0 < n -> 2 ^ n = 2 ^ (n - 1) * 2.
Proof. intros Hn. rewrite Z.mul_comm, <- Z.pow_succ_r by lia. f_equal. lia. Qed.

Lemma rne_0 m : rne m 0 = m.
Proof.
  unfold rne. change (2 ^ 0) with 1. rewrite Z.mod_1_r, Z.div_1_r. simpl. done.
Qed.

(** An exact shift loses nothing. *)
Lemma rne_exact k n : 0 <= n -> rne (k * 2 ^ n) n = k.
Proof.
  intros Hn. pose proof (Z.pow_pos_nonneg 2 n ltac:(lia) Hn). unfold rne.
  rewrite Z.div_mul, Z.mod_mul by lia.
  destruct (Z.ltb_spec (2 ^ n) (2 * 0)), (Z.eqb_spec (2 * 0) (2 ^ n)); simpl; lia.
Qed.

Lemma rne_bounds m n k : 0 <= n -> 0 <= m < 2 ^ (k + n) -> 0 <= k -> 0 <= rne m n <= 2 ^ k.
Proof.
  intros Hn Hm Hk. rewrite Z.pow_add_r in Hm by lia. pose proof (Z.pow_pos_nonneg 2 n ltac:(lia) Hn).
  unfold rne. pose proof (Z.div_pos m (2 ^ n)). assert (m / 2 ^ n < 2 ^ k) by (apply Z.div_lt_upper_bound; lia).
  destruct (_ || _); lia.
Qed.

(** Even multiples of the step pass through the rounding. *)
Lemma rne_add_even k m n : 0 <= n -> Z.even k = true -> rne (k * 2 ^ n + m) n = k + rne m n.
Proof.
  intros Hn Hk. pose proof (Z.pow_pos_nonneg 2 n ltac:(lia) Hn). unfold rne.
  rewrite (Z.add_comm (k * 2 ^ n)), Z_mod_plus_full, Z.div_add by lia.
  rewrite Z.odd_add, <- (Z.negb_even k), Hk, xorb_false_r. destruct (_ || _); lia.
Qed.

(** The usual way to compute it: add just less than half, and one more when the
    quotient is odd. *)
Lemma rne_add m n : 0 < n -> rne m n = (m + (2 ^ (n - 1) - 1) + Z.b2z (Z.odd (m / 2 ^ n))) / 2 ^ n.
Proof.
  intros Hn. pose proof (pow2_step n Hn) as E.
  pose proof (Z.pow_pos_nonneg 2 (n - 1) ltac:(lia) ltac:(lia)). unfold rne.
  pose proof (Z.div_mod m (2 ^ n) ltac:(lia)) as Em. pose proof (Z.mod_pos_bound m (2 ^ n) ltac:(lia)) as Hr.
  set (q := m / 2 ^ n) in *. set (r := m mod 2 ^ n) in *.
  destruct (Z.ltb_spec (2 ^ n) (2 * r)); simpl.
  { apply (Z.div_unique_pos _ _ _ (r + (2 ^ (n - 1) - 1) + Z.b2z (Z.odd q) - 2 ^ n)); destruct (Z.odd q); simpl; lia. }
  destruct (Z.eqb_spec (2 * r) (2 ^ n)), (Z.odd q); simpl.
  - apply (Z.div_unique_pos _ _ _ (r + 2 ^ (n - 1) - 2 ^ n)); lia.
  - apply (Z.div_unique_pos _ _ _ (r + 2 ^ (n - 1) - 1)); lia.
  - apply (Z.div_unique_pos _ _ _ (r + 2 ^ (n - 1))); lia.
  - apply (Z.div_unique_pos _ _ _ (r + 2 ^ (n - 1) - 1)); lia.
Qed.

(** ** [SpecFloat]'s rounding *)

Lemma iter_pos_nat {A} (f : A -> A) n x : SpecFloat.iter_pos f n x = Nat.iter (Pos.to_nat n) f x.
Proof.
  revert x. induction n as [n IH|n IH|]; intros x; simpl SpecFloat.iter_pos; [| |done]; rewrite !IH, <- Nat.iter_add.
  - rewrite Nat.iter_swap. change (Nat.iter (S (Pos.to_nat n + Pos.to_nat n)) f x = Nat.iter (Pos.to_nat n~1) f x).
    f_equal. lia.
  - f_equal. lia.
Qed.

(** The record after [n >= 1] one-bit shifts of [m]. *)
Definition shifted (m n : Z) : shr_record :=
  Build_shr_record (m / 2 ^ n) (Z.odd (m / 2 ^ (n - 1))) (negb (m mod 2 ^ (n - 1) =? 0)).

Lemma shr_1_nonneg m r s : 0 <= m -> shr_1 (Build_shr_record m r s) = Build_shr_record (m / 2) (Z.odd m) (r || s).
Proof.
  intros Hm. destruct m as [|[p|p|]|p]; try lia; try done; simpl shr_1; f_equal.
  - rewrite (Pos2Z.inj_xI p). replace (2 * Z.pos p + 1) with (1 + Z.pos p * 2) by lia. by rewrite Z.div_add.
  - rewrite (Pos2Z.inj_xO p), Z.mul_comm. by rewrite Z.div_mul.
Qed.

Lemma shr_shifted m n : 0 <= m -> 0 < n -> shr_1 (shifted m n) = shifted m (n + 1).
Proof.
  intros Hm Hn. pose proof (Z.pow_pos_nonneg 2 n ltac:(lia) ltac:(lia)). unfold shifted.
  rewrite shr_1_nonneg by (apply Z.div_pos; lia). rewrite Z.div_div by lia.
  replace (2 ^ n * 2) with (2 ^ (n + 1)) by (rewrite Z.pow_add_r; lia). replace (n + 1 - 1) with n by lia.
  f_equal. pose proof (pow2_step n Hn) as E.
  pose proof (Z.pow_pos_nonneg 2 (n - 1) ltac:(lia) ltac:(lia)).
  rewrite E, (Z.rem_mul_r m (2 ^ (n - 1)) 2) by lia.
  pose proof (Z.mod_pos_bound m (2 ^ (n - 1)) ltac:(lia)). rewrite Zmod_odd.
  destruct (Z.odd _); simpl; [|by rewrite Z.mul_0_r, Z.add_0_r].
  destruct (Z.eqb_spec (m mod 2 ^ (n - 1) + 2 ^ (n - 1) * 1) 0); [lia|done].
Qed.

Lemma iter_shr m n : 0 <= m -> SpecFloat.iter_pos shr_1 n (Build_shr_record m false false) = shifted m (Zpos n).
Proof.
  intros Hm. rewrite iter_pos_nat, <- (positive_nat_Z n). pose proof (Pos2Nat.is_pos n).
  destruct (Pos.to_nat n) as [|k]; [lia|]. clear H. induction k as [|k IH].
  - change (shr_1 (Build_shr_record m false false) = shifted m 1). rewrite shr_1_nonneg by done.
    unfold shifted. change (2 ^ (1 - 1)) with 1. by rewrite Z.div_1_r, Z.mod_1_r.
  - change (Nat.iter (S (S k)) shr_1 (Build_shr_record m false false)) with
      (shr_1 (Nat.iter (S k) shr_1 (Build_shr_record m false false))).
    rewrite IH, shr_shifted by lia. f_equal. lia.
Qed.

(** The kept bits, the bit below them and the rest decide the rounding. *)
Lemma round_shifted m n : 0 <= m -> 0 < n ->
  round_nearest_even (shr_m (shifted m n)) (loc_of_shr_record (shifted m n)) = rne m n.
Proof.
  intros Hm Hn. unfold shifted, rne. simpl shr_m.
  pose proof (pow2_step n Hn) as E.
  pose proof (Z.pow_pos_nonneg 2 (n - 1) ltac:(lia) ltac:(lia)).
  assert (m mod 2 ^ n = m mod 2 ^ (n - 1) + 2 ^ (n - 1) * Z.b2z (Z.odd (m / 2 ^ (n - 1)))) as ->.
  { rewrite E, (Z.rem_mul_r m (2 ^ (n - 1)) 2) by lia. rewrite Zmod_odd. by destruct (Z.odd _). }
  pose proof (Z.mod_pos_bound m (2 ^ (n - 1)) ltac:(lia)) as Hr. rewrite <- (Z.negb_even (m / 2 ^ n)).
  set (q := m / 2 ^ n). set (r := m mod 2 ^ (n - 1)) in *. rewrite E.
  destruct (Z.odd _), (Z.eqb_spec r 0); simpl Z.b2z; simpl negb; unfold loc_of_shr_record, round_nearest_even;
    repeat match goal with |- context [?a <? ?b] => destruct (Z.ltb_spec a b); try lia end; simpl orb;
    repeat match goal with |- context [?a =? ?b] => destruct (Z.eqb_spec a b); try lia end; simpl andb;
    destruct (Z.even q); done.
Qed.

(** ** Closed form of the rounding *)

Lemma digits_log2 m : Zpos (digits2_pos m) = Z.log2 (Zpos m) + 1.
Proof.
  induction m as [m IH|m IH|]; [| |done]; simpl digits2_pos; rewrite Pos2Z.inj_succ, IH.
  - rewrite (Pos2Z.inj_xI m), Z.log2_succ_double by lia. lia.
  - rewrite (Pos2Z.inj_xO m), Z.log2_double by lia. lia.
Qed.

Lemma digits_bounds m : 2 ^ (Zpos (digits2_pos m) - 1) <= Zpos m < 2 ^ Zpos (digits2_pos m).
Proof.
  rewrite digits_log2. replace (Z.log2 (Z.pos m) + 1 - 1) with (Z.log2 (Z.pos m)) by lia.
  apply Z.log2_spec. lia.
Qed.

Lemma digits_le m k : 0 <= k -> Zpos m < 2 ^ k -> Zpos (digits2_pos m) <= k.
Proof.
  intros Hk Hm. rewrite digits_log2. assert (Z.log2 (Zpos m) < k); [|lia]. apply Z.log2_lt_pow2; lia.
Qed.

Lemma digits_unique m k : 0 < k -> 2 ^ (k - 1) <= Zpos m < 2 ^ k -> Zpos (digits2_pos m) = k.
Proof.
  intros Hk Hm. rewrite digits_log2. assert (Z.log2 (Zpos m) = k - 1); [|lia].
  apply Z.log2_unique; [lia|]. replace (Z.succ (k - 1)) with k by lia. done.
Qed.

Lemma pow2_pos_shape k : 0 <= k -> exists m, 2 ^ k = Zpos m.
Proof. intros Hk. pose proof (Z.pow_pos_nonneg 2 k ltac:(lia) Hk). destruct (2 ^ k); [lia|eauto|lia]. Qed.

Section rounding.
Context (prec emax : Z) (Hprec : 0 < prec).

(** Rounding can carry into one more digit, which one further exact shift removes. *)
Lemma shr_fexp_finish q e : 0 <= q <= 2 ^ prec -> emin prec emax <= e ->
  shr_fexp prec emax q e loc_Exact =
  if q =? 2 ^ prec then (Build_shr_record (2 ^ (prec - 1)) false false, e + 1) else (Build_shr_record q false false, e).
Proof.
  intros Hq He. unfold shr_fexp. simpl shr_record_of_loc.
  destruct (Z.eqb_spec q (2 ^ prec)) as [->|Hne].
  - destruct (pow2_pos_shape prec ltac:(lia)) as [m Em]. rewrite Em. simpl Zdigits2.
    rewrite (digits_unique m (prec + 1)) by
      (first [lia | rewrite <- Em; replace (prec + 1 - 1) with prec by lia; split; [lia|apply Z.pow_lt_mono_r; lia]]).
    unfold fexp. replace (Z.max _ _ - e) with 1 by lia. unfold shr.
    change (SpecFloat.iter_pos shr_1 1 ?x) with (shr_1 x). rewrite shr_1_nonneg by lia.
    rewrite <- Em, (pow2_step prec Hprec), Z.div_mul by lia. f_equal. f_equal.
    rewrite Z.odd_mul. by rewrite andb_false_r.
  - assert (fexp prec emax (Zdigits2 q + e) - e <= 0) as Hle.
    { unfold fexp. destruct q as [|q|q]; [simpl; lia| |lia]. simpl Zdigits2.
      pose proof (digits_le q prec ltac:(lia) ltac:(lia)). lia. }
    unfold shr. destruct (_ - e); [done|lia|done].
Qed.

(** A positive mantissa with at least as many digits as are kept. *)
Lemma binary_round_aux_spec s m e e' :
  e' = fexp prec emax (Zpos (digits2_pos m) + e) -> e <= e' ->
  binary_round_aux prec emax s (Zpos m) e loc_Exact = sf_finish prec emax s (rne (Zpos m) (e' - e)) e'.
Proof.
  intros Ee He. unfold binary_round_aux.
  assert (shr_fexp prec emax (Zpos m) e loc_Exact =
          (if e' =? e then Build_shr_record (Zpos m) false false else shifted (Zpos m) (e' - e), e')) as ->.
  { unfold shr_fexp. simpl Zdigits2. rewrite <- Ee. unfold shr. destruct (Z.eqb_spec e' e) as [->|Hne].
    - by rewrite Z.sub_diag.
    - destruct (e' - e) as [|n|n] eqn:En; [lia| |lia]. simpl shr_record_of_loc. rewrite iter_shr by lia. f_equal. lia. }
  assert (round_nearest_even (shr_m (if e' =? e then Build_shr_record (Zpos m) false false else shifted (Zpos m) (e' - e)))
     (loc_of_shr_record (if e' =? e then Build_shr_record (Zpos m) false false else shifted (Zpos m) (e' - e))) =
     rne (Zpos m) (e' - e)) as ->.
  { destruct (Z.eqb_spec e' e) as [->|Hne]; [by rewrite Z.sub_diag, rne_0|]. apply round_shifted; lia. }
  assert (0 <= rne (Zpos m) (e' - e) <= 2 ^ prec) as Hq.
  { apply rne_bounds; [lia| |lia]. split; [lia|]. eapply Z.lt_le_trans; [apply digits_bounds|].
    apply Z.pow_le_mono_r; [lia|]. unfold fexp in Ee. lia. }
  rewrite shr_fexp_finish by (done || unfold fexp in Ee; lia). unfold sf_finish.
  by destruct (_ =? 2 ^ prec).
Qed.

Lemma binary_round_spec s m e e' :
  e' = fexp prec emax (Zpos (digits2_pos m) + e) ->
  binary_round prec emax s m e = sf_finish prec emax s (if e' <? e then Zpos m * 2 ^ (e - e') else rne (Zpos m) (e' - e)) e'.
Proof.
  intros Ee. unfold binary_round. rewrite <- Ee. unfold shl_align.
  destruct (Z.ltb_spec e' e) as [Hlt|Hge].
  - destruct (e' - e) as [|d|d] eqn:Ed; [lia|lia|].
    assert (Zpos (Pos.iter xO m d) = Zpos m * 2 ^ (e - e')) as Em.
    { replace (e - e') with (Zpos d) by lia. clear. induction d as [|d IH] using Pos.peano_ind.
      - simpl. lia.
      - rewrite Pos.iter_succ, Pos2Z.inj_xO, IH, Pos2Z.inj_succ, Z.pow_succ_r by lia. lia. }
    assert (Zpos (digits2_pos (Pos.iter xO m d)) = Zpos (digits2_pos m) + (e - e')) as Edig.
    { rewrite !digits_log2, Em, Z.log2_mul_pow2 by lia. lia. }
    rewrite (binary_round_aux_spec s _ e' e') by (rewrite ?Edig; (lia || rewrite Ee at 1; f_equal; lia)).
    by rewrite Z.sub_diag, rne_0, Em.
  - destruct (e' - e) as [|d|d] eqn:Ed; [| |lia]; rewrite (binary_round_aux_spec s m e e') by (done || lia); by rewrite Ed.
Qed.
End rounding.

(** ** Bit fields *)

(** Sign, exponent and fraction of the bits of a format. *)
Definition pack (w p : Z) (s : bool) (e f : Z) : Z := Z.b2z s * 2 ^ (w + p) + e * 2 ^ p + f.

Section fields.
Context (w p : Z) (Hw : 0 < w) (Hp : 0 < p).

Lemma pack_fields s e f : 0 <= e < 2 ^ w -> 0 <= f < 2 ^ p ->
  Z.testbit (pack w p s e f) (w + p) = s /\ Z.land (Z.shiftr (pack w p s e f) p) (2 ^ w - 1) = e /\
  Z.land (pack w p s e f) (2 ^ p - 1) = f.
Proof.
  intros He Hf. pose proof (Z.pow_pos_nonneg 2 w ltac:(lia) ltac:(lia)).
  pose proof (Z.pow_pos_nonneg 2 p ltac:(lia) ltac:(lia)). unfold pack. rewrite (Z.pow_add_r 2 w p) by lia.
  split_and!.
  - apply Z.b2z_inj. rewrite Z.testbit_spec', Z.pow_add_r by lia.
    rewrite <- (Z.div_unique_pos (Z.b2z s * (2 ^ w * 2 ^ p) + e * 2 ^ p + f) (2 ^ w * 2 ^ p) (Z.b2z s) (e * 2 ^ p + f))
      by nia.
    by destruct s.
  - replace (2 ^ w - 1) with (Z.ones w) by (rewrite Z.ones_equiv; lia).
    rewrite Z.land_ones, Z.shiftr_div_pow2 by lia.
    rewrite <- (Z.div_unique_pos (Z.b2z s * (2 ^ w * 2 ^ p) + e * 2 ^ p + f) (2 ^ p) (Z.b2z s * 2 ^ w + e) f) by nia.
    rewrite Z.add_comm, Z_mod_plus_full. by apply Z.mod_small.
  - replace (2 ^ p - 1) with (Z.ones p) by (rewrite Z.ones_equiv; lia). rewrite Z.land_ones by lia.
    symmetry. apply (Z.mod_unique_pos _ _ (Z.b2z s * 2 ^ w + e)); nia.
Qed.

(** Every word of the width of the format is packed. *)
Lemma unpack b : 0 <= b < 2 ^ (1 + w + p) ->
  exists s e f, 0 <= e < 2 ^ w /\ 0 <= f < 2 ^ p /\ b = pack w p s e f.
Proof.
  intros Hb. pose proof (Z.pow_pos_nonneg 2 w ltac:(lia) ltac:(lia)).
  pose proof (Z.pow_pos_nonneg 2 p ltac:(lia) ltac:(lia)).
  rewrite !Z.pow_add_r in Hb by lia. change (2 ^ 1) with 2 in Hb.
  pose proof (Z.div_mod b (2 ^ p) ltac:(lia)). pose proof (Z.mod_pos_bound b (2 ^ p) ltac:(lia)).
  assert (0 <= b / 2 ^ p < 2 * 2 ^ w) by (split; [apply Z.div_pos; lia|apply Z.div_lt_upper_bound; lia]).
  exists (2 ^ w <=? b / 2 ^ p), (b / 2 ^ p - Z.b2z (2 ^ w <=? b / 2 ^ p) * 2 ^ w), (b mod 2 ^ p).
  unfold pack. rewrite Z.pow_add_r by lia. destruct (Z.leb_spec (2 ^ w) (b / 2 ^ p)); simpl Z.b2z; split_and!; nia.
Qed.

Definition value_of_fields (s : bool) (e f : Z) : spec_float :=
  if e =? 2 ^ w - 1 then if f =? 0 then S754_infinity s else S754_nan
  else
    match (if e =? 0 then f else f + 2 ^ p) with
    | Zpos m => S754_finite s m ((if e =? 0 then 1 else e) - (2 ^ (w - 1) - 1) - p)
    | _ => S754_zero s
    end.

Lemma float_of_pack s e f : 0 <= e < 2 ^ w -> 0 <= f < 2 ^ p ->
  float_of_bits w p (pack w p s e f) = value_of_fields s e f.
Proof.
  intros He Hf. destruct (pack_fields s e f He Hf) as (E1 & E2 & E3). unfold float_of_bits.
  by rewrite E1, E2, E3.
Qed.

(** A rounded mantissa is encoded by adding it to the shifted exponent: the carry of
    the rounding runs into the exponent, up to infinity. *)
Lemma float_of_finish s q e : let emax := 2 ^ (w - 1) in let prec := p + 1 in
  2 <= emax -> 0 <= q <= 2 ^ prec -> emin prec emax <= e <= emax - prec -> (q < 2 ^ p -> e = emin prec emax) ->
  float_of_bits w p (pack w p s (e - emin prec emax) q) = sf_finish prec emax s q e.
Proof.
  intros emax prec Hemax Hq He Hsub. pose proof (Z.pow_pos_nonneg 2 p ltac:(lia) ltac:(lia)) as Hpp.
  assert (2 ^ w = emax * 2) as Ew by (apply pow2_step; lia).
  assert (2 ^ prec = 2 ^ p * 2) as Ep by (unfold prec; rewrite Z.pow_add_r; lia).
  assert (2 ^ (prec - 1) = 2 ^ p) as Ep1 by (unfold prec; f_equal; lia).
  unfold sf_finish. rewrite Ep, Ep1. unfold emin, prec in *.
  destruct (Z.lt_ge_cases q (2 ^ p)) as [Hlt|Hge]; [|destruct (Z.eqb_spec q (2 ^ p * 2)) as [->|Hne]].
  - specialize (Hsub Hlt). subst e. rewrite Z.sub_diag, float_of_pack by lia. unfold value_of_fields.
    destruct (Z.eqb_spec 0 (2 ^ w - 1)); [lia|]. destruct (Z.eqb_spec q (2 ^ p * 2)); [lia|]. simpl.
    destruct q as [|q|q]; [done| |lia]. destruct (Z.leb_spec (3 - emax - (p + 1)) (emax - (p + 1))); [|lia].
    f_equal. unfold emax. lia.
  - replace (pack w p s (e - (3 - emax - (p + 1))) (2 ^ p * 2)) with (pack w p s (e - (3 - emax - (p + 1)) + 2) 0)
      by (unfold pack; lia).
    rewrite float_of_pack by lia. unfold value_of_fields.
    destruct (pow2_pos_shape p ltac:(lia)) as [m Em]. rewrite Em.
    destruct (Z.eqb_spec (e - (3 - emax - (p + 1)) + 2) (2 ^ w - 1)), (Z.leb_spec (e + 1) (emax - (p + 1))); try lia; [done|].
    destruct (Z.eqb_spec (e - (3 - emax - (p + 1)) + 2) 0); [lia|]. simpl. f_equal. unfold emax. lia.
  - replace (pack w p s (e - (3 - emax - (p + 1))) q) with (pack w p s (e - (3 - emax - (p + 1)) + 1) (q - 2 ^ p))
      by (unfold pack; lia).
    rewrite float_of_pack by lia. unfold value_of_fields.
    destruct (Z.eqb_spec (e - (3 - emax - (p + 1)) + 1) (2 ^ w - 1)); [lia|].
    destruct (Z.eqb_spec (e - (3 - emax - (p + 1)) + 1) 0); [lia|].
    replace (q - 2 ^ p + 2 ^ p) with q by lia. destruct q as [|q|q]; [lia| |lia].
    destruct (Z.leb_spec e (emax - (p + 1))); [|lia]. f_equal. unfold emax. lia.
Qed.
End fields.

(** ** Narrowing a binary32 value *)

(** The integer mantissa and the exponent of fields of binary32. *)
Definition f32_mantissa (e f : Z) : Z := if e =? 0 then f else f + 2 ^ 23.
Definition f32_exponent (e : Z) : Z := (if e =? 0 then 1 else e) - 150.

Lemma f32_unpack b : 0 <= b < 2 ^ 32 -> exists s e f, 0 <= e < 256 /\ 0 <= f < 2 ^ 23 /\ b = pack 8 23 s e f.
Proof. intros Hb. apply (unpack 8 23); (done || lia). Qed.

Lemma sf_convert_f32 prec emax s e f : 0 < prec -> 0 <= e < 255 -> 0 <= f < 2 ^ 23 ->
  sf_convert prec emax (f32 (pack 8 23 s e f)) =
  match f32_mantissa e f with
  | Zpos m => binary_round prec emax s m (f32_exponent e)
  | _ => S754_zero s
  end.
Proof.
  intros Hprec He Hf. unfold f32. rewrite float_of_pack by (done || lia). unfold value_of_fields.
  destruct (Z.eqb_spec e (2 ^ 8 - 1)); [lia|]. unfold f32_mantissa, f32_exponent.
  destruct (if e =? 0 then f else f + 2 ^ 23) as [|m|m] eqn:Em; try done.
  unfold sf_convert. replace ((if e =? 0 then 1 else e) - (2 ^ (8 - 1) - 1) - 23) with ((if e =? 0 then 1 else e) - 150)
    by (destruct (e =? 0); lia).
  by destruct s.
Qed.

Lemma f32_special s f : 0 <= f < 2 ^ 23 -> f32 (pack 8 23 s 255 f) = if f =? 0 then S754_infinity s else S754_nan.
Proof. intros Hf. unfold f32. by rewrite float_of_pack by (done || lia). Qed.
