(* ===== verification/Q8.v ===== *)
(** * The Q8_0 reference: [quant/q8_0/q8_0_reference.cpp]

    Conversions between binary16 and binary32 on bits, and the quantisation of blocks
    of floats to eight-bit integers with a common scale.  The block format belongs to
    the operator library: [Q8Format] has its constants, [Q8FormatLaws] the layout that
    [tests/unit/test_q8_0.cpp] asserts.  [None] is undefined behaviour. *)

From Stdlib Require Import ZArith Lia SpecFloat.
From stdpp Require Import prelude.
From S2P Require Import Prelude Base Bytes Floats.

(** ** The block format *)

Class Q8Format := {
  kQ8_0BlockSize : Z;
  kQ8_0BlockBytes : Z;
}.

(** A 16-bit scale followed by one byte per element. *)
Class Q8FormatLaws `{Q8Format} := {
  q8_block_size : kQ8_0BlockSize = 32;
  q8_block_bytes : kQ8_0BlockBytes = 2 + kQ8_0BlockSize;
}.

(** [ccop::q8_0_storage_bytes]: [None] for shapes whose last dimension is not made of
    whole blocks. *)
Class Q8Storage := q8_0_storage_bytes : list Z -> option Z.

Record Q8_0Block := mkQ8 { d_f16 : Z; qs : list Z }.

(** ** [half_to_float] *)

(** [while ((m & 0x400u) == 0) { m <<= 1; ++shift; }]. *)
Fixpoint normalize_half (fuel : nat) (m shift : Z) : option (Z * Z) :=
  if negb (Z.land m 1024 =? 0) then Some (m, shift)
  else
    match fuel with
    | O => None
    | S fuel => normalize_half fuel (u32 (Z.shiftl m 1)) (shift + 1)
    end.

Definition half_to_float (h : Z) : option Z :=
  let sign := u32 (Z.shiftl (Z.land h 32768) 16) in
  let exp := Z.land (Z.shiftr h 10) 31 in
  let mant := Z.land h 1023 in
  if exp =? 0 then
    if mant =? 0 then Some sign
    else
      '(m, shift) ← normalize_half 10 mant 0;
      let float_exp := u32 (127 - 14 - shift) in
      Some (Z.lor (Z.lor sign (u32 (Z.shiftl float_exp 23))) (u32 (Z.shiftl (Z.land m 1023) 13)))
  else if exp =? 31 then Some (Z.lor (Z.lor sign 2139095040) (u32 (Z.shiftl mant 13)))
  else
    let float_exp := u32 (exp + (127 - 15)) in
    Some (Z.lor (Z.lor sign (u32 (Z.shiftl float_exp 23))) (u32 (Z.shiftl mant 13))).

Definition q8_0_f16_to_float : Z -> option Z := half_to_float.

(** ** [float_to_half] *)

Definition float_to_half (bits : Z) : Z :=
  let sign := Z.land (Z.shiftr bits 16) 32768 in
  let exp := Z.land (Z.shiftr bits 23) 255 in
  let mant := Z.land bits 8388607 in
  if exp =? 255 then u16 (Z.lor (Z.lor sign 31744) (if mant =? 0 then 0 else 512))
  else
    let half_exp := exp - 127 + 15 in
    if 31 <=? half_exp then u16 (Z.lor sign 31744)
    else if half_exp <=? 0 then
      if half_exp <? -10 then u16 sign
      else
        let m := Z.lor mant 8388608 in
        let shift := u32 (14 - half_exp) in
        let half_mant := Z.shiftr m shift in
        let round_bit_mask := u32 (Z.shiftl 1 (shift - 1)) in
        let half_mant :=
          if negb (Z.land m round_bit_mask =? 0) then
            let lower := Z.land m (round_bit_mask - 1) in
            if negb (lower =? 0) || negb (Z.land half_mant 1 =? 0) then u32 (half_mant + 1) else half_mant
          else half_mant in
        if 1024 <=? half_mant then u16 (Z.lor sign (Z.shiftl 1 10)) else u16 (Z.lor sign half_mant)
    else
      let half_mant := Z.shiftr mant 13 in
      let rem := Z.land mant 8191 in
      if (4096 <? rem) || ((rem =? 4096) && negb (Z.land half_mant 1 =? 0)) then
        let half_mant := u32 (half_mant + 1) in
        if 1024 <=? half_mant then
          let next_exp := u32 (half_exp + 1) in
          if 31 <=? next_exp then u16 (Z.lor sign 31744)
          else u16 (Z.lor (Z.lor sign (u32 (Z.shiftl next_exp 10))) 0)
        else u16 (Z.lor (Z.lor sign (u32 (Z.shiftl half_exp 10))) half_mant)
      else u16 (Z.lor (Z.lor sign (u32 (Z.shiftl half_exp 10))) half_mant).

Definition q8_0_float_to_f16 : Z -> Z := float_to_half.

(** ** [float] operations of the quantiser *)

Definition f32_bits_zero : Z := 0.
Definition f32_lt (a b : Z) : bool := SFltb (f32 a) (f32 b).
Definition f32_eq (a b : Z) : bool := SFeqb (f32 a) (f32 b).

(** [std::fabs] clears the sign bit; [std::max(a, b)] is [a < b ? b : a]. *)
Definition f32_abs (a : Z) : Z := Z.land a (2 ^ 31 - 1).
Definition f32_max (a b : Z) : Z := if f32_lt a b then b else a.

(** [std::round]: halfway cases away from zero; an integral value is kept. *)
Definition f32_round (a : Z) : Z :=
  match f32 a with
  | S754_finite s m e =>
      if 0 <=? e then a
      else bits_of_float 8 23 a
             (binary_normalize 24 128 (cond_Zopp s (Z.shiftr (Zpos m + 2 ^ (- e - 1)) (- e))) 0 s)
  | _ => a
  end.

(** [static_cast<std::int8_t>(q)] truncates; a value out of range is undefined. *)
Definition f32_to_i8 (a : Z) : option Z :=
  match f32 a with
  | S754_zero _ => Some 0
  | S754_finite s m e =>
      let z := cond_Zopp s (Z.shiftl (Zpos m) e) in
      if (-128 <=? z) && (z <=? 127) then Some z else None
  | _ => None
  end.

Section blocks.
Context `{NanResult, Q8Format}.

(** ** [dequantize_q8_0_reference] *)

Definition dequantize_block (block : Q8_0Block) : option (list Z) :=
  scale ← q8_0_f16_to_float (d_f16 block);
  Some (f32_mul scale ∘ f32_of_int <$> qs block).

(** The destination is overwritten block by block: [dst_size] is its size. *)
Definition dequantize_q8_0_reference (src : list Q8_0Block) (dst_size : Z) : option (Result (list Z)) :=
  if negb (dst_size =? u64 (size_Z src * kQ8_0BlockSize)) then Some (Unexpected InvalidArgument)
  else l ← mapM dequantize_block src; Some (Value (concat l)).

(** ** [quantize_q8_0_reference] *)

(** One element; [127.0f] and [-127.0f] clamp. *)
Definition quantize_element (actual_scale x : Z) : option Z :=
  let q := if negb (f32_eq actual_scale f32_bits_zero) then f32_round (f32_div x actual_scale) else f32_bits_zero in
  let q := if f32_lt (f32_of_int 127) q then f32_of_int 127 else q in
  let q := if f32_lt q (f32_of_int (-127)) then f32_of_int (-127) else q in
  f32_to_i8 q.

Definition quantize_block (src_block : list Z) : option Q8_0Block :=
  let max_abs := foldl (fun acc x => f32_max acc (f32_abs x)) f32_bits_zero src_block in
  let scale := if f32_lt f32_bits_zero max_abs then f32_div max_abs (f32_of_int 127) else f32_bits_zero in
  let d := q8_0_float_to_f16 scale in
  actual_scale ← q8_0_f16_to_float d;
  q ← mapM (quantize_element actual_scale) src_block;
  Some (mkQ8 d q).

(** The blocks of the source. *)
Fixpoint blocks_of (n : nat) (src : list Z) : list (list Z) :=
  match n with
  | O => []
  | S n => take (Z.to_nat kQ8_0BlockSize) src :: blocks_of n (drop (Z.to_nat kQ8_0BlockSize) src)
  end.

Definition quantize_q8_0_reference (src : list Z) (dst_size : Z) : option (Result (list Q8_0Block)) :=
  if bool_decide (src = []) || negb (Z.rem (size_Z src) kQ8_0BlockSize =? 0) ||
     negb (dst_size =? Z.quot (size_Z src) kQ8_0BlockSize)
  then Some (Unexpected InvalidArgument)
  else l ← mapM quantize_block (blocks_of (Z.to_nat dst_size) src); Some (Value l).
End blocks.
