(* ===== verification/Q8Props.v ===== *)
(** * The conversions between binary16 and binary32 are those of IEEE 754 *)

From Stdlib Require Import ZArith Lia SpecFloat.
From stdpp Require Import prelude.
From S2P Require Import Prelude Base Bytes Floats Q8.

(** ** Words *)

Lemma lor_disjoint a k b : 0 <= k -> 0 <= b < 2 ^ k -> Z.lor (a * 2 ^ k) b = a * 2 ^ k + b.
Proof.
  intros Hk Hb. rewrite <- Z.lxor_lor, <- Z.add_nocarry_lxor; [done|..]; apply Z.bits_inj'; intros i Hi;
    rewrite Z.land_spec, Z.bits_0; destruct (Z.lt_ge_cases i k).
  1, 3: by rewrite Z.mul_pow2_bits_low.
  all: rewrite <- (Z.mod_small b (2 ^ k)) by done; rewrite Z.mod_pow2_bits_high by lia; apply andb_false_r.
Qed.

Lemma u16_small z : 0 <= z < 65536 -> u16 z = z.
Proof. apply Z.mod_small. Qed.
Lemma land_bit x k : 0 <= k -> Z.land x (2 ^ k) = Z.b2z (Z.testbit x k) * 2 ^ k.
Proof.
  intros Hk. apply Z.bits_inj'. intros i Hi. rewrite Z.land_spec, Z.pow2_bits_eqb by done.
  destruct (Z.eqb_spec k i) as [->|Hne].
  - rewrite Z.mul_pow2_bits, Z.sub_diag by lia. rewrite andb_true_r. by destruct (Z.testbit x i).
  - rewrite andb_false_r. destruct (Z.testbit x k); simpl Z.b2z; [|by rewrite Z.mul_0_l, Z.bits_0].
    by rewrite Z.mul_1_l, Z.pow2_bits_false.
Qed.

Lemma sign_field s e f : 0 <= e < 256 -> 0 <= f < 2 ^ 23 ->
  Z.land (Z.shiftr (pack 8 23 s e f) 16) 32768 = Z.b2z s * 2 ^ 15.
Proof.
  intros He Hf. change 32768 with (2 ^ 15). rewrite land_bit, Z.shiftr_spec by lia.
  destruct (pack_fields 8 23 ltac:(lia) ltac:(lia) s e f He Hf) as [E _]. change (15 + 16) with (8 + 23). by rewrite E.
Qed.

Lemma land_1_odd x : negb (Z.land x 1 =? 0) = Z.odd x.
Proof.
  change 1 with (Z.ones 1). rewrite Z.land_ones by lia. change (2 ^ 1) with 2. rewrite Zmod_odd. by destruct (Z.odd x).
Qed.

(** ** Binary32 to binary16 *)

(** The bits [sign | x] of a half. *)
Lemma half_bits s x : 0 <= x < 2 ^ 15 -> u16 (Z.lor (Z.b2z s * 2 ^ 15) x) = Z.b2z s * 2 ^ 15 + x.
Proof. intros Hx. rewrite lor_disjoint by lia. apply u16_small. destruct s; simpl Z.b2z; lia. Qed.

(** The rounded mantissa in the code's terms: the bit below the kept ones and the bits
    below that. *)
Lemma rne_bits m n : 0 <= m -> 0 < n ->
  rne m n = Z.shiftr m n +
    Z.b2z (negb (Z.land m (2 ^ (n - 1)) =? 0) &&
           (negb (Z.land m (2 ^ (n - 1) - 1) =? 0) || negb (Z.land (Z.shiftr m n) 1 =? 0))).
Proof.
  intros Hm Hn. rewrite <- (round_shifted m n Hm Hn), Z.shiftr_div_pow2 by lia. unfold shifted. simpl shr_m.
  replace (2 ^ (n - 1) - 1) with (Z.ones (n - 1)) by (rewrite Z.ones_equiv; lia).
  rewrite land_bit, Z.land_ones by lia.
  rewrite land_1_odd, <- (Z.negb_even (m / 2 ^ n)).
  rewrite (Z.testbit_odd m (n - 1)), Z.shiftr_div_pow2 by lia.
  pose proof (Z.pow_pos_nonneg 2 (n - 1) ltac:(lia) ltac:(lia)).
  assert (forall b, (Z.b2z b * 2 ^ (n - 1) =? 0) = negb b) as ->.
  { intros []; simpl Z.b2z; [|done]. destruct (Z.eqb_spec (1 * 2 ^ (n - 1)) 0); [lia|done]. }
  destruct (Z.odd _), (m mod 2 ^ (n - 1) =? 0); simpl; [|lia..]. destruct (Z.even _); simpl; lia.
Qed.

(** What IEEE 754 asks of binary16: the nearest value, ties to even. *)
Lemma half_reference s e f : 0 <= e < 255 -> 0 <= f < 2 ^ 23 ->
  sf_convert 11 16 (f32 (pack 8 23 s e f)) =
  sf_finish 11 16 s (if e <? 102 then 0 else rne (f + 2 ^ 23) (Z.max 13 (126 - e))) (Z.max (e - 137) (-24)).
Proof.
  intros He Hf. rewrite sf_convert_f32 by (done || lia). unfold f32_mantissa, f32_exponent.
  destruct (Z.eqb_spec e 0) as [->|Hne].
  - change (0 <? 102) with true. change (sf_finish 11 16 s 0 _) with (S754_zero s).
    destruct f as [|m|m]; [done| |done].
    pose proof (digits_le m 23 ltac:(lia) ltac:(lia)). rewrite (binary_round_spec 11 16 ltac:(lia) s m _ (-24)).
    2: { unfold fexp, emin. lia. }
    simpl (_ <? _). cbv iota. assert (rne (Zpos m) (-24 - (1 - 150)) = 0) as ->; [|done].
    unfold rne. rewrite Z.div_small, Z.mod_small by lia. simpl (Z.odd 0). rewrite andb_false_r.
    destruct (Z.ltb_spec (2 ^ (-24 - (1 - 150))) (2 * Zpos m)); [lia|done].
  - destruct (f + 2 ^ 23) as [|m|m] eqn:Em; [lia| |lia].
    assert (Zpos (digits2_pos m) = 24) as Hd by (apply digits_unique; lia).
    rewrite (binary_round_spec 11 16 ltac:(lia) s m _ (Z.max (e - 137) (-24))).
    2: { rewrite Hd. unfold fexp, emin. lia. }
    destruct (Z.ltb_spec (Z.max (e - 137) (-24)) (e - 150)); [lia|].
    replace (Z.max (e - 137) (-24) - (e - 150)) with (Z.max 13 (126 - e)) by lia.
    destruct (Z.ltb_spec e 102); [|done]. f_equal.
    assert (Zpos m < 2 ^ (Z.max 13 (126 - e) - 1)) as Hsmall.
    { eapply Z.lt_le_trans; [|apply (Z.pow_le_mono_r 2 24); lia]. lia. }
    pose proof (pow2_step (Z.max 13 (126 - e)) ltac:(lia)).
    unfold rne. rewrite Z.div_small, Z.mod_small by lia. simpl (Z.odd 0). rewrite andb_false_r.
    by destruct (Z.ltb_spec (2 ^ Z.max 13 (126 - e)) (2 * Zpos m)); [lia|].
Qed.

(** The half with a rounded mantissa in units of its exponent. *)
Lemma half_finish s q e : 0 <= q <= 2048 -> -24 <= e <= 5 -> (q < 1024 -> e = -24) ->
  f16 (Z.b2z s * 2 ^ 15 + ((e + 24) * 1024 + q)) = sf_finish 11 16 s q e.
Proof.
  intros Hq He Hsub. etransitivity; [|apply (float_of_finish 5 10); try done; lia].
  unfold f16, pack. f_equal. change (emin (10 + 1) (2 ^ (5 - 1))) with (-24). lia.
Qed.

Lemma round_bit n : 1 <= n <= 31 -> u32 (Z.shiftl 1 (n - 1)) = 2 ^ (n - 1).
Proof.
  intros Hn. rewrite Z.shiftl_1_l. apply u32_small. split; [lia|]. apply Z.pow_lt_mono_r; lia.
Qed.

(** The code's rounding of a mantissa shifted by [n]. *)
Lemma code_rounding m n : 0 <= m < 2 ^ 31 -> 0 < n ->
  (if negb (Z.land m (2 ^ (n - 1)) =? 0)
   then if negb (Z.land m (2 ^ (n - 1) - 1) =? 0) || negb (Z.land (Z.shiftr m n) 1 =? 0)
        then u32 (Z.shiftr m n + 1) else Z.shiftr m n
   else Z.shiftr m n) = rne m n.
Proof.
  intros Hm Hn. rewrite rne_bits by lia.
  assert (0 <= Z.shiftr m n < 2 ^ 31).
  { rewrite Z.shiftr_div_pow2 by lia. pose proof (Z.pow_pos_nonneg 2 n ltac:(lia) ltac:(lia)).
    split; [apply Z.div_pos; lia|]. apply Z.div_lt_upper_bound; nia. }
  rewrite u32_small by lia. destruct (negb _); simpl; [|lia]. destruct (_ || _); simpl; lia.
Qed.

(** The code's composition of a normal half. *)
Lemma code_normal s f half_exp : 0 < half_exp < 31 -> 0 <= f < 2 ^ 23 ->
  (let half_mant := Z.shiftr f 13 in
   let rem := Z.land f 8191 in
   if (4096 <? rem) || ((rem =? 4096) && negb (Z.land half_mant 1 =? 0)) then
     let half_mant := u32 (half_mant + 1) in
     if 1024 <=? half_mant then
       let next_exp := u32 (half_exp + 1) in
       if 31 <=? next_exp then u16 (Z.lor (Z.b2z s * 2 ^ 15) 31744)
       else u16 (Z.lor (Z.lor (Z.b2z s * 2 ^ 15) (u32 (Z.shiftl next_exp 10))) 0)
     else u16 (Z.lor (Z.lor (Z.b2z s * 2 ^ 15) (u32 (Z.shiftl half_exp 10))) half_mant)
   else u16 (Z.lor (Z.lor (Z.b2z s * 2 ^ 15) (u32 (Z.shiftl half_exp 10))) half_mant)) =
  Z.b2z s * 2 ^ 15 + ((half_exp - 1) * 1024 + (1024 + rne f 13)).
Proof.
  intros He Hf. cbv zeta. pose proof (rne_bounds f 13 10 ltac:(lia) ltac:(lia) ltac:(lia)) as Hq.
  assert (forall e m, 0 <= e < 32 -> 0 <= m < 1024 -> e * 1024 + m < 2 ^ 15 ->
    u16 (Z.lor (Z.lor (Z.b2z s * 2 ^ 15) (u32 (Z.shiftl e 10))) m) = Z.b2z s * 2 ^ 15 + (e * 1024 + m)) as Hor.
  { intros e m He' Hm Hem. rewrite <- Z.lor_assoc, Z.shiftl_mul_pow2, (u32_small (e * _)) by lia.
    rewrite (lor_disjoint e 10 m), half_bits by lia. done. }
  assert (Z.shiftr f 13 = f / 2 ^ 13) as Eh by (by rewrite Z.shiftr_div_pow2).
  assert (Z.land f 8191 = f mod 2 ^ 13) as -> by (by rewrite <- Z.land_ones).
  assert (0 <= f / 2 ^ 13 < 1024) by (split; [apply Z.div_pos|apply Z.div_lt_upper_bound]; lia).
  assert ((4096 <? f mod 2 ^ 13) || ((f mod 2 ^ 13 =? 4096) && negb (Z.land (f ≫ 13) 1 =? 0)) =
          (rne f 13 =? f / 2 ^ 13 + 1)) as ->.
  { rewrite Eh, land_1_odd. unfold rne. set (r := f mod 2 ^ 13). set (q := f / 2 ^ 13). change (2 ^ 13) with 8192.
    destruct (Z.ltb_spec 4096 r), (Z.ltb_spec 8192 (2 * r)), (Z.eqb_spec r 4096), (Z.eqb_spec (2 * r) 8192); try lia;
      destruct (Z.odd q); simpl; lia. }
  assert (rne f 13 = f / 2 ^ 13 \/ rne f 13 = f / 2 ^ 13 + 1) as Hcases by (unfold rne; destruct (_ || _); auto).
  rewrite Eh. destruct (Z.eqb_spec (rne f 13) (f / 2 ^ 13 + 1)) as [E|Hne].
  - rewrite !(u32_small (_ + 1)) by lia. rewrite <- E. destruct (Z.leb_spec 1024 (rne f 13)).
    + destruct (Z.leb_spec 31 (half_exp + 1)); [rewrite half_bits|rewrite Hor]; lia.
    + rewrite Hor by lia. lia.
  - rewrite Hor by lia. lia.
Qed.

Lemma float_to_half_reference b : 0 <= b < 2 ^ 32 -> f16 (float_to_half b) = sf_convert 11 16 (f32 b).
Proof.
  intros Hb. destruct (f32_unpack b Hb) as (s & e & f & He & Hf & ->). unfold float_to_half.
  rewrite sign_field by done. destruct (pack_fields 8 23 ltac:(lia) ltac:(lia) s e f He Hf) as (_ & Ee & Ef).
  change (2 ^ 8 - 1) with 255 in Ee. change (2 ^ 23 - 1) with 8388607 in Ef. rewrite Ee, Ef.
  destruct (Z.eqb_spec e 255) as [->|Hne].
  { rewrite f32_special by done. destruct (Z.eqb_spec f 0) as [->|Hf0]; destruct s; reflexivity. }
  rewrite half_reference by lia.
  destruct (Z.leb_spec 31 (e - 127 + 15)).
  { (* overflow *)
    destruct (Z.ltb_spec e 102); [lia|]. rewrite !Z.max_l by lia.
    assert (1024 <= rne (f + 2 ^ 23) 13 <= 2048) as Hr.
    { split; [|apply (rne_bounds _ 13 11); lia]. unfold rne.
      assert (1024 <= (f + 2 ^ 23) / 2 ^ 13) by (apply Z.div_le_lower_bound; lia). destruct (_ || _); lia. }
    unfold sf_finish. destruct (rne _ _ =? 2 ^ 11) eqn:E.
    - change (2 ^ (11 - 1)) with 1024. destruct (Z.leb_spec (e - 137 + 1) (16 - 11)); [lia|]. by destruct s.
    - destruct (rne (f + 2 ^ 23) 13); [lia| |lia]. destruct (Z.leb_spec (e - 137) (16 - 11)); [lia|]. by destruct s. }
  destruct (Z.leb_spec (e - 127 + 15) 0).
  { (* subnormal or zero *)
    destruct (Z.ltb_spec (e - 127 + 15) (-10)), (Z.ltb_spec e 102); try lia.
    { by destruct s. }
    rewrite (Z.max_r (e - 137)), (Z.max_r 13) by lia.
    change 8388608 with (1 * 2 ^ 23). rewrite Z.lor_comm, lor_disjoint, Z.add_comm, Z.mul_1_l by lia.
    replace (14 - (e - 127 + 15)) with (126 - e) by lia.
    rewrite (u32_small (126 - e)), round_bit by lia.
    assert (0 <= rne (f + 2 ^ 23) (126 - e) <= 1024) as Hq.
    { apply (rne_bounds _ _ 10); [lia| |lia]. split; [lia|].
      eapply Z.lt_le_trans; [|apply (Z.pow_le_mono_r 2 24); lia]. lia. }
    rewrite code_rounding by lia. rewrite <- (half_finish s _ (-24)) by lia.
    destruct (Z.leb_spec 1024 (rne (f + 2 ^ 23) (126 - e))).
    - rewrite half_bits by done. f_equal. change (1 ≪ 10) with 1024. lia.
    - by rewrite half_bits by lia. }
  rewrite (proj2 (Z.ltb_ge e 102)), Z.max_l, Z.max_l by lia.
  replace (f + 2 ^ 23) with (1024 * 2 ^ 13 + f) by lia. rewrite rne_add_even by done.
  rewrite <- (half_finish s _ (e - 137)).
  2, 3, 4: pose proof (rne_bounds f 13 10 ltac:(lia) ltac:(lia) ltac:(lia)); lia.
  f_equal. etransitivity; [apply (code_normal s f (e - 127 + 15)); lia|lia].
Qed.

(** C10: [float_to_half] is the conversion IEEE 754 defines, for every one of the 2^32
    inputs: the value of the result is the input's value rounded to the nearest
    binary16 value, ties to even, with gradual underflow to subnormals and zero,
    overflow to infinity and NaN kept as NaN. *)
Theorem float_to_half_ieee b : 0 <= b < 2 ^ 32 -> f16 (float_to_half b) = sf_convert 11 16 (f32 b).
Proof. apply float_to_half_reference. Qed.

(** A tie between two subnormals: 1.5 * 2^-24 goes to the even neighbour 2 * 2^-24. *)
Lemma float_to_half_ieee_witness : f16 (float_to_half 868220928) = S754_finite false 2 (-24).
Proof.
  rewrite (float_to_half_ieee 868220928); [vm_compute; reflexivity|]. split; [vm_compute; discriminate|reflexivity].
Defined.

(** ** Binary16 to binary32 *)

(** The same real number (exponents are at least -149), or the same special value. *)
Definition same_value (x y : spec_float) : Prop :=
  match x, y with
  | S754_zero s, S754_zero s' | S754_infinity s, S754_infinity s' => s = s'
  | S754_nan, S754_nan => True
  | S754_finite s m e, S754_finite s' m' e' =>
      s = s' /\ -149 <= e /\ -149 <= e' /\ Zpos m * 2 ^ (e + 149) = Zpos m' * 2 ^ (e' + 149)
  | _, _ => False
  end.

Lemma land_1024 m : 0 <= m < 2048 -> (Z.land m 1024 =? 0) = (m <? 1024).
Proof.
  intros Hm. change 1024 with (2 ^ 10) at 1. rewrite land_bit by lia.
  assert (Z.testbit m 10 = negb (m <? 1024)) as ->.
  { rewrite Z.testbit_odd, Z.shiftr_div_pow2 by lia. change (2 ^ 10) with 1024. destruct (Z.ltb_spec m 1024).
    - by rewrite Z.div_small by lia.
    - assert (m / 1024 = 1) as ->; [|done]. symmetry. apply (Z.div_unique_pos _ _ 1 (m - 1024)); lia. }
  destruct (Z.ltb_spec m 1024); reflexivity.
Qed.

(** The normalisation loop ends within ten shifts. *)
Lemma normalize_half_spec fuel m shift : 0 < m < 2048 -> 1024 <= m * 2 ^ Z.of_nat fuel ->
  exists k, 0 <= k /\ normalize_half fuel m shift = Some (m * 2 ^ k, shift + k) /\ 1024 <= m * 2 ^ k < 2048.
Proof.
  revert m shift. induction fuel as [|fuel IH]; intros m shift Hm Hf; simpl normalize_half; rewrite land_1024 by lia.
  - change (2 ^ Z.of_nat 0) with 1 in Hf. exists 0. destruct (Z.ltb_spec m 1024); [lia|]. simpl.
    rewrite Z.mul_1_r, Z.add_0_r. split_and!; done || lia.
  - destruct (Z.ltb_spec m 1024); simpl.
    + rewrite Z.shiftl_mul_pow2, u32_small by lia. change (2 ^ 1) with 2.
      rewrite Nat2Z.inj_succ, Z.pow_succ_r in Hf by lia.
      destruct (IH (m * 2) (shift + 1)) as (k & Hk & E & Hb); [lia|lia|]. exists (k + 1).
      rewrite Z.pow_add_r by lia. change (2 ^ 1) with 2. rewrite E. split_and!; [lia| |lia|lia].
      f_equal. f_equal; lia.
    + exists 0. rewrite Z.mul_1_r, Z.add_0_r. split_and!; done || lia.
Qed.

(** The packed bits [sign | exp << 23 | mant << 13]. *)
Lemma float_bits s e m : 0 <= e < 256 -> 0 <= m < 1024 ->
  Z.lor (Z.lor (u32 (Z.shiftl (Z.b2z s * 2 ^ 15) 16)) (u32 (Z.shiftl e 23))) (u32 (Z.shiftl m 13)) =
  pack 8 23 s e (m * 2 ^ 13).
Proof.
  intros He Hm. rewrite !Z.shiftl_mul_pow2, <- Z.mul_assoc, <- Z.pow_add_r by lia. change (15 + 16) with 31.
  rewrite (u32_small (Z.b2z s * _)) by (destruct s; simpl Z.b2z; lia). rewrite !u32_small by lia.
  rewrite <- Z.lor_assoc, (lor_disjoint e 23), (lor_disjoint (Z.b2z s) 31) by lia. unfold pack. lia.
Qed.

Lemma half_sign s e f : 0 <= e < 32 -> 0 <= f < 1024 -> Z.land (pack 5 10 s e f) 32768 = Z.b2z s * 2 ^ 15.
Proof.
  intros He Hf. change 32768 with (2 ^ (5 + 10)). rewrite land_bit by lia.
  by destruct (pack_fields 5 10 ltac:(lia) ltac:(lia) s e f He Hf) as [-> _].
Qed.

(** [half_to_float] on the fields of a half. *)
Lemma half_to_float_fields s e f : 0 <= e < 32 -> 0 <= f < 1024 ->
  half_to_float (pack 5 10 s e f) =
  if e =? 0 then
    if f =? 0 then Some (pack 8 23 s 0 0)
    else '(m, k) ← normalize_half 10 f 0; Some (pack 8 23 s (u32 (113 - k)) (Z.land m 1023 * 2 ^ 13))
  else Some (pack 8 23 s (if e =? 31 then 255 else e + 112) (f * 2 ^ 13)).
Proof.
  intros He Hf. unfold half_to_float. rewrite half_sign by done.
  destruct (pack_fields 5 10 ltac:(lia) ltac:(lia) s e f He Hf) as (_ & Ee & Ef).
  change (2 ^ 5 - 1) with 31 in Ee. change (2 ^ 10 - 1) with 1023 in Ef. rewrite Ee, Ef.
  destruct (Z.eqb_spec e 0) as [->|He0]; [destruct (Z.eqb_spec f 0) as [->|Hf0]|].
  - by destruct s.
  - destruct (normalize_half_spec 10 f 0 ltac:(lia)) as (k & Hk & -> & Hb); [change (2 ^ Z.of_nat 10) with 1024; lia|].
    simpl mbind. assert (k <= 10).
    { destruct (Z.le_gt_cases k 10); [done|]. pose proof (Z.pow_le_mono_r 2 11 k ltac:(lia) ltac:(lia)). nia. }
    rewrite Z.add_0_l, (u32_small (127 - 14 - k)), (u32_small (113 - k)) by lia.
    f_equal. change (127 - 14) with 113. apply float_bits; [lia|].
    change 1023 with (Z.ones 10). rewrite Z.land_ones by lia. apply Z.mod_pos_bound. lia.
  - destruct (Z.eqb_spec e 31) as [->|He1].
    + f_equal. change 2139095040 with (u32 (Z.shiftl 255 23)). by apply float_bits.
    + f_equal. rewrite (u32_small (e + _)) by lia. apply float_bits; lia.
Qed.

(** Bits that fit a half. *)
Definition is_half (h : Z) : Prop := 0 <= h < 65536.
Definition is_word (b : Z) : Prop := 0 <= b < 2 ^ 32.

Lemma half_unpack h : is_half h -> exists s e f, 0 <= e < 32 /\ 0 <= f < 1024 /\ h = pack 5 10 s e f.
Proof. intros Hh. apply (unpack 5 10); (done || lia). Qed.

Lemma pack_word s e f : 0 <= e < 256 -> 0 <= f < 2 ^ 23 -> is_word (pack 8 23 s e f).
Proof. unfold is_word, pack. change (8 + 23) with 31. destruct s; simpl Z.b2z; lia. Qed.

(** The widened value: a shifted mantissa with the exponent lowered as much. *)
Lemma half_to_float_value h : is_half h -> exists b, half_to_float h = Some b /\ is_word b /\
  match f16 h with
  | S754_finite s m e => exists k, 13 <= k <= 23 /\ -24 <= e <= 5 /\ Zpos m < 2048 /\ (e = -24 \/ 1024 <= Zpos m) /\
      exists m', Zpos m' = Zpos m * 2 ^ k /\ 2 ^ 23 <= Zpos m' < 2 ^ 24 /\ f32 b = S754_finite s m' (e - k)
  | x => f32 b = x
  end.
Proof.
  intros Hh. destruct (half_unpack h Hh) as (s & e & f & He & Hf & ->). rewrite half_to_float_fields by done.
  unfold f16. rewrite float_of_pack by (done || lia). unfold value_of_fields.
  destruct (Z.eqb_spec e 0) as [->|He0]; [destruct (Z.eqb_spec f 0) as [->|Hf0]|].
  - eexists. split_and!; [done|by apply pack_word|]. by destruct s.
  - destruct (normalize_half_spec 10 f 0 ltac:(lia)) as (k & Hk & -> & Hb); [change (2 ^ Z.of_nat 10) with 1024; lia|].
    simpl mbind. assert (k <= 10).
    { destruct (Z.le_gt_cases k 10); [done|]. pose proof (Z.pow_le_mono_r 2 11 k ltac:(lia) ltac:(lia)). nia. }
    assert (Z.land (f * 2 ^ k) 1023 = f * 2 ^ k - 1024) as El.
    { change 1023 with (Z.ones 10). rewrite Z.land_ones by lia. symmetry. apply (Z.mod_unique_pos _ _ 1); lia. }
    rewrite Z.add_0_l, El, u32_small by lia. eexists. split_and!; [done|apply pack_word; lia|].
    change (0 =? 2 ^ 5 - 1) with false. cbv iota. destruct f as [|f|f]; [lia| |lia].
    exists (k + 13). split_and!; try (simpl; lia).
    destruct (Z.pos f * 2 ^ k) as [|m'|m'] eqn:Em; [lia| |lia]. exists (m' * 2 ^ 13)%positive.
    rewrite Pos2Z.inj_mul, Pos2Z.inj_pow, <- Em, <- Z.mul_assoc, <- Z.pow_add_r by lia.
    split_and!; [done|rewrite Z.pow_add_r by lia; lia..|]. unfold f32. rewrite float_of_pack by lia.
    unfold value_of_fields. destruct (Z.eqb_spec (113 - k) (2 ^ 8 - 1)), (Z.eqb_spec (113 - k) 0); try lia.
    rewrite Em. replace ((Z.pos m' - 1024) * 2 ^ 13 + 2 ^ 23) with (Zpos (m' * 2 ^ 13)) by lia. f_equal. simpl. lia.
  - eexists. split_and!; [done|apply pack_word; destruct (e =? 31); lia|].
    unfold f32. rewrite float_of_pack by (destruct (e =? 31); lia). unfold value_of_fields. change (2 ^ 5 - 1) with 31.
    destruct (Z.eqb_spec e 31) as [->|He1].
    { change (255 =? 2 ^ 8 - 1) with true. cbv iota. destruct (Z.eqb_spec f 0), (Z.eqb_spec (f * 2 ^ 13) 0); done || lia. }
    destruct (Z.eqb_spec (e + 112) (2 ^ 8 - 1)), (Z.eqb_spec (e + 112) 0); try lia.
    destruct (f + 2 ^ 10) as [|m|m] eqn:Em; [lia| |lia]. exists 13. split_and!; try lia.
    exists (m * 2 ^ 13)%positive. rewrite Pos2Z.inj_mul, Pos2Z.inj_pow.
    split_and!; [done|lia..|]. replace (f * 2 ^ 13 + 2 ^ 23) with (Zpos (m * 2 ^ 13)) by lia. f_equal. lia.
Qed.

(** The binary32 value is the same real number. *)
Lemma half_to_float_exact_spec h : is_half h ->
  exists b, half_to_float h = Some b /\ is_word b /\ same_value (f16 h) (f32 b).
Proof.
  intros Hh. destruct (half_to_float_value h Hh) as (b & -> & Hb & Hv). exists b. split_and!; [done..|].
  unfold same_value. destruct (f16 h) as [| | |s m e]; try by rewrite Hv.
  destruct Hv as (k & Hk & He & _ & _ & m' & Em & _ & ->). split_and!; [done|lia..|].
  rewrite Em, <- Z.mul_assoc, <- Z.pow_add_r by lia. f_equal. f_equal. lia.
Qed.

(** ** The two conversions are inverse *)

Lemma value_of_fields_inj w p s e f s' e' f' : 0 < w -> 0 < p ->
  0 <= e < 2 ^ w -> 0 <= f < 2 ^ p -> 0 <= e' < 2 ^ w -> 0 <= f' < 2 ^ p ->
  value_of_fields w p s e f = value_of_fields w p s' e' f' -> value_of_fields w p s e f <> S754_nan ->
  s = s' /\ e = e' /\ f = f'.
Proof.
  intros Hw Hp He Hf He' Hf'. unfold value_of_fields. pose proof (Z.pow_pos_nonneg 2 p ltac:(lia) ltac:(lia)).
  destruct (Z.eqb_spec e (2 ^ w - 1)), (Z.eqb_spec e' (2 ^ w - 1)).
  - destruct (Z.eqb_spec f 0), (Z.eqb_spec f' 0); try done. intros [= ->] _. split_and!; (done || lia).
  - destruct (f =? 0); [|done]. destruct (if e' =? 0 then f' else f' + 2 ^ p); done.
  - destruct (f' =? 0); destruct (if e =? 0 then f else f + 2 ^ p); done.
  - intros E Hn. destruct (Z.eqb_spec e 0), (Z.eqb_spec e' 0);
      repeat match goal with H : context [match ?x with Z0 => _ | _ => _ end] |- _ => destruct x eqn:? end;
      simplify_eq; split_and!; (done || lia).
Qed.

Lemma f16_inj a b : is_half a -> is_half b -> f16 a = f16 b -> f16 a <> S754_nan -> a = b.
Proof.
  intros Ha Hb. destruct (half_unpack a Ha) as (s & e & f & He & Hf & ->).
  destruct (half_unpack b Hb) as (s' & e' & f' & He' & Hf' & ->). unfold f16. rewrite !float_of_pack by (done || lia).
  intros E Hn. by destruct (value_of_fields_inj 5 10 _ _ _ _ _ _ ltac:(lia) ltac:(lia) He Hf He' Hf' E Hn) as (-> & -> & ->).
Qed.

Lemma float_to_half_is_half b : is_half (float_to_half b).
Proof.
  unfold float_to_half, u16, is_half. repeat match goal with |- context [if ?c then _ else _] => destruct c end;
    apply Z.mod_pos_bound; lia.
Qed.

Lemma convert_widened s m e k m' : 13 <= k <= 23 -> -24 <= e <= 5 -> Zpos m < 2048 -> e = -24 \/ 1024 <= Zpos m ->
  Zpos m' = Zpos m * 2 ^ k -> 2 ^ 23 <= Zpos m' < 2 ^ 24 ->
  sf_convert 11 16 (S754_finite s m' (e - k)) = S754_finite s m e.
Proof.
  intros Hk He Hm Hsub Em Hd. simpl sf_convert.
  assert (binary_normalize 11 16 (cond_Zopp s (Z.pos m')) (e - k) s = binary_round 11 16 s m' (e - k)) as -> by (by destruct s).
  assert (Zpos (digits2_pos m') = 24) as Hdig by (apply digits_unique; lia).
  assert (e = -24 \/ k = 13) as Hcase.
  { destruct Hsub as [->|Hm']; [by left|]. right. destruct (Z.le_gt_cases k 13); [lia|].
    pose proof (Z.pow_le_mono_r 2 14 k ltac:(lia) ltac:(lia)). nia. }
  rewrite (binary_round_spec 11 16 ltac:(lia) s m' (e - k) e) by (rewrite Hdig; unfold fexp, emin; lia).
  destruct (Z.ltb_spec e (e - k)); [lia|]. replace (e - (e - k)) with k by lia. rewrite Em, rne_exact by lia.
  unfold sf_finish. change (2 ^ 11) with 2048. destruct (Z.eqb_spec (Zpos m) 2048); [lia|].
  by destruct (Z.leb_spec e (16 - 11)); [|lia].
Qed.

(** [half_to_float] is exact for every half: its normalisation loop ends, and the
    binary32 value is the same real number (or the same special value). *)
Theorem half_to_float_exact h : is_half h ->
  exists b, half_to_float h = Some b /\ is_word b /\ same_value (f16 h) (f32 b).
Proof. apply half_to_float_exact_spec. Qed.

Lemma half_to_float_exact_witness : exists b, half_to_float 1 = Some b /\ is_word b /\ same_value (f16 1) (f32 b).
Proof. apply (half_to_float_exact 1). split; [vm_compute; discriminate|reflexivity]. Defined.

(** Converting a half to a float and back gives the same bits, for every half that
    is not a NaN. *)
Theorem half_roundtrip h b : is_half h -> f16 h <> S754_nan -> half_to_float h = Some b -> float_to_half b = h.
Proof.
  intros Hh Hn E. destruct (half_to_float_value h Hh) as (b' & E' & Hb & Hv). rewrite E in E'. injection E' as <-.
  apply f16_inj; [apply float_to_half_is_half|done| |].
  all: rewrite float_to_half_reference by exact Hb.
  all: destruct (f16 h) as [| | |s m e]; try (by rewrite Hv); [].
  all: destruct Hv as (k & Hk & He & Hm & Hsub & m' & Em & Hd & ->); by rewrite (convert_widened s m e k).
Qed.

(** The largest subnormal half. *)
Lemma half_roundtrip_witness : float_to_half 947896320 = 1023.
Proof.
  apply (half_roundtrip 1023 947896320); [split; [vm_compute; discriminate|reflexivity]|vm_compute; discriminate|].
  vm_compute. reflexivity.
Defined.


(** ** Dequantisation *)

(** The value of a finite float in units of [2 ^ -k]. *)
Definition dyadic (k : Z) (x : spec_float) : option Z :=
  match x with
  | S754_zero _ => Some 0
  | S754_finite s m e => if 0 <=? e + k then Some (cond_Zopp s (Zpos m * 2 ^ (e + k))) else None
  | _ => None
  end.

(** A normal binary32 value is encoded and decoded. *)
Lemma f32_bits_normal nan s m e : 2 ^ 23 <= Zpos m < 2 ^ 24 -> -149 <= e <= 104 ->
  f32 (bits_of_float 8 23 nan (S754_finite s m e)) = S754_finite s m e.
Proof.
  intros Hm He. etransitivity; [|etransitivity; [apply (float_of_finish 8 23 ltac:(lia) ltac:(lia) s (Zpos m) e)|]].
  - unfold f32, bits_of_float, pack. f_equal.
  - done.
  - lia.
  - change (emin (23 + 1) (2 ^ (8 - 1))) with (-149). change (2 ^ (8 - 1)) with 128. lia.
  - lia.
  - unfold sf_finish. destruct (Z.eqb_spec (Zpos m) (2 ^ (23 + 1))); [lia|].
    destruct (Z.leb_spec e (2 ^ (8 - 1) - (23 + 1))) as [|Hgt]; [done|].
    change (2 ^ (8 - 1)) with 128 in Hgt. lia.
Qed.

(** A small positive integer as a mantissa of 24 bits. *)
Lemma small_mantissa q : 0 < q <= 128 -> exists j m, 16 <= j <= 23 /\ Zpos m = q * 2 ^ j /\ 2 ^ 23 <= Zpos m < 2 ^ 24.
Proof.
  intros Hq. pose proof (Z.log2_spec q ltac:(lia)) as Hl. pose proof (Z.log2_nonneg q).
  assert (Z.log2 q <= 7) by (change 7 with (Z.log2 128); apply Z.log2_le_mono; lia).
  exists (23 - Z.log2 q). rewrite Z.pow_succ_r in Hl by lia.
  assert (2 ^ Z.log2 q * 2 ^ (23 - Z.log2 q) = 2 ^ 23) as E by (rewrite <- Z.pow_add_r by lia; f_equal; lia).
  pose proof (Z.pow_pos_nonneg 2 (23 - Z.log2 q) ltac:(lia) ltac:(lia)).
  destruct (q * 2 ^ (23 - Z.log2 q)) as [|m|m] eqn:Em; [nia| |nia]. exists m. split_and!; [lia|lia|done|nia|nia].
Qed.

Lemma f32_of_int_spec q : -128 <= q <= 127 ->
  q = 0 /\ f32 (f32_of_int q) = S754_zero false \/
  exists s p j m, q = cond_Zopp s p /\ 0 < p /\ 16 <= j <= 23 /\ Zpos m = p * 2 ^ j /\ 2 ^ 23 <= Zpos m < 2 ^ 24 /\
    f32 (f32_of_int q) = S754_finite s m (- j).
Proof.
  intros Hq. destruct (Z.eq_dec q 0) as [->|Hne]; [left; by split|right].
  exists (q <? 0), (Z.abs q). destruct (small_mantissa (Z.abs q) ltac:(lia)) as (j & m & Hj & Em & Hm).
  exists j, m. split_and!; try done; try lia; [by destruct (Z.ltb_spec q 0); simpl; lia|].
  unfold f32_of_int. assert (binary_normalize 24 128 q 0 false = S754_finite (q <? 0) m (- j)) as ->.
  { destruct (Z.abs q) as [|p|p] eqn:Ep; [lia| |lia].
    assert (binary_normalize 24 128 q 0 false = binary_round 24 128 (q <? 0) p 0) as -> by
      (destruct q as [|q|q]; [done|injection Ep as ->; reflexivity..]).
    assert (Zpos (digits2_pos p) = 24 - j) as Hd.
    { apply digits_unique; [lia|]. rewrite Em in Hm. assert (2 ^ 24 = 2 ^ (24 - j) * 2 ^ j) as E24
        by (rewrite <- Z.pow_add_r by lia; f_equal; lia).
      assert (2 ^ 23 = 2 ^ (24 - j - 1) * 2 ^ j) as E23 by (rewrite <- Z.pow_add_r by lia; f_equal; lia).
      pose proof (Z.pow_pos_nonneg 2 j ltac:(lia) ltac:(lia)). nia. }
    rewrite (binary_round_spec 24 128 ltac:(lia) _ p 0 (- j)) by (rewrite Hd; unfold fexp, emin; lia).
    destruct (Z.ltb_spec (- j) 0); [|lia]. replace (0 - - j) with j by lia. rewrite <- Em. unfold sf_finish.
    destruct (Z.eqb_spec (Zpos m) (2 ^ 24)); [lia|]. by destruct (Z.leb_spec (- j) (128 - 24)); [|lia]. }
  apply f32_bits_normal; lia.
Qed.

(** The product of two 24-bit mantissas of which at most 24 bits are significant. *)
Lemma exact_product nan s m e : 2 ^ 46 <= Zpos m < 2 ^ 48 -> (2 ^ 24 | Zpos m) -> -100 <= e <= 50 ->
  dyadic 149 (f32 (bits_of_float 8 23 nan (binary_round_aux 24 128 s (Zpos m) e loc_Exact))) =
  Some (cond_Zopp s (Zpos m * 2 ^ (e + 149))).
Proof.
  intros Hm [k Ek] He. set (D := Zpos (digits2_pos m)).
  assert (47 <= D <= 48) as HD.
  { pose proof (digits_bounds m) as Hb. fold D in Hb. pose proof (digits_le m 48 ltac:(lia) ltac:(lia)).
    split; [|done]. destruct (Z.le_gt_cases 47 D); [done|]. pose proof (Z.pow_le_mono_r 2 D 46 ltac:(lia) ltac:(lia)). lia. }
  rewrite (binary_round_aux_spec 24 128 ltac:(lia) s m e (D - 24 + e)) by (unfold fexp, emin; fold D; lia).
  replace (D - 24 + e - e) with (D - 24) by lia.
  assert (2 ^ 24 = 2 ^ (48 - D) * 2 ^ (D - 24)) as E24 by (rewrite <- Z.pow_add_r by lia; f_equal; lia).
  rewrite Ek, E24, Z.mul_assoc, rne_exact by lia.
  pose proof (digits_bounds m) as Hb. fold D in Hb. rewrite Ek, E24, Z.mul_assoc in Hb.
  set (q := k * 2 ^ (48 - D)) in *.
  assert (2 ^ D = 2 ^ 24 * 2 ^ (D - 24)) as E1 by (rewrite <- Z.pow_add_r by lia; f_equal; lia).
  assert (2 ^ (D - 1) = 2 ^ 23 * 2 ^ (D - 24)) as E2 by (rewrite <- Z.pow_add_r by lia; f_equal; lia).
  pose proof (Z.pow_pos_nonneg 2 (D - 24) ltac:(lia) ltac:(lia)).
  assert (2 ^ 23 <= q < 2 ^ 24) as Hq by nia. unfold sf_finish.
  destruct (Z.eqb_spec q (2 ^ 24)); [lia|]. destruct q as [|p|p] eqn:Eq; [lia| |lia].
  destruct (Z.leb_spec (D - 24 + e) (128 - 24)); [|lia]. rewrite f32_bits_normal by lia. unfold dyadic.
  destruct (Z.leb_spec 0 (D - 24 + e + 149)); [|lia]. f_equal. f_equal.
  rewrite <- Z.mul_assoc, <- Z.pow_add_r by lia. f_equal. f_equal. lia.
Qed.

Section dequantize.
Context `{NanResult}.

Lemma f32_zero_bits nan s : f32 (bits_of_float 8 23 nan (S754_zero s)) = S754_zero s.
Proof. by destruct s. Qed.

(** Scale times quantised value: no rounding takes place. *)
Lemma f32_mul_exact d b v q : is_half d -> half_to_float d = Some b -> dyadic 24 (f16 d) = Some v -> -128 <= q <= 127 ->
  dyadic 149 (f32 (f32_mul b (f32_of_int q))) = Some (v * q * 2 ^ 125).
Proof.
  intros Hd Hb Hv Hq. destruct (half_to_float_value d Hd) as (b' & Hb' & _ & Hval). rewrite Hb in Hb'. injection Hb' as <-.
  unfold f32_mul, f32_op. set (nan := nan_result _ _). clearbody nan. unfold dyadic in Hv.
  destruct (f16 d) as [s| | |s m0 e] eqn:Ed; try discriminate Hv.
  - injection Hv as <-. rewrite Hval.
    destruct (f32_of_int_spec q Hq) as [(-> & ->)|(s' & p & j & m & -> & _ & _ & _ & _ & ->)]; simpl SFmul;
      rewrite f32_zero_bits; done.
  - destruct (0 <=? e + 24) eqn:He24; [|done]. injection Hv as <-.
    destruct Hval as (k & Hk & He & Hm0 & Hsub & m' & Em' & Hm' & ->).
    destruct (f32_of_int_spec q Hq) as [(-> & ->)|(s' & p & j & m & -> & Hp & Hj & Em & Hm & ->)]; simpl SFmul.
    { rewrite f32_zero_bits. simpl dyadic. f_equal. lia. }
    assert (Zpos (m' * m) = Zpos m0 * p * (2 ^ (k + j))) as Emm.
    { rewrite Pos2Z.inj_mul, Em', Em, Z.pow_add_r by lia. lia. }
    rewrite exact_product; [|rewrite Pos2Z.inj_mul; nia| |lia].
    + f_equal. rewrite Emm. assert (Z.pos m0 * p * 2 ^ (k + j) * 2 ^ (e - k + - j + 149) =
        Zpos m0 * 2 ^ (e + 24) * p * 2 ^ 125) as ->.
      { assert (2 ^ (k + j) * 2 ^ (e - k + - j + 149) = 2 ^ (e + 24) * 2 ^ 125) as E2
          by (rewrite <- !Z.pow_add_r by lia; f_equal; lia).
        rewrite <- (Z.mul_assoc _ (2 ^ (k + j))), E2. lia. }
      destruct s, s'; simpl; lia.
    + exists (Zpos m0 * p * 2 ^ (k + j - 24)). rewrite Emm.
      assert (2 ^ (k + j) = 2 ^ (k + j - 24) * 2 ^ 24) as -> by (rewrite <- Z.pow_add_r by lia; f_equal; lia). lia.
Qed.

(** A block that describes numbers: a finite scale and eight-bit integers. *)
Definition block_ok (block : Q8_0Block) : Prop :=
  is_half (d_f16 block) /\ is_Some (dyadic 24 (f16 (d_f16 block))) /\ Forall (fun q => -128 <= q <= 127) (qs block).

(** The numbers of a block in units of [2 ^ -149]: scale times integer. *)
Definition block_values (block : Q8_0Block) : list (option Z) :=
  (fun q => Some (default 0 (dyadic 24 (f16 (d_f16 block))) * q * 2 ^ 125)) <$> qs block.

Lemma dequantize_block_spec block : block_ok block ->
  exists l, dequantize_block block = Some l /\ (fun x => dyadic 149 (f32 x)) <$> l = block_values block.
Proof.
  intros (Hd & [v Hv] & Hq). destruct (half_to_float_exact_spec (d_f16 block) Hd) as (b & Hb & _).
  unfold dequantize_block, q8_0_f16_to_float. rewrite Hb. eexists. split; [done|]. unfold block_values. rewrite Hv.
  change (default 0 (Some v)) with v. rewrite <- list_fmap_compose. apply list_fmap_ext. intros i q Hi.
  exact (f32_mul_exact (d_f16 block) b v q Hd Hb Hv (Forall_lookup_1 _ _ _ _ Hq Hi)).
Qed.

Lemma dequantize_blocks_spec src : Forall block_ok src ->
  exists l, mapM dequantize_block src = Some l /\ (fun x => dyadic 149 (f32 x)) <$> concat l = concat (block_values <$> src).
Proof.
  induction 1 as [|block src Hb _ (l & E & Hl)]; [by exists []|].
  destruct (dequantize_block_spec block Hb) as (x & Ex & Hx). exists (x :: l). split.
  - change (mapM dequantize_block (block :: src)) with (y ← dequantize_block block; k ← mapM dequantize_block src; mret (y :: k)).
    by rewrite Ex, E.
  - cbn [concat fmap list_fmap]. by rewrite fmap_app, Hx, Hl.
Qed.
End dequantize.

Section dequantize_reference.
Context `{NanResult, Q8Format}.

(** Dequantisation is exact.  For blocks with finite scales it succeeds exactly
    when the destination has one float per quantised value, and then float [i] is the
    real number scale times [q_i], without any rounding; a destination of another size
    is refused. *)
Theorem dequantize_exact src dst_size :
  Forall block_ok src -> size_Z src * kQ8_0BlockSize <= SIZE_MAX -> 0 <= kQ8_0BlockSize ->
  if dst_size =? size_Z src * kQ8_0BlockSize
  then exists out, dequantize_q8_0_reference src dst_size = Some (Value out) /\
       (fun x => dyadic 149 (f32 x)) <$> out = concat (block_values <$> src)
  else dequantize_q8_0_reference src dst_size = Some (Unexpected InvalidArgument).
Proof.
  intros Hsrc Hsize Hbs. unfold dequantize_q8_0_reference. pose proof (size_Z_nonneg src).
  rewrite u64_small by (unfold SIZE_MAX in Hsize; nia).
  destruct (dst_size =? _); simpl negb; cbv iota; [|done].
  destruct (dequantize_blocks_spec src Hsrc) as (l & -> & Hl). by exists (concat l).
Qed.
End dequantize_reference.

(** ** The format of the operator library, and one block *)

#[export] Instance sim_nan : NanResult := fun _ _ => 2143289344.
#[export] Instance sim_nan_laws : NanResultLaws.
Proof. done. Qed.

#[export] Instance sim_q8_format : Q8Format := { kQ8_0BlockSize := 32; kQ8_0BlockBytes := 34 }.
#[export] Instance sim_q8_format_laws : Q8FormatLaws.
Proof. by split. Qed.

(** Scale 1 with the values -16 ... 15. *)
Definition small_block : Q8_0Block := mkQ8 15360 (seqZ (-16) 32).

Lemma dequantize_exact_witness : exists out,
  dequantize_q8_0_reference [small_block] 32 = Some (Value out) /\
  (fun x => dyadic 149 (f32 x)) <$> out = concat (block_values <$> [small_block]).
Proof.
  assert (Forall block_ok [small_block]) as Hok.
  { constructor; [|constructor]. split; [split; [vm_compute; discriminate|reflexivity]|].
    split; [eexists; vm_compute; reflexivity|].
    apply Forall_forall. intros q Hq. apply elem_of_seqZ in Hq. lia. }
  assert (size_Z [small_block] * kQ8_0BlockSize <= SIZE_MAX) as Hsize by (vm_compute; discriminate).
  assert (0 <= kQ8_0BlockSize) as Hbs by (vm_compute; discriminate).
  pose proof (dequantize_exact [small_block] 32 Hok Hsize Hbs) as H.
  change (32 =? size_Z [small_block] * kQ8_0BlockSize) with true in H. exact H.
Defined.

(** The golden block of the unit test. *)
Example quantize_golden :
  quantize_q8_0_reference (f32_of_int <$> seqZ (-16) 32) 1 =
  Some (Value [mkQ8 12296 [-127; -119; -111; -103; -95; -87; -79; -71; -64; -56; -48; -40; -32; -24; -16; -8;
                           0; 8; 16; 24; 32; 40; 48; 56; 64; 71; 79; 87; 95; 103; 111; 119]]).
Proof. vm_compute. reflexivity. Qed.

(** A finite block whose scale does not fit a half: the scale becomes infinite, every
    quotient zero, and dequantisation multiplies infinity by zero. *)
Example quantize_overflow :
  exists block, quantize_q8_0_reference (repeat 2130706432 32) 1 = Some (Value [block]) /\
    f16 (d_f16 block) = S754_infinity false /\ qs block = repeat 0 32 /\
    (f32 <$> (default [] (dequantize_block block))) = repeat S754_nan 32.
Proof. eexists. split; [vm_compute; reflexivity|]. vm_compute. done. Qed.
