(* ===== verification/Bfloat16.v ===== *)
(** * Rounding to bfloat16: [model/qwen35/qwen35_weights.cpp]

    The loader narrows a [float] by adding to its bits and keeping the upper half. *)

From Stdlib Require Import ZArith Lia SpecFloat.
From stdpp Require Import prelude.
From S2P Require Import Prelude Floats.

(** [float_to_bfloat16], from the bits of the [float]. *)
Definition float_to_bfloat16 (bits : Z) : Z :=
  let rounding := u32 (32767 + Z.land (u32 (Z.shiftr bits 16)) 1) in
  let rounded := u32 (bits + rounding) in
  u16 (Z.shiftr rounded 16).

Definition floats_to_bf16 (floats : list Z) : list Z := float_to_bfloat16 <$> floats.

(** ** It is the rounding of IEEE 754 *)

(** Below the bits of the last NaN the addition does not wrap, and it is the rounded
    shift of the bits. *)
Lemma bfloat16_is_rne b : 0 <= b < 2 ^ 32 - 2 ^ 16 -> float_to_bfloat16 b = rne b 16.
Proof.
  intros Hb. unfold float_to_bfloat16. rewrite !Z.shiftr_div_pow2 by lia.
  assert (0 <= b / 2 ^ 16 < 2 ^ 16 - 1) as Hq by (split; [apply Z.div_pos; lia|apply Z.div_lt_upper_bound; lia]).
  rewrite (u32_small (b / 2 ^ 16)) by lia.
  assert (Z.land (b / 2 ^ 16) 1 = Z.b2z (Z.odd (b / 2 ^ 16))) as ->.
  { change 1 with (Z.ones 1). rewrite Z.land_ones by lia. change (2 ^ 1) with 2. rewrite Zmod_odd. by destruct (Z.odd _). }
  rewrite (rne_add b 16) by lia. set (o := Z.b2z _). assert (0 <= o <= 1) by (unfold o; destruct (Z.odd _); simpl; lia).
  rewrite (u32_small (32767 + o)), u32_small by lia.
  replace (b + (32767 + o)) with (b + (2 ^ (16 - 1) - 1) + o) by lia. unfold u16. apply Z.mod_small.
  split; [apply Z.div_pos; lia|apply Z.div_lt_upper_bound; lia].
Qed.

(** Sign and exponent are even multiples of the step. *)
Lemma bfloat16_fields s e f : 0 <= e < 255 -> 0 <= f < 2 ^ 23 ->
  float_to_bfloat16 (pack 8 23 s e f) =
  pack 8 7 s (f32_exponent e + 16 - emin 8 128) (rne (f32_mantissa e f) 16).
Proof.
  intros He Hf. rewrite bfloat16_is_rne by (unfold pack; destruct s; simpl Z.b2z; lia).
  assert (pack 8 23 s e f = ((Z.b2z s * 2 ^ 14 + e * 2 ^ 6) * 2) * 2 ^ 16 + f) as -> by (unfold pack; lia).
  rewrite rne_add_even by (lia || by rewrite Z.even_mul, orb_true_r). unfold f32_mantissa, f32_exponent, emin, pack.
  destruct (Z.eqb_spec e 0) as [->|Hne]; [lia|].
  replace (f + 2 ^ 23) with (128 * 2 ^ 16 + f) by lia. rewrite rne_add_even by done. lia.
Qed.

Lemma bfloat16_reference s e f : 0 <= e < 255 -> 0 <= f < 2 ^ 23 ->
  sf_convert 8 128 (f32 (pack 8 23 s e f)) = sf_finish 8 128 s (rne (f32_mantissa e f) 16) (f32_exponent e + 16).
Proof.
  intros He Hf. rewrite sf_convert_f32 by lia.
  destruct (f32_mantissa e f) as [|m|m] eqn:Em; [done| |exfalso; unfold f32_mantissa in Em; destruct (e =? 0); lia].
  rewrite (binary_round_spec 8 128 ltac:(lia) s m (f32_exponent e) (f32_exponent e + 16)).
  - destruct (Z.ltb_spec (f32_exponent e + 16) (f32_exponent e)); [lia|]. do 2 f_equal. lia.
  - unfold fexp, emin. unfold f32_mantissa, f32_exponent in *. destruct (Z.eqb_spec e 0) as [->|Hne].
    + pose proof (digits_le m 23 ltac:(lia) ltac:(lia)). lia.
    + rewrite (digits_unique m 24) by lia. lia.
Qed.

(** Only the low 32 bits matter. *)
Lemma land_low b n k : 0 <= n -> 0 <= k -> n + k <= 32 -> Z.land (Z.shiftr (b mod 2 ^ 32) n) (2 ^ k - 1) = Z.land (Z.shiftr b n) (2 ^ k - 1).
Proof.
  intros Hn Hk Hle. replace (2 ^ k - 1) with (Z.ones k) by (rewrite Z.ones_equiv; lia). apply Z.bits_inj'. intros i Hi.
  rewrite !Z.land_spec, !Z.shiftr_spec by done. destruct (Z.lt_ge_cases i k) as [Hlt|Hge].
  - by rewrite Z.mod_pow2_bits_low by lia.
  - by rewrite Z.ones_spec_high, !andb_false_r by lia.
Qed.

Lemma f32_low b : f32 (u32 b) = f32 b.
Proof.
  unfold f32, float_of_bits, u32. rewrite Z.mod_pow2_bits_low by lia. rewrite (land_low b 23 8) by lia.
  pose proof (land_low b 0 23 ltac:(lia) ltac:(lia) ltac:(lia)) as E. rewrite !Z.shiftr_0_r in E. by rewrite E.
Qed.

Lemma bfloat16_low b : float_to_bfloat16 (u32 b) = float_to_bfloat16 b.
Proof.
  unfold float_to_bfloat16.
  assert (forall c, Z.land (u32 (Z.shiftr c 16)) 1 = Z.land (Z.shiftr c 16) (2 ^ 1 - 1)) as E.
  { intros c. unfold u32. exact (eq_trans (f_equal (fun x => Z.land x 1) (eq_sym (Z.shiftr_0_r _)))
      (eq_trans (land_low (Z.shiftr c 16) 0 1 ltac:(lia) ltac:(lia) ltac:(lia)) (f_equal (fun x => Z.land x 1) (Z.shiftr_0_r _)))). }
  pose proof (land_low b 16 1 ltac:(lia) ltac:(lia) ltac:(lia)) as L. change (b mod 2 ^ 32) with (u32 b) in L.
  rewrite !E, L. do 2 f_equal. unfold u32. by rewrite Zplus_mod_idemp_l.
Qed.

Lemma bfloat16_rounds b : f32 b <> S754_nan ->
  0 <= float_to_bfloat16 b < 2 ^ 16 /\ bf16 (float_to_bfloat16 b) = sf_convert 8 128 (f32 b).
Proof.
  intros Hn. split; [apply Z.mod_pos_bound; lia|]. rewrite <- (bfloat16_low b). rewrite <- (f32_low b) in Hn |- *.
  assert (0 <= u32 b < 2 ^ 32) as Hb by (apply Z.mod_pos_bound; lia).
  destruct (f32_unpack (u32 b) Hb) as (s & e & f & He & Hf & Eb). rewrite Eb in *. clear Eb b. destruct (decide (e = 255)) as [->|Hne].
  - rewrite f32_special in * by done. destruct (Z.eqb_spec f 0) as [->|]; [|done]. by destruct s.
  - rewrite bfloat16_fields, bfloat16_reference by lia. unfold bf16.
    assert (0 <= f32_mantissa e f < 2 ^ (8 + 16)) as Hm by (unfold f32_mantissa; destruct (e =? 0); lia).
    assert (1 <= e -> 2 ^ 7 <= rne (f32_mantissa e f) 16).
    { intros H1. unfold f32_mantissa. destruct (Z.eqb_spec e 0); [lia|]. replace (f + 2 ^ 23) with (128 * 2 ^ 16 + f) by lia.
      rewrite rne_add_even by done. pose proof (rne_bounds f 16 7 ltac:(lia) ltac:(lia) ltac:(lia)). lia. }
    apply (float_of_finish 8 7 ltac:(lia) ltac:(lia)); [lia|by apply rne_bounds| |].
    + unfold emin, f32_exponent. simpl. destruct (Z.eqb_spec e 0); lia.
    + intros Hq. unfold emin, f32_exponent. destruct (Z.eqb_spec e 0) as [->|]; [done|]. exfalso. lia.
Qed.

(** The narrowing of the loader is the conversion of IEEE 754 to bfloat16, rounding
    to nearest with ties to even, for every [float] that is a number or an infinity:
    subnormals, the carry into the exponent and the overflow to infinity included. *)
Theorem float_to_bfloat16_ieee b : f32 b <> S754_nan ->
  0 <= float_to_bfloat16 b < 2 ^ 16 /\ bf16 (float_to_bfloat16 b) = sf_convert 8 128 (f32 b).
Proof. apply bfloat16_rounds. Qed.

(** The largest finite [float] overflows. *)
Lemma float_to_bfloat16_ieee_witness :
  float_to_bfloat16 2139095039 = 32640 /\ bf16 32640 = sf_convert 8 128 (f32 2139095039) /\ bf16 32640 = S754_infinity false.
Proof.
  assert (f32 2139095039 <> S754_nan) as Hn by (vm_compute; discriminate).
  destruct (float_to_bfloat16_ieee 2139095039 Hn) as [_ E]. split_and!; [reflexivity|exact E|reflexivity].
Defined.

(** A NaN can become an infinity or a zero: the addition carries out of its fraction. *)
Example bfloat16_of_nan :
  f32 2139095041 = S754_nan /\ bf16 (float_to_bfloat16 2139095041) = S754_infinity false /\
  f32 2147483647 = S754_nan /\ bf16 (float_to_bfloat16 2147483647) = S754_zero true.
Proof. vm_compute. done. Qed.
