(* ===== verification/Device.v ===== *)
(** * Device memory and tensors: [backend/backend.h], [runtime/tensor.cpp]

    The operator library (a submodule that is not part of the repository) and the
    device runtime appear as classes: [Ccop] has the data types and sizes the code
    asks of the library, [Backend] the memory operations of the [Backend] class
    with the contents of the buffers, [BackendLaws] what those operations do when
    they succeed.  Everything below is a function of them. *)

From Stdlib Require Import ZArith Lia.
From stdpp Require Import prelude strings gmap fin_maps.
From S2P Require Import Prelude Base.

(** ** The operator library *)

Class Ccop := {
  DType : Type;
  #[global] DType_eq_dec :: EqDecision DType;
  kUnknown : DType;
  kFloat32 : DType;
  kBFloat16 : DType;
  kInt32 : DType;
  dtype_size : DType -> Z;
  kTensorMaxRank : Z;
  view_nbytes : DType -> list Z -> Z;
  view_strides : list Z -> list Z;
}.

(** The byte size of a dense view. *)
Class CcopLaws `{Ccop} := {
  view_nbytes_dense : forall dtype shape,
    view_nbytes dtype shape = foldr Z.mul 1 shape * dtype_size dtype;
  float32_size : dtype_size kFloat32 = 4;
  bfloat16_size : dtype_size kBFloat16 = 2;
  int32_size : dtype_size kInt32 = 4;
}.

(** ** Device memory

    [buf d b] is the contents, in bytes, of the live buffer [b]. *)

Class Backend (D : Type) := {
  buf : D -> Z -> option (list Z);
  allocate_buffer : Z -> D -> Result Z * D;
  memcpy_h2d : Z -> Z -> list Z -> D -> Result unit * D;
  memcpy_d2h : Z -> Z -> Z -> D -> Result (list Z) * D;
  memcpy_d2d : Z -> Z -> Z -> Z -> Z -> D -> Result unit * D;
  memset : Z -> Z -> Z -> Z -> D -> Result unit * D;
  synchronize : D -> Result unit * D;
}.

(** [splice l off x]: [l] with [x] written at [off]. *)
Definition splice {A} (l : list A) (off : Z) (x : list A) : list A :=
  take (Z.to_nat off) l ++ x ++ drop (Z.to_nat off + length x) l.

(** The bytes of a range. *)
Definition slice {A} (l : list A) (off n : Z) : list A :=
  take (Z.to_nat n) (drop (Z.to_nat off) l).

Definition in_range {A} (l : list A) (off n : Z) : Prop := 0 <= off /\ 0 <= n /\ off + n <= size_Z l.

(** Only buffer [b] may change. *)
Definition only_buffer {D} `{Backend D} (b : Z) (d d' : D) : Prop :=
  forall b', b' <> b -> buf d' b' = buf d b'.

(** The ranges of a copy do not overlap. *)
Definition apart (b dst b' src n : Z) : Prop := b <> b' \/ dst + n <= src \/ src + n <= dst.

Class BackendLaws (D : Type) `{Backend D} := {
  memset_ok : forall b off v n d d' l, buf d b = Some l -> in_range l off n -> 0 <= v < 256 ->
    memset b off v n d = (Value tt, d') ->
    buf d' b = Some (splice l off (repeat v (Z.to_nat n))) /\ only_buffer b d d';
  memset_err : forall b off v n d d' e, memset b off v n d = (Unexpected e, d') -> forall b', buf d' b' = buf d b';
  memcpy_d2d_ok : forall b dst b' src n d d' l l', buf d b = Some l -> buf d b' = Some l' -> in_range l dst n -> in_range l' src n ->
    apart b dst b' src n -> memcpy_d2d b dst b' src n d = (Value tt, d') ->
    buf d' b = Some (splice l dst (slice l' src n)) /\ only_buffer b d d';
  memcpy_d2d_err : forall b dst b' src n d d' e, memcpy_d2d b dst b' src n d = (Unexpected e, d') ->
    forall b', buf d' b' = buf d b';
  allocate_ok : forall n d d' b, 0 < n -> allocate_buffer n d = (Value b, d') ->
    buf d b = None /\ (exists l, buf d' b = Some l /\ size_Z l = n) /\ only_buffer b d d';
  allocate_err : forall n d d' e, allocate_buffer n d = (Unexpected e, d') -> forall b', buf d' b' = buf d b';
  memcpy_h2d_ok : forall b off x d d' l, buf d b = Some l -> in_range l off (size_Z x) ->
    memcpy_h2d b off x d = (Value tt, d') ->
    buf d' b = Some (splice l off x) /\ only_buffer b d d';
  memcpy_h2d_err : forall b off x d d' e, memcpy_h2d b off x d = (Unexpected e, d') ->
    forall b', buf d' b' = buf d b';
  memcpy_d2h_ok : forall b off n d d' l x, buf d b = Some l -> in_range l off n ->
    memcpy_d2h b off n d = (Value x, d') -> x = slice l off n;
  memcpy_d2h_keeps : forall b off n d d' r, memcpy_d2h b off n d = (r, d') -> forall b', buf d' b' = buf d b';
  synchronize_keeps : forall d d' r, synchronize d = (r, d') -> forall b', buf d' b' = buf d b';
}.

(** ** Ranges *)

Section ranges.
Context {A : Type}.
Implicit Types l x : list A.

Lemma size_splice l off x : in_range l off (size_Z x) -> size_Z (splice l off x) = size_Z l.
Proof.
  unfold in_range, splice, size_Z. intros. rewrite !length_app, length_take, length_drop. lia.
Qed.

Lemma size_slice l off n : in_range l off n -> size_Z (slice l off n) = n.
Proof. unfold in_range, slice, size_Z. intros. rewrite length_take, length_drop. lia. Qed.

Lemma slice_splice_same l off x : in_range l off (size_Z x) -> slice (splice l off x) off (size_Z x) = x.
Proof.
  unfold in_range, slice, splice, size_Z. intros.
  rewrite drop_app_length' by (rewrite length_take; lia). rewrite take_app_length'; [done|lia].
Qed.

(** A range that does not meet the written one keeps its contents. *)
Lemma slice_splice_other l off x off' n :
  in_range l off (size_Z x) -> in_range l off' n -> off' + n <= off \/ off + size_Z x <= off' ->
  slice (splice l off x) off' n = slice l off' n.
Proof.
  unfold in_range, slice, splice, size_Z. intros (? & _ & ?) (? & ? & ?) [Hlt|Hge].
  - rewrite drop_app_le by (rewrite length_take; lia). rewrite take_app_le.
    2: { rewrite length_drop, length_take. lia. }
    rewrite skipn_firstn_comm, take_take. f_equal. lia.
  - rewrite drop_app_ge by (rewrite length_take; lia).
    rewrite drop_app_ge by (rewrite length_take; lia).
    rewrite drop_drop, length_take. f_equal. f_equal. lia.
Qed.

(** Equally long ranges at multiples of their length do not meet. *)
Lemma slots_disjoint i j n : 0 <= n -> i <> j -> i * n + n <= j * n \/ j * n + n <= i * n.
Proof. intros Hn Hij. destruct (Z.lt_ge_cases i j); [left|right]; nia. Qed.

Lemma slot_in_range l i n k : 0 <= i < k -> 0 <= n -> size_Z l = k * n -> in_range l (i * n) n.
Proof. intros Hi Hn Hl. unfold in_range. rewrite Hl. nia. Qed.
End ranges.

(** ** Sizes of tensors *)

Section sizes.
Context `{Ccop}.

(** The loop of [checked_numel]. *)
Fixpoint checked_numel_loop (shape : list Z) (numel : Z) : Result Z :=
  match shape with
  | [] => Value numel
  | dim :: shape =>
      if (dim <=? 0) || (SIZE_MAX / numel <? u64 dim) then Unexpected InvalidArgument
      else checked_numel_loop shape (u64 (numel * dim))
  end.

Definition checked_numel (shape : list Z) : Result Z :=
  if bool_decide (shape = []) || (kTensorMaxRank <? size_Z shape) then Unexpected InvalidArgument
  else checked_numel_loop shape 1.

Definition checked_nbytes_dense (dtype : DType) (shape : list Z) : Result Z :=
  let elem_size := dtype_size dtype in
  if elem_size =? 0 then Unexpected Unsupported
  else TRY numel := checked_numel shape;;
       if SIZE_MAX / elem_size <? numel then Unexpected InvalidArgument
       else Value (u64 (numel * elem_size)).

Definition product (shape : list Z) : Z := foldr Z.mul 1 shape.

Lemma product_pos shape : Forall (Z.lt 0) shape -> 0 < product shape.
Proof. induction 1; simpl; nia. Qed.

Lemma checked_numel_loop_spec shape numel :
  0 < numel <= SIZE_MAX -> Forall (fun d => d <= INT64_MAX) shape ->
  checked_numel_loop shape numel =
  if bool_decide (Forall (Z.lt 0) shape) && (numel * product shape <=? SIZE_MAX)
  then Value (numel * product shape) else Unexpected InvalidArgument.
Proof.
  intros Hn Hf. revert numel Hn. induction Hf as [|d shape Hd Hf IH]; intros numel Hn; simpl.
  { rewrite Z.mul_1_r. destruct (Z.leb_spec numel SIZE_MAX); [done|lia]. }
  destruct (Z.leb_spec d 0) as [Hle|Hgt]; simpl.
  { rewrite bool_decide_eq_false_2; [done|]. intros Hc. apply Forall_cons in Hc as [? _]. lia. }
  rewrite (u64_small d) by (unfold INT64_MAX in Hd; lia).
  assert (bool_decide (Forall (Z.lt 0) (d :: shape)) = bool_decide (Forall (Z.lt 0) shape)) as ->
    by (apply bool_decide_ext; rewrite Forall_cons; intuition).
  pose proof (Z.mod_pos_bound SIZE_MAX numel ltac:(lia)). pose proof (Z.div_mod SIZE_MAX numel ltac:(lia)).
  destruct (Z.ltb_spec (SIZE_MAX / numel) d) as [Hov|Hok]; simpl.
  - assert (SIZE_MAX < numel * d) by nia.
    case_bool_decide as Hp; [|done]. simpl. pose proof (product_pos _ Hp).
    destruct (Z.leb_spec (numel * (d * product shape)) SIZE_MAX); [nia|done].
  - assert (numel * d <= SIZE_MAX) by nia. unfold SIZE_MAX in *.
    rewrite u64_small by nia. rewrite IH by nia. by rewrite Z.mul_assoc.
Qed.

(** The largest shapes and sizes the checks accept. *)
Definition shape_ok (shape : list Z) : Prop :=
  shape <> [] /\ size_Z shape <= kTensorMaxRank /\ Forall (Z.lt 0) shape.

Lemma checked_numel_spec shape :
  Forall (fun d => d <= INT64_MAX) shape ->
  checked_numel shape =
  if bool_decide (shape <> []) && (size_Z shape <=? kTensorMaxRank) && bool_decide (Forall (Z.lt 0) shape) &&
     (product shape <=? SIZE_MAX)
  then Value (product shape) else Unexpected InvalidArgument.
Proof.
  intros Hf. unfold checked_numel. rewrite (checked_numel_loop_spec shape 1) by (unfold SIZE_MAX; lia || done).
  rewrite Z.mul_1_l, (Z.leb_antisym kTensorMaxRank). destruct shape as [|d shape]; [done|].
  rewrite (bool_decide_eq_false_2 (d :: shape = [])), (bool_decide_eq_true_2 (d :: shape <> [])) by done.
  by destruct (kTensorMaxRank <? size_Z (d :: shape)).
Qed.

(** [checked_nbytes_dense] is exact: for a data type with a size and dimensions
    that fit [int64_t], it accepts exactly the non-empty shapes up to the maximal
    rank, with positive dimensions, whose byte size fits [size_t], and returns that
    size; no intermediate product wraps. *)
Theorem checked_nbytes_dense_exact dtype shape :
  0 < dtype_size dtype <= SIZE_MAX -> Forall (fun d => d <= INT64_MAX) shape ->
  forall n, checked_nbytes_dense dtype shape = Value n <->
    shape_ok shape /\ product shape * dtype_size dtype <= SIZE_MAX /\ n = product shape * dtype_size dtype.
Proof.
  intros He Hf n. unfold checked_nbytes_dense, shape_ok. rewrite (checked_numel_spec shape Hf).
  destruct (Z.eqb_spec (dtype_size dtype) 0); [lia|].
  case_bool_decide as H1; simpl; [|naive_solver].
  destruct (Z.leb_spec (size_Z shape) kTensorMaxRank); simpl; [|split; [done|lia]].
  case_bool_decide as H3; simpl; [|naive_solver]. pose proof (product_pos _ H3).
  destruct (Z.leb_spec (product shape) SIZE_MAX); simpl; [|split; [done|nia]].
  pose proof (Z.mod_pos_bound SIZE_MAX (dtype_size dtype) ltac:(lia)).
  pose proof (Z.div_mod SIZE_MAX (dtype_size dtype) ltac:(lia)).
  destruct (Z.ltb_spec (SIZE_MAX / dtype_size dtype) (product shape)); [split; [done|nia]|].
  rewrite u64_small by (unfold SIZE_MAX in *; nia).
  split; [intros [= <-]; split_and!; try done; nia|by intros (_ & _ & ->)].
Qed.
End sizes.

(** ** Running device operations

    An operation fails an assertion ([None]), returns an error, or succeeds. *)

Definition Dev (D A : Type) : Type := D -> option (Result A * D).

#[export] Instance Dev_ret D : MRet (Dev D) := fun A a d => Some (Value a, d).
#[export] Instance Dev_bind D : MBind (Dev D) := fun A B f m d =>
  match m d with
  | None => None
  | Some (Unexpected e, d) => Some (Unexpected e, d)
  | Some (Value a, d) => f a d
  end.

Definition dev_error {D A} (e : ErrorCode) : Dev D A := fun d => Some (Unexpected e, d).
Definition dev_op {D A} (f : D -> Result A * D) : Dev D A := fun d => Some (f d).
Definition dev_try {D A} (r : Result A) : Dev D A := fun d => Some (r, d).
Definition dev_gets {D A} (f : D -> A) : Dev D A := fun d => Some (Value (f d), d).
Definition dev_assert {D} (b : bool) : Dev D unit := fun d => if b then Some (Value tt, d) else None.

(** The memory operations of [Backend] assert that they move at least one byte. *)
Definition dev_bytes {D A} (count : Z) (f : D -> Result A * D) : Dev D A := _ ← dev_assert (0 <? count); dev_op f.

(** An operation that may be undefined. *)
Definition dev_lift {D A} (x : option A) : Dev D A := fun d => match x with None => None | Some a => Some (Value a, d) end.

(** [m] neither fails an assertion nor loses control; [Q] holds of its answer. *)
Definition dwp {D A} (m : Dev D A) (Q : Result A -> D -> Prop) (d : D) : Prop :=
  exists r d', m d = Some (r, d') /\ Q r d'.

Lemma dwp_bind {D A B} (m : Dev D A) (f : A -> Dev D B) Q d :
  dwp m (fun r d => match r with Value a => dwp (f a) Q d | Unexpected e => Q (Unexpected e) d end) d ->
  dwp (m ≫= f) Q d.
Proof.
  intros (r & d' & E & H). unfold dwp, mbind, Dev_bind. rewrite E. destruct r as [a|e]; [done|eauto].
Qed.

Lemma dwp_ret {D A} (a : A) (Q : Result A -> D -> Prop) d : Q (Value a) d -> dwp (mret a) Q d.
Proof. intros H. by exists (Value a), d. Qed.

Lemma dwp_error {D A} e (Q : Result A -> D -> Prop) d : Q (Unexpected e) d -> dwp (dev_error e) Q d.
Proof. intros H. by exists (Unexpected e), d. Qed.

Lemma dwp_op {D A} (f : D -> Result A * D) (Q : Result A -> D -> Prop) d :
  (forall r d', f d = (r, d') -> Q r d') -> dwp (dev_op f) Q d.
Proof. intros H. unfold dwp, dev_op. destruct (f d) as [r d'] eqn:E. exists r, d'. eauto. Qed.

Lemma dwp_bytes {D A} count (f : D -> Result A * D) (Q : Result A -> D -> Prop) d :
  0 < count -> (forall r d', f d = (r, d') -> Q r d') -> dwp (dev_bytes count f) Q d.
Proof. intros Hc H. unfold dev_bytes. rewrite (proj2 (Z.ltb_lt _ _) Hc). exact (dwp_op f Q d H). Qed.

Lemma dwp_gets {D A} (f : D -> A) (Q : Result A -> D -> Prop) d : Q (Value (f d)) d -> dwp (dev_gets f) Q d.
Proof. intros H. by exists (Value (f d)), d. Qed.

Lemma dwp_try {D A} (r : Result A) (Q : Result A -> D -> Prop) d : Q r d -> dwp (dev_try r) Q d.
Proof. intros H. by exists r, d. Qed.

Lemma dwp_assert {D} b (Q : Result unit -> D -> Prop) d : b = true -> Q (Value tt) d -> dwp (dev_assert b) Q d.
Proof. intros -> H. by exists (Value tt), d. Qed.

Lemma dwp_lift {D A} (x : option A) a (Q : Result A -> D -> Prop) d : x = Some a -> Q (Value a) d -> dwp (dev_lift x) Q d.
Proof. intros -> H. by exists (Value a), d. Qed.

Lemma dwp_mono {D A} (m : Dev D A) (Q Q' : Result A -> D -> Prop) d :
  dwp m Q d -> (forall r d', Q r d' -> Q' r d') -> dwp m Q' d.
Proof. intros (r & d' & E & H) HQ. exists r, d'. auto. Qed.

(** ** Tensors *)

Record Tensor `{Ccop} := mkTensor {
  t_buffer : Z;
  t_offset : Z;
  t_dtype : DType;
  t_shape : list Z;
  t_stride : list Z;
}.

Section tensors.
Context {D : Type} `{Backend D} `{Ccop}.

Definition nbytes (t : Tensor) : Z := view_nbytes (t_dtype t) (t_shape t).

(** A pointer is a buffer and an offset, so [ptr >= base] is [0 <= offset]. *)
Definition data_in_buffer (buffer offset bytes : Z) (d : D) : bool :=
  match buf d buffer with
  | None => false
  | Some l => (0 <=? offset) && (bytes <=? size_Z l) && (offset <=? size_Z l - bytes)
  end.

(** The stride loop of [from_buffer], from the last dimension to the first. *)
Fixpoint row_major (shape : list Z) : list Z * Z :=
  match shape with
  | [] => ([], 1)
  | dim :: shape => let '(stride, st) := row_major shape in (st :: stride, st * dim)
  end.

Definition from_buffer_span (buffer offset : Z) (dtype : DType) (shape : list Z) : Dev D Tensor :=
  _ ← dev_assert (size_Z shape <=? kTensorMaxRank);
  let tensor := mkTensor _ buffer offset dtype shape (row_major shape).1 in
  inside ← dev_gets (data_in_buffer buffer offset (nbytes tensor));
  _ ← dev_assert inside;
  mret tensor.

Definition from_buffer (buffer offset : Z) (dtype : DType) (shape : list Z) : Dev D Tensor :=
  let tensor := mkTensor _ buffer offset dtype shape (view_strides shape) in
  inside ← dev_gets (data_in_buffer buffer offset (nbytes tensor));
  _ ← dev_assert inside;
  mret tensor.

(** [Tensor::empty]. *)
Definition empty_tensor (dtype : DType) (shape : list Z) : Dev D Tensor :=
  bytes ← dev_try (checked_nbytes_dense dtype shape);
  buffer ← dev_bytes bytes (allocate_buffer bytes);
  from_buffer_span buffer 0 dtype shape.

(** [Tensor::from_host], with the bytes at [src]; [None] is the null pointer. *)
Definition from_host (src : option (list Z)) (dtype : DType) (shape : list Z) : Dev D Tensor :=
  match src with
  | None => dev_error InvalidArgument
  | Some bytes =>
      tensor ← empty_tensor dtype shape;
      _ ← dev_bytes (nbytes tensor) (memcpy_h2d (t_buffer tensor) (t_offset tensor) (take (Z.to_nat (nbytes tensor)) bytes));
      mret tensor
  end.
End tensors.

(** ** What [empty] and [from_host] deliver *)

Section tensor_specs.
Context {D : Type} `{!Backend D} `{!BackendLaws D} `{!Ccop} `{!CcopLaws}.

(** Live buffers keep their contents. *)
Definition keeps_buffers (d d' : D) : Prop := forall b l, buf d b = Some l -> buf d' b = Some l.

#[export] Instance keeps_buffers_preorder : PreOrder keeps_buffers.
Proof. split; [by intros d b l|]. intros x y z H1 H2 b l Hb. by apply H2, H1. Qed.

Lemma only_fresh b d d' : buf d b = None -> only_buffer b d d' -> keeps_buffers d d'.
Proof. intros Hn Ho b' l Hb. rewrite Ho; [done|]. congruence. Qed.

Lemma same_keeps d d' : (forall b, buf d' b = buf d b) -> keeps_buffers d d'.
Proof. intros E b l Hb. by rewrite E. Qed.

(** A tensor that starts at its buffer's start, in row-major order. *)
Definition whole_tensor (t : Tensor) (dtype : DType) (shape : list Z) : Prop :=
  t_offset t = 0 /\ t_dtype t = dtype /\ t_shape t = shape /\ t_stride t = (row_major shape).1.

(** ... and whose buffer contains exactly [bytes]. *)
Definition tensor_holds (d : D) (t : Tensor) (dtype : DType) (shape bytes : list Z) : Prop :=
  whole_tensor t dtype shape /\ buf d (t_buffer t) = Some bytes.

Lemma tensor_holds_mono d d' t dtype shape bytes :
  keeps_buffers d d' -> tensor_holds d t dtype shape bytes -> tensor_holds d' t dtype shape bytes.
Proof. intros Hk [Hw Hb]. split; [done|]. by apply Hk. Qed.

Lemma dwp_empty_fresh dtype shape d :
  0 < dtype_size dtype <= SIZE_MAX -> Forall (fun x => x <= INT64_MAX) shape ->
  dwp (empty_tensor dtype shape) (fun r d' => keeps_buffers d d' /\
    match r with
    | Value t => shape_ok shape /\ whole_tensor t dtype shape /\ buf d (t_buffer t) = None /\
        nbytes t = product shape * dtype_size dtype /\
        exists l, buf d' (t_buffer t) = Some l /\ size_Z l = nbytes t
    | Unexpected _ => True
    end) d.
Proof.
  intros He Hf. unfold empty_tensor. apply dwp_bind, dwp_try.
  destruct (checked_nbytes_dense dtype shape) as [n|e] eqn:En; [|done].
  assert (shape_ok shape /\ n = product shape * dtype_size dtype) as [Hok Hn].
  { unfold checked_nbytes_dense in En. rewrite (checked_numel_spec shape Hf) in En.
    destruct (dtype_size dtype =? 0); [done|]. destruct (_ && _ && _ && _) eqn:Hc; [|done].
    destruct (_ <? _) eqn:Hl; [done|]. bprop. simplify_eq.
    pose proof (Z.mul_div_le SIZE_MAX (dtype_size dtype) ltac:(lia)).
    rewrite u64_small by (unfold SIZE_MAX in *; pose proof (product_pos shape ltac:(done)); nia). done. }
  destruct Hok as (Hne & Hr & Hp). pose proof (product_pos _ Hp).
  apply dwp_bind, dwp_bytes; [nia|]. intros [b|e] d1 Ha.
  2: { split; [|done]. apply same_keeps. by eapply allocate_err. }
  destruct (allocate_ok n d d1 b) as (Hb & (l & Hl & Hsz) & Ho); [nia|done|].
  unfold from_buffer_span. apply dwp_bind, dwp_assert; [lia|].
  set (t := mkTensor _ b 0 dtype shape _).
  assert (nbytes t = n) as Hnb by (unfold nbytes; simpl; rewrite view_nbytes_dense; done).
  apply dwp_bind, dwp_gets, dwp_bind, dwp_assert.
  { unfold data_in_buffer. rewrite Hl, Hnb, Hsz. lia. }
  apply dwp_ret. split; [by eapply only_fresh|]. split_and!; try done; [congruence|].
  exists l. by rewrite Hnb.
Qed.

Lemma dwp_empty_tensor dtype shape d :
  0 < dtype_size dtype <= SIZE_MAX -> Forall (fun x => x <= INT64_MAX) shape ->
  dwp (empty_tensor dtype shape) (fun r d' => keeps_buffers d d' /\
    match r with
    | Value t => shape_ok shape /\ t_offset t = 0 /\ t_dtype t = dtype /\ t_shape t = shape /\
        buf d (t_buffer t) = None /\
        exists l, buf d' (t_buffer t) = Some l /\ size_Z l = nbytes t /\ nbytes t = product shape * dtype_size dtype
    | Unexpected _ => True
    end) d.
Proof.
  intros He Hf. eapply dwp_mono; [by apply dwp_empty_fresh|]. intros [t|e] d' [Hk Ht]; [|done].
  destruct Ht as (Hok & (Ho & Hd & Hs & _) & Hb & Hn & l & Hl & Hsz). split; [done|].
  split_and!; try done. by exists l.
Qed.

Lemma dwp_from_host_holds bytes dtype shape d :
  0 < dtype_size dtype <= SIZE_MAX -> Forall (fun x => x <= INT64_MAX) shape ->
  size_Z bytes = product shape * dtype_size dtype ->
  dwp (from_host (Some bytes) dtype shape) (fun r d' => keeps_buffers d d' /\
    match r with
    | Value t => shape_ok shape /\ tensor_holds d' t dtype shape bytes /\ buf d (t_buffer t) = None
    | Unexpected _ => True
    end) d.
Proof.
  intros He Hf Hb. unfold from_host. apply dwp_bind.
  eapply dwp_mono; [by apply dwp_empty_fresh|]. intros [t|e] d1 [Hk Ht]; [|done].
  destruct Ht as (Hok & Hw & Hfresh & Hnb & l & Hl & Hsz).
  apply dwp_bind, dwp_bytes; [destruct Hok as (_ & _ & Hp); pose proof (product_pos _ Hp); nia|].
  intros r d2 E. pose proof Hw as (Ho & _). assert (take (Z.to_nat (nbytes t)) bytes = bytes) as Htake
    by (apply take_ge; unfold size_Z in Hb; lia).
  rewrite Htake, Ho in E. destruct r as [[]|e].
  - destruct (memcpy_h2d_ok (t_buffer t) 0 bytes d1 d2 l Hl) as [Hl2 Ho2]; [|done|].
    { unfold in_range. pose proof (size_Z_nonneg bytes). lia. }
    apply dwp_ret. split.
    + intros b' l' Hb'. rewrite Ho2; [by apply Hk|]. congruence.
    + split; [done|]. split; [|done]. split; [done|]. rewrite Hl2. f_equal. unfold splice. simpl.
      rewrite drop_ge by (unfold size_Z in *; lia). by rewrite app_nil_r.
  - split; [|done]. intros b' l' Hb'. rewrite (memcpy_h2d_err _ _ _ _ _ _ E). by apply Hk.
Qed.

Lemma dwp_from_host bytes dtype shape d :
  0 < dtype_size dtype <= SIZE_MAX -> Forall (fun x => x <= INT64_MAX) shape ->
  size_Z bytes = product shape * dtype_size dtype ->
  dwp (from_host (Some bytes) dtype shape) (fun r d' => keeps_buffers d d' /\
    match r with
    | Value t => t_offset t = 0 /\ t_shape t = shape /\ buf d' (t_buffer t) = Some bytes
    | Unexpected _ => True
    end) d.
Proof.
  intros He Hf Hb. eapply dwp_mono; [by apply dwp_from_host_holds|]. intros [t|e] d' [Hk Ht]; [|done].
  destruct Ht as (_ & ((Ho & _ & Hs & _) & Hbuf) & _). done.
Qed.
End tensor_specs.

(** Live buffers stay live and keep their size. *)
Definition keeps_sizes {D} `{Backend D} (d d' : D) : Prop :=
  forall b l, buf d b = Some l -> exists l', buf d' b = Some l' /\ size_Z l' = size_Z l.

#[export] Instance keeps_sizes_preorder {D} `{Backend D} : PreOrder keeps_sizes.
Proof.
  split; [by intros d b l Hl; exists l|]. intros x y z H1 H2 b l Hl.
  destruct (H1 b l Hl) as (l1 & Hl1 & E1). destruct (H2 b l1 Hl1) as (l2 & Hl2 & E2).
  exists l2. split; [done|congruence].
Qed.

Lemma keeps_buffers_sizes {D} `{Backend D} (d d' : D) : keeps_buffers d d' -> keeps_sizes d d'.
Proof. intros Hk b l Hl. exists l. split; [by apply Hk|done]. Qed.
