(* ===== verification/SimDevice.v ===== *)
(** * A simulated device

    An instance of the memory operations and of the operator library's sizes that
    satisfies their laws and can be evaluated: the theorems about device code are
    tried on it, failing operations included. *)

From Stdlib Require Import ZArith Lia.
From stdpp Require Import prelude strings gmap fin_maps.
From S2P Require Import Prelude Base Device.

(** ** The device

    Buffers are lists of bytes; [faults] lists the answers of the next operations. *)

Record SimDevice := mkSim { sim_bufs : list (list Z); faults : list (option ErrorCode) }.

Definition sim_answer (d : SimDevice) : option ErrorCode * list (option ErrorCode) :=
  match faults d with [] => (None, []) | f :: fs => (f, fs) end.

Definition sim_update (d : SimDevice) (b : Z) (f : list Z -> list Z) : Result unit * SimDevice :=
  match sim_answer d with
  | (Some e, fs) => (Unexpected e, mkSim (sim_bufs d) fs)
  | (None, fs) =>
      match at_Z (sim_bufs d) b with
      | Some l => (Value tt, mkSim (set_Z (sim_bufs d) b (f l)) fs)
      | None => (Unexpected CudaInvalidValue, mkSim (sim_bufs d) fs)
      end
  end.

#[export] Instance sim_backend : Backend SimDevice := {
  buf d b := at_Z (sim_bufs d) b;
  allocate_buffer n d :=
    match sim_answer d with
    | (Some e, fs) => (Unexpected e, mkSim (sim_bufs d) fs)
    | (None, fs) => (Value (size_Z (sim_bufs d)), mkSim (sim_bufs d ++ [repeat 170 (Z.to_nat n)]) fs)
    end;
  memcpy_h2d b off x d := sim_update d b (fun l => splice l off x);
  memcpy_d2h b off n d :=
    match sim_answer d with
    | (Some e, fs) => (Unexpected e, mkSim (sim_bufs d) fs)
    | (None, fs) => (match at_Z (sim_bufs d) b with
                     | Some l => Value (slice l off n)
                     | None => Unexpected CudaInvalidValue
                     end, mkSim (sim_bufs d) fs)
    end;
  memcpy_d2d b dst b' src n d :=
    match at_Z (sim_bufs d) b' with
    | Some l' => sim_update d b (fun l => splice l dst (slice l' src n))
    | None => (Unexpected CudaInvalidValue, d)
    end;
  memset b off v n d := sim_update d b (fun l => splice l off (repeat v (Z.to_nat n)));
  synchronize d := (Value tt, d);
}.

Lemma sim_update_ok d d' b f l :
  buf d b = Some l -> sim_update d b f = (Value tt, d') -> buf d' b = Some (f l) /\ only_buffer b d d'.
Proof.
  unfold buf, only_buffer, sim_update. simpl. intros Hl. rewrite Hl.
  destruct (sim_answer d) as [[e|] fs]; [done|]. intros [= <-]. simpl.
  apply at_Z_Some in Hl as [Hr _]. split; [by apply at_set_Z_eq|]. intros b' Hb. by apply at_set_Z_ne.
Qed.

Lemma sim_update_err d d' b f e : sim_update d b f = (Unexpected e, d') -> forall b', buf d' b' = buf d b'.
Proof.
  unfold sim_update. destruct (sim_answer d) as [[e'|] fs]; [by intros [= <- <-]|].
  destruct (at_Z _ _); [done|]. by intros [= <- <-].
Qed.

Lemma at_Z_end {A} (l : list A) x : at_Z (l ++ [x]) (size_Z l) = Some x.
Proof. unfold size_Z. rewrite at_Z_nat, lookup_app_r by done. by rewrite Nat.sub_diag. Qed.

Lemma at_Z_snoc {A} (l : list A) x i : i <> size_Z l -> at_Z (l ++ [x]) i = at_Z l i.
Proof.
  unfold at_Z, size_Z. intros Hi. destruct (Z.leb_spec 0 i); [|done].
  destruct (decide (Z.to_nat i < length l)%nat); [by rewrite lookup_app_l|].
  rewrite lookup_app_r, (lookup_ge_None_2 l) by lia.
  destruct (Z.to_nat i - length l)%nat eqn:E; [lia|done].
Qed.

Ltac sim_ok := match goal with
  | H : sim_update _ _ ?f = _, Hl : at_Z _ _ = Some ?l |- _ => exact (sim_update_ok _ _ _ f l Hl H) end.

#[export] Instance sim_laws : BackendLaws SimDevice.
Proof.
  split; simpl; intros.
  - sim_ok.
  - by eapply sim_update_err.
  - rewrite H0 in H4. sim_ok.
  - destruct (at_Z _ b'); [by eapply sim_update_err|by simplify_eq].
  - destruct (sim_answer d) as [[e'|] fs]; simplify_eq/=. split; [|split].
    + destruct (at_Z _ (size_Z (sim_bufs d))) eqn:E; [apply at_Z_Some in E as [? _]; lia|done].
    + exists (repeat 170 (Z.to_nat n)). split; [apply at_Z_end|]. unfold size_Z. rewrite repeat_length. lia.
    + intros b' Hb. by apply at_Z_snoc.
  - destruct (sim_answer d) as [[e'|] fs]; [by simplify_eq|done].
  - sim_ok.
  - by eapply sim_update_err.
  - destruct (sim_answer d) as [[e'|] fs]; [done|]. destruct (at_Z _ _); by simplify_eq.
  - by destruct (sim_answer d) as [[e'|] fs]; simplify_eq.
  - by simplify_eq.
Qed.

Inductive SimDType := SimUnknown | SimF32 | SimBF16 | SimI32.

#[export] Instance SimDType_eq_dec : EqDecision SimDType.
Proof. solve_decision. Defined.

#[export] Instance sim_ccop : Ccop := {
  DType := SimDType; kUnknown := SimUnknown; kFloat32 := SimF32; kBFloat16 := SimBF16; kInt32 := SimI32;
  dtype_size t := match t with SimUnknown => 0 | SimF32 => 4 | SimBF16 => 2 | SimI32 => 4 end;
  kTensorMaxRank := 8;
  view_nbytes t shape := foldr Z.mul 1 shape * match t with SimUnknown => 0 | SimF32 => 4 | SimBF16 => 2 | SimI32 => 4 end;
  view_strides shape := (row_major shape).1;
}.

#[export] Instance sim_ccop_laws : CcopLaws.
Proof. by split. Qed.

(** The sizes of a [3 x 5] float tensor. *)
Lemma checked_nbytes_dense_exact_witness : checked_nbytes_dense (kFloat32 : DType) [3; 5] = Value 60.
Proof.
  assert (0 < dtype_size (kFloat32 : DType) <= SIZE_MAX) as H1 by (vm_compute; split; [reflexivity|discriminate]).
  assert (Forall (fun d => d <= INT64_MAX) [3; 5]) as H2 by (repeat constructor; vm_compute; discriminate).
  apply (checked_nbytes_dense_exact kFloat32 [3; 5] H1 H2 60). split.
  - split; [discriminate|]. split; [vm_compute; discriminate|repeat constructor].
  - vm_compute. split; [discriminate|reflexivity].
Defined.

