(* ===== verification/State.v ===== *)
(** * Recurrent states: [state/state_storage.cpp], [state/state_pool.cpp],
    [cache/state_cache.cpp]

    A sequence of a hybrid model owns one mutable state, a range of every layer
    buffer; snapshots of states are cached under prefix hashes.  Metadata objects
    never move, so a free-list link is the index of the object; a cache entry is
    the number of its list node. *)

From Stdlib Require Import ZArith Lia.
From stdpp Require Import prelude strings gmap fin_maps.
From S2P Require Import Prelude Base Config Device.

(** ** [StateStorage] *)

Definition count_gdn_layers (config : ModelConfig) : Z :=
  size_Z (List.filter (fun t => bool_decide (t = GatedDeltaNet))
            (take (Z.to_nat (n_layers_ config)) (layer_types_ config))).

Record StateStorage `{Ccop} := mkStateStorage {
  recurrent_layers_ : list Tensor;
  conv_layers_ : list Tensor;
  num_gdn_layers_ : Z;
  num_states_ : Z;
}.

Section storage.
Context {D : Type} `{Backend D} `{Ccop}.

Definition state_bytes (layer_tensor : Tensor) (num_states : Z) : option Z :=
  ASSERT (0 <? num_states) ;; Some (nbytes layer_tensor / u64 num_states).

(** The loop of [StateStorage::create]: [n] more layers. *)
Fixpoint create_layers (n : nat) (max_states n_v head_k head_v conv_dim conv_state_len : Z)
    (rec conv : list Tensor) : Dev D (list Tensor * list Tensor) :=
  match n with
  | O => mret (rec, conv)
  | S n =>
      rec_r ← empty_tensor kFloat32 [max_states; n_v; head_k; head_v];
      conv_r ← empty_tensor kBFloat16 [max_states; conv_dim; conv_state_len];
      _ ← dev_bytes (nbytes rec_r) (memset (t_buffer rec_r) (t_offset rec_r) 0 (nbytes rec_r));
      _ ← dev_bytes (nbytes conv_r) (memset (t_buffer conv_r) (t_offset conv_r) 0 (nbytes conv_r));
      create_layers n max_states n_v head_k head_v conv_dim conv_state_len (rec ++ [rec_r]) (conv ++ [conv_r])
  end.

(** The local sizes of [StateStorage::create], in [int]: [head_v], [conv_dim] and
    [conv_state_len]; a division by zero is undefined. *)
Definition state_dims (config : ModelConfig) : option (Z * Z * Z) :=
  let n_v := ssm_time_step_rank_ config in
  let head_k := ssm_state_size_ config in
  head_v ← (if n_v =? 0 then None else int_of (Z.quot (ssm_inner_size_ config) n_v));
  key_dim ← int_of (ssm_group_count_ config * head_k);
  value_dim ← int_of (n_v * head_v);
  keys ← int_of (2 * key_dim);
  conv_dim ← int_of (keys + value_dim);
  conv_state_len ← int_of (ssm_conv_kernel_ config - 1);
  Some (head_v, conv_dim, conv_state_len).

Definition create_storage (config : ModelConfig) (max_states : Z) : Dev D StateStorage :=
  if negb (bool_decide (arch_ config = Qwen3_5)) || (max_states <=? 0) then dev_error InvalidArgument
  else
    let n_gdn := count_gdn_layers config in
    if n_gdn <=? 0 then dev_error InvalidArgument
    else
      let n_v := ssm_time_step_rank_ config in
      let head_k := ssm_state_size_ config in
      '(head_v, conv_dim, conv_state_len) ← dev_lift (state_dims config);
      '(rec, conv) ← create_layers (Z.to_nat n_gdn) max_states n_v head_k head_v conv_dim conv_state_len [] [];
      _ ← dev_op synchronize;
      mret (mkStateStorage _ rec conv n_gdn max_states).

(** [recurrent_state] and [conv_state]. *)
Definition recurrent_state (s : StateStorage) (gdn_layer : Z) : option Tensor :=
  ASSERT ((0 <=? gdn_layer) && (gdn_layer <? num_gdn_layers_ s)) ;; at_Z (recurrent_layers_ s) gdn_layer.
Definition conv_state (s : StateStorage) (gdn_layer : Z) : option Tensor :=
  ASSERT ((0 <=? gdn_layer) && (gdn_layer <? num_gdn_layers_ s)) ;; at_Z (conv_layers_ s) gdn_layer.

(** One of the two loops of [zero_state]. *)
Fixpoint zero_layers (layers : list Tensor) (num_states state : Z) : Dev D unit :=
  match layers with
  | [] => mret tt
  | layer :: layers =>
      bytes ← dev_lift (state_bytes layer num_states);
      _ ← dev_bytes bytes (memset (t_buffer layer) (t_offset layer + state * bytes) 0 bytes);
      zero_layers layers num_states state
  end.

Definition zero_state (s : StateStorage) (state : Z) : Dev D unit :=
  if (state <? 0) || (num_states_ s <=? state) then dev_error InvalidArgument
  else
    _ ← zero_layers (recurrent_layers_ s) (num_states_ s) state;
    zero_layers (conv_layers_ s) (num_states_ s) state.

(** One of the two loops of [copy_state]. *)
Fixpoint copy_layers (layers : list Tensor) (num_states src_state dst_state : Z) : Dev D unit :=
  match layers with
  | [] => mret tt
  | layer :: layers =>
      bytes ← dev_lift (state_bytes layer num_states);
      _ ← dev_bytes bytes (memcpy_d2d (t_buffer layer) (t_offset layer + dst_state * bytes)
                    (t_buffer layer) (t_offset layer + src_state * bytes) bytes);
      copy_layers layers num_states src_state dst_state
  end.

Definition copy_state (s : StateStorage) (src_state dst_state : Z) : Dev D unit :=
  if (src_state <? 0) || (num_states_ s <=? src_state) || (dst_state <? 0) || (num_states_ s <=? dst_state)
  then dev_error InvalidArgument
  else
    _ ← copy_layers (recurrent_layers_ s) (num_states_ s) src_state dst_state;
    copy_layers (conv_layers_ s) (num_states_ s) src_state dst_state.
End storage.

(** ** [StatePool] *)

Inductive StateKind := Mutable | Snapshot.
Inductive StateStatus := StFree | StInUse.

#[export] Instance StateKind_eq_dec : EqDecision StateKind.
Proof. solve_decision. Defined.
#[export] Instance StateStatus_eq_dec : EqDecision StateStatus.
Proof. solve_decision. Defined.

Record State := mkState { state_id : Z; state_kind : StateKind; state_status : StateStatus }.

Definition st_is_free (m : State) : bool := bool_decide (state_status m = StFree).
Definition st_is_in_use (m : State) : bool := bool_decide (state_status m = StInUse).
Definition is_mutable_kind (m : State) : bool := bool_decide (state_kind m = Mutable).
Definition is_snapshot_kind (m : State) : bool := bool_decide (state_kind m = Snapshot).

Record StatePool `{Ccop} := mkStatePool {
  storage_ : StateStorage;
  states_ : list State;
  max_active_ : Z;
  max_snapshots_ : Z;
  mutable_free_list_ : list Z;
  snapshot_free_list_ : list Z;
  active_by_seq_ : gmap Z Z;
}.

Definition set_states `{Ccop} x (p : StatePool) : StatePool :=
  mkStatePool _ (storage_ p) x (max_active_ p) (max_snapshots_ p) (mutable_free_list_ p)
    (snapshot_free_list_ p) (active_by_seq_ p).
Definition set_mutable_free `{Ccop} x (p : StatePool) : StatePool :=
  mkStatePool _ (storage_ p) (states_ p) (max_active_ p) (max_snapshots_ p) x
    (snapshot_free_list_ p) (active_by_seq_ p).
Definition set_snapshot_free `{Ccop} x (p : StatePool) : StatePool :=
  mkStatePool _ (storage_ p) (states_ p) (max_active_ p) (max_snapshots_ p) (mutable_free_list_ p)
    x (active_by_seq_ p).
Definition set_active `{Ccop} x (p : StatePool) : StatePool :=
  mkStatePool _ (storage_ p) (states_ p) (max_active_ p) (max_snapshots_ p) (mutable_free_list_ p)
    (snapshot_free_list_ p) x.

(** A run of a pool method: the answer, the pool and the device. *)
Definition PoolRun (D : Type) `{Ccop} (A : Type) : Type := StatePool -> D -> option (Result A * StatePool * D).

Section pool.
Context {D : Type} `{Backend D} `{Ccop}.

(** The new metadata of state [i]. *)
Definition new_state (max_active : Z) (i : Z) : State :=
  mkState i (if i <? max_active then Mutable else Snapshot) StFree.

Definition create_pool (config : ModelConfig) (max_active max_snapshots : Z) : Dev D StatePool :=
  if (max_active <=? 0) || (max_snapshots <? 0) then dev_error InvalidArgument
  else
    total_states ← dev_lift (int_of (max_active + max_snapshots));
    storage ← create_storage config total_states;
    let ids := map Z.of_nat (seq 0 (Z.to_nat total_states)) in
    mret (mkStatePool _ storage (map (new_state max_active) ids) max_active max_snapshots
            (List.filter (fun i => i <? max_active) ids)
            (List.filter (fun i => negb (i <? max_active)) ids) ∅).

Definition acquire_active (seq : Z) : PoolRun D unit := fun p d =>
  if bool_decide (is_Some (active_by_seq_ p !! seq)) then Some (Value tt, p, d)
  else
    match mutable_free_list_ p with
    | [] => Some (Unexpected MaxSequencesReached, p, d)
    | front :: rest =>
        meta ← at_Z (states_ p) front;
        ASSERT (st_is_free meta && is_mutable_kind meta) ;;
        let p1 := set_mutable_free rest p in
        let state := state_id meta in
        '(r, d1) ← zero_state (storage_ p1) state d;
        match r with
        | Unexpected e => Some (Unexpected e, set_mutable_free (rest ++ [front]) p1, d1)
        | Value _ =>
            Some (Value tt,
              set_active (<[seq := state]> (active_by_seq_ p1))
                (set_states (set_Z (states_ p1) front (mkState state (state_kind meta) StInUse)) p1), d1)
        end
    end.

Definition release_active (seq : Z) : PoolRun D unit := fun p d =>
  match active_by_seq_ p !! seq with
  | None => Some (Value tt, p, d)
  | Some state =>
      ASSERT ((0 <=? state) && (state <? max_active_ p)) ;;
      meta ← at_Z (states_ p) state;
      ASSERT (st_is_in_use meta && is_mutable_kind meta) ;;
      Some (Value tt,
        set_mutable_free (mutable_free_list_ p ++ [state])
          (set_states (set_Z (states_ p) state (mkState (state_id meta) (state_kind meta) StFree))
             (set_active (delete seq (active_by_seq_ p)) p)), d)
  end.

Definition active_state_of (p : StatePool) (seq : Z) : option Z := active_by_seq_ p !! seq.

Definition acquire_snapshot : PoolRun D Z := fun p d =>
  match snapshot_free_list_ p with
  | [] => Some (Unexpected MaxSequencesReached, p, d)
  | front :: rest =>
      meta ← at_Z (states_ p) front;
      ASSERT (st_is_free meta && is_snapshot_kind meta) ;;
      Some (Value (state_id meta),
        set_states (set_Z (states_ p) front (mkState (state_id meta) (state_kind meta) StInUse))
          (set_snapshot_free rest p), d)
  end.

Definition snapshot_range (p : StatePool) (state : Z) : bool :=
  negb ((state <? max_active_ p) || (max_active_ p + max_snapshots_ p <=? state)).

Definition release_snapshot (state : Z) : PoolRun D unit := fun p d =>
  if negb (snapshot_range p state) then Some (Unexpected InvalidArgument, p, d)
  else
    meta ← at_Z (states_ p) state;
    ASSERT (st_is_in_use meta && is_snapshot_kind meta) ;;
    Some (Value tt,
      set_snapshot_free (snapshot_free_list_ p ++ [state])
        (set_states (set_Z (states_ p) state (mkState (state_id meta) (state_kind meta) StFree)) p), d).

Definition copy_active_to_snapshot (active_state snapshot_state : Z) : PoolRun D unit := fun p d =>
  if (active_state <? 0) || (max_active_ p <=? active_state) then Some (Unexpected InvalidArgument, p, d)
  else if negb (snapshot_range p snapshot_state) then Some (Unexpected InvalidArgument, p, d)
  else '(r, d) ← copy_state (storage_ p) active_state snapshot_state d; Some (r, p, d).

Definition restore_snapshot_to_active (snapshot_state active_state : Z) : PoolRun D unit := fun p d =>
  if (active_state <? 0) || (max_active_ p <=? active_state) then Some (Unexpected InvalidArgument, p, d)
  else if negb (snapshot_range p snapshot_state) then Some (Unexpected InvalidArgument, p, d)
  else '(r, d) ← copy_state (storage_ p) snapshot_state active_state d; Some (r, p, d).

Definition num_free_snapshots (p : StatePool) : Z := size_Z (snapshot_free_list_ p).
End pool.

(** ** Layout of the states *)

Section layout.
Context {D : Type} `{!Backend D} `{!BackendLaws D} `{!Ccop}.

Definition layers (s : StateStorage) : list Tensor := recurrent_layers_ s ++ conv_layers_ s.

(** Every layer is a live buffer of its own, cut into equal parts. *)
Definition layer_ok (n : Z) (d : D) (t : Tensor) : Prop :=
  t_offset t = 0 /\ exists l, buf d (t_buffer t) = Some l /\ size_Z l = nbytes t /\
    0 < nbytes t /\ nbytes t = n * (nbytes t / n).

Record storage_ok (s : StateStorage) (d : D) : Prop := mk_storage_ok {
  so_states : 0 < num_states_ s < 2 ^ 64;
  so_layers : forall t, t ∈ layers s -> layer_ok (num_states_ s) d t;
  so_buffers : NoDup (t_buffer <$> layers s);
}.

Definition layer_slice (n : Z) (d : D) (t : Tensor) (i : Z) : list Z :=
  match buf d (t_buffer t) with Some l => slice l (i * (nbytes t / n)) (nbytes t / n) | None => [] end.

(** The contents of one state, layer by layer. *)
Definition content (s : StateStorage) (d : D) (i : Z) : list (list Z) :=
  (fun t => layer_slice (num_states_ s) d t i) <$> layers s.

(** A layer's parts are not empty. *)
Lemma part_pos n (t : Tensor) : 0 < n -> 0 < nbytes t -> nbytes t = n * (nbytes t / n) -> 0 < nbytes t / n.
Proof. nia. Qed.

Lemma layer_size n d t i : 0 < n -> 0 <= i < n -> layer_ok n d t -> size_Z (layer_slice n d t i) = nbytes t / n.
Proof.
  intros Hn Hi (_ & l & Hl & Hsz & H0 & Hd). unfold layer_slice. rewrite Hl. apply size_slice.
  apply (slot_in_range l i (nbytes t / n) n); [done| |congruence]. apply Z.div_pos; lia.
Qed.

(** One write of a whole part of one layer. *)
Lemma layer_write n d d' t i x l :
  0 < n -> 0 <= i < n -> layer_ok n d t -> buf d (t_buffer t) = Some l -> size_Z x = nbytes t / n ->
  buf d' (t_buffer t) = Some (splice l (i * (nbytes t / n)) x) -> only_buffer (t_buffer t) d d' ->
  layer_slice n d' t i = x /\
  (forall j, 0 <= j < n -> j <> i -> layer_slice n d' t j = layer_slice n d t j) /\
  (forall t' j, t_buffer t' <> t_buffer t -> layer_slice n d' t' j = layer_slice n d t' j) /\
  (forall t', layer_ok n d t' -> t_buffer t' <> t_buffer t \/ t' = t -> layer_ok n d' t').
Proof.
  intros Hn Hi (Ho & l' & Hl' & Hsz & H0 & Hd) Hl Hx Hl2 Hother. assert (l' = l) as -> by congruence.
  assert (0 <= nbytes t / n) as Hb by (apply Z.div_pos; lia).
  assert (forall k, 0 <= k < n -> in_range l (k * (nbytes t / n)) (nbytes t / n)) as Hr.
  { intros k Hk. apply (slot_in_range l k (nbytes t / n) n); [done|done|congruence]. }
  assert (in_range l (i * (nbytes t / n)) (size_Z x)) as Hri by (rewrite Hx; by apply Hr).
  split_and!.
  - unfold layer_slice. rewrite Hl2. pose proof (slice_splice_same l _ x Hri) as E. by rewrite Hx in E.
  - intros j Hj Hji. unfold layer_slice. rewrite Hl2, Hl. apply slice_splice_other; [done|by apply Hr|].
    rewrite Hx. apply slots_disjoint; done.
  - intros t' j Ht'. unfold layer_slice. by rewrite Hother.
  - intros t' Ht' [Hne| ->].
    + destruct Ht' as (? & l' & ? & ?). split; [done|]. exists l'. by rewrite Hother.
    + split; [done|]. eexists. split; [exact Hl2|]. rewrite size_splice; done.
Qed.

(** What a loop that writes part [i] of each layer of [ls] leaves behind. *)
Definition wrote_part (n i : Z) (ls : list Tensor) (x : Tensor -> list Z) (d d' : D) (ok : bool) : Prop :=
  (forall t, layer_ok n d t -> (forall t', t' ∈ ls -> t_buffer t <> t_buffer t' \/ t = t') -> layer_ok n d' t) /\
  (forall t j, t ∈ ls -> 0 <= j < n -> j <> i -> layer_slice n d' t j = layer_slice n d t j) /\
  (forall t j, (forall t', t' ∈ ls -> t_buffer t <> t_buffer t') -> layer_slice n d' t j = layer_slice n d t j) /\
  (ok = true -> forall t, t ∈ ls -> layer_slice n d' t i = x t).

Lemma wrote_nothing n i ls x d d' :
  (forall b, buf d' b = buf d b) -> wrote_part n i ls x d d' false.
Proof.
  intros E. unfold wrote_part, layer_slice, layer_ok. split_and!; try done.
  - intros t (? & l & ? & ?) _. split; [done|]. exists l. by rewrite E.
  - intros. by rewrite E.
  - intros. by rewrite E.
Qed.

Lemma wrote_done n i x d : wrote_part n i [] x d d true.
Proof. unfold wrote_part. split_and!; try done. intros _ t Ht. by apply elem_of_nil in Ht. Qed.

Lemma wrote_step n i t ls x d d1 d' l ok :
  0 < n -> 0 <= i < n -> layer_ok n d t -> NoDup (t_buffer <$> t :: ls) ->
  buf d (t_buffer t) = Some l -> size_Z (x t) = nbytes t / n ->
  buf d1 (t_buffer t) = Some (splice l (i * (nbytes t / n)) (x t)) -> only_buffer (t_buffer t) d d1 ->
  wrote_part n i ls x d1 d' ok -> wrote_part n i (t :: ls) x d d' ok.
Proof.
  intros Hn Hi Hok Hnd Hl Hx Hl1 Ho (W1 & W2 & W3 & W4).
  rewrite fmap_cons in Hnd. apply NoDup_cons in Hnd as [Hfresh Hnd].
  assert (forall t', t' ∈ ls -> t_buffer t <> t_buffer t') as Hne.
  { intros t' Ht' E. apply Hfresh. rewrite E. by apply list_elem_of_fmap_2. }
  destruct (layer_write n d d1 t i (x t) l Hn Hi Hok Hl Hx Hl1 Ho) as (L1 & L2 & L3 & L4).
  split_and!.
  - intros t' Ht' Hd. apply W1; [|intros; apply Hd; by right].
    apply L4; [done|]. destruct (Hd t) as [?| ->]; [by left|by left|by right].
  - intros t' j [->|Ht']%elem_of_cons Hj Hji.
    + rewrite W3; [by apply L2|done].
    + rewrite (W2 t' j) by done. apply L3. intros E. by eapply Hne.
  - intros t' j Hd. rewrite W3; [apply L3; apply Hd; by left|]. intros; apply Hd; by right.
  - intros -> t' [->|Ht']%elem_of_cons; [|by apply W4]. by rewrite W3.
Qed.

Lemma wrote_ext n i ls x y d d' ok :
  (forall t, t ∈ ls -> x t = y t) -> wrote_part n i ls x d d' ok -> wrote_part n i ls y d d' ok.
Proof.
  intros E (W1 & W2 & W3 & W4). split_and!; try done. intros Hok t Ht. rewrite <- E by done. by apply W4.
Qed.

Definition succeeded {A} (r : Result A) : bool := match r with Value _ => true | Unexpected _ => false end.

Lemma dwp_state_bytes n t (Q : Result Z -> D -> Prop) d :
  0 < n < 2 ^ 64 -> Q (Value (nbytes t / n)) d -> dwp (dev_lift (state_bytes t n)) Q d.
Proof.
  intros Hn HQ. unfold dwp, dev_lift, state_bytes. destruct (Z.ltb_spec 0 n); [|lia].
  rewrite u64_small by lia. eauto.
Qed.

Lemma dwp_zero_layers n i ls d :
  0 < n < 2 ^ 64 -> 0 <= i < n -> Forall (layer_ok n d) ls -> NoDup (t_buffer <$> ls) ->
  dwp (zero_layers ls n i) (fun r d' =>
    wrote_part n i ls (fun t => repeat 0 (Z.to_nat (nbytes t / n))) d d' (succeeded r)) d.
Proof.
  intros Hn Hi Hf Hnd. revert d Hf. induction ls as [|t ls IH]; intros d Hf; simpl.
  { apply dwp_ret, wrote_done. }
  apply Forall_cons in Hf as [Ht Hf]. pose proof Ht as (Ho & l & Hl & Hsz & H0 & Hd).
  apply dwp_bind, dwp_state_bytes; [done|]. apply dwp_bind, dwp_bytes; [apply part_pos; lia|]. intros r d1 E.
  destruct r as [[]|e]; [|by apply wrote_nothing; eapply memset_err].
  assert (0 <= nbytes t / n) by (apply Z.div_pos; lia).
  rewrite Ho, Z.add_0_l in E.
  destruct (memset_ok (t_buffer t) (i * (nbytes t / n)) 0 (nbytes t / n) d d1 l) as [Hl1 Ho1]; try done; try lia.
  { apply (slot_in_range l i (nbytes t / n) n); [done|done|congruence]. }
  assert (Forall (layer_ok n d1) ls) as Hf1.
  { rewrite Forall_forall in Hf |- *. intros t' Ht'.
    rewrite fmap_cons in Hnd. apply NoDup_cons in Hnd as [Hfr _].
    destruct (Hf t' Ht') as (? & l' & ? & ?). split; [done|]. exists l'. rewrite Ho1; [done|].
    intros E'. apply Hfr. rewrite <- E'. by apply list_elem_of_fmap_2. }
  rewrite fmap_cons in Hnd. pose proof Hnd as [_ Hnd']%NoDup_cons.
  eapply dwp_mono; [by apply IH|]. intros r d' W.
  eapply (wrote_step n i t ls _ d d1 d' l); try done; [lia|].
  unfold size_Z. rewrite repeat_length. lia.
Qed.

Lemma dwp_copy_layers n src dst ls d :
  0 < n < 2 ^ 64 -> 0 <= src < n -> 0 <= dst < n -> src <> dst -> Forall (layer_ok n d) ls -> NoDup (t_buffer <$> ls) ->
  dwp (copy_layers ls n src dst) (fun r d' =>
    wrote_part n dst ls (fun t => layer_slice n d t src) d d' (succeeded r)) d.
Proof.
  intros Hn Hi Hj Hsd Hf Hnd. revert d Hf. induction ls as [|t ls IH]; intros d Hf; simpl.
  { apply dwp_ret, wrote_done. }
  apply Forall_cons in Hf as [Ht Hf]. pose proof Ht as (Ho & l & Hl & Hsz & H0 & Hd).
  apply dwp_bind, dwp_state_bytes; [done|]. apply dwp_bind, dwp_bytes; [apply part_pos; lia|]. intros r d1 E.
  destruct r as [[]|e]; [|by apply wrote_nothing; eapply memcpy_d2d_err].
  assert (0 <= nbytes t / n) by (apply Z.div_pos; lia).
  rewrite Ho, !Z.add_0_l in E.
  destruct (memcpy_d2d_ok (t_buffer t) (dst * (nbytes t / n)) (t_buffer t) (src * (nbytes t / n)) (nbytes t / n) d d1 l l)
    as [Hl1 Ho1]; try done.
  1, 2: apply (slot_in_range l _ (nbytes t / n) n); [done|done|congruence].
  { right. by apply slots_disjoint. }
  rewrite fmap_cons in Hnd. pose proof Hnd as [Hfr Hnd']%NoDup_cons.
  assert (forall t', t' ∈ ls -> t_buffer t' <> t_buffer t) as Hne.
  { intros t' Ht' E'. apply Hfr. rewrite <- E'. by apply list_elem_of_fmap_2. }
  assert (Forall (layer_ok n d1) ls) as Hf1.
  { rewrite Forall_forall in Hf |- *. intros t' Ht'.
    destruct (Hf t' Ht') as (? & l' & ? & ?). split; [done|]. exists l'. rewrite Ho1; auto. }
  eapply dwp_mono; [by apply IH|]. intros r d' W.
  eapply (wrote_step n dst t ls _ d d1 d' l); try done; [lia| | |].
  - apply (layer_size n d t src); [lia|done|done].
  - unfold layer_slice. by rewrite Hl.
  - eapply wrote_ext; [|exact W]. intros t' Ht'. unfold layer_slice. rewrite Ho1; auto.
Qed.
End layout.

(** ** [zero_state] and [copy_state] *)

Section storage_specs.
Context {D : Type} `{!Backend D} `{!BackendLaws D} `{!Ccop}.

Lemma zero_layers_app l1 l2 n i (d : D) :
  zero_layers (l1 ++ l2) n i d = (zero_layers l1 n i ≫= fun _ => zero_layers l2 n i) d.
Proof.
  revert d. induction l1 as [|t l1 IH]; intros d; simpl; [done|].
  unfold mbind, Dev_bind in *. destruct (dev_lift _ d) as [[[b|e] d1]|]; try done.
  by destruct (dev_bytes _ _ d1) as [[[u|e] d2]|].
Qed.

Lemma copy_layers_app l1 l2 n src dst (d : D) :
  copy_layers (l1 ++ l2) n src dst d = (copy_layers l1 n src dst ≫= fun _ => copy_layers l2 n src dst) d.
Proof.
  revert d. induction l1 as [|t l1 IH]; intros d; simpl; [done|].
  unfold mbind, Dev_bind in *. destruct (dev_lift _ d) as [[[b|e] d1]|]; try done.
  by destruct (dev_bytes _ _ d1) as [[[u|e] d2]|].
Qed.

(** [d'] differs from [d] at most in state [i], which holds [x] if [ok]. *)
Record wrote_state (s : StateStorage) (i : Z) (x : list (list Z)) (d d' : D) (ok : bool) : Prop := mk_wrote {
  ws_ok : storage_ok s d';
  ws_other : forall j, 0 <= j < num_states_ s -> j <> i -> content s d' j = content s d j;
  ws_written : ok = true -> content s d' i = x;
}.

Lemma wrote_part_state s i x d d' ok :
  storage_ok s d -> wrote_part (num_states_ s) i (layers s) x d d' ok ->
  wrote_state s i (x <$> layers s) d d' ok.
Proof.
  intros [Hn Hl Hb] (W1 & W2 & W3 & W4). split.
  - split; [done| |done]. intros t Ht. apply W1; [by apply Hl|]. intros t' Ht'.
    destruct (decide (t_buffer t = t_buffer t')) as [E|]; [right|by left].
    apply list_elem_of_lookup in Ht as [k Hk], Ht' as [k' Hk'].
    assert (k = k') as ->; [|congruence].
    eapply (NoDup_lookup _ _ _ (t_buffer t) Hb); [by rewrite list_lookup_fmap, Hk|].
    by rewrite list_lookup_fmap, Hk', E.
  - intros j Hj Hji. apply list_fmap_ext. intros k t Hk. apply W2; [by eapply list_elem_of_lookup_2|done|done].
  - intros Hok. apply list_fmap_ext. intros k t Hk. apply W4; [done|by eapply list_elem_of_lookup_2].
Qed.

Definition zeros (s : StateStorage) : list (list Z) :=
  (fun t => repeat 0 (Z.to_nat (nbytes t / num_states_ s))) <$> layers s.

Definition in_states (s : StateStorage) (i : Z) : bool := (0 <=? i) && (i <? num_states_ s).

Lemma dwp_zero_state s i d :
  storage_ok s d -> 0 <= i < num_states_ s ->
  dwp (zero_state s i) (fun r d' => wrote_state s i (zeros s) d d' (succeeded r)) d.
Proof.
  intros Hs Hi. unfold zero_state. destruct (Z.ltb_spec i 0); [lia|].
  destruct (Z.leb_spec (num_states_ s) i); [lia|]. simpl.
  destruct (dwp_zero_layers (num_states_ s) i (layers s) d) as (r & d' & E & W).
  { apply (so_states _ _ Hs). } { done. } { rewrite Forall_forall. apply (so_layers _ _ Hs). }
  { apply (so_buffers _ _ Hs). }
  exists r, d'. unfold layers in E. rewrite zero_layers_app in E. split; [exact E|]. by apply wrote_part_state.
Qed.

Lemma dwp_copy_state s src dst d :
  storage_ok s d -> 0 <= src < num_states_ s -> 0 <= dst < num_states_ s -> src <> dst ->
  dwp (copy_state s src dst) (fun r d' => wrote_state s dst (content s d src) d d' (succeeded r)) d.
Proof.
  intros Hs Hi Hj Hne. unfold copy_state. destruct (Z.ltb_spec src 0); [lia|].
  destruct (Z.leb_spec (num_states_ s) src); [lia|]. destruct (Z.ltb_spec dst 0); [lia|].
  destruct (Z.leb_spec (num_states_ s) dst); [lia|]. simpl.
  destruct (dwp_copy_layers (num_states_ s) src dst (layers s) d) as (r & d' & E & W).
  { apply (so_states _ _ Hs). } { done. } { done. } { done. } { rewrite Forall_forall. apply (so_layers _ _ Hs). }
  { apply (so_buffers _ _ Hs). }
  exists r, d'. unfold layers in E. rewrite copy_layers_app in E. split; [exact E|].
  by apply (wrote_part_state s dst (fun t => layer_slice (num_states_ s) d t src)).
Qed.

(** Writing a state changes no buffer's size. *)
Lemma dwp_zero_layers_sizes n i ls d :
  0 < n < 2 ^ 64 -> 0 <= i < n -> Forall (layer_ok n d) ls ->
  dwp (zero_layers ls n i) (fun _ d' => keeps_sizes d d') d.
Proof.
  intros Hn Hi Hf. revert d Hf. induction ls as [|t ls IH]; intros d Hf; simpl; [by apply dwp_ret|].
  apply Forall_cons in Hf as [Ht Hf]. pose proof Ht as (Ho & l & Hl & Hsz & H0 & Hd).
  apply dwp_bind, dwp_state_bytes; [done|]. apply dwp_bind, dwp_bytes; [apply part_pos; lia|]. intros r d1 E.
  destruct r as [[]|e].
  2: { apply keeps_buffers_sizes, same_keeps. by eapply memset_err. }
  assert (0 <= nbytes t / n) by (apply Z.div_pos; lia). rewrite Ho, Z.add_0_l in E.
  assert (in_range l (i * (nbytes t / n)) (nbytes t / n)) as Hr
    by (apply (slot_in_range l i (nbytes t / n) n); [done|done|congruence]).
  destruct (memset_ok _ _ 0 _ _ _ _ Hl Hr ltac:(lia) E) as [Hl1 Ho1].
  assert (keeps_sizes d d1) as K.
  { intros b l' Hb. destruct (decide (b = t_buffer t)) as [->|Hne]; [|exists l'; by rewrite Ho1].
    eexists. split; [exact Hl1|]. assert (l' = l) as -> by congruence. apply size_splice.
    unfold size_Z in *. by rewrite repeat_length, Z2Nat.id. }
  eapply dwp_mono; [apply IH|intros; by etrans].
  eapply Forall_impl; [exact Hf|]. intros t' (A1 & l' & A2 & A3 & A4). split; [done|].
  destruct (K _ _ A2) as (l2 & B1 & B2). exists l2. split_and!; try done; [congruence|apply A4..].
Qed.

Lemma storage_ok_keeps s d d' : storage_ok s d -> keeps_sizes d d' -> storage_ok s d'.
Proof.
  intros [S1 S2 S3] K. split; [done| |done]. intros t Ht. destruct (S2 t Ht) as (A1 & l' & A2 & A3 & A4).
  split; [done|]. destruct (K _ _ A2) as (l2 & B1 & B2). exists l2. split_and!; try done; [congruence|apply A4..].
Qed.

Lemma dwp_zero_state_sizes s i d :
  storage_ok s d -> 0 <= i < num_states_ s -> dwp (zero_state s i) (fun _ d' => keeps_sizes d d') d.
Proof.
  intros Hs Hi. unfold zero_state. destruct (Z.ltb_spec i 0); [lia|].
  destruct (Z.leb_spec (num_states_ s) i); [lia|]. simpl.
  destruct (dwp_zero_layers_sizes (num_states_ s) i (layers s) d) as (r & d' & E & W).
  { apply (so_states _ _ Hs). } { done. } { rewrite Forall_forall. apply (so_layers _ _ Hs). }
  exists r, d'. unfold layers in E. rewrite zero_layers_app in E. by split; [exact E|].
Qed.
End storage_specs.

(** ** The pool's invariant *)

(** Who owns which state: [st] is the status of each state, the mutable ones below
    [ma], and [snaps] the snapshots in use. *)
Record ownership (ma tot : Z) (st : Z -> option StateStatus) (mf sf : list Z) (act : gmap Z Z)
    (snaps : list Z) : Prop := mk_ownership {
  ow_free : NoDup mf /\ forall i, i ∈ mf <-> 0 <= i < ma /\ st i = Some StFree;
  ow_active : forall i, 0 <= i < ma -> st i = Some StInUse <-> exists seq, act !! seq = Some i;
  ow_owner : forall seq i, act !! seq = Some i -> 0 <= i < ma;
  ow_inj : forall seq seq' i, act !! seq = Some i -> act !! seq' = Some i -> seq = seq';
  ow_snap_free : NoDup sf /\ forall i, i ∈ sf <-> ma <= i < tot /\ st i = Some StFree;
  ow_snaps : NoDup snaps /\ forall i, i ∈ snaps <-> ma <= i < tot /\ st i = Some StInUse;
}.

Section ownership.
Context (ma tot : Z) (st st' : Z -> option StateStatus) (mf sf : list Z) (act : gmap Z Z) (snaps : list Z)
  (Hma : ma <= tot) (Hown : ownership ma tot st mf sf act snaps).

Lemma take_mutable i rest seq :
  mf = i :: rest -> act !! seq = None -> (forall j, st' j = if j =? i then Some StInUse else st j) ->
  ownership ma tot st' rest sf (<[seq := i]> act) snaps.
Proof.
  intros Hmf Hseq Hst. destruct Hown as [[N1 F] A O J [N2 G] [N3 K]].
  rewrite Hmf in N1. apply NoDup_cons in N1 as [Hni N1].
  assert (0 <= i < ma /\ st i = Some StFree) as [Hi Hif] by (apply F; rewrite Hmf; by left).
  assert (forall s, act !! s <> Some i) as Hun.
  { intros s Hs. assert (st i = Some StInUse) by (apply A; eauto). congruence. }
  split.
  - split; [done|]. intros j. rewrite Hst. destruct (Z.eqb_spec j i) as [->|Hne]; [naive_solver|].
    rewrite <- F, Hmf, elem_of_cons. naive_solver.
  - intros j Hj. rewrite Hst. destruct (Z.eqb_spec j i) as [->|Hne].
    + split; [|done]. intros _. exists seq. by rewrite lookup_insert_eq.
    + rewrite (A j Hj). split; intros [s Hs]; exists s.
      * rewrite lookup_insert_ne; [done|]. intros ->. congruence.
      * apply lookup_insert_Some in Hs as [[_ ?]|[_ ?]]; [congruence|done].
  - intros s j Hs. apply lookup_insert_Some in Hs as [[_ <-]|[_ ?]]; [done|by eapply O].
  - intros s s' j H1 H2. apply lookup_insert_Some in H1 as [[<- <-]|[_ H1]];
      apply lookup_insert_Some in H2 as [[<- H2]|[_ H2]]; try done; try subst j; try (by edestruct Hun);
      by eapply J.
  - split; [done|]. intros j. rewrite Hst, G. destruct (Z.eqb_spec j i); [|done]. split; intros [? ?]; lia.
  - split; [done|]. intros j. rewrite Hst, K. destruct (Z.eqb_spec j i); [|done]. split; intros [? ?]; lia.
Qed.

Lemma give_mutable i seq :
  act !! seq = Some i -> (forall j, st' j = if j =? i then Some StFree else st j) ->
  ownership ma tot st' (mf ++ [i]) sf (delete seq act) snaps.
Proof.
  intros Hseq Hst. destruct Hown as [[N1 F] A O J [N2 G] [N3 K]].
  pose proof (O _ _ Hseq) as Hi. assert (st i = Some StInUse) as Hiu by (apply A; eauto).
  split.
  - split.
    + apply NoDup_app. split_and!; [done| |apply NoDup_singleton]. intros j Hj ->%list_elem_of_singleton.
      apply F in Hj as [_ ?]. congruence.
    + intros j. rewrite Hst, elem_of_app, list_elem_of_singleton, F. destruct (Z.eqb_spec j i); naive_solver.
  - intros j Hj. rewrite Hst. destruct (Z.eqb_spec j i) as [->|Hne].
    + split; [done|]. intros [s Hs]. apply lookup_delete_Some in Hs as [Hne Hs].
      edestruct Hne. by eapply J.
    + rewrite (A j Hj). split; intros [s Hs]; exists s.
      * apply lookup_delete_Some. split; [|done]. intros ->. congruence.
      * by apply lookup_delete_Some in Hs as [_ ?].
  - intros s j Hs. apply lookup_delete_Some in Hs as [_ ?]. by eapply O.
  - intros s s' j [_ H1]%lookup_delete_Some [_ H2]%lookup_delete_Some. by eapply J.
  - split; [done|]. intros j. rewrite Hst, G. destruct (Z.eqb_spec j i); [|done]. split; intros [? ?]; lia.
  - split; [done|]. intros j. rewrite Hst, K. destruct (Z.eqb_spec j i); [|done]. split; intros [? ?]; lia.
Qed.

Lemma take_snap i rest :
  sf = i :: rest -> (forall j, st' j = if j =? i then Some StInUse else st j) ->
  ownership ma tot st' mf rest act (i :: snaps).
Proof.
  intros Hsf Hst. destruct Hown as [[N1 F] A O J [N2 G] [N3 K]].
  rewrite Hsf in N2. apply NoDup_cons in N2 as [Hni N2].
  assert (ma <= i < tot /\ st i = Some StFree) as [Hi Hif] by (apply G; rewrite Hsf; by left).
  split; try done.
  - split; [done|]. intros j. rewrite Hst, F. destruct (Z.eqb_spec j i); [|done]. split; intros [? ?]; lia.
  - intros j Hj. rewrite Hst, <- A by done. destruct (Z.eqb_spec j i); [lia|done].
  - split; [done|]. intros j. rewrite Hst. destruct (Z.eqb_spec j i) as [->|Hne]; [naive_solver|].
    rewrite <- G, Hsf, elem_of_cons. naive_solver.
  - split; [apply NoDup_cons; split; [|done]; rewrite K; naive_solver|].
    intros j. rewrite Hst, elem_of_cons, K. destruct (Z.eqb_spec j i) as [->|]; naive_solver.
Qed.

Lemma give_snap i :
  i ∈ snaps -> (forall j, st' j = if j =? i then Some StFree else st j) ->
  ownership ma tot st' mf (sf ++ [i]) act (erase1 i snaps).
Proof.
  intros Hin Hst. destruct Hown as [[N1 F] A O J [N2 G] [N3 K]].
  pose proof (proj1 (K i) Hin) as [Hi Hiu].
  split; try done.
  - split; [done|]. intros j. rewrite Hst, F. destruct (Z.eqb_spec j i); [|done]. split; intros [? ?]; lia.
  - intros j Hj. rewrite Hst, <- A by done. destruct (Z.eqb_spec j i); [lia|done].
  - split.
    + apply NoDup_app. split_and!; [done| |apply NoDup_singleton]. intros j Hj ->%list_elem_of_singleton.
      apply G in Hj as [_ ?]. congruence.
    + intros j. rewrite Hst, elem_of_app, list_elem_of_singleton, G. destruct (Z.eqb_spec j i); naive_solver.
  - split; [by apply NoDup_erase1|]. intros j. rewrite elem_of_erase1, K, Hst by done.
    destruct (Z.eqb_spec j i); naive_solver.
Qed.
End ownership.

Section pool_inv.
Context {D : Type} `{!Backend D} `{!BackendLaws D} `{!Ccop}.

Definition total (p : StatePool) : Z := max_active_ p + max_snapshots_ p.

Definition status_of (p : StatePool) (i : Z) : option StateStatus := state_status <$> at_Z (states_ p) i.

Definition meta (p : StatePool) (i : Z) (st : StateStatus) : State :=
  mkState i (if i <? max_active_ p then Mutable else Snapshot) st.

Record pool_ok (snaps : list Z) (p : StatePool) : Prop := mk_pool_ok {
  po_sizes : 0 < max_active_ p /\ 0 <= max_snapshots_ p;
  po_storage : num_states_ (storage_ p) = total p;
  po_states : forall i, 0 <= i < total p -> exists st, at_Z (states_ p) i = Some (meta p i st);
  po_own : ownership (max_active_ p) (total p) (status_of p) (mutable_free_list_ p)
             (snapshot_free_list_ p) (active_by_seq_ p) snaps;
}.

Lemma meta_of snaps p i st :
  pool_ok snaps p -> 0 <= i < total p -> status_of p i = Some st -> at_Z (states_ p) i = Some (meta p i st).
Proof.
  intros Hp Hi Hs. destruct (po_states _ _ Hp i Hi) as [st' E]. unfold status_of in Hs. rewrite E in Hs |- *.
  simpl in Hs. by simplify_eq.
Qed.

(** A method changed the status of state [i] and who owns it. *)
Lemma pool_ok_change snaps snaps' p i st mf sf act :
  pool_ok snaps p -> 0 <= i < total p ->
  (forall st', (forall j, st' j = if j =? i then Some st else status_of p j) ->
     ownership (max_active_ p) (total p) st' mf sf act snaps') ->
  pool_ok snaps' (mkStatePool _ (storage_ p) (set_Z (states_ p) i (meta p i st)) (max_active_ p)
                    (max_snapshots_ p) mf sf act).
Proof.
  intros Hp Hi Hown. destruct (po_states _ _ Hp i Hi) as [st0 E0]. apply at_Z_Some in E0 as [Hr _].
  split; simpl. { exact (po_sizes _ _ Hp). } { exact (po_storage _ _ Hp). }
  - intros j Hj. destruct (decide (j = i)) as [->|Hne]; [exists st; by rewrite at_set_Z_eq|].
    rewrite at_set_Z_ne by done. by apply (po_states _ _ Hp).
  - apply Hown. intros j. unfold status_of. simpl.
    destruct (Z.eqb_spec j i) as [->|Hne]; [by rewrite at_set_Z_eq|]. by rewrite at_set_Z_ne.
Qed.

(** Rotating the free list, as a failed zeroing does. *)
Lemma pool_ok_rotate snaps p i rest :
  pool_ok snaps p -> mutable_free_list_ p = i :: rest -> pool_ok snaps (set_mutable_free (rest ++ [i]) p).
Proof.
  intros Hp Hfl. destruct Hp as [Hs Ht Hm [[N F] A O J G K]]. rewrite Hfl in N, F.
  split; simpl; try done. split; simpl; try done. assert (rest ++ [i] ≡ₚ i :: rest) as Hperm
    by (rewrite Permutation_app_comm; done).
  split; [by rewrite Hperm|]. intros j. rewrite <- F. by rewrite Hperm.
Qed.

(** ** What the methods do *)

(** The parts of a pool that no method changes. *)
Definition same_geometry (p p' : StatePool) : Prop :=
  storage_ p' = storage_ p /\ max_active_ p' = max_active_ p /\ max_snapshots_ p' = max_snapshots_ p.

Lemma acquire_active_run snaps p d seq :
  pool_ok snaps p -> storage_ok (storage_ p) d ->
  exists r p' d', acquire_active seq p d = Some (r, p', d') /\ pool_ok snaps p' /\
    same_geometry p p' /\ snapshot_free_list_ p' = snapshot_free_list_ p /\
    match active_by_seq_ p !! seq, mutable_free_list_ p with
    | Some _, _ => r = Value tt /\ p' = p /\ d' = d
    | None, [] => r = Unexpected MaxSequencesReached /\ p' = p /\ d' = d
    | None, i :: rest =>
        0 <= i < max_active_ p /\ (forall s, active_by_seq_ p !! s <> Some i) /\
        wrote_state (storage_ p) i (zeros (storage_ p)) d d' (succeeded r) /\
        active_by_seq_ p' = if succeeded r then <[seq := i]> (active_by_seq_ p) else active_by_seq_ p
    end.
Proof.
  intros Hp Hs. unfold acquire_active. destruct (active_by_seq_ p !! seq) as [i0|] eqn:Hseq.
  { rewrite bool_decide_eq_true_2 by eauto. exists (Value tt), p, d. by split_and!. }
  rewrite bool_decide_eq_false_2 by (by intros [? ?]).
  destruct (mutable_free_list_ p) as [|i rest] eqn:Hfl.
  { exists (Unexpected MaxSequencesReached), p, d. by split_and!. }
  pose proof (po_own _ _ Hp) as Hown. pose proof (po_sizes _ _ Hp) as Hsz.
  assert (0 <= i < max_active_ p /\ status_of p i = Some StFree) as [Hi Hif]
    by (apply (ow_free _ _ _ _ _ _ _ Hown); rewrite Hfl; by left).
  assert (0 <= i < total p) as Hit by (unfold total; lia).
  rewrite (meta_of _ _ _ _ Hp Hit Hif). unfold mbind, option_bind, meta.
  destruct (Z.ltb_spec i (max_active_ p)) as [_|]; [|lia]. simpl.
  destruct (dwp_zero_state (storage_ p) i d Hs) as (r & d1 & E & W); [rewrite (po_storage _ _ Hp); done|].
  rewrite E. assert (forall s, active_by_seq_ p !! s <> Some i) as Hun.
  { intros s Hs'. assert (status_of p i = Some StInUse) by (apply (ow_active _ _ _ _ _ _ _ Hown); eauto).
    congruence. }
  destruct r as [[]|e]; simpl; eexists _, _, _; (split; [done|]); (split; [|split_and!; try done; try lia]).
  - pose proof (pool_ok_change snaps snaps p i StInUse rest (snapshot_free_list_ p)
      (<[seq := i]> (active_by_seq_ p)) Hp Hit) as Hc. unfold meta in Hc.
    destruct (Z.ltb_spec i (max_active_ p)); [|lia]. apply Hc. intros st' Hst'.
    rewrite Hfl in Hown. by eapply (take_mutable (max_active_ p) (total p)); first [exact Hown | unfold total; lia | idtac].
  - exact (pool_ok_rotate snaps p i rest Hp Hfl).
Qed.

Lemma release_active_run snaps p (d : D) seq :
  pool_ok snaps p ->
  exists p', release_active seq p d = Some (Value tt, p', d) /\ pool_ok snaps p' /\ same_geometry p p' /\
    snapshot_free_list_ p' = snapshot_free_list_ p /\ active_by_seq_ p' = delete seq (active_by_seq_ p).
Proof.
  intros Hp. unfold release_active. destruct (active_by_seq_ p !! seq) as [i|] eqn:Hseq.
  2: { exists p. split_and!; try done. by rewrite delete_id. }
  pose proof (po_own _ _ Hp) as Hown. pose proof (po_sizes _ _ Hp) as Hsz.
  pose proof (ow_owner _ _ _ _ _ _ _ Hown _ _ Hseq) as Hi.
  assert (status_of p i = Some StInUse) as Hiu by (apply (ow_active _ _ _ _ _ _ _ Hown); eauto).
  assert (0 <= i < total p) as Hit by (unfold total; lia).
  destruct (Z.leb_spec 0 i); [|lia]. destruct (Z.ltb_spec i (max_active_ p)) as [Hlt|]; [|lia]. simpl.
  rewrite (meta_of _ _ _ _ Hp Hit Hiu). unfold meta.
  destruct (Z.ltb_spec i (max_active_ p)) as [_|]; [|lia]. simpl.
  eexists. split; [done|]. split; [|by split_and!; try done; lia].
  pose proof (pool_ok_change snaps snaps p i StFree (mutable_free_list_ p ++ [i]) (snapshot_free_list_ p)
    (delete seq (active_by_seq_ p)) Hp Hit) as Hc. unfold meta in Hc.
  destruct (Z.ltb_spec i (max_active_ p)); [|lia]. apply Hc. intros st' Hst'.
  by eapply (give_mutable (max_active_ p) (total p)); first [exact Hown | unfold total; lia | idtac].
Qed.

Lemma acquire_snapshot_run snaps p (d : D) :
  pool_ok snaps p ->
  match snapshot_free_list_ p with
  | [] => acquire_snapshot p d = Some (Unexpected MaxSequencesReached, p, d)
  | i :: rest => exists p', acquire_snapshot p d = Some (Value i, p', d) /\ pool_ok (i :: snaps) p' /\
      same_geometry p p' /\ active_by_seq_ p' = active_by_seq_ p /\ snapshot_free_list_ p' = rest /\
      max_active_ p <= i < total p
  end.
Proof.
  intros Hp. unfold acquire_snapshot. destruct (snapshot_free_list_ p) as [|i rest] eqn:Hfl; [done|].
  pose proof (po_own _ _ Hp) as Hown. pose proof (po_sizes _ _ Hp) as Hsz.
  assert (max_active_ p <= i < total p /\ status_of p i = Some StFree) as [Hi Hif]
    by (apply (ow_snap_free _ _ _ _ _ _ _ Hown); rewrite Hfl; by left).
  assert (0 <= i < total p) as Hit by lia.
  rewrite (meta_of _ _ _ _ Hp Hit Hif). unfold meta.
  destruct (Z.ltb_spec i (max_active_ p)) as [|Hge]; [lia|]. simpl.
  eexists. split; [done|]. split; [|by split_and!; try done; lia].
  pose proof (pool_ok_change snaps (i :: snaps) p i StInUse (mutable_free_list_ p) rest
    (active_by_seq_ p) Hp Hit) as Hc. unfold meta in Hc.
  destruct (Z.ltb_spec i (max_active_ p)); [lia|]. apply Hc. intros st' Hst'.
  rewrite Hfl in Hown. by eapply (take_snap (max_active_ p) (total p)); first [exact Hown | unfold total; lia | idtac].
Qed.

Lemma release_snapshot_run snaps p (d : D) i :
  pool_ok snaps p -> i ∈ snaps ->
  exists p', release_snapshot i p d = Some (Value tt, p', d) /\ pool_ok (erase1 i snaps) p' /\
    same_geometry p p' /\ active_by_seq_ p' = active_by_seq_ p /\
    snapshot_free_list_ p' = snapshot_free_list_ p ++ [i].
Proof.
  intros Hp Hin. unfold release_snapshot, snapshot_range.
  pose proof (po_own _ _ Hp) as Hown. pose proof (po_sizes _ _ Hp) as Hsz.
  assert (max_active_ p <= i < total p /\ status_of p i = Some StInUse) as [Hi Hiu]
    by (by apply (ow_snaps _ _ _ _ _ _ _ Hown)).
  assert (0 <= i < total p) as Hit by lia. unfold total in Hi.
  destruct (Z.ltb_spec i (max_active_ p)) as [|Hge]; [lia|].
  destruct (Z.leb_spec (max_active_ p + max_snapshots_ p) i); [lia|]. simpl.
  rewrite (meta_of _ _ _ _ Hp Hit Hiu). unfold meta.
  destruct (Z.ltb_spec i (max_active_ p)) as [|_]; [lia|]. simpl.
  eexists. split; [done|]. split; [|by split_and!; try done; lia].
  pose proof (pool_ok_change snaps (erase1 i snaps) p i StFree (mutable_free_list_ p)
    (snapshot_free_list_ p ++ [i]) (active_by_seq_ p) Hp Hit) as Hc. unfold meta in Hc.
  destruct (Z.ltb_spec i (max_active_ p)); [lia|]. apply Hc. intros st' Hst'.
  by eapply (give_snap (max_active_ p) (total p)); first [exact Hown | unfold total; lia | idtac].
Qed.
End pool_inv.

(** ** [StateCache] *)

Record StateCacheEntry := mkStateCacheEntry {
  prefix_hash : Z;
  frontier_block_index : Z;
  entry_state_id : Z;
}.

(** [sc_entries_] is the list of nodes, [sc_node] what each holds. *)
Record StateCache := mkStateCache {
  frontier_depth_ : Z;
  sc_entries_ : list Z;
  sc_node : gmap Z StateCacheEntry;
  sc_next : Z;
  lru_ : list Z;
  sc_by_hash_ : gmap Z Z;
  sc_hits_ : Z;
  sc_misses_ : Z;
  sc_evictions_ : Z;
}.

Record StateCacheStats := mkStateCacheStats {
  sc_stat_hits : Z; sc_stat_misses : Z; sc_stat_evictions : Z; cached_snapshots : Z }.

Definition new_state_cache (frontier_depth : Z) : option StateCache :=
  ASSERT (0 <=? frontier_depth) ;; Some (mkStateCache frontier_depth [] ∅ 0 [] ∅ 0 0 0).

Section cache.
Context {D : Type} `{Backend D} `{Ccop}.

Definition has (c : StateCache) (h : Z) : bool := bool_decide (is_Some (sc_by_hash_ c !! h)).

Definition kInvalidStateId : Z := -1.

Definition state_id_of (c : StateCache) (h : Z) : option Z :=
  match sc_by_hash_ c !! h with
  | None => Some kInvalidStateId
  | Some n => e ← sc_node c !! n; Some (entry_state_id e)
  end.

Definition is_in_lru (c : StateCache) (n : Z) : bool := bool_decide (n ∈ lru_ c).

Definition erase_state_entry (n : Z) (c : StateCache) : option StateCache :=
  e ← sc_node c !! n;
  Some (mkStateCache (frontier_depth_ c) (erase1 n (sc_entries_ c)) (delete n (sc_node c)) (sc_next c)
          (if is_in_lru c n then erase1 n (lru_ c) else lru_ c) (delete (prefix_hash e) (sc_by_hash_ c))
          (sc_hits_ c) (sc_misses_ c) (sc_evictions_ c)).

Definition count_state_eviction (c : StateCache) : StateCache :=
  mkStateCache (frontier_depth_ c) (sc_entries_ c) (sc_node c) (sc_next c) (lru_ c) (sc_by_hash_ c)
    (sc_hits_ c) (sc_misses_ c) (u64 (sc_evictions_ c + 1)).

Definition evict_one_state (c : StateCache) (p : StatePool) (d : D)
  : option (bool * StateCache * StatePool * D) :=
  match lru_ c with
  | [] => Some (false, c, p, d)
  | front :: _ =>
      victim ← sc_node c !! front;
      n ← sc_by_hash_ c !! prefix_hash victim;
      c ← erase_state_entry n c;
      '(_, p, d) ← release_snapshot (entry_state_id victim) p d;
      Some (true, count_state_eviction c, p, d)
  end.

(** The end of [StateCache::snapshot]: the new entry. *)
Definition add_state_entry (h frontier_block snapshot_state : Z) (c : StateCache) : StateCache :=
  let n := sc_next c in
  mkStateCache (frontier_depth_ c) (sc_entries_ c ++ [n])
    (<[n := mkStateCacheEntry h frontier_block snapshot_state]> (sc_node c)) (n + 1) (lru_ c ++ [n])
    (if has c h then sc_by_hash_ c else <[h := n]> (sc_by_hash_ c))
    (sc_hits_ c) (sc_misses_ c) (sc_evictions_ c).

Definition snapshot (h frontier_block active_state : Z) (c : StateCache) (p : StatePool) (d : D)
  : option (Result unit * StateCache * StatePool * D) :=
  if (frontier_block <? 0) || (frontier_depth_ c <=? frontier_block) then Some (Unexpected InvalidArgument, c, p, d)
  else if has c h then Some (Value tt, c, p, d)
  else
    '(room, c, p, d) ← (if num_free_snapshots p =? 0 then evict_one_state c p d else Some (true, c, p, d));
    if negb room then Some (Unexpected MaxSequencesReached, c, p, d)
    else
      '(r, p, d) ← acquire_snapshot p d;
      match r with
      | Unexpected e => Some (Unexpected e, c, p, d)
      | Value snapshot_state =>
          '(r, p, d) ← copy_active_to_snapshot active_state snapshot_state p d;
          match r with
          | Unexpected e =>
              '(_, p, d) ← release_snapshot snapshot_state p d;
              Some (Unexpected e, c, p, d)
          | Value _ => Some (Value tt, add_state_entry h frontier_block snapshot_state c, p, d)
          end
      end.

(** [lru_.splice(lru_.end(), lru_, node)]. *)
Definition touch (n : Z) (c : StateCache) : StateCache :=
  mkStateCache (frontier_depth_ c) (sc_entries_ c) (sc_node c) (sc_next c)
    (if is_in_lru c n then erase1 n (lru_ c) ++ [n] else lru_ c) (sc_by_hash_ c)
    (u64 (sc_hits_ c + 1)) (sc_misses_ c) (sc_evictions_ c).

Definition count_miss (c : StateCache) : StateCache :=
  mkStateCache (frontier_depth_ c) (sc_entries_ c) (sc_node c) (sc_next c) (lru_ c) (sc_by_hash_ c)
    (sc_hits_ c) (u64 (sc_misses_ c + 1)) (sc_evictions_ c).

Definition restore (h active_state : Z) (c : StateCache) (p : StatePool) (d : D)
  : option (Result unit * StateCache * StatePool * D) :=
  match sc_by_hash_ c !! h with
  | None => Some (Unexpected InvalidArgument, count_miss c, p, d)
  | Some n =>
      e ← sc_node c !! n;
      '(r, p, d) ← restore_snapshot_to_active (entry_state_id e) active_state p d;
      Some (r, touch n c, p, d)
  end.

(** The destructor: releases every snapshot. *)
Fixpoint release_entries (nodes : list Z) (c : StateCache) (p : StatePool) (d : D) : option (StatePool * D) :=
  match nodes with
  | [] => Some (p, d)
  | n :: nodes =>
      e ← sc_node c !! n;
      '(_, p, d) ← release_snapshot (entry_state_id e) p d;
      release_entries nodes c p d
  end.

Definition destroy_state_cache (c : StateCache) (p : StatePool) (d : D) : option (StatePool * D) :=
  release_entries (sc_entries_ c) c p d.

Definition state_cache_size (c : StateCache) : Z := Z.of_nat (size (sc_by_hash_ c)).
Definition num_idle (c : StateCache) : Z := size_Z (lru_ c).
Definition state_cache_stats (c : StateCache) : StateCacheStats :=
  mkStateCacheStats (sc_hits_ c) (sc_misses_ c) (sc_evictions_ c) (size_Z (sc_entries_ c)).
End cache.

(** ** The cache's invariant *)

Section cache_inv.
Context {D : Type} `{!Backend D} `{!BackendLaws D} `{!Ccop}.

(** The snapshots the cache owns. *)
Definition owned (c : StateCache) : list Z := omap (fun n => entry_state_id <$> sc_node c !! n) (lru_ c).

Record cache_ok (c : StateCache) : Prop := mk_cache_ok {
  co_depth : 0 <= frontier_depth_ c;
  co_lru : NoDup (lru_ c) /\ forall n, n ∈ lru_ c <-> is_Some (sc_node c !! n);
  co_list : sc_entries_ c ≡ₚ lru_ c;
  co_hash : forall h n, sc_by_hash_ c !! h = Some n <-> exists e, sc_node c !! n = Some e /\ prefix_hash e = h;
  co_next : forall n, is_Some (sc_node c !! n) -> n < sc_next c;
}.

Record states_ok (c : StateCache) (p : StatePool) (d : D) : Prop := mk_states_ok {
  sk_cache : cache_ok c;
  sk_pool : pool_ok (owned c) p;
  sk_storage : storage_ok (storage_ p) d;
}.

(** What is cached under [h]. *)
Definition cached (c : StateCache) (p : StatePool) (d : D) (h : Z) : option (list (list Z)) :=
  n ← sc_by_hash_ c !! h; e ← sc_node c !! n; Some (content (storage_ p) d (entry_state_id e)).

Lemma cache_ok_erase c n e c' :
  cache_ok c -> sc_node c !! n = Some e -> erase_state_entry n c = Some c' ->
  cache_ok c' /\ owned c ≡ₚ entry_state_id e :: owned c' /\ lru_ c' = erase1 n (lru_ c) /\
  (forall h, sc_by_hash_ c' !! h = if h =? prefix_hash e then None else sc_by_hash_ c !! h) /\
  (forall m, m <> n -> sc_node c' !! m = sc_node c !! m) /\ frontier_depth_ c' = frontier_depth_ c.
Proof.
  intros [Hd [Hnd Hl] Hp Hh Hn] He Herase. unfold erase_state_entry in Herase. rewrite He in Herase. simpl in Herase.
  assert (n ∈ lru_ c) as Hin by (apply Hl; eauto).
  unfold is_in_lru in Herase. rewrite bool_decide_eq_true_2 in Herase by done. simplify_eq. simpl.
  assert (forall h m, delete (prefix_hash e) (sc_by_hash_ c) !! h = Some m <->
    exists e', delete n (sc_node c) !! m = Some e' /\ prefix_hash e' = h) as Hh'.
  { intros h m. rewrite lookup_delete_Some, Hh. split.
    - intros (Hne & e' & Hm & Hph). exists e'. split; [|done]. rewrite lookup_delete_ne; [done|]. congruence.
    - intros (e' & [Hne Hm]%lookup_delete_Some & <-). split; [|eauto]. intros E.
      assert (sc_by_hash_ c !! prefix_hash e = Some m) as H1 by (apply Hh; eauto).
      assert (sc_by_hash_ c !! prefix_hash e = Some n) as H2 by (apply Hh; eauto). congruence. }
  split_and!; try done.
  - split; simpl; try done.
    + split; [by apply NoDup_erase1|]. intros m. rewrite elem_of_erase1, Hl by done.
      destruct (decide (m = n)) as [->|Hne]; [rewrite lookup_delete_eq|rewrite lookup_delete_ne by done];
        [split; [naive_solver|intros [? ?]; done]|naive_solver].
    + rewrite (erase1_perm n (sc_entries_ c)) in Hp by (by rewrite Hp).
      rewrite (erase1_perm n (lru_ c)) in Hp by done. by apply Permutation_cons_inv in Hp.
    + intros m [e' [_ Hm]%lookup_delete_Some]. apply Hn. eauto.
  - unfold owned. simpl. rewrite (erase1_perm n (lru_ c)) at 1 by done. simpl. rewrite He. simpl.
    apply Permutation_skip. apply reflexive_eq, list_omap_ext. apply Forall2_same_length_lookup. split; [done|].
    intros k x y Hx Hy. simplify_eq. apply list_elem_of_lookup_2 in Hx.
    apply elem_of_erase1 in Hx as [_ Hne]; [|done]. by rewrite lookup_delete_ne.
  - intros h. destruct (Z.eqb_spec h (prefix_hash e)) as [->|Hne]; [by rewrite lookup_delete_eq|].
    by rewrite lookup_delete_ne.
  - intros m Hm. by rewrite lookup_delete_ne.
Qed.

Lemma same_cached c c' p p' (d : D) h :
  storage_ p' = storage_ p -> sc_by_hash_ c' !! h = sc_by_hash_ c !! h ->
  (forall n, sc_by_hash_ c !! h = Some n -> sc_node c' !! n = sc_node c !! n) ->
  cached c' p' d h = cached c p d h.
Proof.
  intros Hs Hb Hn. unfold cached. rewrite Hb, Hs. destruct (sc_by_hash_ c !! h) as [n|] eqn:E; [|done].
  simpl. by rewrite Hn.
Qed.

Lemma pool_ok_perm snaps snaps' p : snaps ≡ₚ snaps' -> pool_ok snaps p -> pool_ok snaps' p.
Proof.
  intros Hp [A B C [E F G K L [N M]]]. split; try done. split; try done.
  split; [by rewrite <- Hp|]. intros i. by rewrite <- Hp.
Qed.

Lemma owned_node c n e : cache_ok c -> sc_node c !! n = Some e -> entry_state_id e ∈ owned c.
Proof.
  intros Hc He. apply list_elem_of_omap. exists n. split; [apply (co_lru _ Hc); eauto|]. by rewrite He.
Qed.

(** Eviction drops the least recently used snapshot and gives its state back. *)
Lemma evict_one_state_run c p (d : D) :
  states_ok c p d ->
  match lru_ c with
  | [] => evict_one_state c p d = Some (false, c, p, d)
  | n :: rest => exists e c' p', sc_node c !! n = Some e /\
      evict_one_state c p d = Some (true, c', p', d) /\ states_ok c' p' d /\
      same_geometry p p' /\ active_by_seq_ p' = active_by_seq_ p /\ frontier_depth_ c' = frontier_depth_ c /\
      snapshot_free_list_ p' = snapshot_free_list_ p ++ [entry_state_id e] /\ lru_ c' = rest /\
      sc_by_hash_ c' !! prefix_hash e = None /\
      forall h, h <> prefix_hash e -> has c' h = has c h /\ cached c' p' d h = cached c p d h
  end.
Proof.
  intros [Hc Hp Hs]. unfold evict_one_state. destruct (lru_ c) as [|n rest] eqn:Hl; [done|].
  assert (is_Some (sc_node c !! n)) as [e He] by (apply (co_lru _ Hc); rewrite Hl; by left).
  assert (sc_by_hash_ c !! prefix_hash e = Some n) as Hb by (apply (co_hash _ Hc); eauto).
  assert (exists c', erase_state_entry n c = Some c') as [c' Hc'] by (unfold erase_state_entry; rewrite He; eauto).
  destruct (cache_ok_erase c n e c' Hc He Hc') as (Hok & Hperm & Hlru & Hby & Hnode & Hdep).
  pose proof (owned_node _ _ _ Hc He) as Hin.
  destruct (release_snapshot_run (owned c) p d (entry_state_id e) Hp Hin) as (p' & Hrel & Hp' & Hg & Ha & Hsf).
  exists e, (count_state_eviction c'), p'. rewrite He. simpl. rewrite Hb. simpl. rewrite Hc'. simpl. rewrite Hrel. simpl.
  split_and!; try done.
  - split; [by destruct Hok; split| |].
    + eapply pool_ok_perm; [|exact Hp']. change (owned (count_state_eviction c')) with (owned c').
      rewrite (erase1_perm _ _ Hin) in Hperm. by apply Permutation_cons_inv in Hperm.
    + destruct Hg as (-> & _). done.
  - simpl. rewrite Hlru, Hl. simpl. by rewrite decide_True.
  - simpl. by rewrite Hby, Z.eqb_refl.
  - intros h Hne. unfold has. simpl. rewrite Hby. destruct (Z.eqb_spec h (prefix_hash e)); [done|]. split; [done|].
    apply same_cached; simpl; [by destruct Hg|rewrite Hby; by destruct (Z.eqb_spec h (prefix_hash e))|].
    intros m Hm. apply Hnode. intros ->. apply (co_hash _ Hc) in Hm as (e' & He' & ?). congruence.
Qed.

Lemma add_entry_ok c p (d : D) h fb i :
  cache_ok c -> pool_ok (i :: owned c) p -> storage_ok (storage_ p) d -> has c h = false ->
  states_ok (add_state_entry h fb i c) p d /\
  cached (add_state_entry h fb i c) p d h = Some (content (storage_ p) d i) /\
  forall h', h' <> h -> has (add_state_entry h fb i c) h' = has c h' /\
                        cached (add_state_entry h fb i c) p d h' = cached c p d h'.
Proof.
  intros Hc Hp Hs Hno. pose proof Hc as [Hd [Hnd Hl] Hperm Hh Hn].
  assert (sc_node c !! sc_next c = None) as Hfresh.
  { destruct (sc_node c !! sc_next c) eqn:E; [|done]. assert (sc_next c < sc_next c) by (apply Hn; eauto). lia. }
  assert (sc_next c ∉ lru_ c) as Hnin by (intros [? Hin]%Hl; congruence).
  assert (sc_by_hash_ c !! h = None) as Hb.
  { unfold has in Hno. apply bool_decide_eq_false in Hno. by apply eq_None_not_Some. }
  unfold add_state_entry. rewrite Hno. set (e := mkStateCacheEntry h fb i). split_and!.
  - split; [split; simpl; try done| |done].
    + split; [apply NoDup_app; split_and!; [done|by intros m Hm ->%list_elem_of_singleton|apply NoDup_singleton]|].
      intros m. rewrite elem_of_app, list_elem_of_singleton, Hl.
      destruct (decide (m = sc_next c)) as [->|Hne]; [rewrite lookup_insert_eq|rewrite lookup_insert_ne by done];
        naive_solver.
    + by rewrite Hperm.
    + intros h' m. destruct (decide (h' = h)) as [->|Hne].
      * rewrite lookup_insert_eq. split.
        -- intros [= <-]. exists e. by rewrite lookup_insert_eq.
        -- intros (e' & [[<- <-]|[Hm He']]%lookup_insert_Some & Hph); [done|].
           assert (sc_by_hash_ c !! h = Some m) by (apply Hh; eauto). congruence.
      * rewrite lookup_insert_ne, Hh by done. split; intros (e' & He' & Hph); exists e'; (split; [|done]).
        -- rewrite lookup_insert_ne; [done|]. intros <-. congruence.
        -- apply lookup_insert_Some in He' as [[_ <-]|[_ ?]]; [by destruct Hne|done].
    + intros m [e' [[<- _]|[_ Hm]]%lookup_insert_Some]; [lia|]. assert (m < sc_next c) by (apply Hn; eauto). lia.
    + eapply pool_ok_perm; [|exact Hp]. unfold owned. simpl. rewrite omap_app. simpl. rewrite lookup_insert_eq. simpl.
      rewrite (Permutation_app_comm _ [i]). simpl. apply Permutation_skip, reflexive_eq, list_omap_ext.
      apply Forall2_same_length_lookup. split; [done|]. intros k x y Hx Hy. simplify_eq.
      apply list_elem_of_lookup_2 in Hx. rewrite lookup_insert_ne; [done|]. by intros <-.
  - unfold cached. simpl. rewrite lookup_insert_eq. simpl. by rewrite lookup_insert_eq.
  - intros h' Hne. unfold has. simpl. rewrite lookup_insert_ne by done. split; [done|].
    apply same_cached; simpl; [done|by rewrite lookup_insert_ne|]. intros m Hm.
    apply Hh in Hm as (e' & Hm & _). rewrite lookup_insert_ne; [done|]. intros <-. congruence.
Qed.

(** Every cached hash but [h] keeps its contents, or was evicted. *)
Definition others_kept (h : Z) (victim : option Z) (c c' : StateCache) (p p' : StatePool) (d d' : D) : Prop :=
  forall h', h' <> h -> Some h' <> victim -> cached c' p' d' h' = cached c p d h'.

Lemma cached_written c p (d d' : D) h i x ok :
  cache_ok c -> pool_ok (owned c) p -> i ∉ owned c -> wrote_state (storage_ p) i x d d' ok ->
  cached c p d' h = cached c p d h.
Proof.
  intros Hc Hp Hi [_ Ho _]. unfold cached. destruct (sc_by_hash_ c !! h) as [n|]; [|done]. simpl.
  destruct (sc_node c !! n) as [e|] eqn:He; [|done]. simpl. f_equal. apply Ho; [|intros E; apply Hi; rewrite <- E; by eapply owned_node].
  rewrite (po_storage _ _ Hp). pose proof (owned_node _ _ _ Hc He) as Hin.
  apply (ow_snaps _ _ _ _ _ _ _ (po_own _ _ Hp)) in Hin as [? _]. pose proof (po_sizes _ _ Hp). lia.
Qed.

(** The rest of [snapshot] once a snapshot state is free. *)
Lemma snapshot_with_room c p d h fb a i rest :
  states_ok c p d -> has c h = false -> 0 <= a < max_active_ p -> snapshot_free_list_ p = i :: rest ->
  exists r c' p' d',
    ('(r, p, d) ← acquire_snapshot p d;
     match r with
     | Unexpected e => Some (Unexpected e, c, p, d)
     | Value snapshot_state =>
         '(r, p, d) ← copy_active_to_snapshot a snapshot_state p d;
         match r with
         | Unexpected e =>
             '(_, p, d) ← release_snapshot snapshot_state p d;
             Some (Unexpected e, c, p, d)
         | Value _ => Some (Value tt, add_state_entry h fb snapshot_state c, p, d)
         end
     end) = Some (r, c', p', d') /\ states_ok c' p' d' /\
    same_geometry p p' /\ active_by_seq_ p' = active_by_seq_ p /\
    (forall j, 0 <= j < max_active_ p -> content (storage_ p) d' j = content (storage_ p) d j) /\
    cached c' p' d' h = (if succeeded r then Some (content (storage_ p) d a) else None) /\
    others_kept h None c c' p p' d d'.
Proof.
  intros [Hc Hp Hs] Hno Ha Hfl. pose proof (acquire_snapshot_run (owned c) p d Hp) as Hacq. rewrite Hfl in Hacq.
  destruct Hacq as (p1 & E1 & Hp1 & (G1 & G2 & G3) & A1 & F1 & Hi). rewrite E1. simpl.
  pose proof (po_sizes _ _ Hp) as Hsz. unfold total in Hi.
  assert (i ∉ owned c) as Hni.
  { pose proof (ow_snaps _ _ _ _ _ _ _ (po_own _ _ Hp1)) as [Hnd _]. by apply NoDup_cons in Hnd as [? _]. }
  unfold copy_active_to_snapshot at 1, snapshot_range. rewrite G2, G3, G1.
  destruct (Z.ltb_spec a 0); [lia|]. destruct (Z.leb_spec (max_active_ p) a); [lia|]. simpl.
  destruct (Z.ltb_spec i (max_active_ p)); [lia|].
  destruct (Z.leb_spec (max_active_ p + max_snapshots_ p) i); [lia|]. simpl.
  destruct (dwp_copy_state (storage_ p) a i d Hs) as (r & d' & E2 & W);
    [rewrite (po_storage _ _ Hp); unfold total; lia|rewrite (po_storage _ _ Hp); unfold total; lia|lia|].
  rewrite E2. simpl.
  assert (forall h', cached c p d' h' = cached c p d h') as Hkeep by (intros; by eapply cached_written).
  assert (forall j, 0 <= j < max_active_ p -> content (storage_ p) d' j = content (storage_ p) d j) as Hact.
  { intros j Hj. apply (ws_other _ _ _ _ _ _ W); [rewrite (po_storage _ _ Hp); unfold total|]; lia. }
  assert (cached c p d h = None) as Hnone.
  { unfold cached, has in *. apply bool_decide_eq_false, eq_None_not_Some in Hno. by rewrite Hno. }
  assert (storage_ok (storage_ p1) d') as Hs' by (rewrite G1; by eapply ws_ok).
  destruct r as [[]|e]; simpl.
  - destruct (add_entry_ok c p1 d' h fb i Hc Hp1 Hs' Hno) as (Hok & Hh & Hoth).
    eexists _, _, _, _. split; [done|]. split_and!; try done.
    + rewrite Hh, G1. f_equal. by apply (ws_written _ _ _ _ _ _ W).
    + intros h' Hne _. rewrite (proj2 (Hoth h' Hne)). rewrite <- Hkeep. unfold cached. by rewrite G1.
  - assert (i ∈ i :: owned c) as Hin by left.
    destruct (release_snapshot_run (i :: owned c) p1 d' i Hp1 Hin) as (p2 & E3 & Hp2 & (K1 & K2 & K3) & A2 & F2).
    rewrite E3. simpl. simpl in Hp2. rewrite decide_True in Hp2 by done.
    assert (forall h', cached c p2 d' h' = cached c p d h') as Hkeep2.
    { intros h'. rewrite <- Hkeep. unfold cached. by rewrite K1, G1. }
    eexists _, _, _, _. split; [done|]. split; [split; [done|done|]|].
    { rewrite K1, G1. by eapply ws_ok. }
    split; [unfold same_geometry; split_and!; congruence|]. split; [congruence|]. split; [done|].
    split; [by rewrite Hkeep2|]. intros h' _ _. apply Hkeep2.
Qed.
End cache_inv.
