(* ===== verification/StateProps.v ===== *)
(** * What the recurrent-state pool and its cache guarantee

    For every device that satisfies the memory laws, including one that fails. *)

From Stdlib Require Import ZArith Lia.
From stdpp Require Import prelude strings gmap fin_maps.
From S2P Require Import Prelude Base Config Device SimDevice State.

(** ** Creation *)

Section creation.
Context {D : Type} `{!Backend D} `{!BackendLaws D} `{!Ccop} `{!CcopLaws}.

(** A layer of [n] states full of zeros. *)
Definition zeroed (n : Z) (d : D) (t : Tensor) : Prop :=
  t_offset t = 0 /\ buf d (t_buffer t) = Some (repeat 0 (Z.to_nat (nbytes t))) /\
  0 < nbytes t /\ nbytes t = n * (nbytes t / n).

Lemma zeroed_keeps n d d' t : keeps_buffers d d' -> zeroed n d t -> zeroed n d' t.
Proof. intros Hk (A & B & C). split; [done|]. split; [by apply Hk|done]. Qed.

Lemma zeroed_only n b d d' t : only_buffer b d d' -> t_buffer t <> b -> zeroed n d t -> zeroed n d' t.
Proof. intros Ho Hne (A & B & C). split; [done|]. split; [|done]. by rewrite Ho. Qed.

Lemma splice_all {A} (l x : list A) : size_Z x = size_Z l -> splice l 0 x = x.
Proof.
  unfold splice, size_Z. intros E. simpl. rewrite drop_ge by lia. apply app_nil_r.
Qed.

Lemma layer_bytes n rest dtype :
  0 < n -> 0 < dtype_size dtype ->
  product (n :: rest) * dtype_size dtype = n * (product (n :: rest) * dtype_size dtype / n).
Proof.
  intros Hn Hd. simpl. replace (n * product rest * dtype_size dtype) with (product rest * dtype_size dtype * n) by lia.
  rewrite Z.div_mul by lia. lia.
Qed.

(** Allocating a layer. *)
Lemma dwp_new_layer n dtype rest d :
  0 < n -> 0 < dtype_size dtype <= SIZE_MAX -> Forall (fun x => x <= INT64_MAX) (n :: rest) ->
  dwp (empty_tensor dtype (n :: rest)) (fun r d' => keeps_buffers d d' /\
    match r with
    | Value t => buf d (t_buffer t) = None /\ t_offset t = 0 /\ 0 < nbytes t /\
        nbytes t = n * (nbytes t / n) /\ exists l, buf d' (t_buffer t) = Some l /\ size_Z l = nbytes t
    | Unexpected _ => True
    end) d.
Proof.
  intros Hn Hd Hf. eapply dwp_mono; [apply dwp_empty_tensor; [exact Hd|exact Hf]|]. intros r d' [Hk Hr].
  split; [done|].
  destruct r as [t|e]; [|done]. destruct Hr as ((_ & _ & Hp) & Ho & _ & _ & Hfr & l & Hl & Hsz & Hnb).
  split; [done|]. split; [done|]. split; [rewrite Hnb; pose proof (product_pos _ Hp); nia|].
  split; [rewrite Hnb; apply layer_bytes; lia|by exists l].
Qed.

(** Zeroing a whole new layer. *)
Lemma dwp_zero_layer n t ts l d :
  t_buffer t ∉ (t_buffer <$> ts) -> t_offset t = 0 -> 0 < nbytes t -> nbytes t = n * (nbytes t / n) ->
  buf d (t_buffer t) = Some l -> size_Z l = nbytes t -> Forall (zeroed n d) ts ->
  dwp (dev_bytes (nbytes t) (memset (t_buffer t) (t_offset t) 0 (nbytes t))) (fun r d' =>
    match r with Value _ => Forall (zeroed n d') (t :: ts) /\ only_buffer (t_buffer t) d d' | Unexpected _ => True end) d.
Proof.
  intros Hfr Ho Hge Hn Hl Hsz Hts. apply dwp_bytes; [done|]. intros r d' E. destruct r as [[]|e]; [|done].
  rewrite Ho in E. destruct (memset_ok (t_buffer t) 0 0 (nbytes t) d d' l Hl) as [Hl' Ho']; [|lia|done|].
  { unfold in_range. lia. }
  split; [|done]. constructor.
  - split_and!; try done. rewrite Hl', splice_all; [done|]. unfold size_Z in *. rewrite repeat_length. lia.
  - rewrite Forall_forall in Hts |- *. intros t' Ht'. eapply zeroed_only; [done| |by apply Hts].
    intros E'. apply Hfr. rewrite <- E'. by apply list_elem_of_fmap_2.
Qed.

Definition layers_good (n : Z) (d : D) (rec conv : list Tensor) : Prop :=
  NoDup (t_buffer <$> rec ++ conv) /\ Forall (zeroed n d) (rec ++ conv).

Lemma dwp_create_layers k n n_v head_k head_v conv_dim conv_len rec conv d :
  0 < n -> Forall (fun x => x <= INT64_MAX) [n; n_v; head_k; head_v; conv_dim; conv_len] ->
  layers_good n d rec conv ->
  dwp (create_layers k n n_v head_k head_v conv_dim conv_len rec conv) (fun r d' =>
    match r with Value (rec', conv') => layers_good n d' rec' conv' | Unexpected _ => True end) d.
Proof.
  intros Hn Hdim. revert rec conv d. induction k as [|k IH]; intros rec conv d [Hnd Hz]; simpl.
  { by apply dwp_ret. }
  assert (Forall (fun x => x <= INT64_MAX) [n; n_v; head_k; head_v] /\
          Forall (fun x => x <= INT64_MAX) [n; conv_dim; conv_len]) as [Hd1 Hd2].
  { rewrite !Forall_cons in *. naive_solver. }
  apply dwp_bind. eapply dwp_mono.
  { apply (dwp_new_layer n kFloat32 [n_v; head_k; head_v]); [done| |done].
    rewrite float32_size. unfold SIZE_MAX. lia. }
  intros [t1|e] d1 [K1 T1]; [|done]. destruct T1 as (F1 & O1 & P1 & N1 & l1 & B1 & S1).
  apply dwp_bind. eapply dwp_mono.
  { apply (dwp_new_layer n kBFloat16 [conv_dim; conv_len]); [done| |done].
    rewrite bfloat16_size. unfold SIZE_MAX. lia. }
  intros [t2|e] d2 [K2 T2]; [|done]. destruct T2 as (F2 & O2 & P2 & N2 & l2 & B2 & S2).
  assert (forall t, t ∈ rec ++ conv -> t_buffer t <> t_buffer t1 /\ t_buffer t <> t_buffer t2) as Hne.
  { intros t Ht. rewrite Forall_forall in Hz. destruct (Hz t Ht) as (_ & Hb & _).
    split; intros E; rewrite E in Hb; [congruence|]. apply K1 in Hb. congruence. }
  assert (t_buffer t2 <> t_buffer t1) as Hne12 by (intros E; rewrite E in F2; congruence).
  assert (Forall (zeroed n d2) (rec ++ conv)) as Hz2.
  { eapply Forall_impl; [exact Hz|]. intros t Ht. eapply zeroed_keeps; [exact K2|by eapply zeroed_keeps]. }
  apply dwp_bind. eapply dwp_mono.
  { apply (dwp_zero_layer n t1 (rec ++ conv) l1); try done; [|by apply K2].
    intros (t & E & Ht)%list_elem_of_fmap. by destruct (Hne t Ht). }
  intros [[]|e] d3; [|done]. intros [Hz3 Ho3]. apply dwp_bind. eapply dwp_mono.
  { apply (dwp_zero_layer n t2 (t1 :: rec ++ conv) l2); try done; [|by rewrite Ho3].
    rewrite fmap_cons. intros [E|(t & E & Ht)%list_elem_of_fmap]%elem_of_cons; [done|by destruct (Hne t Ht)]. }
  intros [[]|e] d4; [|done]. intros [Hz4 _]. apply IH.
  assert ((rec ++ [t1]) ++ conv ++ [t2] ≡ₚ t2 :: t1 :: rec ++ conv) as Hperm by solve_Permutation.
  split; [|by rewrite Hperm]. rewrite Hperm, !fmap_cons. apply NoDup_cons. split.
  - intros [E|(t & E & Ht)%list_elem_of_fmap]%elem_of_cons; [done|by destruct (Hne t Ht)].
  - apply NoDup_cons. split; [|done]. intros (t & E & Ht)%list_elem_of_fmap. by destruct (Hne t Ht).
Qed.

Lemma drop_repeat {A} (x : A) k m : drop k (repeat x m) = repeat x (m - k).
Proof. revert k. induction m as [|m IH]; intros [|k]; simpl; try done. Qed.

Lemma take_repeat {A} (x : A) k m : take k (repeat x m) = repeat x (k `min` m).
Proof. revert k. induction m as [|m IH]; intros [|k]; simpl; try done. by rewrite IH. Qed.

Lemma zeroed_storage n d rec conv k :
  0 < n < 2 ^ 64 -> layers_good n d rec conv ->
  let s := mkStateStorage _ rec conv k n in
  storage_ok s d /\ forall i, 0 <= i < n -> content s d i = zeros s.
Proof.
  intros Hn [Hnd Hz] s. rewrite Forall_forall in Hz.
  assert (forall t, t ∈ layers s -> layer_ok n d t) as Hok.
  { intros t Ht. destruct (Hz t Ht) as (Ho & Hb & Hp & Hd). split; [done|]. eexists. split; [exact Hb|].
    split; [unfold size_Z; rewrite repeat_length; lia|done]. }
  split; [by split|]. intros i Hi. apply list_fmap_ext. intros j t Ht. apply list_elem_of_lookup_2 in Ht.
  destruct (Hz t Ht) as (Ho & Hb & Hp & Hd). unfold layer_slice. rewrite Hb. simpl.
  assert (0 <= nbytes t / n) by (apply Z.div_pos; lia).
  unfold slice. rewrite drop_repeat, take_repeat. f_equal.
  assert (i * (nbytes t / n) + nbytes t / n <= nbytes t) by nia. lia.
Qed.

(** The sizes [StateStorage::create] computes fit [int]. *)
Definition state_dims_fit (config : ModelConfig) : Prop :=
  ssm_time_step_rank_ config <= INT_MAX /\ ssm_state_size_ config <= INT_MAX /\ is_Some (state_dims config).

Lemma state_dims_bounded config head_v conv_dim conv_len :
  state_dims config = Some (head_v, conv_dim, conv_len) ->
  head_v <= INT_MAX /\ conv_dim <= INT_MAX /\ conv_len <= INT_MAX.
Proof.
  unfold state_dims. destruct (_ =? 0); [done|]. intros E.
  repeat match type of E with
  | context [int_of ?x ≫= _] => destruct (int_of x) as [?|] eqn:?; [cbn [mbind option_bind] in E|done]
  end.
  injection E as <- <- <-.
  repeat match goal with H : int_of _ = Some _ |- _ => apply int_of_Some in H end. lia.
Qed.

Lemma dwp_create_storage config n d :
  n <= INT_MAX -> state_dims_fit config ->
  dwp (create_storage config n) (fun r d' =>
    match r with
    | Value s => num_states_ s = n /\ storage_ok s d' /\ forall i, 0 <= i < n -> content s d' i = zeros s
    | Unexpected _ => True
    end) d.
Proof.
  intros Hn Hdims. unfold create_storage. destruct (_ || _) eqn:Hg; [by apply dwp_error|]. bprop.
  destruct (_ <=? 0); [by apply dwp_error|]. destruct Hdims as (Hr & Hk & ([[hv cd] cl] & Ed)).
  apply dwp_bind, dwp_lift with (1 := Ed). apply dwp_bind. destruct (state_dims_bounded _ _ _ _ Ed) as (? & ? & ?).
  eapply dwp_mono; [apply dwp_create_layers; [lia| |]|].
  { unfold INT64_MAX, INT_MAX in *. repeat (apply Forall_cons; split; [lia|]). by apply Forall_nil. }
  { split; [apply NoDup_nil_2|by constructor]. }
  intros [[rec conv]|e] d1 Hgood; [|done]. apply dwp_bind, dwp_op. intros r d2 Hsync.
  destruct r as [[]|e]; [|done]. apply dwp_ret.
  assert (layers_good n d2 rec conv) as Hgood2.
  { destruct Hgood as [Hnd Hz]. split; [done|]. eapply Forall_impl; [exact Hz|]. intros t Ht.
    eapply zeroed_keeps; [|exact Ht]. apply same_keeps. by eapply synchronize_keeps. }
  destruct (zeroed_storage n d2 rec conv (count_gdn_layers config)) as [Hs Hc]; [unfold INT_MAX in *; lia|done|]. by split_and!.
Qed.

Lemma index_at n i : 0 <= i < n -> at_Z (map Z.of_nat (seq 0 (Z.to_nat n))) i = Some i.
Proof.
  intros Hi. unfold at_Z. destruct (Z.leb_spec 0 i); [|lia].
  rewrite list_lookup_fmap, lookup_seq_lt by lia. simpl. f_equal. lia.
Qed.

Lemma elem_of_index n i : i ∈ map Z.of_nat (seq 0 (Z.to_nat n)) <-> 0 <= i < n.
Proof.
  split.
  - intros (k & -> & Hk)%list_elem_of_fmap. apply elem_of_seq in Hk. lia.
  - intros Hi. apply list_elem_of_fmap. exists (Z.to_nat i). split; [lia|]. apply elem_of_seq. lia.
Qed.

Lemma NoDup_index n : NoDup (map Z.of_nat (seq 0 (Z.to_nat n))).
Proof. apply NoDup_fmap_2; [intros a b; lia|apply NoDup_seq]. Qed.

Lemma elem_of_filter_b (f : Z -> bool) l i : i ∈ List.filter f l <-> i ∈ l /\ f i = true.
Proof. rewrite !list_elem_of_In. apply List.filter_In. Qed.

Lemma NoDup_filter_b (f : Z -> bool) l : NoDup l -> NoDup (List.filter f l).
Proof. rewrite !NoDup_ListNoDup. apply List.NoDup_filter. Qed.

(** A pool whose states are all free. *)
Lemma fresh_pool_ok s ma ms :
  0 < ma -> 0 <= ms -> num_states_ s = ma + ms ->
  let ids := map Z.of_nat (seq 0 (Z.to_nat (ma + ms))) in
  pool_ok [] (mkStatePool _ s (map (new_state ma) ids) ma ms
    (List.filter (fun i => i <? ma) ids) (List.filter (fun i => negb (i <? ma)) ids) ∅).
Proof.
  intros Hma Hms Hs ids. set (p := mkStatePool _ _ _ _ _ _ _ _).
  assert (forall i, 0 <= i < ma + ms -> at_Z (states_ p) i = Some (new_state ma i)) as Hat.
  { intros i Hi. pose proof (index_at _ _ Hi) as E. fold ids in E. unfold at_Z in *.
    destruct (Z.leb_spec 0 i); [|lia]. simpl. by rewrite list_lookup_fmap, E. }
  assert (forall i, 0 <= i < ma + ms -> status_of p i = Some StFree) as Hst
    by (intros i Hi; unfold status_of; by rewrite Hat).
  split; simpl; [done|done| |].
  - intros i Hi. exists StFree. by apply Hat.
  - unfold total. simpl. split; try (intros *; by rewrite lookup_empty).
    + split; [apply NoDup_filter_b, NoDup_index|]. intros i. unfold ids. rewrite elem_of_filter_b, elem_of_index, Z.ltb_lt.
      split; [intros [? ?]; split; [lia|by apply Hst]|intros [? _]; lia].
    + intros i Hi. rewrite Hst by lia. split; [done|]. intros [seq Hseq]. by rewrite lookup_empty in Hseq.
    + split; [apply NoDup_filter_b, NoDup_index|]. intros i.
      unfold ids. rewrite elem_of_filter_b, elem_of_index, negb_true_iff, Z.ltb_ge.
      split; [intros [? ?]; split; [lia|apply Hst; lia]|intros [? _]; lia].
    + split; [apply NoDup_nil_2|]. intros i. split; [intros Hi; by apply elem_of_nil in Hi|].
      intros [Hi Hu]. rewrite Hst in Hu by lia. done.
Qed.

Lemma dwp_create_pool config ma ms d :
  ma + ms <= INT_MAX -> state_dims_fit config ->
  dwp (create_pool config ma ms) (fun r d' =>
    match r with
    | Value p => pool_ok [] p /\ storage_ok (storage_ p) d' /\ total p = ma + ms /\ max_active_ p = ma /\
        active_by_seq_ p = ∅ /\
        forall i, 0 <= i < total p -> content (storage_ p) d' i = zeros (storage_ p)
    | Unexpected _ => True
    end) d.
Proof.
  intros Hi Hdims. unfold create_pool. destruct (_ || _) eqn:Hg; [by apply dwp_error|]. bprop.
  apply dwp_bind. eapply dwp_lift; [apply int_of_ok; unfold INT_MIN; lia|].
  apply dwp_bind. eapply dwp_mono; [by apply dwp_create_storage|]. intros [s|e] d1; [|done].
  intros (Hn & Hs & Hc). apply dwp_ret. split; [apply fresh_pool_ok; [lia|lia|done]|]. by split_and!.
Qed.
End creation.

(** ** The pool *)

Section claims.
Context {D : Type} `{!Backend D} `{!BackendLaws D} `{!Ccop}.

(** acquiring the state of a sequence never fails an assertion and keeps the
    pool's bookkeeping; it is a no-op for a sequence that has one, answers
    [MaxSequencesReached] when none is free, and otherwise gives the sequence a
    state no other sequence owns, zeroed in every layer, without touching any
    other state; a failing device leaves the sequence without a state. *)
Theorem acquire_active_spec snaps p d seq :
  pool_ok snaps p -> storage_ok (storage_ p) d ->
  exists r p' d', acquire_active seq p d = Some (r, p', d') /\ pool_ok snaps p' /\
    storage_ok (storage_ p') d' /\
    match active_state_of p seq, mutable_free_list_ p with
    | Some _, _ => r = Value tt /\ p' = p /\ d' = d
    | None, [] => r = Unexpected MaxSequencesReached /\ p' = p /\ d' = d
    | None, i :: _ =>
        (forall s, active_state_of p s <> Some i) /\
        (forall j, 0 <= j < total p -> j <> i -> content (storage_ p) d' j = content (storage_ p) d j) /\
        match r with
        | Value _ => active_state_of p' seq = Some i /\ content (storage_ p) d' i = zeros (storage_ p) /\
            forall s, s <> seq -> active_state_of p' s = active_state_of p s
        | Unexpected _ => forall s, active_state_of p' s = active_state_of p s
        end
    end.
Proof.
  intros Hp Hs. destruct (acquire_active_run snaps p d seq Hp Hs) as (r & p' & d' & E & Hp' & (G & _) & _ & Hrun).
  exists r, p', d'. split; [done|]. split; [done|]. rewrite G. unfold active_state_of.
  destruct (active_by_seq_ p !! seq) as [i|]; [by destruct Hrun as (-> & -> & ->)|].
  destruct (mutable_free_list_ p) as [|i rest]; [by destruct Hrun as (-> & -> & ->)|].
  destruct Hrun as (Hi & Hun & W & Ha). split; [by eapply ws_ok|]. split; [done|]. split.
  - intros j Hj Hne. apply (ws_other _ _ _ _ _ _ W); [by rewrite (po_storage _ _ Hp)|done].
  - rewrite Ha. destruct r as [[]|e]; simpl; [|done]. split; [by rewrite lookup_insert_eq|].
    split; [by apply (ws_written _ _ _ _ _ _ W)|]. intros s Hne. by rewrite lookup_insert_ne.
Qed.

Lemma snapshot_run c p d h fb a :
  states_ok c p d -> 0 <= a < max_active_ p ->
  exists r c' p' d', snapshot h fb a c p d = Some (r, c', p', d') /\ states_ok c' p' d' /\
    same_geometry p p' /\ active_by_seq_ p' = active_by_seq_ p /\
    (forall j, 0 <= j < max_active_ p -> content (storage_ p) d' j = content (storage_ p) d j) /\
    (r = Value tt -> cached c' p' d' h = Some (default (content (storage_ p) d a) (cached c p d h))) /\
    exists victim, others_kept h victim c c' p p' d d' /\
      (forall v, victim = Some v -> snapshot_free_list_ p = [] /\
         exists n e, head (lru_ c) = Some n /\ sc_node c !! n = Some e /\ prefix_hash e = v).
Proof.
  intros Hok Ha. unfold snapshot. destruct (_ || _).
  { eexists _, c, p, d. split; [done|]. split_and!; try done. exists None. by split. }
  destruct (has c h) eqn:Hh.
  { eexists _, c, p, d. split; [done|]. split_and!; try done; [|exists None; by split].
    intros _. unfold has in Hh. apply bool_decide_eq_true in Hh as [n Hn]. unfold cached. rewrite Hn. simpl.
    apply (co_hash _ (sk_cache _ _ _ Hok)) in Hn as (e & -> & _). done. }
  assert (cached c p d h = None) as Hnone.
  { unfold cached, has in *. apply bool_decide_eq_false, eq_None_not_Some in Hh. by rewrite Hh. }
  unfold num_free_snapshots, size_Z. destruct (snapshot_free_list_ p) as [|i rest] eqn:Hfl; simpl.
  - pose proof (evict_one_state_run c p d Hok) as Hev. destruct (lru_ c) as [|n lru] eqn:Hl.
    { rewrite Hev. simpl. eexists _, c, p, d. split; [done|]. split_and!; try done. exists None. by split. }
    destruct Hev as (e & c1 & p1 & He & -> & Hok1 & (G1 & G2 & G3) & A1 & Hd1 & F1 & _ & Hby & Hoth). simpl.
    rewrite Hfl in F1. simpl in F1.
    assert (has c1 h = false) as Hh1.
    { destruct (decide (h = prefix_hash e)) as [->|Hne]; [unfold has; by rewrite Hby|].
      rewrite (proj1 (Hoth h Hne)). done. }
    destruct (snapshot_with_room c1 p1 d h fb a _ _ Hok1 Hh1 ltac:(congruence) F1)
      as (r & c' & p' & d' & E & Hok' & (K1 & K2 & K3) & A' & Hact & Hc & Hk).
    exists r, c', p', d'. split; [exact E|]. split; [done|]. rewrite G1, G2 in *.
    split; [unfold same_geometry; split_and!; congruence|]. split; [congruence|]. split; [done|]. split.
    + intros ->. by rewrite Hc, Hnone.
    + exists (Some (prefix_hash e)). split; [|intros v [= <-]; split; [done|]; by exists n, e].
      intros h' Hne Hv. rewrite (Hk h' Hne) by done. apply Hoth. congruence.
  - destruct (Z.eqb_spec (Z.pos (Pos.of_succ_nat (length rest))) 0); [lia|]. simpl.
    destruct (snapshot_with_room c p d h fb a i rest Hok Hh Ha Hfl)
      as (r & c' & p' & d' & E & Hok' & Hg & A' & Hact & Hc & Hk).
    exists r, c', p', d'. split; [exact E|]. split_and!; try done; try apply Hg.
    + intros ->. by rewrite Hc, Hnone.
    + exists None. by split.
Qed.

Lemma restore_run c p d h a :
  states_ok c p d -> 0 <= a < max_active_ p ->
  exists r c' d', restore h a c p d = Some (r, c', p, d') /\ states_ok c' p d' /\
    match cached c p d h with
    | None => r = Unexpected InvalidArgument /\ d' = d
    | Some x => (r = Value tt -> content (storage_ p) d' a = x) /\
        (forall j, 0 <= j < total p -> j <> a -> content (storage_ p) d' j = content (storage_ p) d j)
    end.
Proof.
  intros [Hc Hp Hs] Ha. unfold restore, cached. destruct (sc_by_hash_ c !! h) as [n|] eqn:Hb; simpl.
  2: { eexists _, _, d. split; [done|]. split; [|done]. split; [by destruct Hc|done|done]. }
  destruct (proj1 (co_hash _ Hc h n) Hb) as (e & He & _). rewrite He. simpl.
  pose proof (owned_node _ _ _ Hc He) as Hin.
  apply (ow_snaps _ _ _ _ _ _ _ (po_own _ _ Hp)) in Hin as [Hr _]. pose proof (po_sizes _ _ Hp).
  unfold restore_snapshot_to_active, snapshot_range. unfold total in Hr.
  destruct (Z.ltb_spec a 0); [lia|]. destruct (Z.leb_spec (max_active_ p) a); [lia|]. simpl.
  destruct (Z.ltb_spec (entry_state_id e) (max_active_ p)); [lia|].
  destruct (Z.leb_spec (max_active_ p + max_snapshots_ p) (entry_state_id e)); [lia|]. simpl.
  destruct (dwp_copy_state (storage_ p) (entry_state_id e) a d Hs) as (r & d' & E & W);
    [rewrite (po_storage _ _ Hp); unfold total; lia|rewrite (po_storage _ _ Hp); unfold total; lia|lia|].
  rewrite E. simpl. exists r, (touch n c), d'. split; [done|].
  assert (lru_ (touch n c) ≡ₚ lru_ c) as Hperm.
  { simpl. unfold is_in_lru. case_bool_decide as Hn; [|done].
    rewrite Permutation_app_comm. simpl. by rewrite <- (erase1_perm n (lru_ c) Hn). }
  split.
  - split; [| |by eapply ws_ok].
    + destruct Hc as [Q1 [Q2 Q3] Q4 Q5 Q6]. split; try done; [|by rewrite Hperm].
      split; [by rewrite Hperm|]. intros m. by rewrite Hperm.
    + eapply pool_ok_perm; [|exact Hp]. unfold owned. by rewrite Hperm.
  - split; [intros ->; by apply (ws_written _ _ _ _ _ _ W)|]. intros j Hj Hne.
    apply (ws_other _ _ _ _ _ _ W); [by rewrite (po_storage _ _ Hp)|done].
Qed.

(** caching a snapshot never fails an assertion, keeps the invariant of cache,
    pool and storage, and leaves every active state as it was, whether it succeeds,
    refuses or the device fails half way; on success the prefix is cached with the
    contents of the active state (an existing entry is kept), and other prefixes
    keep their contents unless they were the least recently used and no snapshot
    was free. *)
Theorem snapshot_spec c p d h fb a :
  states_ok c p d -> 0 <= a < max_active_ p ->
  exists r c' p' d', snapshot h fb a c p d = Some (r, c', p', d') /\ states_ok c' p' d' /\
    same_geometry p p' /\ active_by_seq_ p' = active_by_seq_ p /\
    (forall j, 0 <= j < max_active_ p -> content (storage_ p) d' j = content (storage_ p) d j) /\
    (r = Value tt -> cached c' p' d' h = Some (default (content (storage_ p) d a) (cached c p d h))) /\
    exists victim, others_kept h victim c c' p p' d d' /\
      (forall v, victim = Some v -> snapshot_free_list_ p = [] /\
         exists n e, head (lru_ c) = Some n /\ sc_node c !! n = Some e /\ prefix_hash e = v).
Proof. apply snapshot_run. Qed.

(** C39: a snapshot is a copy: after it was taken, whatever the model then does to the
    active states of this and other sequences, restoring the prefix into any active
    state gives exactly the contents the first one had. *)
Theorem snapshot_restore_roundtrip c p d h fb a c1 p1 d1 d2 b :
  states_ok c p d -> 0 <= a < max_active_ p -> has c h = false ->
  snapshot h fb a c p d = Some (Value tt, c1, p1, d1) ->
  storage_ok (storage_ p1) d2 ->
  (forall j, max_active_ p1 <= j < total p1 -> content (storage_ p1) d2 j = content (storage_ p1) d1 j) ->
  0 <= b < max_active_ p1 ->
  exists r c2 d3, restore h b c1 p1 d2 = Some (r, c2, p1, d3) /\ states_ok c2 p1 d3 /\
    (r = Value tt -> content (storage_ p1) d3 b = content (storage_ p) d a).
Proof.
  intros Hok Ha Hno Hsnap Hs2 Hd2 Hb.
  destruct (snapshot_run c p d h fb a Hok Ha) as (r & c' & p' & d' & E & Hok1 & _ & _ & _ & Hc & _).
  rewrite Hsnap in E. injection E as <- <- <- <-. specialize (Hc eq_refl).
  assert (cached c p d h = None) as Hnone.
  { unfold cached, has in *. apply bool_decide_eq_false, eq_None_not_Some in Hno. by rewrite Hno. }
  rewrite Hnone in Hc. simpl in Hc. destruct Hok1 as [Hc1 Hp1 Hs1].
  destruct (restore_run c1 p1 d2 h b) as (r & c2 & d3 & E & Hok2 & Hres); [by split|done|].
  exists r, c2, d3. split; [done|]. split; [done|]. intros ->.
  assert (cached c1 p1 d2 h = cached c1 p1 d1 h) as Hsame.
  { unfold cached. destruct (sc_by_hash_ c1 !! h) as [n|]; [|done]. simpl.
    destruct (sc_node c1 !! n) as [e|] eqn:He; [|done]. simpl. f_equal. apply Hd2.
    by apply (ow_snaps _ _ _ _ _ _ _ (po_own _ _ Hp1)), owned_node with n. }
  rewrite Hsame, Hc in Hres. by apply Hres.
Qed.
End claims.

(** ** A small hybrid model on the simulated device *)

Definition sim_model : ModelConfig :=
  {| arch_ := Qwen3_5; n_layers_ := 2; n_q_heads_ := 1; n_kv_heads_ := 1; d_model_ := 2; head_dim_ := 2;
     rotary_dim_ := 2; d_ff_ := 2; vocab_size_ := 4; max_seq_len_ := 16; rope_theta_ := f32_one;
     rms_norm_eps_ := f32_one; full_attention_interval_ := 2; nextn_predict_layers_ := 0; ssm_conv_kernel_ := 2;
     ssm_state_size_ := 2; ssm_group_count_ := 1; ssm_time_step_rank_ := 1; ssm_inner_size_ := 2;
     layer_types_ := [GatedDeltaNet; FullAttention] |}.

Definition sim_pool_run : option (Result StatePool * SimDevice) := create_pool sim_model 2 1 (mkSim [] []).

Lemma sim_pool_created : exists p d, sim_pool_run = Some (Value p, d) /\ pool_ok [] p /\
  storage_ok (storage_ p) d /\ max_active_ p = 2 /\ total p = 3 /\ active_by_seq_ p = ∅ /\ mutable_free_list_ p <> [].
Proof.
  assert (2 + 1 <= INT_MAX) as Hi by (vm_compute; discriminate).
  assert (state_dims_fit sim_model) as Hd.
  { split; [vm_compute; discriminate|]. split; [vm_compute; discriminate|]. eexists. vm_compute. reflexivity. }
  destruct (dwp_create_pool sim_model 2 1 (mkSim [] []) Hi Hd) as (r & d & E & H).
  destruct r as [p|e]; [|vm_compute in E; discriminate E].
  destruct H as (H1 & H2 & H3 & H4 & H5 & _). exists p, d. do 6 (split; [assumption|]).
  vm_compute in E. injection E as <- _. vm_compute. discriminate.
Qed.

Definition sim_cache : StateCache := mkStateCache 3 [] ∅ 0 [] ∅ 0 0 0.

Lemma sim_cache_ok : cache_ok sim_cache.
Proof.
  split; simpl; try done.
  - split; [apply NoDup_nil_2|]. intros n. rewrite lookup_empty. split; [intros H; by apply elem_of_nil in H|by intros [? ?]].
  - intros h n. rewrite lookup_empty. split; [done|]. intros (e & He & _). by rewrite lookup_empty in He.
  - intros n. rewrite lookup_empty. by intros [? ?].
Qed.

Lemma acquire_active_spec_witness :
  exists p d p' d', acquire_active 7 p d = Some (Value tt, p', d') /\ pool_ok [] p' /\
    exists i, active_state_of p' 7 = Some i /\ content (D := SimDevice) (storage_ p) d' i = zeros (storage_ p).
Proof.
  destruct sim_pool_created as (p & d & Hrun & Hp & Hs & Hm & Ht & Ha & Hf).
  destruct (acquire_active_spec [] p d 7 Hp Hs) as (r & p' & d' & E & Hp' & _ & H).
  unfold active_state_of in H at 1. rewrite Ha, lookup_empty in H.
  destruct (mutable_free_list_ p) as [|i rest] eqn:Hfl; [exfalso; exact (Hf eq_refl)|].
  destruct H as (_ & _ & H).
  exists p, d, p', d'.
  assert (r = Value tt) as ->.
  { clear H. vm_compute in Hrun. injection Hrun as <- <-. vm_compute in E. injection E as <- _ _. reflexivity. }
  split; [exact E|]. split; [exact Hp'|]. exists i. destruct H as (H1 & H2 & _). split; [exact H1|exact H2].
Defined.

Lemma snapshot_spec_witness :
  exists (p : StatePool) (d : SimDevice) c' p' d', snapshot 99 0 0 sim_cache p d = Some (Value tt, c', p', d') /\
    states_ok c' p' d' /\ cached c' p' d' 99 = Some (content (storage_ p) d 0).
Proof.
  destruct sim_pool_created as (p & d & Hrun & Hp & Hs & Hm & Ht & Ha & Hf).
  assert (states_ok sim_cache p d) as Hok by (split; [exact sim_cache_ok|exact Hp|exact Hs]).
  assert (0 <= 0 < max_active_ p) as H0 by (rewrite Hm; lia).
  destruct (snapshot_spec sim_cache p d 99 0 0 Hok H0) as (r & c' & p' & d' & E & Hok' & _ & _ & _ & Hc & _).
  assert (r = Value tt) as ->.
  { clear Hc Hok'. vm_compute in Hrun. injection Hrun as <- <-. vm_compute in E. injection E as <- _ _ _. reflexivity. }
  exists p, d, c', p', d'. split; [exact E|]. split; [exact Hok'|]. exact (Hc eq_refl).
Defined.

Lemma snapshot_restore_roundtrip_witness :
  exists (p : StatePool) (d d3 : SimDevice) c1 p1 d1 c2, snapshot 99 0 0 sim_cache p d = Some (Value tt, c1, p1, d1) /\
    restore 99 1 c1 p1 d1 = Some (Value tt, c2, p1, d3) /\ content (storage_ p1) d3 1 = content (storage_ p) d 0.
Proof.
  destruct sim_pool_created as (p & d & Hrun & Hp & Hs & Hm & Ht & Ha & Hf).
  assert (states_ok sim_cache p d) as Hok by (split; [exact sim_cache_ok|exact Hp|exact Hs]).
  assert (0 <= 0 < max_active_ p) as H0 by (rewrite Hm; lia).
  destruct (snapshot_run sim_cache p d 99 0 0 Hok H0) as (r & c1 & p1 & d1 & E & Hok1 & (_ & G & _) & _).
  assert (r = Value tt) as ->.
  { clear Hok1. vm_compute in Hrun. injection Hrun as <- <-. vm_compute in E. injection E as <- _ _ _. reflexivity. }
  assert (0 <= 1 < max_active_ p1) as H1 by (rewrite G, Hm; lia).
  destruct (snapshot_restore_roundtrip sim_cache p d 99 0 0 c1 p1 d1 d1 1 Hok H0 eq_refl E
    (sk_storage _ _ _ Hok1) (fun _ _ => eq_refl) H1) as (r & c2 & d3 & E2 & _ & H).
  exists p, d, d3, c1, p1, d1, c2. split; [exact E|].
  assert (r = Value tt) as ->.
  { clear H Hok1. vm_compute in Hrun. injection Hrun as <- <-. vm_compute in E. injection E as <- <- <-.
    vm_compute in E2. injection E2 as <- _ _. reflexivity. }
  split; [exact E2|exact (H eq_refl)].
Defined.
