(* ===== verification/Tensor.v ===== *)
(** * Views and quantised tensors: the rest of [runtime/tensor.cpp]

    A tensor shares its buffer with the views taken from it.  Views come from the
    operator library; [CcopViews] has the calls and [CcopViewsLaws] what they mean: the
    number of elements, contiguity, and the sub-view of a range of one dimension. *)

From Stdlib Require Import ZArith Lia.
From stdpp Require Import prelude strings gmap fin_maps.
From S2P Require Import Prelude Base Q8 Device SimDevice.

Class CcopViews `{Ccop} := {
  QType : Type;
  is_q8_0 : QType -> bool;                                   (* [quant_type == kQ8_0] *)
  quantized_nbytes : QType -> list Z -> Z;
  view_numel : list Z -> Z;
  view_contiguous : list Z -> list Z -> bool;                (* shape, strides *)
  view_slice : list Z -> list Z -> Z -> Z -> Z -> Z * list Z * list Z;  (* first element, shape, strides *)
  view_select : list Z -> list Z -> Z -> Z -> Z * list Z * list Z;
}.

Class CcopViewsLaws `{CcopViews} `{Q8Storage} := {
  view_numel_product : forall shape, view_numel shape = product shape;
  contiguous_row_major : forall shape, Forall (Z.lt 0) shape -> view_contiguous shape (row_major shape).1 = true;
  strides_row_major : forall shape, view_strides shape = (row_major shape).1;
  slice_first : forall dim shape st strides start stop, 0 <= start <= stop -> stop <= dim ->
    view_slice (dim :: shape) (st :: strides) 0 start stop = (start * st, stop - start :: shape, st :: strides);
  select_first : forall dim shape st strides i, 0 <= i < dim ->
    view_select (dim :: shape) (st :: strides) 0 i = (i * st, shape, strides);
  quantized_storage : forall q shape n, is_q8_0 q = true -> q8_0_storage_bytes shape = Some n ->
    quantized_nbytes q shape = n;
}.

(** A quantised owning tensor. *)
Record QTensor `{CcopViews} := mkQTensor {
  q_buffer : Z;
  q_offset : Z;
  q_type : QType;
  q_shape : list Z;
}.

(** A [Tensor] of the program is dense or quantised. *)
Inductive AnyTensor `{CcopViews} := DenseTensor (t : Tensor) | QuantizedTensor (t : QTensor).

Section tensors.
Context {D : Type} `{Backend D} `{CcopViews} `{Q8Storage}.

(** ** Dense tensors *)

(** A buffer that the tensor owns is live. *)
Definition buffer_bytes (b : Z) : Dev D (list Z) := fun d => dev_lift (buf d b) d.

(** The constructor that wraps a buffer. *)
Definition wrap_tensor (buffer : Z) (dtype : DType) (shape : list Z) : Dev D Tensor :=
  let t := mkTensor _ buffer 0 dtype shape (view_strides shape) in
  l ← buffer_bytes buffer;
  _ ← dev_assert (nbytes t <=? size_Z l);
  mret t.

Definition numel (t : Tensor) : Z := view_numel (t_shape t).

(** [Tensor::view] of a dense tensor. *)
Definition view_dense (t : Tensor) (shape : list Z) : Dev D Tensor :=
  l ← buffer_bytes (t_buffer t);
  _ ← dev_assert (view_contiguous (t_shape t) (t_stride t));
  let v := mkTensor _ (t_buffer t) (t_offset t) (t_dtype t) shape (view_strides shape) in
  _ ← dev_assert (numel v =? numel t);
  _ ← dev_assert (nbytes v <=? size_Z l);
  mret v.

(** [Tensor::view]: a quantised tensor fails the assertion, or gives an empty tensor
    when assertions are compiled out. *)
Definition view_any `{BuildMode} (t : AnyTensor) (shape : list Z) : Dev D (option Tensor) :=
  match t with
  | DenseTensor t => v ← view_dense t shape; mret (Some v)
  | QuantizedTensor _ => _ ← dev_assert NDEBUG; mret None
  end.

Definition flat (t : Tensor) : Dev D Tensor := view_dense t [numel t].

(** [slice] and [select] move the data pointer by whole elements. *)
Definition sub_view (t : Tensor) (v : Z * list Z * list Z) : Tensor :=
  mkTensor _ (t_buffer t) (t_offset t + v.1.1 * dtype_size (t_dtype t)) (t_dtype t) v.1.2 v.2.
Definition slice_tensor (t : Tensor) (dim start stop : Z) : Tensor :=
  sub_view t (view_slice (t_shape t) (t_stride t) dim start stop).
Definition select_tensor (t : Tensor) (dim index : Z) : Tensor :=
  sub_view t (view_select (t_shape t) (t_stride t) dim index).

(** ** Quantised tensors *)

Definition checked_nbytes_quantized (qtype : QType) (shape : list Z) : Result Z :=
  if bool_decide (shape = []) || (kTensorMaxRank <? size_Z shape) then Unexpected InvalidArgument
  else if negb (is_q8_0 qtype) then Unexpected Unsupported
  else
    match q8_0_storage_bytes shape with
    | None => Unexpected InvalidArgument
    | Some bytes => if bytes <? 0 then Unexpected InvalidArgument else Value (u64 bytes)
    end.

Definition qnbytes (t : QTensor) : Z := quantized_nbytes (q_type t) (q_shape t).

(** The constructor that wraps a buffer. *)
Definition wrap_quantized (buffer : Z) (qtype : QType) (shape : list Z) : Dev D QTensor :=
  let t := mkQTensor _ _ buffer 0 qtype shape in
  l ← buffer_bytes buffer;
  _ ← dev_assert (qnbytes t <=? size_Z l);
  mret t.

Definition from_buffer_quantized (buffer offset : Z) (qtype : QType) (shape : list Z) : Dev D QTensor :=
  let t := mkQTensor _ _ buffer offset qtype shape in
  inside ← dev_gets (data_in_buffer buffer offset (qnbytes t));
  _ ← dev_assert inside;
  mret t.

(** [Tensor::empty] and [Tensor::from_host] with a quantised type. *)
Definition empty_quantized (qtype : QType) (shape : list Z) : Dev D QTensor :=
  bytes ← dev_try (checked_nbytes_quantized qtype shape);
  buffer ← dev_bytes bytes (allocate_buffer bytes);
  from_buffer_quantized buffer 0 qtype shape.

Definition from_host_quantized (src : option (list Z)) (qtype : QType) (shape : list Z) : Dev D QTensor :=
  match src with
  | None => dev_error InvalidArgument
  | Some bytes =>
      tensor ← empty_quantized qtype shape;
      _ ← dev_bytes (qnbytes tensor) (memcpy_h2d (q_buffer tensor) (q_offset tensor) (take (Z.to_nat (qnbytes tensor)) bytes));
      mret tensor
  end.
End tensors.

(** ** Loading: operations that keep the live buffers

    [loads m P d]: from [d], [m] runs without a failed assertion, leaves every live
    buffer as it is, and delivers a value with [P] or an error. *)

Section loading.
Context {D : Type} `{!Backend D}.

Definition loads {A} (m : Dev D A) (P : A -> D -> Prop) (d : D) : Prop :=
  dwp m (fun r d' => keeps_buffers d d' /\ match r with Value a => P a d' | Unexpected _ => True end) d.

Lemma loads_bind {A B} (m : Dev D A) (f : A -> Dev D B) (P : A -> D -> Prop) (Q : B -> D -> Prop) d :
  loads m P d -> (forall a d', keeps_buffers d d' -> P a d' -> loads (f a) Q d') -> loads (m ≫= f) Q d.
Proof.
  intros Hm Hf. apply dwp_bind. eapply dwp_mono; [exact Hm|]. intros [a|e] d1 [Hk Ha]; [|done].
  eapply dwp_mono; [by apply Hf|]. intros r d2 [Hk2 Hr]. split; [|done]. by etransitivity.
Qed.

Lemma loads_ret {A} (a : A) (P : A -> D -> Prop) d : P a d -> loads (mret a) P d.
Proof. intros. by apply dwp_ret. Qed.

Lemma loads_error {A} e (P : A -> D -> Prop) d : loads (dev_error e) P d.
Proof. by apply dwp_error. Qed.

Lemma loads_try {A} (r : Result A) (P : A -> D -> Prop) d : (forall a, r = Value a -> P a d) -> loads (dev_try r) P d.
Proof. intros HP. apply dwp_try. split; [done|]. destruct r; [by apply HP|done]. Qed.

Lemma loads_assert b (P : unit -> D -> Prop) d : b = true -> P tt d -> loads (dev_assert b) P d.
Proof. intros. by apply dwp_assert. Qed.

Lemma loads_lift {A} (x : option A) a (P : A -> D -> Prop) d : x = Some a -> P a d -> loads (dev_lift x) P d.
Proof. intros. by eapply dwp_lift. Qed.

Lemma loads_mono {A} (m : Dev D A) (P Q : A -> D -> Prop) d :
  loads m P d -> (forall a d', keeps_buffers d d' -> P a d' -> Q a d') -> loads m Q d.
Proof. intros Hm HQ. eapply dwp_mono; [exact Hm|]. intros [a|e] d' [Hk Ha]; [|done]. split; [done|]. by apply HQ. Qed.

(** A read, or an overflow that does not happen, continues. *)
Lemma loads_lift_bind {A B} (x : option A) a (f : A -> Dev D B) (Q : B -> D -> Prop) d :
  x = Some a -> loads (f a) Q d -> loads (dev_lift x ≫= f) Q d.
Proof. intros -> Hf. unfold loads, dwp, mbind, Dev_bind, dev_lift. exact Hf. Qed.

Lemma loads_assert_bind {B} b (f : unit -> Dev D B) (Q : B -> D -> Prop) d :
  b = true -> loads (f tt) Q d -> loads (dev_assert b ≫= f) Q d.
Proof. intros -> Hf. exact Hf. Qed.

Lemma keeps_trans (d1 d2 d3 : D) : keeps_buffers d1 d2 -> keeps_buffers d2 d3 -> keeps_buffers d1 d3.
Proof. intros. by etransitivity. Qed.

(** Writing to a buffer that did not exist keeps those that did. *)
Lemma keeps_only_fresh b (d1 d2 d3 : D) :
  keeps_buffers d1 d2 -> buf d1 b = None -> only_buffer b d2 d3 -> keeps_buffers d1 d3.
Proof. intros Hk Hn Ho b' l Hb. rewrite Ho; [by apply Hk|]. congruence. Qed.
End loading.

Create HintDb live discriminated.
#[export] Hint Extern 1 (keeps_buffers ?d ?d) => reflexivity : live.
#[export] Hint Extern 1 (keeps_buffers _ _) => eassumption : live.
#[export] Hint Extern 2 (keeps_buffers ?d1 _) =>
  match goal with H : keeps_buffers d1 ?d2 |- _ => apply (keeps_trans d1 d2 _ H) end : live.

(** ** Views and quantised tensors, when they are what they look like *)

Section view_specs.
Context {D : Type} `{!Backend D} `{!BackendLaws D} `{!Ccop} `{!CcopLaws} `{!CcopViews} `{!Q8Storage} `{!CcopViewsLaws}.

(** A view of a whole tensor with as many elements is the whole tensor in another shape. *)
Lemma view_dense_spec d t dtype shape shape' bytes :
  tensor_holds d t dtype shape bytes -> Forall (Z.lt 0) shape -> product shape' = product shape ->
  size_Z bytes = product shape * dtype_size dtype ->
  exists v, view_dense t shape' d = Some (Value v, d) /\ tensor_holds d v dtype shape' bytes /\ t_buffer v = t_buffer t.
Proof.
  intros [(Ho & Hd & Hs & Hst) Hb] Hp Hn Hsz.
  exists (mkTensor _ (t_buffer t) (t_offset t) (t_dtype t) shape' (view_strides shape')).
  assert (view_contiguous (t_shape t) (t_stride t) = true) as Hc by (rewrite Hs, Hst; by apply contiguous_row_major).
  assert (numel (mkTensor _ (t_buffer t) (t_offset t) (t_dtype t) shape' (view_strides shape')) =? numel t = true) as Hnum.
  { unfold numel. simpl. rewrite !view_numel_product, Hs, Hn. apply Z.eqb_refl. }
  assert (nbytes (mkTensor _ (t_buffer t) (t_offset t) (t_dtype t) shape' (view_strides shape')) <=? size_Z bytes = true) as Hle.
  { unfold nbytes. simpl. rewrite view_nbytes_dense, Hsz, Hd. apply Z.leb_le. unfold product in Hn. rewrite Hn. unfold product. lia. }
  split_and!; [| |done].
  - unfold view_dense, buffer_bytes, dev_lift, dev_assert, mbind, Dev_bind. by rewrite Hb, Hc, Hnum, Hle.
  - split; [|done]. unfold whole_tensor. simpl. by rewrite strides_row_major.
Qed.

Lemma flat_spec d t dtype shape bytes :
  tensor_holds d t dtype shape bytes -> Forall (Z.lt 0) shape -> size_Z bytes = product shape * dtype_size dtype ->
  exists v, flat t d = Some (Value v, d) /\ tensor_holds d v dtype [product shape] bytes /\ t_buffer v = t_buffer t.
Proof.
  intros Ht Hp Hsz. unfold flat. assert (numel t = product shape) as ->.
  { destruct Ht as [(_ & _ & Hs & _) _]. unfold numel. by rewrite view_numel_product, Hs. }
  apply (view_dense_spec d t dtype shape); try done. unfold product. simpl. lia.
Qed.

(** The bytes of row [i] of a matrix. *)
Lemma slice_row_spec t dtype rows cols i : whole_tensor t dtype [rows; cols] -> 0 <= i < rows ->
  slice_tensor t 0 i (i + 1) =
  mkTensor _ (t_buffer t) (i * (cols * dtype_size dtype)) dtype [1; cols] (t_stride t).
Proof.
  intros (Ho & Hd & Hs & Hst) Hi. unfold slice_tensor, sub_view. rewrite Hs, Hst. simpl.
  rewrite slice_first by lia. simpl. rewrite Ho, Hd. f_equal; [|f_equal]; lia.
Qed.

Lemma empty_quantized_spec q shape d n :
  is_q8_0 q = true -> q8_0_storage_bytes shape = Some n -> 0 < n < 2 ^ 64 ->
  shape <> [] -> size_Z shape <= kTensorMaxRank ->
  dwp (empty_quantized q shape) (fun r d' => keeps_buffers d d' /\
    match r with
    | Value t => q_offset t = 0 /\ q_type t = q /\ q_shape t = shape /\ qnbytes t = n /\ buf d (q_buffer t) = None /\
        exists l, buf d' (q_buffer t) = Some l /\ size_Z l = n
    | Unexpected _ => True
    end) d.
Proof.
  intros Hq Hn Hr Hne Hrank. unfold empty_quantized. apply dwp_bind, dwp_try.
  unfold checked_nbytes_quantized. rewrite bool_decide_eq_false_2 by done.
  rewrite (proj2 (Z.ltb_ge _ _) Hrank), Hq, Hn. simpl. destruct (Z.ltb_spec n 0); [lia|]. rewrite u64_small by lia.
  apply dwp_bind, dwp_bytes; [lia|]. intros [b|e] d1 Ha.
  2: { split; [|done]. apply same_keeps. by eapply allocate_err. }
  destruct (allocate_ok n d d1 b) as (Hb & (l & Hl & Hsz) & Ho); [lia|done|].
  unfold from_buffer_quantized. pose proof (quantized_storage q shape n Hq Hn) as Hqn.
  apply dwp_bind, dwp_gets, dwp_bind, dwp_assert.
  { unfold data_in_buffer, qnbytes. simpl. rewrite Hl, Hqn, Hsz. lia. }
  apply dwp_ret. split; [by eapply only_fresh|]. split_and!; try done. by exists l.
Qed.

(** An uploaded quantised tensor holds the bytes of its blocks. *)
Lemma from_host_quantized_spec q shape d bytes :
  is_q8_0 q = true -> q8_0_storage_bytes shape = Some (size_Z bytes) -> 0 < size_Z bytes < 2 ^ 64 ->
  shape <> [] -> size_Z shape <= kTensorMaxRank ->
  dwp (from_host_quantized (Some bytes) q shape) (fun r d' => keeps_buffers d d' /\
    match r with Value t => q_shape t = shape /\ buf d' (q_buffer t) = Some bytes | Unexpected _ => True end) d.
Proof.
  intros Hq Hn Hr Hne Hrank. unfold from_host_quantized. apply dwp_bind.
  eapply dwp_mono; [by eapply empty_quantized_spec|]. intros [t|e] d1 [Hk Ht]; [|done].
  destruct Ht as (Ho & _ & Hs & Hnb & Hfresh & l & Hl & Hsz). apply dwp_bind, dwp_bytes; [lia|]. intros r d2 E.
  rewrite Hnb, Ho, take_ge in E by (unfold size_Z; lia). destruct r as [[]|e].
  - destruct (memcpy_h2d_ok (q_buffer t) 0 bytes d1 d2 l Hl) as [Hl2 Ho2]; [unfold in_range; lia|done|].
    apply dwp_ret. split; [by eapply keeps_only_fresh|]. split; [done|]. rewrite Hl2. f_equal. unfold splice. simpl.
    rewrite drop_ge by (unfold size_Z in *; lia). by rewrite app_nil_r.
  - split; [|done]. etransitivity; [exact Hk|]. apply same_keeps. by eapply memcpy_h2d_err.
Qed.
End view_specs.

(** ** On the simulated library *)

#[export] Instance sim_q8_storage : Q8Storage := fun shape =>
  match last shape with
  | Some n => if n mod 32 =? 0 then Some (product shape / 32 * 34) else None
  | None => None
  end.

#[export] Instance sim_views : CcopViews := {
  QType := bool;
  is_q8_0 q := q;
  quantized_nbytes _ shape := default 0 (q8_0_storage_bytes shape);
  view_numel := product;
  view_contiguous shape strides := bool_decide (strides = (row_major shape).1);
  view_slice shape strides dim start stop :=
    (start * default 0 (at_Z strides dim), set_Z shape dim (stop - start), strides);
  view_select shape strides dim i :=
    (i * default 0 (at_Z strides dim), delete (Z.to_nat dim) shape, delete (Z.to_nat dim) strides);
}.

#[export] Instance sim_views_laws : CcopViewsLaws.
Proof.
  split; try done.
  - intros shape _. simpl. by apply bool_decide_eq_true.
  - intros q shape n _ Hn. simpl. by rewrite Hn.
Qed.
