(* ===== verification/BlockStorage.v ===== *)
(** * The physical KV storage: [block/block_storage.cpp]

    One buffer for keys and one for values, each cut into layers; a layer is seen
    slot by slot or block by block. *)

From Stdlib Require Import ZArith Lia.
From stdpp Require Import prelude strings gmap fin_maps.
From S2P Require Import Prelude Base Device SimDevice.

(** [checked_mul]: [None] is [false]. *)
Definition checked_mul (a b : Z) : option Z :=
  if negb (a =? 0) && (SIZE_MAX / a <? b) then None else Some (u64 (a * b)).

Record BlockStorage `{Ccop} := mkBlockStorage {
  k_data_ : option Z;
  v_data_ : option Z;
  layer_stride_ : Z;
  elem_size_ : Z;
  bs_dtype_ : DType;
  max_slots_ : Z;
  bs_max_blocks_ : Z;
  bs_block_size_ : Z;
  num_kv_heads_ : Z;
  bs_head_dim_ : Z;
  num_layers_ : Z;
}.

Section storage.
Context {D : Type} `{Backend D} `{Ccop}.

Definition default_storage : BlockStorage := mkBlockStorage _ None None 0 0 kUnknown 0 0 0 0 0 0.

(** The five checked products of [init], and its two range checks. *)
Definition storage_sizes (num_kv_layers max_blocks block_size num_kv_heads head_dim elem_size : Z)
  : option (Z * Z * Z) :=
  max_slots ← checked_mul (u64 max_blocks) (u64 block_size);
  token_stride ← checked_mul (u64 num_kv_heads) (u64 head_dim);
  elements_per_layer ← checked_mul max_slots token_stride;
  total_elements ← checked_mul (u64 num_kv_layers) elements_per_layer;
  total_bytes ← checked_mul total_elements elem_size;
  if INT_MAX <? max_slots then None
  else if INT64_MAX <? elements_per_layer then None
  else Some (max_slots, elements_per_layer, total_bytes).

Definition init_storage (s : BlockStorage) (num_kv_layers max_blocks block_size num_kv_heads head_dim : Z)
    (dtype : DType) : Dev D BlockStorage :=
  if (num_kv_layers <=? 0) || (max_blocks <=? 0) || (block_size <=? 0) || (num_kv_heads <=? 0) ||
     (head_dim <=? 0) || bool_decide (dtype = kUnknown)
  then dev_error InvalidArgument
  else
    _ ← dev_assert (bool_decide (k_data_ s = None) && bool_decide (v_data_ s = None));
    let elem_size := dtype_size dtype in
    match storage_sizes num_kv_layers max_blocks block_size num_kv_heads head_dim elem_size with
    | None => dev_error InvalidArgument
    | Some (max_slots, elements_per_layer, total_bytes) =>
        k_buf ← dev_bytes total_bytes (allocate_buffer total_bytes);
        _ ← dev_bytes total_bytes (memset k_buf 0 0 total_bytes);
        v_buf ← dev_bytes total_bytes (allocate_buffer total_bytes);
        _ ← dev_bytes total_bytes (memset v_buf 0 0 total_bytes);
        mret (mkBlockStorage _ (Some k_buf) (Some v_buf) (i64 elements_per_layer) elem_size dtype
                (i32 max_slots) max_blocks block_size num_kv_heads head_dim num_kv_layers)
    end.

(** [BlockStorage::create]. *)
Definition create_block_storage (num_kv_layers max_blocks block_size num_kv_heads head_dim : Z)
    (dtype : DType) : Dev D BlockStorage :=
  init_storage default_storage num_kv_layers max_blocks block_size num_kv_heads head_dim dtype.

(** [layer_data]: the byte offset of a layer in its buffer. *)
Definition layer_data (buffer : option Z) (layer num_layers layer_stride elem_size : Z) : option (Z * Z) :=
  b ← buffer;
  ASSERT ((0 <=? layer) && (layer <? num_layers)) ;;
  Some (b, u64 (u64 (u64 layer * u64 layer_stride) * elem_size)).

Definition layer_tensor (buffer : option Z) (s : BlockStorage) (layer : Z) (shape : list Z) : Dev D Tensor :=
  fun d => match layer_data buffer layer (num_layers_ s) (layer_stride_ s) (elem_size_ s) with
           | None => None
           | Some (b, offset) => from_buffer b offset (bs_dtype_ s) shape d
           end.

Definition k_layer_tensor (s : BlockStorage) (layer : Z) : Dev D Tensor :=
  layer_tensor (k_data_ s) s layer [max_slots_ s; num_kv_heads_ s; bs_head_dim_ s].
Definition v_layer_tensor (s : BlockStorage) (layer : Z) : Dev D Tensor :=
  layer_tensor (v_data_ s) s layer [max_slots_ s; num_kv_heads_ s; bs_head_dim_ s].
Definition k_block_tensor (s : BlockStorage) (layer : Z) : Dev D Tensor :=
  layer_tensor (k_data_ s) s layer [bs_max_blocks_ s; bs_block_size_ s; num_kv_heads_ s; bs_head_dim_ s].
Definition v_block_tensor (s : BlockStorage) (layer : Z) : Dev D Tensor :=
  layer_tensor (v_data_ s) s layer [bs_max_blocks_ s; bs_block_size_ s; num_kv_heads_ s; bs_head_dim_ s].
End storage.

(** ** Sizes *)

Lemma checked_mul_spec a b c :
  0 <= a <= SIZE_MAX -> 0 <= b <= SIZE_MAX -> checked_mul a b = Some c <-> a * b <= SIZE_MAX /\ c = a * b.
Proof.
  intros Ha Hb. unfold checked_mul. destruct (Z.eqb_spec a 0) as [->|Hne]; simpl.
  - rewrite Z.mul_0_l. change (u64 0) with 0. split; [intros [= <-]; unfold SIZE_MAX; lia|by intros [_ ->]].
  - pose proof (Z.mod_pos_bound SIZE_MAX a ltac:(lia)). pose proof (Z.div_mod SIZE_MAX a ltac:(lia)).
    destruct (Z.ltb_spec (SIZE_MAX / a) b); [split; [done|nia]|].
    assert (0 <= a * b <= SIZE_MAX) by nia. unfold SIZE_MAX in *. rewrite u64_small by lia.
    split; [intros [= <-]; lia|by intros [_ ->]].
Qed.

(** The sizes of a storage, with no product wrapped. *)
Lemma storage_sizes_spec l mb bs h hd es slots per total :
  0 < l <= INT_MAX -> 0 < mb <= INT_MAX -> 0 < bs <= INT_MAX -> 0 < h <= INT_MAX -> 0 < hd <= INT_MAX ->
  0 <= es <= SIZE_MAX ->
  storage_sizes l mb bs h hd es = Some (slots, per, total) ->
  slots = mb * bs /\ per = mb * bs * (h * hd) /\ total = l * per * es /\
  slots <= INT_MAX /\ per <= INT64_MAX /\ total <= SIZE_MAX.
Proof.
  intros Hl Hmb Hbs Hh Hhd Hes. unfold storage_sizes. unfold INT_MAX in *.
  rewrite !(u64_small mb), !(u64_small bs), !(u64_small h), !(u64_small hd), !(u64_small l) by lia.
  intros H. apply bind_Some in H as (s1 & H1 & H). apply checked_mul_spec in H1 as [B1 ->]; [|unfold SIZE_MAX; lia..].
  apply bind_Some in H as (s2 & H2 & H). apply checked_mul_spec in H2 as [B2 ->]; [|unfold SIZE_MAX; lia..].
  apply bind_Some in H as (s3 & H3 & H). apply checked_mul_spec in H3 as [B3 ->]; [|nia..].
  apply bind_Some in H as (s4 & H4 & H). apply checked_mul_spec in H4 as [B4 ->]; [|unfold SIZE_MAX in *; nia..].
  apply bind_Some in H as (s5 & H5 & H). apply checked_mul_spec in H5 as [B5 ->]; [|nia..].
  destruct (Z.ltb_spec (2 ^ 31 - 1) (mb * bs)); [done|]. destruct (Z.ltb_spec INT64_MAX (mb * bs * (h * hd))); [done|].
  simplify_eq. split_and!; try done; lia.
Qed.

(** ** Layers and slots *)

Section geometry.
Context {D : Type} `{!Backend D} `{!BackendLaws D} `{!Ccop} `{!CcopLaws}.

(** A storage whose buffers have room for every layer. *)
Record block_storage_ok (s : BlockStorage) (d : D) : Prop := mk_block_storage_ok {
  bk_pos : 0 < num_layers_ s <= INT_MAX /\ 0 < bs_max_blocks_ s /\ 0 < bs_block_size_ s /\
           0 < num_kv_heads_ s /\ 0 < bs_head_dim_ s;
  bk_slots : max_slots_ s = bs_max_blocks_ s * bs_block_size_ s /\ max_slots_ s <= INT_MAX;
  bk_stride : layer_stride_ s = max_slots_ s * (num_kv_heads_ s * bs_head_dim_ s);
  bk_elem : elem_size_ s = dtype_size (bs_dtype_ s) /\ 0 < elem_size_ s <= SIZE_MAX;
  bk_total : num_layers_ s * layer_stride_ s * elem_size_ s <= SIZE_MAX;
  bk_buffers : exists kb vb kl vl, k_data_ s = Some kb /\ v_data_ s = Some vb /\ kb <> vb /\
    buf d kb = Some kl /\ buf d vb = Some vl /\
    size_Z kl = num_layers_ s * layer_stride_ s * elem_size_ s /\
    size_Z vl = num_layers_ s * layer_stride_ s * elem_size_ s;
}.

(** The bytes of one layer. *)
Definition layer_bytes_of (s : BlockStorage) : Z := layer_stride_ s * elem_size_ s.

Lemma layer_stride_pos s d : block_storage_ok s d -> 0 < layer_stride_ s.
Proof.
  intros [(_ & P1 & P2 & P3 & P4) [S _] T _ _ _]. rewrite T, S.
  by apply Z.mul_pos_pos; apply Z.mul_pos_pos.
Qed.

Lemma layer_data_spec s d b layer :
  block_storage_ok s d -> 0 <= layer < num_layers_ s ->
  layer_data (Some b) layer (num_layers_ s) (layer_stride_ s) (elem_size_ s) = Some (b, layer * layer_bytes_of s).
Proof.
  intros Hs Hl. pose proof (layer_stride_pos s d Hs). destruct Hs as [P S T [E1 E2] B _].
  unfold layer_data. simpl.
  destruct (Z.leb_spec 0 layer); [|lia]. destruct (Z.ltb_spec layer (num_layers_ s)); [|lia]. simpl.
  assert (0 <= layer * layer_stride_ s <= num_layers_ s * layer_stride_ s) by nia.
  assert (layer_stride_ s <= num_layers_ s * layer_stride_ s) by nia.
  assert (num_layers_ s * layer_stride_ s <= num_layers_ s * layer_stride_ s * elem_size_ s) by nia.
  assert (layer * layer_stride_ s * elem_size_ s <= num_layers_ s * layer_stride_ s * elem_size_ s) by nia.
  assert (0 <= layer * layer_stride_ s * elem_size_ s) by nia.
  unfold SIZE_MAX, INT_MAX in *.
  rewrite (u64_small layer), (u64_small (layer_stride_ s)), (u64_small (layer * _)), u64_small by lia.
  unfold layer_bytes_of. by rewrite Z.mul_assoc.
Qed.

Lemma layer_tensor_ok s d b l layer shape :
  block_storage_ok s d -> 0 <= layer < num_layers_ s -> buf d b = Some l ->
  size_Z l = num_layers_ s * layer_stride_ s * elem_size_ s ->
  product shape = layer_stride_ s ->
  exists t, layer_tensor (Some b) s layer shape d = Some (Value t, d) /\ t_buffer t = b /\
    t_offset t = layer * layer_bytes_of s /\ t_shape t = shape /\ nbytes t = layer_bytes_of s.
Proof.
  intros Hs Hlay Hb Hsz Hshape. unfold layer_tensor. rewrite (layer_data_spec s d b layer Hs Hlay).
  pose proof Hs as [P S T [E1 E2] B _].
  set (t := mkTensor _ b (layer * layer_bytes_of s) (bs_dtype_ s) shape (view_strides shape)).
  assert (nbytes t = layer_bytes_of s) as Hnb.
  { unfold nbytes. simpl. rewrite view_nbytes_dense. change (foldr Z.mul 1 shape) with (product shape).
    rewrite Hshape, <- E1. done. }
  exists t. split; [|by split_and!]. unfold from_buffer. fold t.
  unfold mbind, Dev_bind, dev_gets, dev_assert, data_in_buffer. rewrite Hb, Hnb, Hsz.
  pose proof (layer_stride_pos s d Hs). assert (0 <= layer_bytes_of s) by (unfold layer_bytes_of; nia).
  assert (layer * layer_bytes_of s + layer_bytes_of s <= num_layers_ s * layer_stride_ s * elem_size_ s)
    by (unfold layer_bytes_of; nia).
  destruct (Z.leb_spec 0 (layer * layer_bytes_of s)); [|nia].
  destruct (Z.leb_spec (layer_bytes_of s) (num_layers_ s * layer_stride_ s * elem_size_ s)); [|nia].
  by destruct (Z.leb_spec (layer * layer_bytes_of s) (num_layers_ s * layer_stride_ s * elem_size_ s - layer_bytes_of s)); [|nia].
Qed.

(** The byte range of slot [slot] of layer [layer]. *)
Definition slot_bytes_of (s : BlockStorage) : Z := num_kv_heads_ s * bs_head_dim_ s * elem_size_ s.
Definition slot_offset (s : BlockStorage) (layer slot : Z) : Z := layer * layer_bytes_of s + slot * slot_bytes_of s.

(** Slots of the same buffer do not overlap. *)
Lemma slots_apart s d l1 l2 i j :
  block_storage_ok s d -> 0 <= i < max_slots_ s -> 0 <= j < max_slots_ s -> (l1, i) <> (l2, j) ->
  slot_offset s l1 i + slot_bytes_of s <= slot_offset s l2 j \/
  slot_offset s l2 j + slot_bytes_of s <= slot_offset s l1 i.
Proof.
  intros Hs Hi Hj Hne. destruct Hs as [P [S _] T [E1 E2] _ _].
  assert (layer_bytes_of s = max_slots_ s * slot_bytes_of s) as Hlb
    by (unfold layer_bytes_of, slot_bytes_of; rewrite T; ring).
  assert (0 < slot_bytes_of s) as Hpos by (unfold slot_bytes_of; repeat apply Z.mul_pos_pos; lia).
  assert (forall l k, slot_offset s l k = (l * max_slots_ s + k) * slot_bytes_of s) as Ho
    by (intros; unfold slot_offset; rewrite Hlb; ring).
  rewrite !Ho. apply slots_disjoint; [lia|]. intros E. apply Hne.
  assert (l1 = l2) as -> by nia. f_equal. lia.
Qed.

(** ** Creation *)

(** A fresh buffer of [n] zero bytes, and what follows. *)
Lemma dwp_zeroed_buffer {A} n (k : Z -> Dev D A) (Q : Result A -> D -> Prop) d :
  0 < n ->
  (forall b d', buf d b = None -> keeps_buffers d d' ->
     buf d' b = Some (repeat 0 (Z.to_nat n)) -> dwp (k b) Q d') ->
  (forall e d', keeps_buffers d d' -> Q (Unexpected e) d') ->
  dwp (b ← dev_bytes n (allocate_buffer n); _ ← dev_bytes n (memset b 0 0 n); k b) Q d.
Proof.
  intros Hn HQ HE. apply dwp_bind, dwp_bytes; [done|]. intros [b|e] d1 Ha.
  2: { apply HE, same_keeps. by eapply allocate_err. }
  destruct (allocate_ok n d d1 b Hn Ha) as (Hb & (l & Hl & Hsz) & Ho).
  assert (keeps_buffers d d1) as Hk1 by (by eapply only_fresh).
  apply dwp_bind, dwp_bytes; [done|]. intros [[]|e] d2 Hm.
  2: { apply HE. etrans; [done|]. apply same_keeps. by eapply memset_err. }
  destruct (memset_ok b 0 0 n d1 d2 l Hl) as [Hl2 Ho2]; [unfold in_range; lia|lia|done|].
  apply HQ; [done| |].
  - intros b' l' Hb'. rewrite Ho2; [by apply Hk1|congruence].
  - rewrite Hl2. f_equal. unfold splice, size_Z in *. simpl.
    rewrite drop_ge by (rewrite repeat_length; lia). by rewrite app_nil_r.
Qed.

(** What [create] is called with: C++ [int]s and a data type with a size. *)
Definition int_args (l : list Z) : Prop := Forall (fun x => INT_MIN <= x <= INT_MAX) l.

Lemma dwp_create_block_storage l mb bs h hd dtype d :
  int_args [l; mb; bs; h; hd] -> 0 < dtype_size dtype <= SIZE_MAX ->
  dwp (create_block_storage l mb bs h hd dtype) (fun r d' => keeps_buffers d d' /\
    match r with
    | Value s => block_storage_ok s d' /\ num_layers_ s = l /\ max_slots_ s = mb * bs /\ bs_block_size_ s = bs
    | Unexpected _ => True
    end) d.
Proof.
  intros Ha He. unfold create_block_storage, init_storage.
  repeat (apply Forall_cons in Ha as [? Ha]). destruct (_ || _) eqn:Hg; [by apply dwp_error|].
  bprop. apply dwp_bind, dwp_assert; [done|].
  destruct (storage_sizes _ _ _ _ _ _) as [[[slots per] total]|] eqn:E; [|by apply dwp_error].
  apply storage_sizes_spec in E as (-> & -> & Ht & Hslots & Hper & Htot); [|lia..].
  assert (0 < mb * bs) by (apply Z.mul_pos_pos; lia).
  assert (0 < mb * bs * (h * hd)) by (repeat apply Z.mul_pos_pos; lia).
  assert (0 < total) by (subst total; repeat apply Z.mul_pos_pos; lia).
  apply dwp_zeroed_buffer; [done| |by intros e d' ?].
  intros kb d1 Hkb Hk1 Hk. apply dwp_zeroed_buffer; [done| |].
  2: { intros e d' Hk'. split; [by etrans|done]. }
  intros vb d2 Hvb Hk2 Hv. apply dwp_ret. split; [by etrans|].
  unfold i64, i32. rewrite !sint_small by (unfold INT64_MAX, INT_MAX in *; lia).
  split; [|done]. split; simpl; try done; try lia.
  exists kb, vb, (repeat 0 (Z.to_nat total)), (repeat 0 (Z.to_nat total)).
  assert (size_Z (repeat 0 (Z.to_nat total)) = total) as -> by (unfold size_Z; rewrite repeat_length; lia).
  split_and!; try done; [congruence|]. by apply Hk2.
Qed.

(** C40: creating the KV storage either fails with an error code or delivers a storage
    in which every layer is a tensor view inside its buffer (the assertion of
    [from_buffer] holds; stated for the slot view of the keys and the block view of the
    values), the byte ranges of different (layer, slot) pairs are disjoint, and keys and values are
    in different buffers; no size computation wraps, and buffers that were live before
    keep their contents. *)
Theorem kv_layers_fit l mb bs h hd dtype d :
  int_args [l; mb; bs; h; hd] -> 0 < dtype_size dtype <= SIZE_MAX ->
  dwp (create_block_storage l mb bs h hd dtype) (fun r d' => keeps_buffers d d' /\ forall s, r = Value s ->
    k_data_ s <> v_data_ s /\
    (forall layer, 0 <= layer < l ->
       dwp (k_layer_tensor s layer) (fun t _ => exists k, t = Value k /\ Some (t_buffer k) = k_data_ s /\
         t_offset k = slot_offset s layer 0 /\ nbytes k = (mb * bs) * slot_bytes_of s) d' /\
       dwp (v_block_tensor s layer) (fun t _ => exists v, t = Value v /\ Some (t_buffer v) = v_data_ s /\
         t_offset v = slot_offset s layer 0 /\ nbytes v = (mb * bs) * slot_bytes_of s) d') /\
    (forall l1 l2 i j, 0 <= i < mb * bs -> 0 <= j < mb * bs -> (l1, i) <> (l2, j) ->
       slot_offset s l1 i + slot_bytes_of s <= slot_offset s l2 j \/
       slot_offset s l2 j + slot_bytes_of s <= slot_offset s l1 i)) d.
Proof.
  intros Ha He. eapply dwp_mono; [by apply dwp_create_block_storage|].
  intros r d' [Hk Hr]. split; [done|]. intros s ->. destruct Hr as (Hs & Hl & Hm & _). subst l.
  pose proof Hs as [P [S _] T _ _ (kb & vb & kl & vl & Ek & Ev & Hne & Hbk & Hbv & Sk & Sv)].
  split_and!; [congruence| |].
  - assert (layer_bytes_of s = mb * bs * slot_bytes_of s) as <-
      by (unfold layer_bytes_of, slot_bytes_of; rewrite T, Hm; ring).
    assert (forall layer, slot_offset s layer 0 = layer * layer_bytes_of s) as Ho by (intros; unfold slot_offset; ring).
    intros layer Hlay. split; unfold k_layer_tensor, v_block_tensor; rewrite ?Ek, ?Ev, Ho.
    + destruct (layer_tensor_ok s d' kb kl layer [max_slots_ s; num_kv_heads_ s; bs_head_dim_ s])
        as (t & E & <- & H1 & _ & H2); try done; [rewrite T; unfold product; simpl; ring|].
      exists (Value t), d'. split; [done|]. by exists t.
    + destruct (layer_tensor_ok s d' vb vl layer [bs_max_blocks_ s; bs_block_size_ s; num_kv_heads_ s; bs_head_dim_ s])
        as (t & E & <- & H1 & _ & H2); try done; [rewrite T, S; unfold product; simpl; ring|].
      exists (Value t), d'. split; [done|]. by exists t.
  - rewrite <- Hm. intros l1 l2 i j. by apply slots_apart with (d := d').
Qed.
End geometry.

(** Two layers of three blocks of four tokens. *)
Lemma kv_layers_fit_witness : exists r d', create_block_storage 2 3 4 2 8 kBFloat16 (mkSim [] []) = Some (r, d') /\
  exists s, r = Value s /\ k_data_ s <> v_data_ s.
Proof.
  assert (int_args [2; 3; 4; 2; 8]) as H1 by (repeat constructor; vm_compute; discriminate).
  assert (0 < dtype_size (kBFloat16 : DType) <= SIZE_MAX) as H2 by (vm_compute; split; [reflexivity|discriminate]).
  destruct (kv_layers_fit 2 3 4 2 8 kBFloat16 (mkSim [] []) H1 H2) as (r & d' & E & _ & H).
  exists r, d'. split; [exact E|]. vm_compute in E. injection E as <- _.
  eexists. split; [reflexivity|]. apply (H _ eq_refl).
Defined.
