(* ===== verification/Qwen35.v ===== *)
(** * Layer topology of hybrid models: [model/qwen35/qwen35_model.cpp]

    A hybrid model has attention layers, which own a layer of the KV storage, and
    recurrent layers, which own one of the state storage; the index functions map
    a decoder layer to its storage layer. *)

From Stdlib Require Import ZArith Lia.
From stdpp Require Import prelude strings gmap fin_maps.
From S2P Require Import Prelude Base Config.

(** The number of layers of a type among the first [n]. *)
Definition count_types (types : list LayerType) (n : Z) (type : LayerType) : Z :=
  size_Z (List.filter (fun t => bool_decide (t = type)) (take (Z.to_nat n) types)).

Definition count_layer_type (config : ModelConfig) (type : LayerType) : option Z :=
  ASSERT (bool_decide (arch_ config = Qwen3_5)) ;;
  Some (count_types (layer_types_ config) (n_layers_ config) type).

Definition index_for_layer_type (config : ModelConfig) (layer : Z) (type : LayerType) : option Z :=
  ASSERT (bool_decide (arch_ config = Qwen3_5)) ;;
  ASSERT ((0 <=? layer) && (layer <? n_layers_ config)) ;;
  ASSERT (layer <? size_Z (layer_types_ config)) ;;
  t ← at_Z (layer_types_ config) layer;
  ASSERT (bool_decide (t = type)) ;;
  Some (count_types (layer_types_ config) layer type).

Definition num_kv_layers (config : ModelConfig) : option Z := count_layer_type config FullAttention.
Definition kv_layer_index (config : ModelConfig) (layer : Z) : option Z :=
  index_for_layer_type config layer FullAttention.
Definition num_gdn_layers (config : ModelConfig) : option Z := count_layer_type config GatedDeltaNet.
Definition gdn_layer_index (config : ModelConfig) (layer : Z) : option Z :=
  index_for_layer_type config layer GatedDeltaNet.

(** ** Counting *)

Lemma count_types_nonneg types n type : 0 <= count_types types n type.
Proof. apply size_Z_nonneg. Qed.

Lemma count_types_step types i type t :
  at_Z types i = Some t ->
  count_types types (i + 1) type = count_types types i type + (if bool_decide (t = type) then 1 else 0).
Proof.
  intros Ht. apply at_Z_Some in Ht as [Hi Ht]. unfold count_types.
  replace (Z.to_nat (i + 1)) with (S (Z.to_nat i)) by lia.
  rewrite (take_S_r _ _ t Ht), List.filter_app, size_Z_app. f_equal. simpl.
  by destruct (bool_decide (t = type)).
Qed.

Lemma count_types_mono types i j type : 0 <= i <= j -> count_types types i type <= count_types types j type.
Proof.
  intros Hij. unfold count_types. replace (Z.to_nat j) with (Z.to_nat i + (Z.to_nat j - Z.to_nat i))%nat by lia.
  rewrite <- take_take_drop, List.filter_app, size_Z_app.
  pose proof (size_Z_nonneg (List.filter (fun t => bool_decide (t = type))
    (take (Z.to_nat j - Z.to_nat i) (drop (Z.to_nat i) types)))). lia.
Qed.

(** Every smaller count is reached at a layer of the type. *)
Lemma count_types_reach types n type k :
  0 <= n -> 0 <= k < count_types types n type ->
  exists i, 0 <= i < n /\ at_Z types i = Some type /\ count_types types i type = k.
Proof.
  intros Hn. revert k. revert n Hn.
  apply (natlike_ind (fun n => forall k, 0 <= k < count_types types n type ->
    exists i, 0 <= i < n /\ at_Z types i = Some type /\ count_types types i type = k)).
  { intros k Hk. unfold count_types in Hk. simpl in Hk. unfold size_Z in Hk. simpl in Hk. lia. }
  intros n Hn IH k Hk. replace (Z.succ n) with (n + 1) in * by lia.
  destruct (decide (k < count_types types n type)) as [Hlt|Hge].
  { destruct (IH k ltac:(lia)) as (i & ? & ? & ?). exists i. split_and!; try done; lia. }
  destruct (at_Z types n) as [t|] eqn:E.
  - rewrite (count_types_step types n type t E) in Hk. case_bool_decide; [|lia]. subst t.
    exists n. split_and!; try done; lia.
  - exfalso. unfold count_types in *. unfold at_Z in E. destruct (Z.leb_spec 0 n); [|lia].
    apply lookup_ge_None in E. rewrite !take_ge in * by lia. lia.
Qed.

(** the storage index of a layer is a bijection between the decoder layers of a
    type and the numbers below the layer count of that type: it is in range, different
    layers have different indices, and every storage layer belongs to a decoder layer.
    So the KV storage created with [num_kv_layers] has exactly one layer per attention
    layer. *)
Theorem layer_index_bijection config type count :
  count_layer_type config type = Some count ->
  (forall layer i, index_for_layer_type config layer type = Some i -> 0 <= i < count) /\
  (forall l1 l2 i, index_for_layer_type config l1 type = Some i ->
     index_for_layer_type config l2 type = Some i -> l1 = l2) /\
  (forall i, 0 <= i < count -> exists layer, index_for_layer_type config layer type = Some i).
Proof.
  unfold count_layer_type, index_for_layer_type. case_bool_decide as Ha; [|done]. intros [= <-].
  set (types := layer_types_ config).
  assert (forall layer i, (if (0 <=? layer) && (layer <? n_layers_ config) then
      if layer <? size_Z types then t ← at_Z types layer;
        if bool_decide (t = type) then Some (count_types types layer type) else None else None else None) = Some i ->
    0 <= layer < n_layers_ config /\ at_Z types layer = Some type /\ i = count_types types layer type) as Hinv.
  { intros layer i H. inv_run H. bprop. subst. split_and!; try done; lia. }
  split_and!.
  - intros layer i (Hl & Ht & ->)%Hinv. split; [apply count_types_nonneg|].
    pose proof (count_types_mono types (layer + 1) (n_layers_ config) type ltac:(lia)).
    rewrite (count_types_step types layer type type Ht), bool_decide_eq_true_2 in H; [lia|done].
  - assert (forall l1 l2, 0 <= l1 < l2 -> at_Z types l1 = Some type ->
      count_types types l1 type < count_types types l2 type) as Hlt.
    { intros l1 l2 Hl Ht. pose proof (count_types_mono types (l1 + 1) l2 type ltac:(lia)).
      rewrite (count_types_step types l1 type type Ht), bool_decide_eq_true_2 in H; [lia|done]. }
    intros l1 l2 i (H1 & T1 & ->)%Hinv (H2 & T2 & E)%Hinv.
    destruct (Z.lt_trichotomy l1 l2) as [?|[?|?]]; [|done|].
    + pose proof (Hlt l1 l2 ltac:(lia) T1). lia.
    + pose proof (Hlt l2 l1 ltac:(lia) T2). lia.
  - intros i Hi. destruct (decide (0 <= n_layers_ config)) as [Hn|Hn].
    2: { unfold count_types in Hi. replace (Z.to_nat (n_layers_ config)) with 0%nat in Hi by lia. unfold size_Z in Hi. simpl in Hi. lia. }
    destruct (count_types_reach types _ type i Hn Hi) as (layer & Hl & Ht & <-). exists layer.
    pose proof (at_Z_Some _ _ _ Ht) as [? _].
    destruct (Z.leb_spec 0 layer); [|lia]. destruct (Z.ltb_spec layer (n_layers_ config)); [|lia].
    destruct (Z.ltb_spec layer (size_Z types)); [|lia]. simpl. rewrite Ht. simpl.
    by rewrite bool_decide_eq_true_2.
Qed.

(** A model with four layers, every second one an attention layer. *)
Definition hybrid_config : ModelConfig :=
  mkModelConfig Qwen3_5 4 2 1 8 4 2 8 16 32 f32_one f32_one 2 0 4 2 1 2 4
    [GatedDeltaNet; FullAttention; GatedDeltaNet; FullAttention].

Lemma layer_index_bijection_witness :
  kv_layer_index hybrid_config 3 = Some 1 /\ forall l, kv_layer_index hybrid_config l = Some 1 -> l = 3.
Proof.
  destruct (layer_index_bijection hybrid_config FullAttention 2 eq_refl) as (_ & H & _).
  split; [reflexivity|]. intros l Hl. exact (H l 3 1 Hl eq_refl).
Defined.
