(* ===== verification/Translate.v ===== *)
(** * From work items to device arrays: [Worker::BatchTranslator], [worker/worker.cpp]

    The translation fills host vectors by index, item by item, and uploads them.
    [translate_item] is the loop body with every vector write checked against the
    vector's size; [batch_arrays] says what the vectors hold in the end. *)

From Stdlib Require Import ZArith Lia.
From stdpp Require Import prelude strings gmap fin_maps.
From S2P Require Import Prelude Base Config Scheduler SchedWork Bytes Device State.

(** ** The vectors *)

(** [v[i] = x], undefined outside the vector. *)
Definition write_Z {A} (l : list A) (i : Z) (x : A) : option (list A) :=
  ASSERT ((0 <=? i) && (i <? size_Z l)) ;; Some (set_Z l i x).

Record TokenArrays := mkTokenArrays {
  token_ids : list Z;
  positions : list Z;
  slots : list Z;
}.

Record Arrays := mkArrays {
  a_tokens : TokenArrays;
  a_block_table : list Z;
  query_start : list Z;
  context_lens : list Z;
  logits_indices : list Z;
  item_counts : list Z;
  item_seq_ids : list Z;
  item_kinds : list WorkKind;
  sample_flags : list bool;
  logits_rows : list Z;
  a_offset : Z;
  num_logits : Z;
  max_position : Z;
  has_prefill : bool;
  has_decode : bool;
}.

(** [std::vector<T> v(n, x)]. *)
Definition vector {A} (n : Z) (x : A) : list A := repeat x (Z.to_nat n).

Definition fresh_arrays (count max_blocks total_tokens : Z) : Arrays :=
  mkArrays (mkTokenArrays (vector total_tokens 0) (vector total_tokens 0) (vector total_tokens 0))
    (vector (count * max_blocks) (-1)) (vector (count + 1) 0) (vector count 0) (vector count (-1))
    (vector count 0) (vector count 0) (vector count KindPrefillChunk) (vector count false) [] 0 0 0 false false.

(** ** The two passes *)

Definition is_prefill (item : WorkItem) : bool :=
  match item with WPrefill _ => true | WDecode _ => false end.

Definition writes (item : WorkItem) : bool :=
  match item with WPrefill _ => true | WDecode work => write_kv work end.

(** The first loop: the assertions, the widest table and the token count. *)
Fixpoint first_pass (block_size : Z) (items : list WorkItem) (max_blocks total_tokens : Z) : option (Z * Z) :=
  match items with
  | [] => Some (max_blocks, total_tokens)
  | item :: items =>
      let context := work_context item in
      let table := work_block_table item in
      ASSERT match item with WPrefill _ => true | WDecode decode => negb (late_bind decode) end ;;
      ASSERT negb (table_size table =? 0) ;;
      ASSERT 0 <=? context ;;
      ASSERT context + (if writes item then work_token_count item else 0) <=? token_capacity table block_size ;;
      first_pass block_size items (Z.max max_blocks (table_size table)) (total_tokens + work_token_count item)
  end.

(** [table[pos / block_size_] * block_size_ + pos % block_size_]. *)
Definition slot (block_size : Z) (table : BlockTable) (pos : Z) : option Z :=
  id ← table_at table (Z.quot pos block_size);
  Some (id * block_size + Z.rem pos block_size).

(** One token of the flattened batch. *)
Definition write_token (a : TokenArrays) (at_ token pos slot : Z) : option TokenArrays :=
  ids ← write_Z (token_ids a) at_ token;
  poss ← write_Z (positions a) at_ pos;
  sl ← write_Z (slots a) at_ slot;
  Some (mkTokenArrays ids poss sl).

(** The token loop of a chunk, from token [t]. *)
Fixpoint write_chunk (block_size offset context : Z) (work : PrefillChunk) (todo : nat) (t : Z) (a : TokenArrays)
  : option TokenArrays :=
  match todo with
  | O => Some a
  | S todo =>
      let pos := context + t in
      token ← at_Z (pc_tokens work) t;
      s ← slot block_size (pc_block_table work) pos;
      a ← write_token a (offset + t) token pos s;
      write_chunk block_size offset context work todo (t + 1) a
  end.

(** The loop over a block table, from block [b]. *)
Fixpoint write_row (base : Z) (ids : list Z) (b : Z) (block_table : list Z) : option (list Z) :=
  match ids with
  | [] => Some block_table
  | id :: ids => block_table ← write_Z block_table (base + b) id; write_row base ids (b + 1) block_table
  end.

Definition translate_item (block_size max_blocks i : Z) (item : WorkItem) (a : Arrays) : option Arrays :=
  let context := work_context item in
  let table := work_block_table item in
  let tokens := work_token_count item in
  let offset := a_offset a in
  counts ← write_Z (item_counts a) i tokens;
  seqs ← write_Z (item_seq_ids a) i (work_sequence_id item);
  kinds ← write_Z (item_kinds a) i (work_kind item);
  starts ← write_Z (query_start a) i offset;
  rows ← write_row (i * max_blocks) (block_ids_ table) 0 (a_block_table a);
  '(ta, sampled) ←
    (match item with
    | WPrefill work =>
        ta ← write_chunk block_size offset context work (Z.to_nat tokens) 0 (a_tokens a);
        Some (ta, needs_sample work)
    | WDecode work =>
        let pos := if writes item then context else Z.max 0 (context - 1) in
        s ← (if writes item then slot block_size table pos else Some (-1));
        ta ← write_token (a_tokens a) offset (input_token work) pos s;
        Some (ta, true)
    end : option (TokenArrays * bool));
  flags ← write_Z (sample_flags a) i sampled;
  lens ← write_Z (context_lens a) i (context + (if writes item then tokens else 0));
  last ← at_Z (positions ta) (offset + tokens - 1);
  logits ← (if (sampled : bool) then write_Z (logits_indices a) i (num_logits a) else Some (logits_indices a));
  Some (mkArrays ta rows starts lens logits counts seqs kinds flags
          (if (sampled : bool) then logits_rows a ++ [offset + tokens - 1] else logits_rows a)
          (offset + tokens) (if (sampled : bool) then num_logits a + 1 else num_logits a)
          (Z.max (max_position a) last) (has_prefill a || is_prefill item) (has_decode a || negb (is_prefill item))).

Fixpoint translate_items (block_size max_blocks i : Z) (items : list WorkItem) (a : Arrays) : option Arrays :=
  match items with
  | [] => Some a
  | item :: items =>
      a ← translate_item block_size max_blocks i item a;
      translate_items block_size max_blocks (i + 1) items a
  end.

Definition set_query_start (x : list Z) (a : Arrays) : Arrays :=
  mkArrays (a_tokens a) (a_block_table a) x (context_lens a) (logits_indices a) (item_counts a) (item_seq_ids a)
    (item_kinds a) (sample_flags a) (logits_rows a) (a_offset a) (num_logits a) (max_position a) (has_prefill a)
    (has_decode a).

(** The host part of [translate]: the widest table, the token count, the vectors. *)
Definition build_arrays (block_size : Z) (items : list WorkItem) : option (Z * Z * Arrays) :=
  ASSERT 0 <? block_size ;;
  ASSERT negb (bool_decide (items = [])) ;;
  let count := size_Z items in
  '(max_blocks, total_tokens) ← first_pass block_size items 0 0;
  a ← translate_items block_size max_blocks 0 items (fresh_arrays count max_blocks total_tokens);
  starts ← write_Z (query_start a) count (a_offset a);
  Some (max_blocks, total_tokens, set_query_start starts a).

(** ** The upload *)

(** [PhysicalBatch] of [worker/model_runner.h]; the tensors are views of device
    buffers, [pb_state_mapping] is invalid ([None]) without a state pool. *)
Record PhysicalBatch `{Ccop} := mkPhysicalBatch {
  pb_num_tokens : Z;
  pb_token_ids : Tensor;
  pb_positions : Tensor;
  pb_slot_mapping : Tensor;
  pb_batch_size : Z;
  pb_max_blocks_per_req : Z;
  pb_block_table : Tensor;
  pb_query_start_loc : Tensor;
  pb_context_lens : Tensor;
  pb_logits_indices : Tensor;
  pb_state_mapping : option Tensor;
  pb_mode : ForwardMode;
  pb_item_seq_ids : list Z;
  pb_item_kinds : list WorkKind;
  pb_item_token_counts : list Z;
  pb_sample_flags : list bool;
  pb_logits_rows_host : list Z;
  pb_num_logits : Z;
  pb_max_position_id : Z;
}.

Section translate.
Context {D : Type} `{Backend D} `{Ccop}.

(** The lambda [upload]: the vector's bytes as an [int32] tensor. *)
Definition upload (values : list Z) (shape : list Z) : Dev D Tensor :=
  from_host (Some (encode_i32 values)) kInt32 shape.

(** The state slots of the items, -1 for a sequence without one. *)
Definition state_slots (pool : StatePool) (seqs : list Z) : list Z :=
  (fun q => match active_state_of pool q with Some state => state | None => -1 end) <$> seqs.

Definition forward_mode (prefill decode : bool) : ForwardMode :=
  if prefill && decode then FwdMixed else if prefill then FwdPrefill else FwdDecode.

(** [BatchTranslator::translate]. *)
Definition translate (block_size : Z) (state_pool : option StatePool) (batch : ScheduledBatch)
  : Dev D PhysicalBatch :=
  '(max_blocks, total_tokens, a) ← dev_lift (build_arrays block_size (batch_items batch));
  let count := size_Z (batch_items batch) in
  token_r ← upload (token_ids (a_tokens a)) [total_tokens];
  position_r ← upload (positions (a_tokens a)) [total_tokens];
  slot_r ← upload (slots (a_tokens a)) [total_tokens];
  table_r ← upload (a_block_table a) [count; max_blocks];
  query_r ← upload (query_start a) [count + 1];
  context_r ← upload (context_lens a) [count];
  logits_r ← upload (logits_indices a) [count];
  state_mapping_r ← match state_pool with
                    | Some pool => t ← upload (state_slots pool (item_seq_ids a)) [count]; mret (Some t)
                    | None => mret None
                    end;
  _ ← dev_op synchronize;
  mret (mkPhysicalBatch _ total_tokens token_r position_r slot_r count max_blocks table_r query_r context_r logits_r
          state_mapping_r (forward_mode (has_prefill a) (has_decode a)) (item_seq_ids a) (item_kinds a)
          (item_counts a) (sample_flags a) (logits_rows a) (num_logits a) (max_position a)).
End translate.

(** ** What the vectors hold *)

(** The slot of a position that exists in the table. *)
Definition slot_of (block_size : Z) (table : BlockTable) (pos : Z) : Z :=
  default 0 (table_at table (pos / block_size)) * block_size + pos mod block_size.

Definition item_ids (item : WorkItem) : list Z :=
  match item with
  | WPrefill work => take (Z.to_nat (span_length (prompt_span work))) (pc_tokens work)
  | WDecode work => [input_token work]
  end.

Definition item_positions (item : WorkItem) : list Z :=
  match item with
  | WPrefill _ => seqZ (work_context item) (work_token_count item)
  | WDecode _ => [if writes item then work_context item else Z.max 0 (work_context item - 1)]
  end.

Definition item_slots (block_size : Z) (item : WorkItem) : list Z :=
  if writes item then slot_of block_size (work_block_table item) <$> item_positions item else [-1].

Definition item_row (max_blocks : Z) (item : WorkItem) : list Z :=
  block_ids_ (work_block_table item) ++ vector (max_blocks - table_size (work_block_table item)) (-1).

Definition item_sampled (item : WorkItem) : bool :=
  match item with WPrefill work => needs_sample work | WDecode _ => true end.

Definition item_context_len (item : WorkItem) : Z :=
  work_context item + (if writes item then work_token_count item else 0).

Definition item_last (item : WorkItem) : Z :=
  match item with
  | WPrefill _ => work_context item + work_token_count item - 1
  | WDecode _ => if writes item then work_context item else Z.max 0 (work_context item - 1)
  end.

(** Where each item starts, from offset [o]. *)
Fixpoint starts_from (o : Z) (items : list WorkItem) : list Z :=
  match items with
  | [] => []
  | item :: items => o :: starts_from (o + work_token_count item) items
  end.

(** The compact logits row of each item, from row [n]. *)
Fixpoint rows_from (n : Z) (items : list WorkItem) : list Z :=
  match items with
  | [] => []
  | item :: items => if item_sampled item then n :: rows_from (n + 1) items else -1 :: rows_from n items
  end.

(** The flattened rows to sample, from offset [o]. *)
Fixpoint sampled_rows (o : Z) (items : list WorkItem) : list Z :=
  match items with
  | [] => []
  | item :: items =>
      (if item_sampled item then [o + work_token_count item - 1] else []) ++
      sampled_rows (o + work_token_count item) items
  end.

Definition total_of (items : list WorkItem) : Z := sum_items work_token_count items.
Definition sampled_of (items : list WorkItem) : Z := sum_items (fun it => if item_sampled it then 1 else 0) items.
Definition widest (items : list WorkItem) : Z :=
  foldl (fun m it => Z.max m (table_size (work_block_table it))) 0 items.

(** The vectors after [items], with room for [tokens] more tokens and [count] more
    items. *)
Definition batch_arrays (block_size max_blocks : Z) (items : list WorkItem) (tokens count : Z) : Arrays :=
  mkArrays
    (mkTokenArrays ((items ≫= item_ids) ++ vector tokens 0) ((items ≫= item_positions) ++ vector tokens 0)
       ((items ≫= item_slots block_size) ++ vector tokens 0))
    ((items ≫= item_row max_blocks) ++ vector (count * max_blocks) (-1))
    (starts_from 0 items ++ vector (count + 1) 0)
    ((item_context_len <$> items) ++ vector count 0)
    (rows_from 0 items ++ vector count (-1))
    ((work_token_count <$> items) ++ vector count 0)
    ((work_sequence_id <$> items) ++ vector count 0)
    ((work_kind <$> items) ++ vector count KindPrefillChunk)
    ((item_sampled <$> items) ++ vector count false)
    (sampled_rows 0 items) (total_of items) (sampled_of items)
    (foldl (fun m it => Z.max m (item_last it)) 0 items)
    (existsb is_prefill items) (existsb (fun it => negb (is_prefill it)) items).
