(* ===== verification/TranslateProps.v ===== *)
(** * What the translated arrays hold

    The index-by-index translation fills every vector exactly: [build_spec] equates
    it with the closed form of [Translate], for the batches the scheduler builds. *)

From Stdlib Require Import ZArith Lia.
From stdpp Require Import prelude strings gmap fin_maps.
From S2P Require Import Prelude Base Config Scheduler SchedWork Bytes Device SimDevice State Translate.

(** ** Vectors *)

Lemma size_vector {A} n (x : A) : 0 <= n -> size_Z (vector n x) = n.
Proof. intros. unfold vector, size_Z. rewrite repeat_length. lia. Qed.

Lemma vector_succ {A} n (x : A) : 0 <= n -> vector (1 + n) x = x :: vector n x.
Proof. intros. unfold vector. by replace (Z.to_nat (1 + n)) with (S (Z.to_nat n)) by lia. Qed.

Lemma vector_add {A} m n (x : A) : 0 <= m -> 0 <= n -> vector (m + n) x = vector m x ++ vector n x.
Proof. intros. unfold vector. rewrite Z2Nat.inj_add by lia. by rewrite repeat_app. Qed.

(** Writing the first free place. *)
Lemma write_next {A} (pre : list A) i n (x d : A) :
  i = size_Z pre -> 0 <= n -> write_Z (pre ++ vector (1 + n) d) i x = Some ((pre ++ [x]) ++ vector n d).
Proof.
  intros -> Hn. unfold write_Z, set_Z. rewrite size_Z_app, size_vector by lia. pose proof (size_Z_nonneg pre).
  destruct (Z.leb_spec 0 (size_Z pre)); [|lia].
  destruct (Z.ltb_spec (size_Z pre) (size_Z pre + (1 + n))); [|lia]. simpl. f_equal.
  unfold size_Z. rewrite Nat2Z.id, vector_succ by done.
  replace (length pre) with (length pre + 0)%nat by lia. rewrite insert_app_r. simpl. by rewrite <- app_assoc.
Qed.

Lemma write_row_next ids pre base b n :
  base + b = size_Z pre -> size_Z ids <= n ->
  write_row base ids b (pre ++ vector n (-1)) = Some ((pre ++ ids) ++ vector (n - size_Z ids) (-1)).
Proof.
  revert pre b n. induction ids as [|id ids IH]; intros pre b n Hb Hn; cbn [write_row].
  { rewrite app_nil_r. unfold size_Z. simpl. by rewrite Z.sub_0_r. }
  rewrite size_Z_cons in Hn. pose proof (size_Z_nonneg ids).
  replace n with (1 + (n - 1)) by lia. rewrite (write_next pre) by lia. cbn [mbind option_bind].
  rewrite IH by (rewrite ?size_Z_app; unfold size_Z in *; simpl in *; lia).
  rewrite <- (app_assoc pre [id] ids), size_Z_cons. simpl. do 3 f_equal. lia.
Qed.

(** ** Items the worker can translate *)

Record item_ok (bs mb : Z) (it : WorkItem) : Prop := mk_item_ok {
  io_wf : item_wf bs it;
  io_bound : match it with WPrefill _ => true | WDecode w => negb (late_bind w) end = true;
  io_width : table_size (work_block_table it) <= mb;
}.

Section items.
Context (bs mb : Z) (Hbs : 0 < bs).

Lemma writes_kv it : (if writes it then work_token_count it else 0) = kv_token_count it.
Proof. by destruct it as [w|w]; simpl; [|destruct (write_kv w)]. Qed.

(** A position the item covers has a slot. *)
Lemma slot_spec table pos : 0 <= pos < bs * table_size table -> slot bs table pos = Some (slot_of bs table pos).
Proof.
  intros Hp. unfold slot, slot_of. rewrite Z.quot_div_nonneg, Z.rem_mod_nonneg by lia.
  destruct (at_Z_is_Some (block_ids_ table) (pos / bs)) as [id E].
  { split; [apply Z.div_pos; lia|]. apply Z.div_lt_upper_bound; unfold table_size in *; lia. }
  unfold table_at. by rewrite E.
Qed.

Lemma size_item_ids it : item_wf bs it -> size_Z (item_ids it) = work_token_count it.
Proof.
  intros [_ _ Ht Hl _ _]. destruct it as [w|w]; simpl in *; [|done].
  unfold size_Z in *. rewrite length_take. lia.
Qed.

Lemma size_item_positions it : item_wf bs it -> size_Z (item_positions it) = work_token_count it.
Proof.
  intros [_ _ Ht _ _ _]. destruct it as [w|w]; simpl in *; [|done]. unfold size_Z. rewrite length_seqZ. lia.
Qed.

Lemma size_item_slots it : item_wf bs it -> size_Z (item_slots bs it) = work_token_count it.
Proof.
  intros Hwf. pose proof (size_item_positions it Hwf) as Hp. unfold item_slots, size_Z in *.
  destruct (writes it) eqn:Hw; [by rewrite length_fmap|]. by destruct it.
Qed.

Lemma size_item_row it : item_ok bs mb it -> size_Z (item_row mb it) = mb.
Proof.
  intros [_ _ Hw]. unfold item_row. rewrite size_Z_app, size_vector by lia. unfold table_size. lia.
Qed.

(** The flattened vectors have one entry per token. *)
Lemma size_concat (f : WorkItem -> list Z) (g : WorkItem -> Z) items :
  Forall (fun it => size_Z (f it) = g it) items -> size_Z (items ≫= f) = sum_items g items.
Proof.
  induction 1 as [|it items Hit _ IH]; [done|]. cbn [mbind list_bind]. rewrite size_Z_app. simpl. lia.
Qed.

Lemma size_starts o items : size_Z (starts_from o items) = size_Z items.
Proof. revert o. induction items as [|it items IH]; intros o; [done|]. simpl. by rewrite !size_Z_cons, IH. Qed.

Lemma size_rows n items : size_Z (rows_from n items) = size_Z items.
Proof.
  revert n. induction items as [|it items IH]; intros n; [done|].
  simpl. destruct (item_sampled it); by rewrite !size_Z_cons, IH.
Qed.

(** The token loop of a chunk. *)
Lemma write_chunk_spec offset work todo t ids poss sl m :
  0 <= t -> offset + t = size_Z ids -> offset + t = size_Z poss -> offset + t = size_Z sl -> 0 <= m ->
  0 <= work_context (WPrefill work) ->
  t + Z.of_nat todo <= size_Z (pc_tokens work) ->
  work_context (WPrefill work) + t + Z.of_nat todo <= bs * table_size (pc_block_table work) ->
  write_chunk bs offset (work_context (WPrefill work)) work todo t
    (mkTokenArrays (ids ++ vector (Z.of_nat todo + m) 0) (poss ++ vector (Z.of_nat todo + m) 0)
       (sl ++ vector (Z.of_nat todo + m) 0)) =
  Some (mkTokenArrays ((ids ++ take todo (drop (Z.to_nat t) (pc_tokens work))) ++ vector m 0)
          ((poss ++ seqZ (work_context (WPrefill work) + t) (Z.of_nat todo)) ++ vector m 0)
          ((sl ++ (slot_of bs (pc_block_table work) <$> seqZ (work_context (WPrefill work) + t) (Z.of_nat todo))) ++
           vector m 0)).
Proof.
  set (ctx := work_context (WPrefill work)).
  revert t ids poss sl. induction todo as [|todo IH]; intros t ids poss sl Ht H1 H2 H3 Hm Hctx Hlen Hfit.
  { simpl. rewrite !app_nil_r. done. }
  cbn [write_chunk]. destruct (at_Z_is_Some (pc_tokens work) t) as [token Htok]; [lia|].
  rewrite Htok. cbn [mbind option_bind]. rewrite slot_spec by lia. cbn [mbind option_bind].
  unfold write_token. cbn [token_ids positions slots].
  replace (Z.of_nat (S todo) + m) with (1 + (Z.of_nat todo + m)) by lia.
  rewrite !write_next by lia. cbn [mbind option_bind].
  rewrite IH by (rewrite ?size_Z_app; unfold size_Z in *; simpl in *; lia). do 2 f_equal.
  - apply at_Z_Some in Htok as [_ Htok]. rewrite (drop_S _ _ _ Htok). simpl.
    rewrite <- (app_assoc ids). by replace (Z.to_nat (t + 1)) with (S (Z.to_nat t)) by lia.
  - rewrite <- (app_assoc poss). rewrite (seqZ_cons (ctx + t)) by lia. simpl. do 4 f_equal; lia.
  - rewrite <- (app_assoc sl). rewrite (seqZ_cons (ctx + t)) by lia. simpl. do 5 f_equal; lia.
Qed.

(** ** One item more *)

Lemma sum_items_snoc f items it : sum_items f (items ++ [it]) = sum_items f items + f it.
Proof. induction items as [|x items IH]; simpl; [lia|]. unfold sum_items in *. simpl. lia. Qed.

Lemma starts_snoc o items it : starts_from o (items ++ [it]) = starts_from o items ++ [o + total_of items].
Proof.
  revert o. induction items as [|x items IH]; intros o; simpl.
  - unfold total_of. simpl. by rewrite Z.add_0_r.
  - rewrite IH. unfold total_of. simpl. do 3 f_equal. lia.
Qed.

Lemma rows_snoc n items it :
  rows_from n (items ++ [it]) = rows_from n items ++ [if item_sampled it then n + sampled_of items else -1].
Proof.
  revert n. induction items as [|x items IH]; intros n; simpl.
  - unfold sampled_of. simpl. rewrite Z.add_0_r. by destruct (item_sampled it).
  - unfold sampled_of. simpl. destruct (item_sampled x); rewrite IH; unfold sampled_of; simpl; [|done].
    do 3 f_equal. destruct (item_sampled it); lia.
Qed.

Lemma sampled_rows_snoc o items it :
  sampled_rows o (items ++ [it]) = sampled_rows o items ++
    (if item_sampled it then [o + total_of items + work_token_count it - 1] else []).
Proof.
  revert o. induction items as [|x items IH]; intros o; simpl.
  - unfold total_of. simpl. by rewrite Z.add_0_r, app_nil_r.
  - rewrite IH, <- app_assoc. unfold total_of. simpl. do 2 f_equal. destruct (item_sampled it); [|done].
    do 2 f_equal. lia.
Qed.

Lemma existsb_snoc {A} (f : A -> bool) l x : existsb f (l ++ [x]) = existsb f l || f x.
Proof. by rewrite existsb_app; simpl; rewrite orb_false_r. Qed.

Lemma bind_snoc (f : WorkItem -> list Z) items it : (items ++ [it]) ≫= f = (items ≫= f) ++ f it.
Proof. rewrite bind_app. simpl. by rewrite app_nil_r. Qed.

(** The last position of an item is the last of its positions. *)
Lemma item_last_at it : item_wf bs it -> at_Z (item_positions it) (work_token_count it - 1) = Some (item_last it).
Proof.
  intros [_ _ Ht _ _ _]. destruct it as [w|w]; [|done]. simpl in *.
  unfold at_Z. destruct (Z.leb_spec 0 (span_length (prompt_span w) - 1)); [|lia].
  rewrite lookup_seqZ_lt by lia. f_equal. lia.
Qed.

Lemma at_Z_middle {A} (pre l post : list A) i x : at_Z l i = Some x -> at_Z ((pre ++ l) ++ post) (size_Z pre + i) = Some x.
Proof.
  intros H. apply at_Z_Some in H as [Hi Hx]. unfold at_Z, size_Z in *.
  destruct (Z.leb_spec 0 (Z.of_nat (length pre) + i)); [|lia].
  replace (Z.to_nat (Z.of_nat (length pre) + i)) with (length pre + Z.to_nat i)%nat by lia.
  rewrite <- app_assoc, lookup_app_r by lia. rewrite Nat.add_comm, Nat.add_sub.
  by apply lookup_app_l_Some.
Qed.

(** The tokens of an item, written behind those of the earlier items. *)
Lemma translate_tokens items it m :
  Forall (item_wf bs) items -> item_ok bs mb it -> 0 <= m ->
  let a := a_tokens (batch_arrays bs mb items (work_token_count it + m) 0) in
  (match it with
   | WPrefill work =>
       ta ← write_chunk bs (total_of items) (work_context it) work (Z.to_nat (work_token_count it)) 0 a;
       Some (ta, needs_sample work)
   | WDecode work =>
       s ← (if writes it then slot bs (work_block_table it)
              (if writes it then work_context it else Z.max 0 (work_context it - 1)) else Some (-1));
       ta ← write_token a (total_of items) (input_token work)
              (if writes it then work_context it else Z.max 0 (work_context it - 1)) s;
       Some (ta, true)
   end : option (TokenArrays * bool)) =
  Some (a_tokens (batch_arrays bs mb (items ++ [it]) m 0), item_sampled it).
Proof.
  intros Hall [[Hc Hn Ht Hl Hne Hfit] _ _] Hm a.
  assert (forall f : WorkItem -> list Z, (forall x, item_wf bs x -> size_Z (f x) = work_token_count x) ->
    size_Z (items ≫= f) = total_of items) as Hsz.
  { intros f Hf. apply size_concat. eapply Forall_impl; [exact Hall|auto]. }
  pose proof (Hsz _ size_item_ids) as S1. pose proof (Hsz _ size_item_positions) as S2.
  pose proof (Hsz _ size_item_slots) as S3.
  unfold a, batch_arrays. cbn [a_tokens]. rewrite !bind_snoc. destruct it as [w|w].
  - cbn [work_token_count work_block_table kv_token_count] in *.
    set (len := span_length (prompt_span w)) in *.
    assert (Z.of_nat (Z.to_nat len) = len) as Hlen by lia.
    replace (len + m) with (Z.of_nat (Z.to_nat len) + m) by lia.
    rewrite write_chunk_spec by lia. by rewrite Hlen, Z.add_0_r.
  - cbn [work_token_count work_block_table kv_token_count writes item_slots item_ids item_positions item_sampled] in *.
    destruct (write_kv w) eqn:Hw.
    + rewrite slot_spec by lia. unfold write_token. cbn [mbind option_bind token_ids positions slots].
      rewrite !write_next by lia. cbn [mbind option_bind]. unfold item_slots. simpl. rewrite Hw. done.
    + unfold write_token. cbn [mbind option_bind token_ids positions slots].
      rewrite !write_next by lia. cbn [mbind option_bind]. unfold item_slots. simpl. rewrite Hw. done.
Qed.

Lemma translate_item_spec items it m c :
  Forall (item_ok bs mb) items -> item_ok bs mb it -> 0 <= m -> 0 <= c ->
  translate_item bs mb (size_Z items) it (batch_arrays bs mb items (work_token_count it + m) (1 + c)) =
  Some (batch_arrays bs mb (items ++ [it]) m c).
Proof.
  intros Hall Hit Hm Hc. pose proof Hit as [[_ Hn Ht _ _ _] _ Hw].
  assert (Forall (item_wf bs) items) as Hwf by (eapply Forall_impl; [exact Hall|by intros ? [? _ _]]).
  unfold translate_item. cbn [item_counts item_seq_ids item_kinds query_start batch_arrays a_offset a_block_table].
  rewrite !write_next by (rewrite ?size_starts; unfold size_Z; rewrite ?length_fmap; lia).
  cbn [mbind option_bind].
  replace (1 + c + 1) with (1 + (c + 1)) by lia. rewrite write_next by (rewrite ?size_starts; lia). cbn [mbind option_bind].
  assert (size_Z (items ≫= item_row mb) = size_Z items * mb) as Srow.
  { rewrite (size_concat (item_row mb) (fun _ => mb)).
    - clear. induction items as [|x l IH]; [done|]. rewrite size_Z_cons. unfold sum_items in *. simpl. rewrite IH. lia.
    - eapply Forall_impl; [exact Hall|]. intros x Hx. by apply size_item_row. }
  unfold table_size in Hw. pose proof (size_Z_nonneg (block_ids_ (work_block_table it))).
  rewrite write_row_next by nia. cbn [mbind option_bind].
  pose proof (translate_tokens items it m Hwf Hit Hm) as Htok. cbv zeta in Htok.
  cbn [a_tokens batch_arrays] in Htok |- *. rewrite Htok. cbn [mbind option_bind sample_flags context_lens batch_arrays].
  rewrite !write_next by (unfold size_Z; rewrite ?length_fmap; lia). cbn [mbind option_bind positions].
  assert (size_Z (items ≫= item_positions) = total_of items) as Spos.
  { apply size_concat. eapply Forall_impl; [exact Hwf|]. intros x Hx. by apply size_item_positions. }
  assert (at_Z (((items ++ [it]) ≫= item_positions) ++ vector m 0) (total_of items + work_token_count it - 1) =
    Some (item_last it)) as Hlast.
  { rewrite bind_snoc, <- Spos, <- Z.add_sub_assoc. apply at_Z_middle, item_last_at. by destruct Hit. }
  rewrite Hlast. cbn [mbind option_bind batch_arrays logits_indices num_logits logits_rows max_position has_prefill has_decode].
  assert ((if item_sampled it
           then write_Z (rows_from 0 items ++ vector (1 + c) (-1)) (size_Z items) (sampled_of items)
           else Some (rows_from 0 items ++ vector (1 + c) (-1))) =
    Some (rows_from 0 (items ++ [it]) ++ vector c (-1))) as ->.
  { rewrite rows_snoc. destruct (item_sampled it); [by rewrite write_next by (rewrite ?size_rows; lia)|].
    by rewrite vector_succ, <- app_assoc by lia. }
  cbn [mbind option_bind]. f_equal. unfold batch_arrays.
  rewrite starts_snoc, sampled_rows_snoc, !existsb_snoc, !foldl_snoc, !fmap_app, (bind_snoc (item_row mb)).
  unfold total_of, sampled_of. rewrite !sum_items_snoc. f_equal; simpl; try done.
  - rewrite <- !app_assoc. f_equal. unfold item_row. rewrite <- app_assoc. f_equal.
    rewrite <- vector_add; [f_equal; unfold table_size; lia|unfold table_size; lia|nia].
  - destruct (item_sampled it); [done|by rewrite app_nil_r].
  - destruct (item_sampled it); lia.
Qed.

Lemma translate_items_spec todo items :
  Forall (item_ok bs mb) (items ++ todo) ->
  translate_items bs mb (size_Z items) todo (batch_arrays bs mb items (total_of todo) (size_Z todo)) =
  Some (batch_arrays bs mb (items ++ todo) 0 0).
Proof.
  revert items. induction todo as [|it todo IH]; intros items Hall; [by rewrite app_nil_r|].
  cbn [translate_items]. rewrite size_Z_cons. change (total_of (it :: todo)) with (work_token_count it + total_of todo).
  pose proof Hall as [Hi Ht]%Forall_app. apply Forall_cons in Ht as [Hit Ht].
  rewrite translate_item_spec; [|done|done| |apply size_Z_nonneg].
  - cbn [mbind option_bind]. replace (size_Z items + 1) with (size_Z (items ++ [it]))
      by (rewrite size_Z_app; unfold size_Z; simpl; lia).
    rewrite IH; [by rewrite <- app_assoc|by rewrite <- app_assoc].
  - clear IH Hall Hi. induction Ht as [|x l [[_ _ Hx _ _ _] _ _] _ IH]; unfold total_of in *; simpl; lia.
Qed.

End items.

(** ** The host part *)

Lemma first_pass_spec bs items m t :
  Forall (fun it => item_wf bs it /\
    match it with WPrefill _ => true | WDecode w => negb (late_bind w) end = true) items ->
  first_pass bs items m t =
  Some (foldl (fun m it => Z.max m (table_size (work_block_table it))) m items, t + total_of items).
Proof.
  intros Hall. revert m t. induction Hall as [|it items [[Hc Hn Ht Hl Hne Hfit] Hb] _ IH]; intros m t.
  { cbn [first_pass foldl]. unfold total_of. simpl. by rewrite Z.add_0_r. }
  cbn [first_pass foldl]. rewrite Hb, writes_kv. unfold token_capacity. rewrite (Z.mul_comm _ bs).
  destruct (Z.eqb_spec (table_size (work_block_table it)) 0); [lia|]. simpl negb. cbv iota.
  destruct (Z.leb_spec 0 (work_context it)); [|lia]. destruct (Z.leb_spec (work_context it + kv_token_count it)
    (bs * table_size (work_block_table it))); [|lia].
  rewrite IH. unfold total_of. simpl. do 2 f_equal. lia.
Qed.

Lemma widest_bound it items : it ∈ items -> table_size (work_block_table it) <= widest items.
Proof.
  unfold widest. assert (forall m, m <= foldl (fun m it => Z.max m (table_size (work_block_table it))) m items) as Hm.
  { induction items as [|x l IH]; intros m; simpl; [lia|]. etrans; [|apply IH]. lia. }
  generalize 0 as m. clear Hm. induction items as [|x l IH]; intros m; [by intros ?%elem_of_nil|].
  intros [->|Hin]%elem_of_cons; simpl; [|by apply IH].
  assert (forall l m, m <= foldl (fun m it => Z.max m (table_size (work_block_table it))) m l) as Hm.
  { clear. induction l as [|x l IH]; intros m; simpl; [lia|]. etrans; [|apply IH]. lia. }
  etrans; [|apply Hm]. lia.
Qed.

(** A batch the worker can translate. *)
Definition translatable (bs : Z) (items : list WorkItem) : Prop :=
  0 < bs /\ items <> [] /\ Forall (fun it => item_wf bs it /\
    match it with WPrefill _ => true | WDecode w => negb (late_bind w) end = true) items.

Definition final_arrays (bs : Z) (items : list WorkItem) : Arrays :=
  set_query_start (starts_from 0 items ++ [total_of items]) (batch_arrays bs (widest items) items 0 0).

Lemma build_spec bs items :
  translatable bs items -> build_arrays bs items = Some (widest items, total_of items, final_arrays bs items).
Proof.
  intros (Hbs & Hne & Hall). unfold build_arrays. destruct (Z.ltb_spec 0 bs); [|lia].
  rewrite bool_decide_eq_false_2 by done. simpl negb. cbv iota.
  rewrite (first_pass_spec _ _ 0 0 Hall). cbn [mbind option_bind]. fold (widest items). rewrite Z.add_0_l.
  change (fresh_arrays (size_Z items) (widest items) (total_of items))
    with (batch_arrays bs (widest items) [] (total_of items) (size_Z items)).
  assert (Forall (item_ok bs (widest items)) ([] ++ items)) as Hok.
  { apply Forall_forall. intros it Hit. rewrite Forall_forall in Hall. destruct (Hall it Hit).
    split; [done|done|by apply widest_bound]. }
  pose proof (translate_items_spec bs (widest items) Hbs items [] Hok) as E.
  change (size_Z []) with 0 in E. rewrite E. cbn [mbind option_bind app].
  cbn [query_start a_offset batch_arrays]. change (vector (0 + 1) 0) with (vector (1 + 0) 0). rewrite (write_next _ (size_Z items)) by (by rewrite ?size_starts).
  cbn [mbind option_bind]. unfold final_arrays. do 3 f_equal. change (vector 0 0) with (@nil Z). apply app_nil_r.
Qed.

(** ** The upload *)

Lemma dwp_assoc {D A B E} (m : Dev D A) (f : A -> Dev D B) (g : B -> Dev D E) Q d :
  dwp (m ≫= (fun a => f a ≫= g)) Q d -> dwp ((m ≫= f) ≫= g) Q d.
Proof. unfold dwp, mbind, Dev_bind. by destruct (m d) as [[[a|e] d']|]. Qed.

Section uploads.
Context {D : Type} `{!Backend D} `{!BackendLaws D} `{!Ccop} `{!CcopLaws}.

(** A tensor over a live buffer with these integers. *)
Definition holds (d : D) (t : Tensor) (shape values : list Z) : Prop :=
  t_offset t = 0 /\ t_shape t = shape /\ buf d (t_buffer t) = Some (encode_i32 values).

Lemma holds_keeps d d' t shape values : holds d t shape values -> keeps_buffers d d' -> holds d' t shape values.
Proof. intros (H1 & H2 & H3) Hk. split_and!; [done|done|by apply Hk]. Qed.

Lemma dwp_upload {A} values shape (k : Tensor -> Dev D A) (Q : Result A -> D -> Prop) d :
  Forall (fun x => x <= INT64_MAX) shape -> size_Z values = product shape ->
  (forall t d', keeps_buffers d d' -> holds d' t shape values -> dwp (k t) Q d') ->
  (forall e d', keeps_buffers d d' -> Q (Unexpected e) d') ->
  dwp (upload values shape ≫= k) Q d.
Proof.
  intros Hs Hv Hk He. apply dwp_bind. unfold upload.
  eapply dwp_mono; [apply dwp_from_host|].
  - rewrite int32_size. unfold SIZE_MAX. lia.
  - done.
  - by rewrite int32_size, size_encode_i32, Hv.
  - intros [t|e] d' [Hkeep Ht]; [by apply Hk|by apply He].
Qed.

(** What [translate] delivers for [items]. *)
Record physical_ok (bs : Z) (pool : option StatePool) (items : list WorkItem) (p : PhysicalBatch) (d : D) : Prop := {
  ph_tokens : holds d (pb_token_ids p) [total_of items] (items ≫= item_ids);
  ph_positions : holds d (pb_positions p) [total_of items] (items ≫= item_positions);
  ph_slots : holds d (pb_slot_mapping p) [total_of items] (items ≫= item_slots bs);
  ph_table : holds d (pb_block_table p) [size_Z items; widest items] (items ≫= item_row (widest items));
  ph_starts : holds d (pb_query_start_loc p) [size_Z items + 1] (starts_from 0 items ++ [total_of items]);
  ph_context : holds d (pb_context_lens p) [size_Z items] (item_context_len <$> items);
  ph_logits : holds d (pb_logits_indices p) [size_Z items] (rows_from 0 items);
  ph_state : match pool, pb_state_mapping p with
             | Some pool, Some t => holds d t [size_Z items] (state_slots pool (work_sequence_id <$> items))
             | None, None => True
             | _, _ => False
             end;
  ph_host : pb_num_tokens p = total_of items /\ pb_batch_size p = size_Z items /\
    pb_max_blocks_per_req p = widest items /\ pb_item_seq_ids p = work_sequence_id <$> items /\
    pb_item_kinds p = work_kind <$> items /\ pb_item_token_counts p = work_token_count <$> items /\
    pb_sample_flags p = item_sampled <$> items /\ pb_logits_rows_host p = sampled_rows 0 items /\
    pb_num_logits p = sampled_of items /\ pb_mode p = forward_mode (existsb is_prefill items)
                                                       (existsb (fun it => negb (is_prefill it)) items) /\
    pb_max_position_id p = foldl (fun m it => Z.max m (item_last it)) 0 items;
}.

(** Chains the steps that keep buffers. *)
Ltac keeps := repeat first [assumption | reflexivity | etrans; [eassumption|]].

Ltac upload_step t d' Hk Ht :=
  apply dwp_upload; [repeat constructor; unfold INT64_MAX; lia | | intros t d' Hk Ht | intros; split; [keeps|done]].

(** Counts that fit an [int]. *)
Definition countable (items : list WorkItem) : Prop :=
  total_of items <= INT_MAX /\ size_Z items < INT_MAX /\ widest items <= INT_MAX.

Lemma dwp_translate bs pool batch d :
  translatable bs (batch_items batch) -> countable (batch_items batch) ->
  dwp (translate bs pool batch) (fun r d' => keeps_buffers d d' /\
    match r with Value p => physical_ok bs pool (batch_items batch) p d' | Unexpected _ => True end) d.
Proof.
  intros Ht (Hc1 & Hc2 & Hc3). set (items := batch_items batch) in *. unfold translate.
  unfold INT_MAX, INT64_MAX in *.
  pose proof Ht as (Hbs & Hne & Hall).
  assert (Forall (item_wf bs) items) as Hwf by (eapply Forall_impl; [exact Hall|by intros ? [? _]]).
  assert (forall f : WorkItem -> list Z, (forall x, item_wf bs x -> size_Z (f x) = work_token_count x) ->
    size_Z (items ≫= f) = total_of items) as Hsz.
  { intros f Hf. apply size_concat. eapply Forall_impl; [exact Hwf|auto]. }
  assert (size_Z (items ≫= item_row (widest items)) = size_Z items * widest items) as Hrow.
  { rewrite (size_concat _ (fun _ => widest items)).
    - generalize (widest items). intros w. clear. induction items as [|x l IH]; [done|].
      rewrite size_Z_cons. unfold sum_items in *. simpl. rewrite IH. lia.
    - apply Forall_forall. intros it Hit. rewrite Forall_forall in Hall. destruct (Hall it Hit).
      apply size_item_row with (bs := bs). split; [done|done|by apply widest_bound]. }
  apply dwp_bind. unfold dev_lift. exists (Value (widest items, total_of items, final_arrays bs items)), d.
  fold items. rewrite (build_spec bs items Ht). split; [done|]. cbv beta iota.
  unfold final_arrays, set_query_start, batch_arrays.
  cbn [a_tokens token_ids positions slots a_block_table query_start context_lens logits_indices item_counts
       item_seq_ids item_kinds sample_flags logits_rows num_logits max_position has_prefill has_decode].
  rewrite Z.mul_0_l. change (vector 0 0) with (@nil Z). change (vector 0 (-1)) with (@nil Z).
  change (vector 0 false) with (@nil bool). change (vector 0 KindPrefillChunk) with (@nil WorkKind).
  rewrite !app_nil_r.
  assert (forall n, product [n] = n) as Hp1 by (intros; unfold product; simpl; lia).
  upload_step t1 d1 K1 H1. { rewrite Hp1. apply Hsz, size_item_ids. }
  upload_step t2 d2 K2 H2. { rewrite Hp1. apply Hsz, size_item_positions. }
  upload_step t3 d3 K3 H3. { rewrite Hp1. apply Hsz, size_item_slots. }
  upload_step t4 d4 K4 H4. { rewrite Hrow. unfold product. simpl. lia. }
  upload_step t5 d5 K5 H5. { rewrite Hp1, size_Z_app, size_starts. done. }
  upload_step t6 d6 K6 H6. { rewrite Hp1. unfold size_Z. by rewrite length_fmap. }
  upload_step t7 d7 K7 H7. { rewrite Hp1. apply size_rows. }
  assert (forall sm d8, keeps_buffers d7 d8 ->
    match pool, sm with
    | Some pool, Some t => holds d8 t [size_Z items] (state_slots pool (work_sequence_id <$> items))
    | None, None => True | _, _ => False end ->
    dwp (_ ← dev_op synchronize;
         mret (mkPhysicalBatch _ (total_of items) t1 t2 t3 (size_Z items) (widest items) t4 t5 t6 t7 sm
           (forward_mode (existsb is_prefill items) (existsb (fun it => negb (is_prefill it)) items))
           (work_sequence_id <$> items) (work_kind <$> items) (work_token_count <$> items) (item_sampled <$> items)
           (sampled_rows 0 items) (sampled_of items) (foldl (fun m it => Z.max m (item_last it)) 0 items)))
      (fun r d' => keeps_buffers d d' /\
        match r with Value p => physical_ok bs pool items p d' | Unexpected _ => True end) d8) as Hend.
  { intros sm d8 K8 H8. apply dwp_bind, dwp_op. intros r d9 E.
    assert (keeps_buffers d8 d9) as K9 by (apply same_keeps; by eapply synchronize_keeps).
    destruct r as [[]|e]; [|split; [keeps|done]]. apply dwp_ret. split; [keeps|].
    split; simpl; try done; try (eapply holds_keeps; [eassumption|keeps]).
    destruct pool, sm; try done. eapply holds_keeps; [eassumption|keeps]. }
  destruct pool as [pool|].
  - apply dwp_assoc. upload_step t8 d8 K8 H8.
    { rewrite Hp1. unfold state_slots, size_Z. by rewrite !length_fmap. }
    by apply (Hend (Some t8)).
  - by apply (Hend None).
Qed.
End uploads.
