(* ===== verification/Model.v ===== *)
(** * The model interface and its runner: [model/model.h], [worker/model_runner.h]

    [Model] is the virtual class of [model/model.h]: what the worker runs a batch
    with.  [ModelLaws] is what its header promises for inputs that satisfy it; the
    sampler belongs to the operator library. *)

From Stdlib Require Import ZArith Lia SpecFloat.
From stdpp Require Import prelude strings gmap fin_maps.
From S2P Require Import Prelude Base Config Scheduler SchedWork Bytes Device State BlockStorage Qwen35.
From S2P Require Import Translate TranslateProps.

(** ** [facade/ops.h]: errors of the operator library *)

Inductive CcopError := kOk | kInvalidArgument | kUnsupported | kOutOfMemory | kRuntimeError.

Definition map_error (code : CcopError) : ErrorCode :=
  match code with
  | kOk => Ok
  | kInvalidArgument => InvalidArgument
  | kUnsupported => Unsupported
  | kOutOfMemory => CudaOutOfMemory
  | kRuntimeError => CudaRuntimeError
  end.

(** [ccop::Result<void>]: [None] is success. *)
Definition map_result (r : option CcopError) : Result unit :=
  match r with Some code => Unexpected (map_error code) | None => Value tt end.

(** Runs an operator. *)
Definition dev_ccop {D} (f : D -> option CcopError * D) : Dev D unit := dev_op (fun d => (map_result (f d).1, (f d).2)).

(** ** [ForwardInput], [ForwardOutput] *)

(** An empty tensor is not valid. *)
Record ForwardInput `{Ccop} := mkForwardInput {
  fi_input_embeds : option Tensor;
  fi_token_ids : option Tensor;
  fi_num_tokens : Z;
  fi_positions : Tensor;
  fi_max_position_id : Z;
  fi_mode : ForwardMode;
  fi_slot_mapping : Tensor;
  fi_block_table : Tensor;
  fi_query_start_loc : Tensor;
  fi_context_lens : Tensor;
  fi_batch_size : Z;
  fi_max_blocks_per_req : Z;
  fi_state_mapping : option Tensor;
  fi_logits_indices_host : list Z;
  fi_num_logits : Z;
}.

Record ForwardOutput `{Ccop} := mkForwardOutput {
  fo_logits : Tensor;
  fo_tokens_out : Tensor;
}.

(** [exec_ctx] is the KV storage, the optional recurrent storage and the backend,
    which is the device state. *)
Class Model (D : Type) `{Ccop} := {
  model_config : ModelConfig;
  forward : ForwardInput -> ForwardOutput -> BlockStorage -> option StateStorage -> Dev D unit;
}.

(** [ccop::greedy_sample]: logits, the logits row of each item, the output. *)
Class Sampler (D : Type) `{Ccop} := {
  greedy_sample : Tensor -> Tensor -> Tensor -> D -> option CcopError * D;
}.

(** ** Promises *)

(** A tensor that starts at its buffer's start and covers it. *)
Definition live_tensor {D} `{Backend D} `{Ccop} (d : D) (t : Tensor) (dtype : DType) (shape : list Z) : Prop :=
  t_offset t = 0 /\ t_dtype t = dtype /\ t_shape t = shape /\
  exists l, buf d (t_buffer t) = Some l /\ size_Z l = product shape * dtype_size dtype.

(** The KV layers of a model. *)
Definition kv_layer_count (cfg : ModelConfig) : option Z :=
  if bool_decide (arch_ cfg = Qwen3_5) then num_kv_layers cfg else Some (n_layers_ cfg).

(** The input a forward pass is entitled to: [T] tokens or embeddings, [B] items, rows of
    the hidden tensor to sample, positions below the model's maximum, a KV storage with
    the model's layers. *)
Record input_ready {D} `{Backend D} `{Ccop} (cfg : ModelConfig) (input : ForwardInput) (output : ForwardOutput)
    (storage : BlockStorage) (d : D) : Prop := mk_input_ready {
  ir_tokens : 0 < fi_num_tokens input <= INT_MAX;
  ir_position : 0 <= fi_max_position_id input < max_seq_len_ cfg;
  ir_num_logits : size_Z (fi_logits_indices_host input) = fi_num_logits input /\ fi_num_logits input <= fi_num_tokens input;
  ir_rows : Forall (fun row => 0 <= row < fi_num_tokens input) (fi_logits_indices_host input);
  ir_logits : live_tensor d (fo_logits output) kFloat32 [Z.max 1 (fi_num_logits input); vocab_size_ cfg];
  ir_storage : block_storage_ok storage d;
  ir_source : is_Some (fi_token_ids input) /\ fi_input_embeds input = None;
  ir_layers : kv_layer_count cfg = Some (num_layers_ storage);
}.

Class ModelLaws (D : Type) `{Backend D, Ccop, !Model D, !Sampler D} := {
  model_ready : D -> Prop;          (* what the model owns on the device is there *)
  model_ready_keeps : forall d d', keeps_sizes d d' -> model_ready d -> model_ready d';
  forward_ok : forall input output storage states d,
    model_ready d -> input_ready model_config input output storage d ->
    dwp (forward input output storage states) (fun _ d' => keeps_sizes d d') d;
  sample_keeps : forall logits rows out d, keeps_sizes d (greedy_sample logits rows out d).2;
}.

(** ** [ModelRunner::inference] *)

(** [runtime/precision.h]. *)
Record ExecutionTraits `{Ccop} := mkTraits {
  activation_dtype : DType;
  kv_dtype : DType;
  accum_dtype : DType;
  logits_dtype : DType;
  recurrent_state_dtype : DType;
  conv_state_dtype : DType;
}.

Section runner.
Context {D : Type} `{Backend D} `{Ccop} `{!Model D} `{!Sampler D}.

Definition Qwen3ExecutionTraits : ExecutionTraits :=
  mkTraits _ kBFloat16 kBFloat16 kFloat32 kFloat32 kFloat32 kBFloat16.

Definition execution_traits_valid (t : ExecutionTraits) : bool :=
  negb (bool_decide (activation_dtype t = kUnknown)) && negb (bool_decide (kv_dtype t = kUnknown)) &&
  negb (bool_decide (accum_dtype t = kUnknown)) && negb (bool_decide (logits_dtype t = kUnknown)) &&
  negb (bool_decide (recurrent_state_dtype t = kUnknown)) && negb (bool_decide (conv_state_dtype t = kUnknown)).

(** The assertions on the sampling parameters; [V] is the vocabulary size. *)
Definition sampling_ok (V : Z) (sampling : SamplingParams) : bool :=
  (0 <=? top_k sampling) && (top_k sampling <=? V) &&
  isfinite (top_p sampling) && SFltb f32_zero (top_p sampling) &&
  isfinite (temperature sampling) && SFleb f32_zero (temperature sampling).

Definition greedy (sampling : SamplingParams) : bool :=
  (top_k sampling =? 0) && SFleb f32_one (top_p sampling) && SFleb (temperature sampling) f32_zero.

(** The asserted shape of a batch ([valid()] of a tensor always holds here). *)
Definition batch_shape_ok (batch : PhysicalBatch) : bool :=
  let T := pb_num_tokens batch in
  let B := pb_batch_size batch in
  (0 <? T) && (0 <? B) && (0 <? pb_max_blocks_per_req batch) &&
  (size_Z (pb_item_seq_ids batch) =? B) && (size_Z (pb_item_kinds batch) =? B) &&
  (negb (bool_decide (pb_mode batch = FwdDecode)) || (T =? B)) &&
  (size_Z (pb_item_token_counts batch) =? B) && (size_Z (pb_sample_flags batch) =? B) &&
  (size_Z (pb_logits_rows_host batch) =? pb_num_logits batch) && (0 <=? pb_max_position_id batch).

Definition forward_input (batch : PhysicalBatch) : ForwardInput :=
  mkForwardInput _ None (Some (pb_token_ids batch)) (pb_num_tokens batch) (pb_positions batch) (pb_max_position_id batch)
    (pb_mode batch) (pb_slot_mapping batch) (pb_block_table batch) (pb_query_start_loc batch)
    (pb_context_lens batch) (pb_batch_size batch) (pb_max_blocks_per_req batch) (pb_state_mapping batch)
    (pb_logits_rows_host batch) (pb_num_logits batch).

(** The result of item [i]; [token] is the sampled token. *)
Definition item_result (sampling : SamplingParams) (i seq : Z) (kind : WorkKind) (sampled : bool) (count token : Z)
  : WorkItemResult :=
  mkWorkItemResult i seq kind (if sampled then [token] else []) count
    (sampled && (0 <=? eos_token_id sampling) && (token =? eos_token_id sampling)) false.

(** The result loop: [None] would be a read past the end of a vector. *)
Fixpoint item_results (batch : PhysicalBatch) (sampling : SamplingParams) (tokens_host : list Z) (todo : nat) (i : Z)
  : option (list WorkItemResult) :=
  match todo with
  | O => Some []
  | S todo =>
      seq ← at_Z (pb_item_seq_ids batch) i;
      kind ← at_Z (pb_item_kinds batch) i;
      sampled ← at_Z (pb_sample_flags batch) i;
      token ← at_Z tokens_host i;
      count ← at_Z (pb_item_token_counts batch) i;
      rest ← item_results batch sampling tokens_host todo (i + 1);
      Some (item_result sampling i seq kind sampled count token :: rest)
  end.

Definition inference (traits : ExecutionTraits) (batch : PhysicalBatch) (block_storage : BlockStorage)
    (state_storage : option StateStorage) (sampling : SamplingParams) : Dev D (list WorkItemResult) :=
  if negb (bool_decide (activation_dtype traits = kBFloat16)) || negb (bool_decide (kv_dtype traits = kBFloat16)) ||
     negb (bool_decide (logits_dtype traits = kFloat32))
  then dev_error Unsupported
  else
    let B := pb_batch_size batch in
    _ ← dev_assert (batch_shape_ok batch);
    let V := vocab_size_ model_config in
    _ ← dev_assert (0 <? V);
    _ ← dev_assert (sampling_ok V sampling);
    if negb (greedy sampling) then dev_error Unsupported
    else
      let num_logits := if 0 <? pb_num_logits batch then pb_num_logits batch else 1 in
      _ ← dev_assert (V <=? SIZE_MAX / num_logits);
      _ ← dev_assert (u64 (num_logits * V) <=? SIZE_MAX / 4);
      logits_r ← empty_tensor kFloat32 [num_logits; V];
      tokens_r ← empty_tensor kInt32 [B];
      let output := mkForwardOutput _ logits_r tokens_r in
      _ ← forward (forward_input batch) output block_storage state_storage;
      _ ← dev_ccop (greedy_sample (fo_logits output) (pb_logits_indices batch) (fo_tokens_out output));
      bytes ← dev_bytes (u64 B * 4) (memcpy_d2h (t_buffer (fo_tokens_out output)) (t_offset (fo_tokens_out output)) (u64 B * 4));
      dev_lift (item_results batch sampling (decode_i32 bytes) (Z.to_nat B) 0).
End runner.
