(* ===== verification/ModelProps.v ===== *)
(** * What the model runner delivers

    For a batch produced by the translator and a model that keeps the promises of its
    interface, [inference] runs without a failed assertion, and its results are the
    items' own, with one token for every sampled item. *)

From Stdlib Require Import ZArith Lia SpecFloat.
From stdpp Require Import prelude strings gmap fin_maps.
From S2P Require Import Prelude Base Config Scheduler SchedWork Bytes Device State BlockStorage.
From S2P Require Import Translate TranslateProps Model.

(** ** Shape facts of a translated batch *)

Section shape.
Context (bs : Z) (items : list WorkItem) (Ht : translatable bs items).

Lemma items_wf : Forall (item_wf bs) items.
Proof. destruct Ht as (_ & _ & Hall). eapply Forall_impl; [exact Hall|by intros ? [? _]]. Qed.

Lemma total_ge l : Forall (item_wf bs) l -> size_Z l <= total_of l.
Proof.
  induction 1 as [|it l [_ _ Hx _ _ _] _ IH]; [done|]. rewrite size_Z_cons. unfold total_of in *. simpl. lia.
Qed.

Lemma items_pos : 0 < size_Z items.
Proof. destruct Ht as (_ & Hne & _). destruct items; [done|]. rewrite size_Z_cons. pose proof (size_Z_nonneg l). lia. Qed.

Lemma widest_pos : 0 < widest items.
Proof.
  destruct Ht as (_ & Hne & Hall). destruct items as [|it l] eqn:E; [done|].
  apply Forall_cons in Hall as [[[_ _ _ _ Hw _] _] _].
  pose proof (widest_bound it (it :: l) ltac:(left)). lia.
Qed.

Lemma size_sampled_rows o l : size_Z (sampled_rows o l) = sampled_of l.
Proof.
  revert o. induction l as [|it l IH]; intros o; [done|]. cbn [sampled_rows]. rewrite size_Z_app, IH.
  unfold sampled_of. simpl. by destruct (item_sampled it).
Qed.

Lemma sampled_le l : sampled_of l <= size_Z l.
Proof.
  induction l as [|it l IH]; [done|]. rewrite size_Z_cons. unfold sampled_of in *. simpl.
  destruct (item_sampled it); lia.
Qed.

Lemma sampled_nonneg l : 0 <= sampled_of l.
Proof. induction l as [|it l IH]; [done|]. unfold sampled_of in *. simpl. destruct (item_sampled it); lia. Qed.

Lemma sampled_rows_range o l :
  Forall (item_wf bs) l -> Forall (fun row => o <= row < o + total_of l) (sampled_rows o l).
Proof.
  intros Hl. revert o. induction Hl as [|it l [_ _ Hx _ _ _] Hl IH]; intros o; [constructor|].
  cbn [sampled_rows]. unfold total_of in *. simpl. pose proof (total_ge l Hl) as Hge. unfold total_of in Hge.
  pose proof (size_Z_nonneg l). apply Forall_app. split.
  - destruct (item_sampled it); repeat constructor; lia.
  - eapply Forall_impl; [apply IH|]. simpl. intros; lia.
Qed.

Lemma decode_total l : Forall (item_wf bs) l -> existsb is_prefill l = false -> total_of l = size_Z l.
Proof.
  induction 1 as [|it l _ _ IH]; [done|]. cbn [existsb]. intros [Hp Hl]%orb_false_iff.
  rewrite size_Z_cons. unfold total_of in *. simpl. rewrite IH by done. by destruct it.
Qed.

Lemma max_last_bound n l m :
  0 <= m < n -> Forall (fun it => item_last it < n) l ->
  0 <= foldl (fun m it => Z.max m (item_last it)) m l < n.
Proof.
  intros Hm Hl. revert m Hm. induction Hl as [|it l Hit _ IH]; intros m Hm; [done|]. cbn [foldl]. apply IH. lia.
Qed.
End shape.

(** ** The results *)

Fixpoint results_from (sampling : SamplingParams) (i : Z) (items : list WorkItem) (tokens : list Z)
  : list WorkItemResult :=
  match items, tokens with
  | it :: items, token :: tokens =>
      item_result sampling i (work_sequence_id it) (work_kind it) (item_sampled it) (work_token_count it) token ::
      results_from sampling (i + 1) items tokens
  | _, _ => []
  end.

Lemma results_from_lookup sampling items tokens i k it :
  length tokens = length items -> items !! k = Some it ->
  exists token, tokens !! k = Some token /\
    results_from sampling i items tokens !! k =
    Some (item_result sampling (i + Z.of_nat k) (work_sequence_id it) (work_kind it) (item_sampled it)
            (work_token_count it) token).
Proof.
  revert tokens i k. induction items as [|x items IH]; intros tokens i k Hlen Hk; [done|].
  destruct tokens as [|token tokens]; [done|]. destruct k as [|k]; simpl in *.
  - injection Hk as ->. exists token. by rewrite Z.add_0_r.
  - destruct (IH tokens (i + 1) k) as (tk & H1 & H2); [lia|done|]. exists tk. rewrite H1, H2. split; [done|].
    do 2 f_equal. lia.
Qed.

Lemma length_results sampling i items tokens :
  length tokens = length items -> length (results_from sampling i items tokens) = length items.
Proof.
  revert tokens i. induction items as [|x items IH]; intros [|tk tokens] i H; simpl in *; try done.
  by rewrite IH by lia.
Qed.

Section inference.
Context {D : Type} `{!Backend D} `{!BackendLaws D} `{!Ccop} `{!CcopLaws} `{!Model D} `{!Sampler D} `{!ModelLaws D}.

Lemma item_results_spec (p : PhysicalBatch) sampling items done_ tokens dtoks :
  pb_item_seq_ids p = work_sequence_id <$> done_ ++ items ->
  pb_item_kinds p = work_kind <$> done_ ++ items ->
  pb_item_token_counts p = work_token_count <$> done_ ++ items ->
  pb_sample_flags p = item_sampled <$> done_ ++ items ->
  length dtoks = length done_ -> length tokens = length items ->
  item_results p sampling (dtoks ++ tokens) (length items) (size_Z done_) =
  Some (results_from sampling (size_Z done_) items tokens).
Proof.
  intros H1 H2 H3 H4. revert done_ dtoks tokens H1 H2 H3 H4.
  induction items as [|it items IH]; intros dn dtoks tokens H1 H2 H3 H4 Hd Hl; [done|].
  destruct tokens as [|token tokens]; [done|]. cbn [length item_results results_from].
  assert (forall A (f : WorkItem -> A), at_Z (f <$> dn ++ it :: items) (size_Z dn) = Some (f it)) as Hat.
  { intros A f. unfold size_Z. rewrite at_Z_nat, fmap_app, lookup_app_r; rewrite length_fmap; [|done].
    by rewrite Nat.sub_diag. }
  rewrite H1, H2, H3, H4, !Hat. cbn [mbind option_bind].
  assert (at_Z (dtoks ++ token :: tokens) (size_Z dn) = Some token) as ->.
  { unfold size_Z. rewrite at_Z_nat, lookup_app_r by lia. by rewrite Hd, Nat.sub_diag. }
  cbn [mbind option_bind]. replace (size_Z dn + 1) with (size_Z (dn ++ [it]))
    by (rewrite size_Z_app; unfold size_Z; simpl; lia).
  replace (dtoks ++ token :: tokens) with ((dtoks ++ [token]) ++ tokens) by (by rewrite <- app_assoc).
  rewrite (IH (dn ++ [it]) (dtoks ++ [token]) tokens); [done|..].
  1-4: by rewrite <- app_assoc.
  - rewrite !length_app. simpl. lia.
  - simpl in Hl. lia.
Qed.

Lemma block_storage_ok_keeps s d d' : block_storage_ok s d -> keeps_sizes d d' -> block_storage_ok s d'.
Proof.
  intros [P S T E B (kb & vb & kl & vl & H1 & H2 & H3 & H4 & H5 & H6 & H7)] Hk.
  destruct (Hk kb kl H4) as (kl' & K1 & K2). destruct (Hk vb vl H5) as (vl' & V1 & V2).
  split; try done. exists kb, vb, kl', vl'. split_and!; try done; congruence.
Qed.

Lemma length_decode l n : size_Z l = n * 4 -> 0 <= n -> length (decode_i32 l) = Z.to_nat n.
Proof.
  intros Hl Hn. rewrite <- (Z2Nat.id n Hn) in Hl. revert Hl. generalize (Z.to_nat n) as k. intros k. revert l.
  induction k as [|k IH]; intros l Hl.
  - unfold size_Z in Hl. destruct l; [done|simpl in Hl; lia].
  - unfold size_Z in Hl. destruct l as [|a [|b [|c [|e l]]]]; simpl in Hl; try lia.
    cbn [decode_i32 length]. f_equal. apply IH. unfold size_Z. lia.
Qed.

Lemma physical_shape bs pool items p d :
  physical_ok bs pool items p d -> translatable bs items ->
  0 <= foldl (fun m it => Z.max m (item_last it)) 0 items -> batch_shape_ok p = true.
Proof.
  intros Hp Ht Hmax. destruct (ph_host _ _ _ _ _ Hp) as (E1 & E2 & E3 & E4 & E5 & E6 & E7 & E8 & E9 & E10 & E11).
  pose proof (items_wf _ _ Ht) as Hwf. pose proof (items_pos _ _ Ht) as Hpos.
  pose proof (total_ge bs items Hwf) as Htot. pose proof (widest_pos _ _ Ht).
  unfold batch_shape_ok. rewrite E1, E2, E3, E4, E5, E6, E7, E8, E9, E10, E11, size_sampled_rows.
  assert (forall A (f : WorkItem -> A), size_Z (f <$> items) = size_Z items) as Hf
    by (intros; unfold size_Z; by rewrite length_fmap).
  rewrite !Hf, !Z.eqb_refl, !andb_true_r, !andb_true_iff. split_and!; try (apply Z.ltb_lt; lia).
  - destruct (existsb is_prefill items) eqn:Hex.
    + unfold forward_mode. destruct (existsb (fun it => negb (is_prefill it)) items); by rewrite bool_decide_eq_false_2.
    + rewrite (decode_total bs items Hwf Hex), Z.eqb_refl. apply orb_true_r.
  - by apply Z.leb_le.
Qed.

(** The sizes the runner asks of the device. *)
Lemma dwp_live_tensor dtype shape d :
  0 < dtype_size dtype <= SIZE_MAX -> Forall (fun x => x <= INT64_MAX) shape ->
  dwp (empty_tensor dtype shape) (fun r d' => keeps_buffers d d' /\
    match r with Value t => live_tensor d' t dtype shape /\ buf d (t_buffer t) = None | Unexpected _ => True end) d.
Proof.
  intros He Hf. eapply dwp_mono; [by apply dwp_empty_tensor|]. intros [t|e] d' [Hk Ht]; [|done].
  destruct Ht as (_ & H1 & H2 & H3 & H4 & l & H5 & H6 & H7). split; [done|]. split; [|done].
  split_and!; try done. exists l. split; [done|congruence].
Qed.

Lemma dwp_inference bs pool items p storage states sampling d :
  physical_ok bs pool items p d -> translatable bs items -> countable items ->
  block_storage_ok storage d -> model_ready d -> kv_layer_count model_config = Some (num_layers_ storage) ->
  0 < vocab_size_ model_config <= INT_MAX ->
  sampling_ok (vocab_size_ model_config) sampling = true -> greedy sampling = true ->
  Forall (fun it => item_last it < max_seq_len_ model_config) items ->
  dwp (inference Qwen3ExecutionTraits p storage states sampling) (fun r d' => keeps_sizes d d' /\
    match r with
    | Value l => exists tokens, length tokens = length items /\ l = results_from sampling 0 items tokens
    | Unexpected _ => True
    end) d.
Proof.
  intros Hp Ht (Hc1 & Hc2 & Hc3) Hst Hready Hkv HV Hs Hg Hlast.
  destruct (ph_host _ _ _ _ _ Hp) as (E1 & E2 & E3 & E4 & E5 & E6 & E7 & E8 & E9 & E10 & E11).
  pose proof (items_wf _ _ Ht) as Hwf. pose proof (items_pos _ _ Ht) as Hpos.
  pose proof (total_ge bs items Hwf) as Htot. pose proof (sampled_le items). pose proof (sampled_nonneg items).
  set (V := vocab_size_ model_config) in *.
  assert (0 <= foldl (fun m it => Z.max m (item_last it)) 0 items < max_seq_len_ model_config) as Hmaxpos.
  { apply max_last_bound; [|done]. destruct Ht as (_ & Hne & _). destruct items as [|it l]; [done|].
    apply Forall_cons in Hlast as [Hl _]. apply Forall_cons in Hwf as [[_ Hn Hk _ _ _] _].
    destruct it as [w|w]; simpl in *; [lia|]. destruct (write_kv w); lia. }
  unfold inference. simpl. rewrite !bool_decide_eq_true_2 by done. cbn [negb orb]. fold V.
  apply dwp_bind, dwp_assert; [eapply physical_shape; [done|done|lia]|].
  apply dwp_bind, dwp_assert; [lia|]. apply dwp_bind, dwp_assert; [done|]. rewrite Hg. cbn [negb].
  set (nl := if 0 <? pb_num_logits p then pb_num_logits p else 1).
  assert (nl = Z.max 1 (sampled_of items) /\ 1 <= nl <= INT_MAX) as [Enl Hnl].
  { unfold nl, INT_MAX in *. rewrite E9. destruct (Z.ltb_spec 0 (sampled_of items)); lia. }
  clearbody nl. unfold INT_MAX in *. assert (0 <= nl * V <= (2 ^ 31 - 1) * (2 ^ 31 - 1)) as HnV by nia.
  apply dwp_bind, dwp_assert.
  { apply Z.leb_le. apply Z.div_le_lower_bound; [lia|]. unfold SIZE_MAX. lia. }
  apply dwp_bind, dwp_assert. { rewrite u64_small by lia. apply Z.leb_le. change (SIZE_MAX / 4) with (2 ^ 62 - 1). lia. }
  apply dwp_bind. eapply dwp_mono; [apply dwp_live_tensor|].
  { rewrite float32_size. unfold SIZE_MAX. lia. } { repeat constructor; unfold INT64_MAX; lia. }
  intros [lt|e] d1 [K1 L1]; [|split; [by apply keeps_buffers_sizes|done]]. destruct L1 as [L1 _].
  apply dwp_bind. eapply dwp_mono; [apply dwp_live_tensor|].
  { rewrite int32_size. unfold SIZE_MAX. lia. } { rewrite E2. repeat constructor; unfold INT64_MAX; lia. }
  intros [tt_|e] d2 [K2 L2]; [|split; [etrans; by apply keeps_buffers_sizes|done]]. destruct L2 as [L2 _].
  assert (keeps_sizes d d2) as KS by (etrans; by apply keeps_buffers_sizes).
  apply dwp_bind. eapply dwp_mono; [apply forward_ok; [by eapply model_ready_keeps|]|].
  { split; simpl; rewrite ?E1, ?E8, ?E9, ?E11.
    - unfold INT_MAX; lia.
    - done.
    - rewrite size_sampled_rows. lia.
    - eapply Forall_impl; [by apply (sampled_rows_range bs)|]. simpl. intros; lia.
    - rewrite <- Enl. destruct L1 as (A1 & A2 & A3 & l & A4 & A5). split_and!; try done.
      exists l. split; [by apply K2|done].
    - by eapply block_storage_ok_keeps.
    - by split; [eexists|].
    - done. }
  intros r d3 K3. destruct r as [[]|e]; [|split; [by etrans|done]].
  apply dwp_bind, dwp_op. intros r d4 E. simpl in E. injection E as <- <-.
  pose proof (sample_keeps lt (pb_logits_indices p) tt_ d3) as K4.
  destruct (greedy_sample lt (pb_logits_indices p) tt_ d3) as [[c|] d4]; simpl in *; [split; [by do 2 (etrans; [eassumption|])|done]|].
  apply dwp_bind, dwp_bytes; [rewrite E2, u64_small by lia; lia|]. intros r d5 E. pose proof (memcpy_d2h_keeps _ _ _ _ _ _ E) as K5.
  assert (keeps_sizes d d5) as K.
  { do 3 (etrans; [eassumption|]). by apply keeps_buffers_sizes, same_keeps. }
  destruct r as [bytes|e]; [|done].
  destruct L2 as (O2 & _ & _ & l2 & B2 & S2). destruct (K3 _ _ B2) as (l3 & B3 & S3). destruct (K4 _ _ B3) as (l4 & B4 & S4).
  rewrite int32_size in S2. unfold product in S2. simpl in S2. rewrite E2, Z.mul_1_r in S2.
  assert (in_range l4 (t_offset tt_) (u64 (pb_batch_size p) * 4)) as Hr.
  { rewrite O2, E2, u64_small by lia. unfold in_range. lia. }
  rewrite (memcpy_d2h_ok _ _ _ _ _ _ _ B4 Hr E). pose proof (size_slice _ _ _ Hr) as Hsz.
  rewrite E2, u64_small in Hsz |- * by lia.
  exists (Value (results_from sampling 0 items (decode_i32 (slice l4 (t_offset tt_) (size_Z items * 4))))), d5.
  pose proof (length_decode _ _ Hsz ltac:(lia)) as Hlen.
  assert (Z.to_nat (size_Z items) = length items) as En by (unfold size_Z; lia).
  split; [|split; [done|]].
  - unfold dev_lift. rewrite En.
    pose proof (item_results_spec p sampling items [] (decode_i32 (slice l4 (t_offset tt_) (size_Z items * 4))) []) as Hi.
    change (size_Z []) with 0 in Hi. simpl app in Hi. rewrite Hi; [done|done..|congruence].
  - eexists. split; [|done]. congruence.
Qed.
End inference.
