(* ===== verification/SimModel.v ===== *)
(** * A simulated model

    An instance of the model interface on the simulated device: the forward pass
    computes nothing and every sampled token is the same, which is enough to run
    workers on concrete batches. *)

From Stdlib Require Import ZArith Lia SpecFloat.
From stdpp Require Import prelude strings gmap fin_maps.
From S2P Require Import Prelude Base Config Device SimDevice State BlockStorage Model.

Definition sim_model_config : ModelConfig :=
  mkModelConfig Qwen3 1 2 1 4 2 0 4 16 32 f32_one f32_one 0 0 0 0 0 0 0 [].

#[export] Instance sim_model : Model SimDevice := {
  model_config := sim_model_config;
  forward _ _ _ _ := mret tt;
}.

#[export] Instance sim_sampler : Sampler SimDevice := {
  greedy_sample _ _ out d := (None, (sim_update d (t_buffer out) (fun l => repeat 1 (length l))).2);
}.

Lemma sim_sample_keeps logits rows out (d : SimDevice) : keeps_sizes d (greedy_sample logits rows out d).2.
Proof.
  intros b l Hl. simpl.
  destruct (sim_update d (t_buffer out) (fun l => repeat 1 (length l))) as [[[]|e] d'] eqn:E.
  - destruct (decide (b = t_buffer out)) as [->|Hne].
    + destruct (sim_update_ok _ _ _ _ _ Hl E) as [Hl' _]. eexists. split; [exact Hl'|].
      unfold size_Z. by rewrite repeat_length.
    + unfold sim_update in E. destruct (sim_answer d) as [[e|] fs]; [done|].
      destruct (at_Z (sim_bufs d) (t_buffer out)) as [l0|] eqn:El; [|done]. injection E as <-.
      exists l. split; [|done]. simpl in *. by rewrite at_set_Z_ne.
  - exists l. split; [|done]. pose proof (sim_update_err _ _ _ _ _ E b) as Eb. simpl in *. by rewrite Eb.
Qed.

#[export] Instance sim_model_laws : ModelLaws SimDevice := {
  model_ready _ := True;
  model_ready_keeps _ _ _ H := H;
  forward_ok _ _ _ _ d _ _ := dwp_ret tt (fun _ d' => keeps_sizes d d') d (PreOrder_Reflexive d);
  sample_keeps := sim_sample_keeps;
}.
