(* ===== verification/Worker.v ===== *)
(** * The device worker: [worker/worker.cpp], [executor/single_device_executor.cpp]

    The worker thread takes all queued batches, runs them in order and answers each
    on its own channel.  [process_batch] is one batch; [WorkerStep] is what the
    thread and its callers do, one lock section at a time. *)

From Stdlib Require Import ZArith Lia SpecFloat.
From stdpp Require Import prelude strings gmap fin_maps sorting.
From S2P Require Import Prelude Base Config Scheduler SchedWork Bytes Device State BlockStorage Qwen35.
From S2P Require Import Translate Model.

(** ** State *)

Record PendingBatch := mkPendingBatch { p_batch : ScheduledBatch; p_chan : Z }.

(** Where the worker thread is.  Only the thread keeps [queue_mutex_] from one step to the
    next, between its test of the wait's predicate and the wait itself; the callers' lock
    sections are single steps. *)
Inductive ThreadPoint :=
| AtLock      (* before locking [queue_mutex_]: at the loop's head, or woken in the wait *)
| Tested      (* the predicate was false and the mutex is held: the thread is about to block *)
| Blocked     (* in the wait, the mutex released *)
| Working     (* on [local_queue] *)
| Ended.

#[export] Instance ThreadPoint_eq_dec : EqDecision ThreadPoint.
Proof. solve_decision. Defined.

(** [queue_] and [running_] are shared with the callers; [local_queue] is the
    thread's own; [answers] are the results sent, by channel.  [has_model] is
    [model_] being set; the model itself is the interface's. *)
Record Worker (D : Type) `{Ccop} := mkWorker {
  queue_ : list PendingBatch;
  running : bool;
  local_queue : list PendingBatch;
  thread_ : ThreadPoint;
  answers : list (Z * Result BatchResult);
  latest_tokens_ : gmap Z Z;
  failed_sequences_ : gset Z;
  initialized_ : bool;
  w_engine_config : EngineConfig;
  has_model : bool;
  block_storage_ : option BlockStorage;
  state_pool_ : option StatePool;
  state_cache_ : option StateCache;
  device_ : option D;
}.
Arguments mkWorker {D H}.
Arguments queue_ {D H}. Arguments running {D H}. Arguments local_queue {D H}. Arguments thread_ {D H}.
Arguments answers {D H}. Arguments latest_tokens_ {D H}. Arguments failed_sequences_ {D H}.
Arguments initialized_ {D H}. Arguments w_engine_config {D H}. Arguments has_model {D H}.
Arguments block_storage_ {D H}. Arguments state_pool_ {D H}. Arguments state_cache_ {D H}. Arguments device_ {D H}.

Definition index_le (a b : WorkItemResult) : Prop := item_index a <= item_index b.

#[export] Instance index_le_dec : RelDecision index_le.
Proof. intros a b. unfold index_le. apply _. Defined.

Section worker.
Context {D : Type} `{Backend D} `{Ccop} `{!Model D} `{!Sampler D}.

Definition new_worker : Worker D := mkWorker [] false [] AtLock [] ∅ ∅ false default_engine_config false None None None None.

Definition set_queues (q l : list PendingBatch) (w : Worker D) : Worker D :=
  mkWorker q (running w) l (thread_ w) (answers w) (latest_tokens_ w) (failed_sequences_ w) (initialized_ w)
    (w_engine_config w) (has_model w) (block_storage_ w) (state_pool_ w) (state_cache_ w) (device_ w).
Definition set_running (b : bool) (w : Worker D) : Worker D :=
  mkWorker (queue_ w) b (local_queue w) (thread_ w) (answers w) (latest_tokens_ w) (failed_sequences_ w)
    (initialized_ w) (w_engine_config w) (has_model w) (block_storage_ w) (state_pool_ w) (state_cache_ w) (device_ w).
Definition set_thread (t : ThreadPoint) (w : Worker D) : Worker D :=
  mkWorker (queue_ w) (running w) (local_queue w) t (answers w) (latest_tokens_ w) (failed_sequences_ w)
    (initialized_ w) (w_engine_config w) (has_model w) (block_storage_ w) (state_pool_ w) (state_cache_ w) (device_ w).
Definition set_tokens (latest : gmap Z Z) (w : Worker D) : Worker D :=
  mkWorker (queue_ w) (running w) (local_queue w) (thread_ w) (answers w) latest (failed_sequences_ w)
    (initialized_ w) (w_engine_config w) (has_model w) (block_storage_ w) (state_pool_ w) (state_cache_ w) (device_ w).
Definition set_failed (failed : gset Z) (w : Worker D) : Worker D :=
  mkWorker (queue_ w) (running w) (local_queue w) (thread_ w) (answers w) (latest_tokens_ w) failed
    (initialized_ w) (w_engine_config w) (has_model w) (block_storage_ w) (state_pool_ w) (state_cache_ w) (device_ w).
Definition set_device (pool : option StatePool) (d : D) (w : Worker D) : Worker D :=
  mkWorker (queue_ w) (running w) (local_queue w) (thread_ w) (answers w) (latest_tokens_ w) (failed_sequences_ w)
    (initialized_ w) (w_engine_config w) (has_model w) (block_storage_ w) pool (state_cache_ w) (Some d).
Definition send (chan : Z) (r : Result BatchResult) (w : Worker D) : Worker D :=
  mkWorker (queue_ w) (running w) (local_queue w) (thread_ w) (answers w ++ [(chan, r)]) (latest_tokens_ w)
    (failed_sequences_ w) (initialized_ w) (w_engine_config w) (has_model w) (block_storage_ w) (state_pool_ w)
    (state_cache_ w) (device_ w).

(** ** [resolve_batch] *)

Record ResolvedBatch := mkResolvedBatch {
  rb_items : list WorkItem;
  original_indices : list Z;
  stale_results : list WorkItemResult;
}.

Definition stale_result (i : Z) (item : WorkItem) : WorkItemResult :=
  mkWorkItemResult i (work_sequence_id item) (work_kind item) [] 0 false true.

(** The visitor: a late-bound decode gets the sequence's latest token, whose
    existence is asserted. *)
Definition bind_item (latest : gmap Z Z) (stale : bool) (item : WorkItem) : option WorkItem :=
  match item with
  | WPrefill _ => Some item
  | WDecode work =>
      if stale || negb (late_bind work) then Some item
      else token ← latest !! dt_seq_id work;
           Some (WDecode (mkDecodeOneToken (dt_seq_id work) token (dt_expected_context_len work) (write_kv work)
                            false (dt_block_table work)))
  end.

Fixpoint resolve_items (latest : gmap Z Z) (failed : gset Z) (items : list WorkItem) (i : Z) (r : ResolvedBatch)
  : option ResolvedBatch :=
  match items with
  | [] => Some r
  | original :: items =>
      let stale := bool_decide (work_sequence_id original ∈ failed) in
      item ← bind_item latest stale original;
      resolve_items latest failed items (i + 1)
        (if stale then mkResolvedBatch (rb_items r) (original_indices r) (stale_results r ++ [stale_result i original])
         else mkResolvedBatch (rb_items r ++ [item]) (original_indices r ++ [i]) (stale_results r))
  end.

Definition resolve_batch (latest : gmap Z Z) (failed : gset Z) (batch : ScheduledBatch) : option ResolvedBatch :=
  resolve_items latest failed (batch_items batch) 0 (mkResolvedBatch [] [] []).

(** ** [process_batch] *)

(** [state_pool_->acquire_active] for each item. *)
Fixpoint acquire_all (items : list WorkItem) (pool : StatePool) (d : D) : option (Result unit * StatePool * D) :=
  match items with
  | [] => Some (Value tt, pool, d)
  | item :: items =>
      '(r, pool, d) ← acquire_active (work_sequence_id item) pool d;
      match r with
      | Unexpected e => Some (Unexpected e, pool, d)
      | Value _ => acquire_all items pool d
      end
  end.

Definition acquire_states (items : list WorkItem) (pool : option StatePool) (d : D)
  : option (Result unit * option StatePool * D) :=
  match pool with
  | None => Some (Value tt, None, d)
  | Some pool => '(r, pool, d) ← acquire_all items pool d; Some (r, Some pool, d)
  end.

(** What a result leaves in [latest_tokens_]; [item] is the scheduler's item. *)
Definition store_latest (item : WorkItem) (r : WorkItemResult) (latest : gmap Z Z) : gmap Z Z :=
  match sampled_tokens r with
  | token :: _ => <[res_seq_id r := token]> latest
  | [] =>
      match item with
      | WPrefill work => match last (pc_tokens work) with
                         | Some token => <[res_seq_id r := token]> latest
                         | None => latest
                         end
      | WDecode work => if write_kv work then <[res_seq_id r := input_token work]> latest else latest
      end
  end.

Definition set_item_index (i : Z) (r : WorkItemResult) : WorkItemResult :=
  mkWorkItemResult i (res_seq_id r) (res_kind r) (sampled_tokens r) (tokens_consumed r) (eos r) (stale r).

(** The loop over the execution's results. *)
Fixpoint store_results (items : list WorkItem) (indices : list Z) (results : list WorkItemResult) (latest : gmap Z Z)
  : option (list WorkItemResult * gmap Z Z) :=
  match results with
  | [] => Some ([], latest)
  | r :: results =>
      index ← at_Z indices (item_index r);
      let r := set_item_index index r in
      item ← at_Z items index;
      '(rest, latest) ← store_results items indices results (store_latest item r latest);
      Some (r :: rest, latest)
  end.

(** [std::sort] by item index, whose keys are distinct. *)
Definition sort_results (l : list WorkItemResult) : list WorkItemResult := merge_sort index_le l.

Definition fail_sequences (resolved : ResolvedBatch) (w : Worker D) : Worker D :=
  set_failed (list_to_set (work_sequence_id <$> rb_items resolved) ∪ failed_sequences_ w) w.

(** The answer of the batch, and the worker after it. *)
Definition process_batch (batch : ScheduledBatch) (w : Worker D) : option (Result BatchResult * Worker D) :=
  ASSERT initialized_ w ;;
  d ← device_ w;
  storage ← block_storage_ w;
  ASSERT negb (bool_decide (batch_items batch = [])) ;;
  resolved ← resolve_batch (latest_tokens_ w) (failed_sequences_ w) batch;
  if bool_decide (rb_items resolved = [])
  then Some (Value (mkBatchResult (batch_id batch) (stale_results resolved)), w)
  else
    ASSERT has_model w ;;
    '(acquired, pool, d) ← acquire_states (rb_items resolved) (state_pool_ w) d;
    match acquired with
    | Unexpected e => Some (Unexpected e, fail_sequences resolved (set_device pool d w))
    | Value _ =>
        '(physical, d) ← translate (kv_block_size (w_engine_config w)) pool
                           (mkScheduledBatch (batch_id batch) (rb_items resolved) (batch_sampling batch)) d;
        match physical with
        | Unexpected e => Some (Unexpected e, fail_sequences resolved (set_device pool d w))
        | Value physical =>
            '(execution, d) ← inference Qwen3ExecutionTraits physical storage
                                (storage_ <$> pool) (batch_sampling batch) d;
            match execution with
            | Unexpected e => Some (Unexpected e, fail_sequences resolved (set_device pool d w))
            | Value results =>
                '(results, latest) ← store_results (batch_items batch) (original_indices resolved) results
                                       (latest_tokens_ w);
                Some (Value (mkBatchResult (batch_id batch) (sort_results (results ++ stale_results resolved))),
                  set_tokens latest (set_device pool d w))
            end
        end
    end.

(** ** The thread *)

Definition process_command (pending : PendingBatch) (w : Worker D) : option (Worker D) :=
  if negb (running w) then Some (send (p_chan pending) (Unexpected ServerShuttingDown) w)
  else '(r, w) ← process_batch (p_batch pending) w; Some (send (p_chan pending) r w).

Definition reset_resources (w : Worker D) : Worker D :=
  mkWorker (queue_ w) (running w) (local_queue w) (thread_ w) (answers w) ∅ ∅ false (w_engine_config w) false
    None None None None.

(** The end of [worker_loop]. *)
Definition exit_thread (w : Worker D) : Worker D := reset_resources (set_thread Ended w).

(** One step of [worker_loop]: the next command or the end of the commands; the lock, the
    test of the wait's predicate and what follows it when it is true; or the wait, which
    releases the mutex and blocks.  A blocked thread does nothing until it is woken. *)
Definition thread_step (w : Worker D) : option (Worker D) :=
  match thread_ w with
  | AtLock =>
      match queue_ w with
      | [] => Some (if running w then set_thread Tested w else exit_thread w)
      | _ => Some (set_thread Working (set_queues [] (queue_ w) w))
      end
  | Tested => Some (set_thread Blocked w)
  | Blocked => Some w
  | Working =>
      match local_queue w with
      | pending :: rest => process_command pending (set_queues (queue_ w) rest w)
      | [] => Some (set_thread AtLock w)
      end
  | Ended => Some w
  end.

(** What [notify_one] and [notify_all] do: the thread is the only one that waits on
    [cv_], and a notification that finds it elsewhere is lost. *)
Definition notify (w : Worker D) : Worker D :=
  match thread_ w with Blocked => set_thread AtLock w | _ => w end.

(** [queue_mutex_] can be locked. *)
Definition mutex_free (w : Worker D) : bool := negb (bool_decide (thread_ w = Tested)).

(** [enqueue_execute_batch], its lock section, up to the notification; the channel is
    the caller's future. *)
Definition enqueue_execute_batch (batch : ScheduledBatch) (chan : Z) (w : Worker D) : Result Z * Worker D :=
  if negb (running w) then (Unexpected ServerShuttingDown, w)
  else (Value chan, set_queues (queue_ w ++ [mkPendingBatch batch chan]) (local_queue w) w).

(** [shutdown], up to the notification, which it makes without the mutex, and to joining
    the thread. *)
Definition shutdown (w : Worker D) : Worker D := set_running false w.

Definition release_sequence (seq : Z) (w : Worker D) : option (Result unit * Worker D) :=
  match state_pool_ w, device_ w with
  | Some pool, Some d => '(r, pool, d) ← release_active seq pool d; Some (r, set_device (Some pool) d w)
  | _, _ => Some (Value tt, w)
  end.

(** [SingleDeviceExecutor]: forwards to the worker; [collect_batch] gets what was
    sent on the channel, or the channel's error. *)
Definition execute_batch (batch : ScheduledBatch) (chan : Z) (w : Worker D) : Result Z * Worker D :=
  enqueue_execute_batch batch chan w.

Definition collect_batch (ec : AsioCode) (result : Result BatchResult) : Result BatchResult :=
  match ec with
  | AsioSuccess => result
  | _ => Unexpected (to_error_code ec)
  end.

(** [SingleDeviceExecutor::shutdown]. *)
Definition executor_shutdown (w : Worker D) : Worker D := shutdown w.

Definition executor_release_sequence (seq : Z) (w : Worker D) : option (Worker D) :=
  '(_, w) ← release_sequence seq w; Some w.

(** ** Initialisation *)

(** The results of [Backend::create] and [Checkpoint::open], and what the model registry
    does on the device. *)
Record Resources := mkResources {
  created_backend : Result D;
  opened_checkpoint : Result unit;
  created_model : Dev D unit;
}.

Definition set_config (engine : EngineConfig) (w : Worker D) : Worker D :=
  mkWorker (queue_ w) (running w) (local_queue w) (thread_ w) (answers w) (latest_tokens_ w) (failed_sequences_ w)
    (initialized_ w) engine (has_model w) (block_storage_ w) (state_pool_ w) (state_cache_ w) (device_ w).
Definition set_model (w : Worker D) : Worker D :=
  mkWorker (queue_ w) (running w) (local_queue w) (thread_ w) (answers w) (latest_tokens_ w) (failed_sequences_ w)
    (initialized_ w) (w_engine_config w) true (block_storage_ w) (state_pool_ w) (state_cache_ w) (device_ w).
Definition set_storage (s : BlockStorage) (w : Worker D) : Worker D :=
  mkWorker (queue_ w) (running w) (local_queue w) (thread_ w) (answers w) (latest_tokens_ w) (failed_sequences_ w)
    (initialized_ w) (w_engine_config w) (has_model w) (Some s) (state_pool_ w) (state_cache_ w) (device_ w).
Definition set_cache (c : StateCache) (w : Worker D) : Worker D :=
  mkWorker (queue_ w) (running w) (local_queue w) (thread_ w) (answers w) (latest_tokens_ w) (failed_sequences_ w)
    (initialized_ w) (w_engine_config w) (has_model w) (block_storage_ w) (state_pool_ w) (Some c) (device_ w).
Definition set_initialized (w : Worker D) : Worker D :=
  mkWorker (queue_ w) (running w) (local_queue w) (thread_ w) (answers w) (latest_tokens_ w) (failed_sequences_ w)
    true (w_engine_config w) (has_model w) (block_storage_ w) (state_pool_ w) (state_cache_ w) (device_ w).

(** The state pool and its cache, for a hybrid model. *)
Definition init_states (model : ModelConfig) (engine : EngineConfig) (d : D) (w : Worker D)
  : option (Result unit * Worker D) :=
  if bool_decide (arch_ model = Qwen3_5)
  then '(pool, d) ← create_pool model (max_sequences engine) (state_prefix_cache_blocks engine) d;
       match pool with
       | Unexpected e => Some (Unexpected e, set_device (state_pool_ w) d w)
       | Value p => cache ← new_state_cache (state_prefix_cache_blocks engine);
                    Some (Value tt, set_initialized (set_cache cache (set_device (Some p) d w)))
       end
  else Some (Value tt, set_initialized w).

(** [init_resources]; a step that fails leaves what was created before it. *)
Definition init_resources (res : Resources) (model : ModelConfig) (engine : EngineConfig) (w : Worker D)
  : option (Result unit * Worker D) :=
  let w := set_config engine w in
  match created_backend res with
  | Unexpected e => Some (Unexpected e, w)
  | Value d =>
      let w := set_device (state_pool_ w) d w in
      match opened_checkpoint res with
      | Unexpected e => Some (Unexpected e, w)
      | Value _ =>
          '(created, d) ← created_model res d;
          let w := set_device (state_pool_ w) d w in
          match created with
          | Unexpected e => Some (Unexpected e, w)
          | Value _ =>
              let w := set_model w in
              num_kv_layers ← kv_layer_count model;
              '(storage, d) ← create_block_storage num_kv_layers (max_blocks engine) (kv_block_size engine)
                                (n_kv_heads_ model) (head_dim_ model) kBFloat16 d;
              let w := set_device (state_pool_ w) d w in
              match storage with
              | Unexpected e => Some (Unexpected e, w)
              | Value s =>
                  ASSERT bs_block_size_ s =? kv_block_size engine ;;
                  init_states model engine d (set_storage s w)
              end
          end
      end
  end.

(** [Worker::init]; [joinable] is [worker_thread_.joinable()]. *)
Definition init_worker (joinable : bool) (res : Resources) (model : ModelConfig) (engine : EngineConfig) (w : Worker D)
  : option (Result unit * Worker D) :=
  if running w || joinable then Some (Unexpected InvalidArgument, w)
  else '(r, w) ← init_resources res model engine w;
       match r with
       | Unexpected e => Some (Unexpected e, reset_resources w)
       | Value _ => Some (Value tt, set_thread AtLock (set_running true w))
       end.
End worker.
