(* ===== verification/WorkerProps.v ===== *)
(** * What the worker guarantees

    [process_batch] answers every batch the scheduler builds with results the
    scheduler can retire, or with an error and the batch's sequences marked failed;
    the thread answers every accepted batch once, in order, also at shutdown. *)

From Stdlib Require Import ZArith Lia SpecFloat.
From stdpp Require Import prelude strings gmap fin_maps sorting.
From S2P Require Import Prelude Base Config Scheduler SchedWork Bytes Device SimDevice State StateProps.
From S2P Require Import BlockStorage Qwen35 Translate TranslateProps Model ModelProps SimModel Worker.
From S2P Require Import SchedFrame SchedKv SchedInv SchedRetire Engine.

(** ** Sorting by distinct keys *)

#[export] Instance index_le_trans : Transitive index_le.
Proof. intros a b c. unfold index_le. lia. Qed.

#[export] Instance index_le_total : Total index_le.
Proof. intros a b. unfold index_le. lia. Qed.

Definition index_lt (a b : WorkItemResult) : Prop := item_index a < item_index b.

(** A permutation sorted by distinct keys is unique. *)
Lemma sorted_unique l l' : StronglySorted index_lt l -> StronglySorted index_le l' -> l' ≡ₚ l -> l' = l.
Proof.
  revert l'. induction l as [|x l IH]; intros l' Hl Hl' Hp; [by apply Permutation_nil_r in Hp|].
  destruct l' as [|y l']; [by apply Permutation_nil_l in Hp|].
  apply StronglySorted_inv in Hl as [Hl Hx]. apply StronglySorted_inv in Hl' as [Hl' Hy].
  rewrite Forall_forall in Hx, Hy.
  assert (y = x) as ->; [|f_equal; apply IH; [done|done|by eapply Permutation_cons_inv]].
  assert (y ∈ x :: l) as Hyin by (rewrite <- Hp; left). assert (x ∈ y :: l') as Hxin by (rewrite Hp; left).
  apply elem_of_cons in Hyin as [?|Hyin]; [done|]. apply elem_of_cons in Hxin as [?|Hxin]; [done|].
  pose proof (Hx y Hyin). pose proof (Hy x Hxin). unfold index_lt, index_le in *. lia.
Qed.

Lemma sort_results_spec l l' : StronglySorted index_lt l -> l' ≡ₚ l -> sort_results l' = l.
Proof.
  intros Hl Hp. apply sorted_unique; [done| |].
  - apply (StronglySorted_merge_sort index_le).
  - unfold sort_results. by rewrite merge_sort_Permutation.
Qed.

(** ** Which items run *)

Section resolve.
Context (latest : gmap Z Z) (failed : gset Z).

Definition is_stale (it : WorkItem) : bool := bool_decide (work_sequence_id it ∈ failed).

(** The item the worker runs. *)
Definition bound_item (it : WorkItem) : WorkItem := default it (bind_item latest false it).

(** Live and stale items with their indices, from index [i]. *)
Fixpoint live_items (i : Z) (items : list WorkItem) : list (Z * WorkItem) :=
  match items with
  | [] => []
  | it :: items => if is_stale it then live_items (i + 1) items else (i, it) :: live_items (i + 1) items
  end.

Fixpoint dead_items (i : Z) (items : list WorkItem) : list (Z * WorkItem) :=
  match items with
  | [] => []
  | it :: items => if is_stale it then (i, it) :: dead_items (i + 1) items else dead_items (i + 1) items
  end.

(** A late-bound item has a token to bind. *)
Definition bindable (it : WorkItem) : Prop :=
  match it with
  | WPrefill _ => True
  | WDecode w => late_bind w = true -> is_stale it = false -> is_Some (latest !! dt_seq_id w)
  end.

Lemma bind_item_spec it :
  bindable it -> exists it', bind_item latest (is_stale it) it = Some it' /\ (is_stale it = false -> it' = bound_item it).
Proof.
  intros Hb. unfold bound_item. destruct it as [w|w]; simpl in *; [by eexists|].
  destruct (is_stale (WDecode w)) eqn:Hs; simpl; [by eexists|].
  destruct (late_bind w) eqn:Hl; simpl; [|by eexists].
  destruct (Hb eq_refl eq_refl) as [t Ht]. rewrite Ht. simpl. by eexists.
Qed.

Lemma resolve_items_spec items i r :
  Forall bindable items ->
  resolve_items latest failed items i r =
  Some (mkResolvedBatch (rb_items r ++ (bound_item <$> (live_items i items).*2))
          (original_indices r ++ (live_items i items).*1)
          (stale_results r ++ ((fun '(i, it) => stale_result i it) <$> dead_items i items))).
Proof.
  intros Hall. revert i r. induction Hall as [|it items Hb _ IH]; intros i r.
  { simpl. rewrite !app_nil_r. by destruct r. }
  cbn [resolve_items live_items dead_items]. destruct (bind_item_spec it Hb) as (it' & E & Hit').
  unfold is_stale in E. rewrite E. cbn [mbind option_bind]. rewrite IH. fold (is_stale it).
  destruct (is_stale it) eqn:Hs; simpl; [by rewrite <- app_assoc|].
  rewrite Hit' by done. by rewrite <- !app_assoc.
Qed.

(** ** The answer *)

(** Every item's result, in order, with the tokens of the live ones. *)
Fixpoint merged (sampling : SamplingParams) (i : Z) (items : list WorkItem) (tokens : list Z) : list WorkItemResult :=
  match items with
  | [] => []
  | it :: items =>
      if is_stale it then stale_result i it :: merged sampling (i + 1) items tokens
      else match tokens with
           | [] => []
           | token :: tokens =>
               item_result sampling i (work_sequence_id it) (work_kind it) (item_sampled it) (work_token_count it) token ::
               merged sampling (i + 1) items tokens
           end
  end.

Definition live_result (sampling : SamplingParams) (x : Z * WorkItem) (token : Z) : WorkItemResult :=
  item_result sampling x.1 (work_sequence_id x.2) (work_kind x.2) (item_sampled x.2) (work_token_count x.2) token.

Lemma merged_perm sampling i items tokens :
  length tokens = length (live_items i items) ->
  zip_with (live_result sampling) (live_items i items) tokens ++
    ((fun '(i, it) => stale_result i it) <$> dead_items i items) ≡ₚ merged sampling i items tokens.
Proof.
  revert i tokens. induction items as [|it items IH]; intros i tokens Hl; [by destruct tokens|].
  cbn [live_items dead_items merged] in *. destruct (is_stale it) eqn:Hs.
  - rewrite fmap_cons, <- Permutation_middle. constructor. by apply IH.
  - destruct tokens as [|token tokens]; [done|]. simpl. constructor. apply IH. by injection Hl.
Qed.

Lemma merged_index sampling i items tokens r : r ∈ merged sampling i items tokens -> i <= item_index r.
Proof.
  revert i tokens. induction items as [|it items IH]; intros i tokens; [by intros ?%elem_of_nil|]. simpl.
  destruct (is_stale it); [intros [->|H]%elem_of_cons; [done|apply IH in H; lia]|].
  destruct tokens as [|token tokens]; [by intros ?%elem_of_nil|].
  intros [->|H]%elem_of_cons; [done|apply IH in H; lia].
Qed.

Lemma merged_sorted sampling i items tokens : StronglySorted index_lt (merged sampling i items tokens).
Proof.
  revert i tokens. induction items as [|it items IH]; intros i tokens; [constructor|]. simpl.
  destruct (is_stale it); [|destruct tokens as [|token tokens]; [constructor|]]; constructor; try apply IH;
    apply Forall_forall; intros r Hr; apply merged_index in Hr; unfold index_lt; simpl; lia.
Qed.

(** Each item's result satisfies what the scheduler asks of it. *)
Lemma merged_honest sampling items tokens i :
  Forall bindable items -> length tokens = length (live_items i items) ->
  length (merged sampling i items tokens) = length items /\
  forall k it r, items !! k = Some it -> merged sampling i items tokens !! k = Some r ->
    honest_item failed it (i + Z.of_nat k) r.
Proof.
  intros Hall. revert i tokens. induction Hall as [|it items Hb _ IH]; intros i tokens Hl; [done|].
  cbn [live_items merged] in *. destruct (is_stale it) eqn:Hs.
  - destruct (IH (i + 1) tokens Hl) as [H1 H2]. split; [simpl; by rewrite H1|].
    intros [|k] it' r Hk Hr; simpl in *.
    + injection Hk as <-. injection Hr as <-. rewrite Z.add_0_r. split; simpl; try done.
      intros _. unfold is_stale in Hs. by apply bool_decide_eq_true in Hs.
    + replace (i + Z.of_nat (S k)) with (i + 1 + Z.of_nat k) by lia. by apply H2.
  - destruct tokens as [|token tokens]; [done|]. destruct (IH (i + 1) tokens) as [H1 H2]; [by injection Hl|].
    split; [simpl; by rewrite H1|]. intros [|k] it' r Hk Hr; simpl in *.
    + injection Hk as <-. injection Hr as <-. rewrite Z.add_0_r. unfold item_result. split; simpl; try done.
      * intros _. destruct it as [w|w]; simpl; [|split; done]. destruct (needs_sample w); simpl; split; try done; by intros ?.
      * intros _. by destruct (item_sampled it).
    + replace (i + Z.of_nat (S k)) with (i + 1 + Z.of_nat k) by lia. by apply H2.
Qed.
End resolve.

(** ** The token store *)

Lemma bound_item_same latest it :
  work_sequence_id (bound_item latest it) = work_sequence_id it /\ work_kind (bound_item latest it) = work_kind it /\
  item_sampled (bound_item latest it) = item_sampled it /\ work_token_count (bound_item latest it) = work_token_count it /\
  work_context (bound_item latest it) = work_context it /\ work_block_table (bound_item latest it) = work_block_table it /\
  kv_token_count (bound_item latest it) = kv_token_count it /\ item_last (bound_item latest it) = item_last it.
Proof.
  unfold bound_item. destruct it as [w|w]; simpl; [done|].
  destruct (late_bind w); simpl; [|done]. destruct (latest !! dt_seq_id w); simpl; done.
Qed.

(** What a run of results leaves in the store. *)
Definition stored (sampling : SamplingParams) (lives : list (Z * WorkItem)) (tokens : list Z) (latest : gmap Z Z) : gmap Z Z :=
  foldl (fun m '(x, token) => store_latest x.2 (live_result sampling x token) m) latest (zip lives tokens).

Lemma live_items_at failed i items x :
  x ∈ live_items failed i items -> i <= x.1 /\ at_Z items (x.1 - i) = Some x.2 /\ is_stale failed x.2 = false.
Proof.
  revert i x. induction items as [|it items IH]; intros i x; simpl; [by intros ?%elem_of_nil|].
  assert (forall y : Z * WorkItem, y ∈ live_items failed (i + 1) items ->
    i <= y.1 /\ at_Z (it :: items) (y.1 - i) = Some y.2 /\ is_stale failed y.2 = false) as Hrec.
  { intros y Hy. destruct (IH _ _ Hy) as (H1 & H2 & H3). split_and!; [lia| |done].
    apply at_Z_Some in H2 as [Hr H2]. unfold at_Z. destruct (Z.leb_spec 0 (y.1 - i)); [|lia].
    replace (Z.to_nat (y.1 - i)) with (S (Z.to_nat (y.1 - (i + 1)))) by lia. done. }
  destruct (is_stale failed it) eqn:Hs; [apply Hrec|]. intros [->|Hx]%elem_of_cons; [|by apply Hrec]. simpl.
  rewrite Z.sub_diag. split_and!; [lia|done|done].
Qed.

Lemma store_results_spec latest sampling items dn lives tokens m :
  (forall x, x ∈ lives -> at_Z items x.1 = Some x.2) -> length tokens = length lives ->
  store_results items (dn ++ lives).*1 (results_from sampling (size_Z dn) (bound_item latest <$> lives.*2) tokens) m =
  Some (zip_with (live_result sampling) lives tokens, stored sampling lives tokens m).
Proof.
  revert dn tokens m. induction lives as [|[i it] lives IH]; intros dn tokens m Hat Hl; [by destruct tokens|].
  destruct tokens as [|token tokens]; [done|]. cbn [fmap list_fmap results_from store_results fst snd].
  cbn [item_index item_result].
  assert (at_Z (dn ++ (i, it) :: lives).*1 (size_Z dn) = Some i) as ->.
  { unfold size_Z. rewrite at_Z_nat, fmap_app, lookup_app_r by (by rewrite length_fmap).
    by rewrite length_fmap, Nat.sub_diag. }
  cbn [mbind option_bind]. pose proof (Hat (i, it) ltac:(left)) as Hi. cbn [fst snd] in Hi. rewrite Hi. cbn [mbind option_bind].
  destruct (bound_item_same latest it) as (E1 & E2 & E3 & E4 & _). rewrite E1, E2, E3, E4.
  change (set_item_index i (item_result sampling (size_Z dn) (work_sequence_id it) (work_kind it) (item_sampled it)
    (work_token_count it) token)) with (live_result sampling (i, it) token).
  replace (size_Z dn + 1) with (size_Z (dn ++ [(i, it)])) by (rewrite size_Z_app; unfold size_Z; simpl; lia).
  replace (dn ++ (i, it) :: lives) with ((dn ++ [(i, it)]) ++ lives) by (by rewrite <- app_assoc).
  rewrite IH; [done| |by injection Hl]. intros x Hx. apply Hat. by right.
Qed.

Lemma store_latest_keeps it r m q : is_Some (m !! q) -> is_Some (store_latest it r m !! q).
Proof.
  intros Hq. unfold store_latest.
  assert (forall t, is_Some (<[res_seq_id r := t]> m !! q)) as Hi.
  { intros t. destruct (decide (res_seq_id r = q)) as [<-|Hne]; [rewrite lookup_insert_eq|rewrite lookup_insert_ne by done]; eauto. }
  destruct (sampled_tokens r); [|done]. destruct it as [w|w]; [destruct (last _); done|destruct (write_kv w); done].
Qed.

Lemma stored_spec sampling bs lives tokens m :
  length tokens = length lives -> Forall (fun x => item_wf bs x.2) lives ->
  (forall q, is_Some (m !! q) -> is_Some (stored sampling lives tokens m !! q)) /\
  Forall (fun x => is_Some (stored sampling lives tokens m !! work_sequence_id x.2)) lives.
Proof.
  unfold stored. revert tokens m. induction lives as [|[i it] lives IH]; intros tokens m Hl Hwf; [by destruct tokens|].
  destruct tokens as [|token tokens]; [done|]. apply Forall_cons in Hwf as [[_ _ Hk Hlen _ _] Hwf].
  injection Hl as Hl. cbn [zip zip_with foldl].
  destruct (IH tokens (store_latest it (live_result sampling (i, it) token) m) Hl Hwf) as [H1 H2].
  split; [intros q Hq; apply H1; by apply store_latest_keeps|]. constructor; [|done]. apply H1. simpl.
  unfold store_latest, live_result, item_result. simpl. destruct it as [w|w]; simpl in *.
  - destruct (needs_sample w); [by rewrite lookup_insert_eq|].
    destruct (last (pc_tokens w)) eqn:El; [by rewrite lookup_insert_eq|].
    apply last_None in El. rewrite El in Hlen. unfold size_Z in Hlen. simpl in Hlen. lia.
  - by rewrite lookup_insert_eq.
Qed.

(** ** Acquiring the states *)

Section process.
Context {D : Type} `{!Backend D} `{!BackendLaws D} `{!Ccop} `{!CcopLaws} `{!Model D} `{!Sampler D} `{!ModelLaws D}.

(** The pool and its storage. *)
Definition states_fine (pool : option StatePool) (d : D) : Prop :=
  match pool with Some p => exists snaps, pool_ok snaps p /\ storage_ok (storage_ p) d | None => True end.

Lemma states_fine_keeps pool d d' : states_fine pool d -> keeps_sizes d d' -> states_fine pool d'.
Proof. destruct pool as [p|]; [|done]. intros (snaps & H1 & H2) K. exists snaps. split; [done|by eapply storage_ok_keeps]. Qed.

Lemma acquire_active_sizes snaps p d seq r p' d' :
  pool_ok snaps p -> storage_ok (storage_ p) d -> acquire_active seq p d = Some (r, p', d') -> keeps_sizes d d'.
Proof.
  intros Hp Hs E. unfold acquire_active in E. case_bool_decide; [by injection E as _ _ <-|].
  destruct (mutable_free_list_ p) as [|i rest] eqn:Hfl; [by injection E as _ _ <-|].
  pose proof (po_own _ _ Hp) as Hown. pose proof (po_sizes _ _ Hp) as Hsz.
  assert (0 <= i < max_active_ p /\ status_of p i = Some StFree) as [Hi Hif]
    by (apply (ow_free _ _ _ _ _ _ _ Hown); rewrite Hfl; by left).
  assert (0 <= i < total p) as Hit by (unfold total; lia).
  rewrite (meta_of _ _ _ _ Hp Hit Hif) in E. unfold mbind, option_bind, meta in E.
  destruct (_ && _); [|done]. simpl in E.
  destruct (dwp_zero_state_sizes (storage_ p) i d Hs) as (r1 & d1 & E1 & K); [by rewrite (po_storage _ _ Hp)|].
  rewrite E1 in E. destruct r1; by injection E as _ _ <-.
Qed.

Lemma acquire_all_spec snaps items p d :
  pool_ok snaps p -> storage_ok (storage_ p) d ->
  exists r p' d', acquire_all items p d = Some (r, p', d') /\ keeps_sizes d d' /\
    pool_ok snaps p' /\ storage_ok (storage_ p') d'.
Proof.
  revert p d. induction items as [|it items IH]; intros p d Hp Hs; [by exists (Value tt), p, d|]. cbn [acquire_all].
  destruct (acquire_active_run snaps p d (work_sequence_id it) Hp Hs) as (r & p1 & d1 & E & Hp1 & Hg & _).
  pose proof (acquire_active_sizes _ _ _ _ _ _ _ Hp Hs E) as K. rewrite E. cbn [mbind option_bind].
  assert (storage_ok (storage_ p1) d1) as Hs1.
  { destruct Hg as [-> _]. by eapply storage_ok_keeps. }
  destruct r as [[]|e]; [|by exists (Unexpected e), p1, d1].
  destruct (IH p1 d1 Hp1 Hs1) as (r & p2 & d2 & E2 & K2 & Hp2 & Hs2). exists r, p2, d2.
  rewrite E2. split_and!; [done|by etrans|done|done].
Qed.

Lemma acquire_states_spec items pool d :
  states_fine pool d -> exists r pool' d', acquire_states items pool d = Some (r, pool', d') /\
    keeps_sizes d d' /\ states_fine pool' d'.
Proof.
  intros Hf. destruct pool as [p|]; [|by exists (Value tt), None, d].
  destruct Hf as (snaps & Hp & Hs). destruct (acquire_all_spec snaps items p d Hp Hs) as (r & p' & d' & E & K & Hp' & Hs').
  exists r, (Some p'), d'. cbn [acquire_states]. rewrite E. split_and!; [done|done|by exists snaps].
Qed.

(** ** One batch *)

(** A worker that is ready for batches. *)
Record worker_ok (w : Worker D) : Prop := mk_worker_ok {
  wk_ready : initialized_ w = true /\ has_model w = true;
  wk_block : 0 < kv_block_size (w_engine_config w);
  wk_device : exists d s, device_ w = Some d /\ block_storage_ w = Some s /\ block_storage_ok s d /\
    states_fine (state_pool_ w) d /\ model_ready d /\ kv_layer_count model_config = Some (num_layers_ s);
}.

(** A batch the worker can run: well-formed items, bindable late tokens, counts that
    fit an [int], greedy sampling and positions below the model's maximum. *)
Record batch_ok (w : Worker D) (batch : ScheduledBatch) : Prop := mk_batch_ok {
  bo_items : batch_items batch <> [];
  bo_wf : Forall (item_wf (kv_block_size (w_engine_config w))) (batch_items batch);
  bo_bound : Forall (bindable (latest_tokens_ w) (failed_sequences_ w)) (batch_items batch);
  bo_count : total_of (batch_items batch) < INT_MAX /\
    Forall (fun it => table_size (work_block_table it) <= INT_MAX) (batch_items batch);
  bo_sampling : sampling_ok (vocab_size_ model_config) (batch_sampling batch) = true /\
    greedy (batch_sampling batch) = true;
  bo_position : Forall (fun it => item_last it < max_seq_len_ model_config) (batch_items batch);
}.

(** Only the handoff maps, the pool and the device differ. *)
Definition same_thread (w w' : Worker D) : Prop :=
  queue_ w' = queue_ w /\ running w' = running w /\ local_queue w' = local_queue w /\ thread_ w' = thread_ w /\
  answers w' = answers w /\ w_engine_config w' = w_engine_config w.

Lemma live_Forall (P : WorkItem -> Prop) failed i items :
  Forall P items -> Forall (fun x => P x.2) (live_items failed i items).
Proof.
  intros Hall. revert i. induction Hall as [|it items Hit _ IH]; intros i; [constructor|]. simpl.
  destruct (is_stale failed it); [apply IH|]. constructor; [done|apply IH].
Qed.

Lemma bound_wf bs latest it : item_wf bs it -> item_wf bs (bound_item latest it).
Proof.
  intros [H1 H2 H3 H4 H5 H6]. destruct (bound_item_same latest it) as (_ & _ & _ & E4 & E5 & E6 & E7 & _).
  split; rewrite ?E4, ?E5, ?E6, ?E7; try done; unfold bound_item; destruct it as [w|w]; simpl; try done;
    destruct (late_bind w); simpl; try done; destruct (latest !! dt_seq_id w); done.
Qed.

Lemma bound_not_late latest failed it :
  bindable latest failed it -> is_stale failed it = false ->
  match bound_item latest it with WPrefill _ => true | WDecode w => negb (late_bind w) end = true.
Proof.
  intros Hb Hs. unfold bound_item. destruct it as [w|w]; simpl in *; [done|].
  destruct (late_bind w) eqn:Hl; simpl; [|by rewrite Hl]. destruct (Hb eq_refl Hs) as [t Ht]. by rewrite Ht.
Qed.

Definition live_batch (w : Worker D) (batch : ScheduledBatch) : list (Z * WorkItem) :=
  live_items (failed_sequences_ w) 0 (batch_items batch).

Definition bound_items (w : Worker D) (batch : ScheduledBatch) : list WorkItem :=
  bound_item (latest_tokens_ w) <$> (live_batch w batch).*2.

Lemma bound_in w batch it' :
  it' ∈ bound_items w batch -> exists it, it' = bound_item (latest_tokens_ w) it /\ it ∈ batch_items batch /\
    is_stale (failed_sequences_ w) it = false.
Proof.
  intros Hin. apply list_elem_of_fmap in Hin as (it & -> & Hin). apply list_elem_of_fmap in Hin as ([i x] & -> & Hin).
  apply live_items_at in Hin as (_ & Hat & Hs). exists x. split_and!; [done| |done].
  apply at_Z_Some in Hat as [_ Hat]. by eapply list_elem_of_lookup_2.
Qed.

Lemma live_totals bs failed latest i items :
  Forall (item_wf bs) items ->
  total_of (bound_item latest <$> (live_items failed i items).*2) <= total_of items.
Proof.
  intros Hwf. revert i. induction Hwf as [|it items [_ _ Hk _ _ _] _ IH]; intros i; [done|]. simpl.
  destruct (bound_item_same latest it) as (_ & _ & _ & E4 & _).
  destruct (is_stale failed it); unfold total_of in *; simpl; [etrans; [apply IH|]; lia|].
  rewrite E4. apply Z.add_le_mono_l. exact (IH (i + 1)).
Qed.

Lemma widest_le n items : 0 <= n -> Forall (fun it => table_size (work_block_table it) <= n) items -> widest items <= n.
Proof.
  intros Hn Hall. unfold widest. revert Hn. generalize 0 as m. induction Hall as [|it items Hit _ IH]; intros m Hm; simpl; [done|].
  apply IH. lia.
Qed.

Lemma resolved_ready w batch :
  batch_ok w batch -> 0 < kv_block_size (w_engine_config w) -> bound_items w batch <> [] ->
  translatable (kv_block_size (w_engine_config w)) (bound_items w batch) /\ countable (bound_items w batch) /\
  Forall (fun it => item_last it < max_seq_len_ model_config) (bound_items w batch).
Proof.
  intros [B1 B2 B3 [B4 B5] _ B6] Hbs Hne. rewrite Forall_forall in B3, B5, B6.
  assert (Forall (item_wf (kv_block_size (w_engine_config w))) (bound_items w batch)) as Hwf.
  { apply Forall_forall. intros it' Hin. apply bound_in in Hin as (it & -> & Hin & _).
    rewrite Forall_forall in B2. apply bound_wf, B2, Hin. }
  pose proof (live_totals _ (failed_sequences_ w) (latest_tokens_ w) 0 _ B2) as Htot.
  fold (live_batch w batch) in Htot. fold (bound_items w batch) in Htot.
  pose proof (total_ge _ _ Hwf). split_and!.
  - split_and!; [done|done|]. apply Forall_forall. intros it' Hin. rewrite Forall_forall in Hwf. split; [by apply Hwf|].
    apply bound_in in Hin as (it & -> & Hin & Hs). eapply bound_not_late; [by apply B3|done].
  - split_and!; [lia|lia|]. apply widest_le; [unfold INT_MAX; lia|]. apply Forall_forall.
    intros it' Hin. apply bound_in in Hin as (it & -> & Hin & _).
    destruct (bound_item_same (latest_tokens_ w) it) as (_ & _ & _ & _ & _ & -> & _). by apply B5.
  - apply Forall_forall. intros it' Hin. apply bound_in in Hin as (it & -> & Hin & _).
    destruct (bound_item_same (latest_tokens_ w) it) as (_ & _ & _ & _ & _ & _ & _ & ->). by apply B6.
Qed.

Lemma live_items_in failed i items it :
  it ∈ items -> is_stale failed it = false -> it ∈ (live_items failed i items).*2.
Proof.
  intros Hin Hs. revert i. induction items as [|x l IH]; intros i; [by apply elem_of_nil in Hin|].
  apply elem_of_cons in Hin as [<-|Hin]; simpl.
  - rewrite Hs. by left.
  - destruct (is_stale failed x); [|right]; by apply IH.
Qed.

(** The sequences the worker gives up are those of the batch that it had not given up. *)
Lemma failed_resolved w batch :
  list_to_set (work_sequence_id <$> bound_items w batch) ∪ failed_sequences_ w =
  list_to_set (work_sequence_id <$> batch_items batch) ∪ failed_sequences_ w.
Proof.
  apply set_eq. intros q. rewrite !elem_of_union, !elem_of_list_to_set. split; (intros [Hq|Hq]; [|by right]).
  - left. apply list_elem_of_fmap in Hq as (it' & -> & Hin). apply bound_in in Hin as (it & -> & Hin & _).
    destruct (bound_item_same (latest_tokens_ w) it) as [-> _]. by apply list_elem_of_fmap_2.
  - destruct (decide (q ∈ failed_sequences_ w)) as [|Hnf]; [by right|left].
    apply list_elem_of_fmap in Hq as (it & -> & Hin).
    rewrite <- (proj1 (bound_item_same (latest_tokens_ w) it)).
    do 2 apply list_elem_of_fmap_2. apply live_items_in; [done|]. unfold is_stale. by apply bool_decide_eq_false.
Qed.

(** What a processed batch leaves behind. *)
Definition processed (w : Worker D) (batch : ScheduledBatch) (r : Result BatchResult) (w' : Worker D) : Prop :=
  worker_ok w' /\ same_thread w w' /\ failed_sequences_ w' = failed_after batch r (failed_sequences_ w) /\
  match r with
  | Value result => honest_result (failed_sequences_ w) batch result /\
      (forall q, is_Some (latest_tokens_ w !! q) -> is_Some (latest_tokens_ w' !! q)) /\
      Forall (fun it => is_stale (failed_sequences_ w) it = false ->
                is_Some (latest_tokens_ w' !! work_sequence_id it)) (batch_items batch)
  | Unexpected _ => latest_tokens_ w' = latest_tokens_ w
  end.

Lemma worker_ok_device w pool d s :
  worker_ok w -> block_storage_ w = Some s -> block_storage_ok s d -> states_fine pool d -> model_ready d ->
  worker_ok (set_device pool d w).
Proof.
  intros [W1 W2 (d0 & s0 & _ & Hs0 & _ & _ & _ & Hkv)] Hs Hok Hf Hr. split; [done|done|]. exists d, s.
  split_and!; try done. congruence.
Qed.

Lemma processed_error w batch pool d s e :
  worker_ok w -> block_storage_ w = Some s -> block_storage_ok s d -> states_fine pool d -> model_ready d ->
  processed w batch (Unexpected e)
    (fail_sequences (mkResolvedBatch (bound_items w batch) (live_batch w batch).*1
       ((fun '(i, it) => stale_result i it) <$> dead_items (failed_sequences_ w) 0 (batch_items batch)))
       (set_device pool d w)).
Proof.
  intros Hw Hs Hok Hf Hr. pose proof (worker_ok_device w pool d s Hw Hs Hok Hf Hr) as [W1 W2 W3].
  split_and!; [by split|done| |done]. unfold fail_sequences. simpl. apply failed_resolved.
Qed.

Lemma no_live_all_stale failed i items :
  live_items failed i items = [] -> Forall (fun it => is_stale failed it = true) items.
Proof.
  revert i. induction items as [|x l IH]; intros i; [done|]. simpl.
  destruct (is_stale failed x) eqn:Hx; [|done]. intros E. constructor; [done|by eapply IH].
Qed.

Lemma merged_no_live sampling failed i items :
  live_items failed i items = [] ->
  ((fun '(i, it) => stale_result i it) <$> dead_items failed i items) = merged failed sampling i items [].
Proof.
  revert i. induction items as [|x l IH]; intros i; [done|]. simpl.
  destruct (is_stale failed x); [|done]. intros E. simpl. f_equal. by apply IH.
Qed.

Lemma process_batch_run w batch :
  worker_ok w -> batch_ok w batch -> 0 < vocab_size_ model_config <= INT_MAX ->
  exists r w', process_batch batch w = Some (r, w') /\ processed w batch r w'.
Proof.
  intros Hw Hb HV. pose proof Hw as [[W1 W2] Hbs (d & s & Hd & Hs & Hok & Hf & Hr & Hkv)].
  pose proof Hb as [B1 B2 B3 B4 [B5 B6] B7]. unfold process_batch.
  rewrite W1, Hd, Hs. cbn [mbind option_bind]. rewrite bool_decide_eq_false_2 by done. cbn [negb].
  unfold resolve_batch. rewrite (resolve_items_spec _ _ _ _ _ B3). cbn [mbind option_bind rb_items app original_indices stale_results].
  fold (live_batch w batch). fold (bound_items w batch).
  assert (forall tokens, length tokens = length (live_batch w batch) ->
    honest_result (failed_sequences_ w) batch (mkBatchResult (batch_id batch)
      (merged (failed_sequences_ w) (batch_sampling batch) 0 (batch_items batch) tokens))) as Hhonest.
  { intros tokens Hl. destruct (merged_honest _ _ (batch_sampling batch) _ tokens 0 B3 Hl) as [M1 M2]. by split. }
  case_bool_decide as He.
  { exists (Value (mkBatchResult (batch_id batch)
      ((fun '(i, it) => stale_result i it) <$> dead_items (failed_sequences_ w) 0 (batch_items batch)))), w.
    split; [done|]. assert (live_batch w batch = []) as Hnil.
    { apply fmap_nil_inv in He. by apply fmap_nil_inv in He. }
    split_and!; try done.
    - rewrite (merged_no_live (batch_sampling batch)) by done. apply Hhonest. by rewrite Hnil.
    - eapply Forall_impl; [by eapply no_live_all_stale|]. simpl. intros it -> [=]. }
  rewrite W2. destruct (resolved_ready w batch Hb Hbs He) as (R1 & R2 & R3).
  destruct (acquire_states_spec (bound_items w batch) (state_pool_ w) d Hf) as (ra & pool & d1 & -> & K1 & Hf1).
  cbn [mbind option_bind]. assert (block_storage_ok s d1) as Hok1 by (by eapply block_storage_ok_keeps).
  assert (model_ready d1) as Hr1 by (by eapply model_ready_keeps).
  destruct ra as [[]|e]; [|eexists _, _; split; [done|by eapply processed_error]].
  set (rb := mkScheduledBatch (batch_id batch) (bound_items w batch) (batch_sampling batch)).
  destruct (dwp_translate (kv_block_size (w_engine_config w)) pool rb d1 R1 R2) as (rt & d2 & -> & K2 & Hp).
  apply keeps_buffers_sizes in K2. cbn [mbind option_bind].
  assert (block_storage_ok s d2) as Hok2 by (by eapply block_storage_ok_keeps).
  assert (states_fine pool d2) as Hf2 by (by eapply states_fine_keeps).
  assert (model_ready d2) as Hr2 by (by eapply model_ready_keeps).
  destruct rt as [p|e]; [|eexists _, _; split; [done|by eapply processed_error]].
  destruct (dwp_inference _ _ _ _ s (storage_ <$> pool) (batch_sampling batch) d2 Hp R1 R2 Hok2 Hr2 Hkv HV B5 B6 R3)
    as (ri & d3 & -> & K3 & Hi). cbn [mbind option_bind].
  assert (block_storage_ok s d3) as Hok3 by (by eapply block_storage_ok_keeps).
  assert (states_fine pool d3) as Hf3 by (by eapply states_fine_keeps).
  assert (model_ready d3) as Hr3 by (by eapply model_ready_keeps).
  destruct ri as [results|e]; [|eexists _, _; split; [done|by eapply processed_error]].
  destruct Hi as (tokens & Hlen & ->). cbn [batch_items rb] in Hlen |- *.
  assert (length tokens = length (live_batch w batch)) as Hlen'
    by (rewrite Hlen; unfold bound_items; by rewrite !length_fmap).
  assert (forall x, x ∈ live_batch w batch -> at_Z (batch_items batch) x.1 = Some x.2) as Hat.
  { intros x Hx. apply live_items_at in Hx as (_ & Hx & _). by rewrite Z.sub_0_r in Hx. }
  pose proof (store_results_spec (latest_tokens_ w) (batch_sampling batch) (batch_items batch) []
    (live_batch w batch) tokens (latest_tokens_ w) Hat Hlen') as Hst.
  change (size_Z []) with 0 in Hst. cbn [app] in Hst. fold (bound_items w batch) in Hst. rewrite Hst. cbn [mbind option_bind].
  rewrite (sort_results_spec (merged (failed_sequences_ w) (batch_sampling batch) 0 (batch_items batch) tokens));
    [|apply merged_sorted|by apply merged_perm].
  eexists _, _. split; [done|].
  pose proof (worker_ok_device w pool d3 s Hw Hs Hok3 Hf3 Hr3) as [X1 X2 X3].
  destruct (stored_spec (batch_sampling batch) _ _ _ (latest_tokens_ w) Hlen' (live_Forall _ _ 0 _ B2)) as [S1 S2].
  split_and!; [by split|done|done|by apply Hhonest|exact S1|].
  apply Forall_forall. intros it Hin Hnst. rewrite Forall_forall in S2.
  pose proof (live_items_in _ 0 _ _ Hin Hnst) as Hl. apply list_elem_of_fmap in Hl as (x & -> & Hx). exact (S2 x Hx).
Qed.
End process.

(** ** The thread *)

Section thread.
Context {D : Type} `{HB : Backend D} `{HC : Ccop} `{HM : !Model D} `{HS : !Sampler D}.

(** The worker with the channels of the batches it has accepted, oldest first, and the
    notifications that its callers have still to make. *)
Record WorkerSystem := mkSystem { accepted : list Z; notices : nat; worker : Worker D }.

(** What can happen to a worker; [enqueue_execute_batch] and [release_sequence] come
    from the scheduler thread, [shutdown] from the main thread.  Both callers notify after
    their change, without the mutex; a wait may also return by itself. *)
Inductive WorkerEvent :=
| WEnqueue (batch : ScheduledBatch) (chan : Z)
| WShutdown
| WNotify
| WSpurious
| WThread
| WRelease (seq : Z).

Definition worker_exec (ev : WorkerEvent) (sys : WorkerSystem) : option WorkerSystem :=
  let '(mkSystem accepted notices w) := sys in
  match ev with
  | WEnqueue batch chan =>
      if negb (mutex_free w) then None
      else match execute_batch batch chan w with
           | (Value chan, w) => Some (mkSystem (accepted ++ [chan]) (S notices) w)
           | (Unexpected _, w) => Some (mkSystem accepted notices w)
           end
  | WShutdown => Some (mkSystem accepted (S notices) (shutdown w))
  | WNotify => match notices with S n => Some (mkSystem accepted n (notify w)) | O => None end
  | WSpurious => if bool_decide (thread_ w = Blocked) then Some (mkSystem accepted notices (notify w)) else None
  | WThread => w ← thread_step w; Some (mkSystem accepted notices w)
  | WRelease seq => w ← executor_release_sequence seq w; Some (mkSystem accepted notices w)
  end.

Definition worker_step (sys sys' : WorkerSystem) : Prop := exists ev, worker_exec ev sys = Some sys'.

(** A worker whose thread has just been started. *)
Definition started (w : Worker D) : Prop :=
  queue_ w = [] /\ local_queue w = [] /\ answers w = [] /\ thread_ w = AtLock.

(** Every accepted batch is answered, being worked on, or queued, in this order; and
    what holds at each point of the thread: it goes to sleep with nothing to do, and a
    batch that is queued while it sleeps comes with a notification. *)
Definition at_point (sys : WorkerSystem) : Prop :=
  let w := worker sys in
  match thread_ w with
  | AtLock => local_queue w = []
  | Tested => queue_ w = [] /\ local_queue w = []
  | Blocked => local_queue w = [] /\ (queue_ w = [] \/ (0 < notices sys)%nat)
  | Working => True
  | Ended => running w = false /\ queue_ w = [] /\ local_queue w = [] /\
      device_ w = None /\ block_storage_ w = None /\ state_pool_ w = None
  end.

Definition in_order (sys : WorkerSystem) : Prop :=
  (answers (worker sys)).*1 ++ (p_chan <$> local_queue (worker sys)) ++ (p_chan <$> queue_ (worker sys)) = accepted sys /\
  at_point sys.

Lemma process_batch_thread batch (w w' : Worker D) r : process_batch batch w = Some (r, w') -> same_thread w w'.
Proof.
  unfold process_batch. intros H. destruct (initialized_ w); [|done].
  destruct (device_ w) as [d|]; [|done]. destruct (block_storage_ w) as [s|]; [|done]. cbn [mbind option_bind] in H.
  destruct (negb _); [|done]. apply bind_Some in H as (rb & _ & H). destruct (bool_decide _); [by injection H as _ <-|].
  destruct (has_model w); [|done]. apply bind_Some in H as ([[ra pool] d1] & _ & H).
  destruct ra; [|by injection H as _ <-]. apply bind_Some in H as ([rt d2] & _ & H).
  destruct rt; [|by injection H as _ <-]. apply bind_Some in H as ([ri d3] & _ & H).
  destruct ri; [|by injection H as _ <-]. apply bind_Some in H as ([l m] & _ & H). by injection H as _ <-.
Qed.

Lemma process_command_thread pending (w w' : Worker D) :
  process_command pending w = Some w' ->
  queue_ w' = queue_ w /\ running w' = running w /\ local_queue w' = local_queue w /\ thread_ w' = thread_ w /\
  exists r, answers w' = answers w ++ [(p_chan pending, r)].
Proof.
  unfold process_command. destruct (running w) eqn:Hr; simpl; intros H.
  - apply bind_Some in H as ([r w1] & H1 & H). injection H as <-.
    destruct (process_batch_thread _ _ _ _ H1) as (E1 & E2 & E3 & E4 & E5 & _). simpl.
    split_and!; try done; [congruence|]. exists r. by rewrite E5.
  - injection H as <-. simpl. split_and!; try done. by eexists.
Qed.

Lemma release_sequence_thread seq (w w' : Worker D) :
  executor_release_sequence seq w = Some w' ->
  same_thread w w' /\ (state_pool_ w = None -> w' = w).
Proof.
  unfold executor_release_sequence, release_sequence. intros H. apply bind_Some in H as ([r w2] & H & E).
  injection E as <-. destruct (state_pool_ w) as [pool|], (device_ w) as [d|]; try (by injection H as _ <-).
  apply bind_Some in H as ([[r1 p1] d1] & _ & H). by injection H as _ <-.
Qed.

Lemma in_order_notify acc n n' w : in_order (mkSystem acc n w) -> in_order (mkSystem acc n' (notify w)).
Proof.
  unfold in_order, at_point, notify. simpl. destruct (thread_ w) eqn:Et; simpl; rewrite ?Et; try done.
  by intros [Ho [Hl _]].
Qed.

Lemma in_order_step sys sys' : in_order sys -> worker_step sys sys' -> in_order sys'.
Proof.
  destruct sys as [acc n w]. intros Hio [ev H]. destruct ev as [batch chan| | | | |seq]; cbn [worker_exec] in H.
  - destruct (mutex_free w) eqn:Hm; [|done]. unfold mutex_free in Hm. bprop. cbn [negb] in H.
    unfold execute_batch, enqueue_execute_batch in H. destruct (running w) eqn:Hr; cbn [negb] in H; injection H as <-; [|done].
    destruct Hio as [Ho Hp]. unfold in_order, at_point in *. simpl in *. split.
    + rewrite fmap_app, <- Ho. simpl. by rewrite !app_assoc.
    + destruct (thread_ w); try done; [|naive_solver congruence]. split; [apply Hp|]. right. lia.
  - injection H as <-. destruct Hio as [Ho Hp]. split; [done|]. unfold at_point in *. simpl in *.
    destruct (thread_ w); naive_solver lia.
  - destruct n as [|n]; [done|]. injection H as <-. by eapply in_order_notify.
  - case_bool_decide; [|done]. injection H as <-. by eapply in_order_notify.
  - apply bind_Some in H as (w1 & H & E). injection E as <-. destruct Hio as [Ho Hp].
    unfold thread_step in H. unfold in_order, at_point in *. simpl in *.
    destruct (thread_ w) eqn:Et.
    + destruct (queue_ w) as [|p q] eqn:Hq; injection H as <-.
      * destruct (running w) eqn:Hr; simpl; rewrite ?Hq; by rewrite ?Hp in *.
      * simpl. split; [|done]. rewrite <- Ho, Hp. simpl. by rewrite app_nil_r.
    + injection H as <-. simpl. destruct Hp as [Hq Hl]. split; [done|]. by split; [|left].
    + injection H as <-. by rewrite Et.
    + destruct (local_queue w) as [|pending rest] eqn:Hl.
      * injection H as <-. simpl. by rewrite Hl.
      * apply process_command_thread in H as (E1 & E2 & E3 & E4 & r & E5). simpl in *.
        rewrite E1, E3, E4, E5, Et. split; [|done]. rewrite <- Ho, fmap_app. simpl. by rewrite <- app_assoc.
    + injection H as <-. by rewrite Et.
  - apply bind_Some in H as (w1 & H & E). injection E as <-. apply release_sequence_thread in H as [Hs Hn].
    destruct Hs as (E1 & E2 & E3 & E4 & E5 & _). destruct Hio as [Ho Hp]. unfold in_order, at_point in *. simpl in *.
    rewrite E1, E3, E5. split; [done|]. rewrite E4. destruct (thread_ w) eqn:Et; rewrite ?E2; try done.
    destruct Hp as (? & ? & ? & ? & ? & Hpool). by rewrite (Hn Hpool).
Qed.

Lemma in_order_reachable sys sys' : in_order sys -> rtc worker_step sys sys' -> in_order sys'.
Proof. intros H Hr. induction Hr as [|x y z Hs _ IH]; [done|]. apply IH. by eapply in_order_step. Qed.

Lemma in_order_started w : started w -> in_order (mkSystem [] 0 w).
Proof. intros (H1 & H2 & H3 & H4). unfold in_order, at_point. simpl. by rewrite H1, H2, H3, H4. Qed.

(** ** Shutdown *)

Definition refused (p : PendingBatch) : Z * Result BatchResult := (p_chan p, Unexpected ServerShuttingDown).

(** The thread does not wait for a notification, and will not. *)
Definition awake (w : Worker D) : bool := match thread_ w with Tested | Blocked => false | _ => true end.

(** The events of a list, one after the other. *)
Fixpoint worker_run (sys : WorkerSystem) (evs : list WorkerEvent) : option WorkerSystem :=
  match evs with [] => Some sys | ev :: evs => sys ← worker_exec ev sys; worker_run sys evs end.

Lemma worker_run_reachable sys evs sys' : worker_run sys evs = Some sys' -> rtc worker_step sys sys'.
Proof.
  revert sys. induction evs as [|ev evs IH]; intros sys; [by intros [= <-]|]. cbn [worker_run]. intros H.
  apply bind_Some in H as (s1 & H & E). eapply rtc_l; [by exists ev|by apply IH].
Qed.

Definition is_thread (ev : WorkerEvent) : bool := match ev with WThread => true | _ => false end.

(** How often the thread runs in a list of events. *)
Definition thread_turns (evs : list WorkerEvent) : nat := length (List.filter is_thread evs).

(** A worker that ends what [w] has to do: the answers it will have given, and how many
    steps are left. *)
Definition final_answers (w : Worker D) : list (Z * Result BatchResult) :=
  answers w ++ (refused <$> local_queue w ++ queue_ w).

Definition steps_left (w : Worker D) : nat :=
  match thread_ w with
  | Ended => 0
  | Working => length (local_queue w) + 2 + (if queue_ w is [] then 0 else length (queue_ w) + 2)
  | _ => 1 + (if queue_ w is [] then 0 else length (queue_ w) + 2)
  end.

Lemma steps_left_bound w : (steps_left w <= length (local_queue w) + length (queue_ w) + 4)%nat.
Proof. unfold steps_left. destruct (thread_ w), (queue_ w); simpl; lia. Qed.

(** A step of an awake thread after the shutdown. *)
Lemma drain_step w :
  running w = false -> awake w = true -> (thread_ w = AtLock -> local_queue w = []) ->
  exists w', thread_step w = Some w' /\ running w' = false /\ awake w' = true /\
    (thread_ w = Ended -> w' = w) /\ final_answers w' = final_answers w /\ (steps_left w' <= steps_left w - 1)%nat.
Proof.
  intros Hr Ha Hl. unfold thread_step, awake in *. destruct (thread_ w) eqn:Et; try done.
  - specialize (Hl eq_refl). destruct (queue_ w) as [|p q] eqn:Hq; rewrite ?Hr; (eexists; split; [done|]);
      unfold final_answers, steps_left; rewrite Et; simpl; rewrite Hl, ?Hq; simpl.
    + by split_and!.
    + split_and!; try done; [|lia]. by rewrite app_nil_r.
  - destruct (local_queue w) as [|p l] eqn:Hlq.
    + eexists. split; [done|]. unfold final_answers, steps_left. rewrite Et. simpl. rewrite Hlq. simpl.
      by split_and!.
    + unfold process_command. simpl. rewrite Hr. simpl. eexists. split; [done|].
      unfold final_answers, steps_left. simpl. rewrite Et, Hlq. simpl. split_and!; try done; [|lia].
      by rewrite <- app_assoc.
  - exists w. rewrite Et. split_and!; try done. unfold steps_left. rewrite Et. lia.
Qed.

(** The other threads do not disturb it. *)
Lemma drain_other ev acc n w sys' :
  running w = false -> awake w = true -> is_thread ev = false -> worker_exec ev (mkSystem acc n w) = Some sys' ->
  running (worker sys') = false /\ awake (worker sys') = true /\
  final_answers (worker sys') = final_answers w /\ steps_left (worker sys') = steps_left w.
Proof.
  intros Hr Ha He H. destruct ev as [batch chan| | | | |seq]; try done; cbn [worker_exec] in H.
  - destruct (mutex_free w); [|done]. cbn [negb] in H. unfold execute_batch, enqueue_execute_batch in H.
    rewrite Hr in H. by injection H as <-.
  - by injection H as <-.
  - destruct n; [done|]. injection H as <-. simpl. unfold awake, notify in *. by destruct (thread_ w) eqn:Et; rewrite ?Et.
  - case_bool_decide as Et; [|done]. unfold awake in Ha. by rewrite Et in Ha.
  - apply bind_Some in H as (w1 & H & E). injection E as <-. apply release_sequence_thread in H as [Hs _].
    destruct Hs as (E1 & E2 & E3 & E4 & E5 & _). simpl. unfold awake, final_answers, steps_left.
    by rewrite E1, E2, E3, E4, E5.
Qed.

(** Once it runs after the shutdown, the thread can always make its step and ends. *)
Lemma drain_run sys evs sys' :
  in_order sys -> running (worker sys) = false -> awake (worker sys) = true -> worker_run sys evs = Some sys' ->
  in_order sys' /\ running (worker sys') = false /\ awake (worker sys') = true /\
  final_answers (worker sys') = final_answers (worker sys) /\
  (steps_left (worker sys') <= steps_left (worker sys) - thread_turns evs)%nat.
Proof.
  revert sys. induction evs as [|ev evs IH]; intros sys Hio Hr Ha; cbn [worker_run].
  { intros [= <-]. split_and!; try done. unfold thread_turns. simpl. lia. }
  intros H. apply bind_Some in H as (s1 & H & E). assert (in_order s1) as Hio1 by (eapply in_order_step; [done|by exists ev]).
  destruct sys as [acc n w]. cbn [worker] in *. unfold thread_turns. cbn [List.filter]. destruct (is_thread ev) eqn:Ht.
  - destruct ev; try done. destruct (drain_step w Hr Ha) as (w' & Es & Hr' & Ha' & _ & Hf & Hs).
    { intros Et. destruct Hio as [_ Hp]. unfold at_point in Hp. simpl in Hp. by rewrite Et in Hp. }
    cbn [worker_exec] in H. rewrite Es in H. injection H as <-.
    destruct (IH _ Hio1 Hr' Ha' E) as (I1 & I2 & I3 & I4 & I5). cbn [worker] in *. unfold thread_turns in I5.
    split_and!; try done; [congruence|simpl; lia].
  - destruct (drain_other ev acc n w s1 Hr Ha Ht H) as (Hr' & Ha' & Hf & Hs).
    destruct (IH _ Hio1 Hr' Ha' E) as (I1 & I2 & I3 & I4 & I5). unfold thread_turns in I5.
    split_and!; try done; [congruence|lia].
Qed.

Lemma drained sys : in_order sys -> running (worker sys) = false -> awake (worker sys) = true ->
  steps_left (worker sys) = 0%nat ->
  thread_ (worker sys) = Ended /\ answers (worker sys) = final_answers (worker sys) /\ device_ (worker sys) = None /\
  block_storage_ (worker sys) = None /\ state_pool_ (worker sys) = None.
Proof.
  intros [_ Hp] Hr Ha Hs. unfold at_point, awake, steps_left, final_answers in *.
  destruct (thread_ (worker sys)) eqn:Et; try done; try (exfalso; revert Hs; destruct (queue_ (worker sys)); simpl; lia).
  destruct Hp as (_ & Hq & Hl & ? & ? & ?). rewrite Hq, Hl. simpl. by rewrite app_nil_r.
Qed.

(** Without a notification to come, a thread that goes to sleep never wakes. *)
Definition asleep (sys : WorkerSystem) : Prop :=
  in_order sys /\ running (worker sys) = false /\ awake (worker sys) = false /\ notices sys = 0%nat.

Definition wakes (ev : WorkerEvent) : bool := match ev with WSpurious | WShutdown => true | _ => false end.

Lemma asleep_step sys ev sys' : asleep sys -> wakes ev = false -> worker_exec ev sys = Some sys' ->
  asleep sys' /\ (thread_ (worker sys) = Blocked -> thread_ (worker sys') = Blocked).
Proof.
  intros (Hio & Hr & Ha & Hn) Hw H. assert (in_order sys') as Hio' by (eapply in_order_step; [done|by exists ev]).
  destruct sys as [acc n w]. cbn [worker notices accepted] in *. subst n.
  destruct ev as [batch chan| | | | |seq]; try done; cbn [worker_exec] in H.
  - destruct (mutex_free w); [|done]. cbn [negb] in H. unfold execute_batch, enqueue_execute_batch in H.
    rewrite Hr in H. by injection H as <-.
  - apply bind_Some in H as (w1 & H & E). injection E as <-. unfold thread_step, awake in *.
    destruct (thread_ w) eqn:Et; try done; injection H as <-; simpl.
    + by repeat split; try apply Hio'.
    + unfold asleep, awake. simpl. by rewrite Et.
  - apply bind_Some in H as (w1 & H & E). injection E as <-. apply release_sequence_thread in H as [Hs _].
    destruct Hs as (E1 & E2 & E3 & E4 & E5 & _). unfold asleep, awake. simpl. by rewrite E2, E4.
Qed.

Lemma asleep_run sys evs sys' : asleep sys -> Forall (fun ev => wakes ev = false) evs -> worker_run sys evs = Some sys' ->
  asleep sys' /\ (thread_ (worker sys) = Blocked -> thread_ (worker sys') = Blocked).
Proof.
  intros Hs Hw. revert sys Hs. induction Hw as [|ev evs Hev _ IH]; intros sys Hs; cbn [worker_run]; [by intros [= <-]|].
  intros H. apply bind_Some in H as (s1 & H & E). destruct (asleep_step _ _ _ Hs Hev H) as [H1 H2].
  destruct (IH s1 H1 E) as [I1 I2]. split; [done|auto].
Qed.
End thread.

(** ** Claims *)

Section claims.
Context {D : Type} `{!Backend D} `{!BackendLaws D} `{!Ccop} `{!CcopLaws} `{!Model D} `{!Sampler D} `{!ModelLaws D}.

(** C17: the translation of a batch is exact: for a non-empty batch of well-formed,
    bound items it runs without a failed assertion or an access outside a vector, and
    either reports a device error or delivers device arrays that hold, in order, the
    tokens, positions and KV slots of the items (slot = table entry of the position's
    block times block size plus offset, -1 for a token that is not written), the padded
    block table, the start offsets, the context lengths, the compact logits rows and the
    state slots, with matching host-side metadata; live buffers are not touched. *)
Theorem translate_exact bs pool batch d :
  translatable bs (batch_items batch) -> countable (batch_items batch) ->
  dwp (translate bs pool batch) (fun r d' => keeps_buffers d d' /\
    match r with Value p => physical_ok bs pool (batch_items batch) p d' | Unexpected _ => True end) d.
Proof. apply dwp_translate. Qed.

(** C3: [process_batch] keeps its contract with the scheduler: on a ready worker and a
    batch of well-formed items whose late tokens are known, with greedy sampling,
    positions below the model's maximum and counts that fit [int] ([batch_ok]; the engine
    does not ensure these), whatever the device answers, it never fails an
    assertion and either answers with results the scheduler can retire (one per item
    in order, stale exactly for the sequences given up earlier) or with an error after
    giving up the batch's sequences; the worker stays ready, and every sequence it ran
    has a latest token. *)
Theorem process_batch_honest w batch :
  worker_ok w -> batch_ok w batch -> 0 < vocab_size_ model_config <= INT_MAX ->
  exists r w', process_batch batch w = Some (r, w') /\ processed w batch r w'.
Proof. apply process_batch_run. Qed.
End claims.

Section thread_claims.
Context {D : Type} `{HB : Backend D} `{HC : Ccop} `{HM : !Model D} `{HS : !Sampler D}.

(** C24: from a worker with nothing queued, in every state that enqueueing, the thread,
    notifications, releases and shutdown can reach, the channels answered so far, then
    those being worked on, then those queued are exactly the accepted ones in order: no
    batch is lost, answered twice or overtaken; a batch that is queued while the thread
    sleeps comes with a notification; once the thread has left, every accepted batch has
    been answered. *)
Theorem worker_answers_in_order w0 accepted notices w :
  started w0 -> rtc worker_step (mkSystem [] 0 w0) (mkSystem accepted notices w) ->
  (answers w).*1 ++ (p_chan <$> local_queue w) ++ (p_chan <$> queue_ w) = accepted /\
  (thread_ w = Blocked -> queue_ w <> [] -> (0 < notices)%nat) /\
  (thread_ w = Ended -> (answers w).*1 = accepted).
Proof.
  intros H0 Hr. destruct (in_order_reachable _ _ (in_order_started w0 H0) Hr) as [Ho Hp].
  unfold at_point in Hp. simpl in *. split; [done|]. split; intros E; rewrite E in Hp.
  - intros Hq. by destruct Hp as [_ [?|?]].
  - destruct Hp as (_ & Q & L & _). rewrite Q, L in Ho. simpl in Ho. by rewrite app_nil_r in Ho.
Qed.

(** C25: the thread ends after [shutdown] unless the wake-up is lost.  In every reachable
    state in which [running_] is false: a thread that is neither blocked nor about to
    block can always make its next step, whatever the other threads do, and is at its end
    after as many of its steps as there are batches plus four, having answered the
    pending batches with [ServerShuttingDown] in order and dropped the resources; a
    notification that does not fall between the test of the wait's predicate and the wait
    makes the thread such a one; but when all notifications have been made and it is
    still blocked or about to block, then every batch is answered, and unless the wait
    returns by itself or [shutdown] is called again the thread never ends, so that the
    join in [shutdown] does not return. *)
Theorem worker_shutdown_drains w0 sys :
  started w0 -> rtc worker_step (mkSystem [] 0 w0) sys -> running (worker sys) = false ->
  (awake (worker sys) = true -> forall evs sys', worker_run sys evs = Some sys' ->
     is_Some (thread_step (worker sys')) /\
     ((length (local_queue (worker sys)) + length (queue_ (worker sys)) + 4 <= thread_turns evs)%nat ->
      thread_ (worker sys') = Ended /\
      answers (worker sys') =
        answers (worker sys) ++ (refused <$> local_queue (worker sys) ++ queue_ (worker sys)) /\
      device_ (worker sys') = None /\ block_storage_ (worker sys') = None /\ state_pool_ (worker sys') = None)) /\
  (thread_ (worker sys) <> Tested -> awake (notify (worker sys)) = true) /\
  (awake (worker sys) = false -> notices sys = 0%nat -> (answers (worker sys)).*1 = accepted sys /\
     forall evs sys', Forall (fun ev => wakes ev = false) evs -> worker_run sys evs = Some sys' ->
       thread_ (worker sys') <> Ended).
Proof.
  intros H0 Hreach Hr. pose proof (in_order_reachable _ _ (in_order_started w0 H0) Hreach) as Hio. split_and!.
  - intros Ha evs sys' Hrun. destruct (drain_run sys evs sys' Hio Hr Ha Hrun) as (I1 & I2 & I3 & I4 & I5). split.
    + destruct (drain_step (worker sys') I2 I3) as (w' & -> & _); [|done].
      intros Et. destruct I1 as [_ Hp]. unfold at_point in Hp. by rewrite Et in Hp.
    + intros Hn. pose proof (steps_left_bound (worker sys)).
      destruct (drained sys' I1 I2 I3 ltac:(lia)) as (D1 & D2 & D3). by rewrite D2, I4.
  - unfold awake, notify. by destruct (thread_ (worker sys)) eqn:Et; rewrite ?Et.
  - intros Ha Hn. split.
    + destruct Hio as [Ho Hp]. unfold awake, at_point in *. rewrite <- Ho.
      destruct (thread_ (worker sys)); try done.
      * destruct Hp as [-> ->]. simpl. by rewrite app_nil_r.
      * destruct Hp as [-> [->|?]]; [simpl; by rewrite app_nil_r|lia].
    + intros evs sys' Hw Hrun. destruct (asleep_run sys evs sys') as [(_ & _ & Ha' & _) _]; [by split_and!|done|done|].
      intros E. unfold awake in Ha'. by rewrite E in Ha'.
Qed.
End thread_claims.

(** ** A simulated worker *)

Definition sim_engine_config : EngineConfig :=
  {| device_id := 0; max_blocks := 4; kv_block_size := 2; max_sequences := 4; max_running_requests := 2;
     max_concurrent_batches := 2; max_pending_requests := 4; max_token_budget := 8; max_seq_prefill_tokens := 0;
     default_max_context_len := 8; state_prefix_cache_blocks := 0 |}.

Definition sim_init : option (Result unit * Worker SimDevice) :=
  init_worker false (mkResources (Value (mkSim [] [])) (Value tt) (mret tt)) sim_model_config sim_engine_config new_worker.

Definition sim_worker : Worker SimDevice := match sim_init with Some (_, w) => w | None => new_worker end.

Definition sim_batch : ScheduledBatch :=
  mkScheduledBatch 1 [WPrefill (mkPrefillChunk 5 (mkTokenSpan 0 3) (Some 0) true [9; 8; 7] (mkBlockTable [2; 0] 0))]
    default_sampling.

Lemma sim_worker_ok : worker_ok sim_worker.
Proof.
  split; [by vm_compute|by vm_compute|].
  destruct (create_block_storage 1 4 2 1 2 kBFloat16 (mkSim [] [])) as [[r d]|] eqn:E; [|vm_compute in E; discriminate].
  destruct (dwp_create_block_storage 1 4 2 1 2 kBFloat16 (mkSim [] [])) as (r' & d' & E' & _ & Hs).
  { repeat constructor; vm_compute; discriminate. } { vm_compute. split; [reflexivity|discriminate]. }
  rewrite E in E'. injection E' as <- <-. destruct r as [s|e]; [|vm_compute in E; discriminate].
  destruct Hs as [Hs _]. exists d, s. vm_compute in E. injection E as <- <-.
  split_and!; [by vm_compute|by vm_compute|exact Hs|vm_compute; exact I|exact I|reflexivity].
Qed.

Lemma sim_batch_ok : batch_ok sim_worker sim_batch.
Proof.
  assert (kv_block_size (w_engine_config sim_worker) = 2) as Hbs by (vm_compute; reflexivity).
  split.
  - discriminate.
  - rewrite Hbs. apply Forall_cons. split; [|apply Forall_nil; exact I]. split.
    + exists 0. reflexivity.
    + vm_compute. discriminate.
    + vm_compute. reflexivity.
    + vm_compute. reflexivity.
    + vm_compute. reflexivity.
    + vm_compute. discriminate.
  - apply Forall_cons. split; [exact I|apply Forall_nil; exact I].
  - split; [vm_compute; reflexivity|]. apply Forall_cons. split; [vm_compute; discriminate|apply Forall_nil; exact I].
  - split; vm_compute; reflexivity.
  - apply Forall_cons. split; [vm_compute; reflexivity|apply Forall_nil; exact I].
Qed.

Lemma translate_exact_witness : exists r d',
  translate 2 None sim_batch (mkSim [] []) = Some (r, d') /\ keeps_buffers (mkSim [] []) d'.
Proof.
  pose proof (@sim_batch_ok) as [B1 B2 _ [B3 B4] _ _].
  destruct (translate_exact 2 None sim_batch (mkSim [] [])) as (r & d' & E & K & _).
  - split; [reflexivity|]. split; [discriminate|]. apply Forall_cons. split; [|apply Forall_nil; exact I].
    apply Forall_cons in B2 as [B2 _]. split; [exact B2|reflexivity].
  - vm_compute. repeat split; discriminate.
  - exists r, d'. split; [exact E|exact K].
Defined.

Lemma process_batch_honest_witness : exists r w', process_batch sim_batch sim_worker = Some (r, w') /\ worker_ok w'.
Proof.
  destruct (process_batch_honest sim_worker sim_batch sim_worker_ok sim_batch_ok) as (r & w' & E & W & _).
  - vm_compute. split; [reflexivity|discriminate].
  - exists r, w'. split; [exact E|exact W].
Defined.

Lemma sim_worker_started : started sim_worker.
Proof. by repeat split; vm_compute. Qed.

Lemma worker_answers_in_order_witness :
  exists w, rtc worker_step (mkSystem [] 0 sim_worker) (mkSystem [3] 1 w) /\
    (answers w).*1 ++ (p_chan <$> local_queue w) ++ (p_chan <$> queue_ w) = [3].
Proof.
  set (w := set_queues [mkPendingBatch sim_batch 3] [] sim_worker).
  assert (rtc worker_step (mkSystem [] 0 sim_worker) (mkSystem [3] 1 w)) as Hr.
  { apply rtc_once. exists (WEnqueue sim_batch 3). reflexivity. }
  exists w. split; [exact Hr|].
  exact (proj1 (worker_answers_in_order sim_worker [3] 1 w sim_worker_started Hr)).
Defined.

(** A shutdown while a batch is queued; the notifications come at any time. *)
Definition draining : list WorkerEvent := [WEnqueue sim_batch 3; WShutdown].

Lemma worker_shutdown_drains_witness :
  exists sys sys', worker_run (mkSystem [] 0 sim_worker) draining = Some sys /\
    worker_run sys [WThread; WNotify; WThread; WThread; WRelease 5; WThread; WNotify; WThread] = Some sys' /\
    thread_ (worker sys') = Ended /\ answers (worker sys') = [(3, Unexpected ServerShuttingDown)].
Proof.
  destruct (worker_run (mkSystem [] 0 sim_worker) draining) as [sys|] eqn:E; [|vm_compute in E; discriminate].
  destruct (worker_run sys [WThread; WNotify; WThread; WThread; WRelease 5; WThread; WNotify; WThread]) as [sys'|] eqn:E';
    [|vm_compute in E; injection E as <-; vm_compute in E'; discriminate].
  exists sys, sys'. split; [reflexivity|]. split; [exact E'|].
  assert (running (worker sys) = false /\ awake (worker sys) = true /\ answers (worker sys) = [] /\
    local_queue (worker sys) = [] /\ queue_ (worker sys) = [mkPendingBatch sim_batch 3]) as (Hr & Ha & H1 & H2 & H3).
  { vm_compute in E. injection E as <-. repeat split. }
  destruct (worker_shutdown_drains sim_worker sys sim_worker_started (worker_run_reachable _ _ _ E) Hr) as [H _].
  destruct (H Ha _ sys' E') as [_ Hd]. destruct Hd as (D1 & D2 & _); [rewrite H2, H3; vm_compute; lia|].
  split; [exact D1|]. rewrite D2, H1, H2, H3. reflexivity.
Defined.

(** [shutdown] runs as a whole while the thread has seen that there is nothing to do and
    has not blocked yet. *)
Definition losing : list WorkerEvent := [WThread; WShutdown; WNotify; WThread].

(** The wake-up of [shutdown] can be lost: it stores [running_] and notifies without
    the mutex, and when both fall between the thread's test of the predicate and its
    wait, the thread is blocked with all notifications made; unless the wait returns by
    itself or [shutdown] is called again, no sequence of events, further batches
    included, ends it, and the join in [shutdown] never returns. *)
Theorem shutdown_wakeup_lost :
  exists sys, worker_run (mkSystem [] 0 sim_worker) losing = Some sys /\
    running (worker sys) = false /\ thread_ (worker sys) = Blocked /\ notices sys = 0%nat /\
    forall evs sys', Forall (fun ev => wakes ev = false) evs -> worker_run sys evs = Some sys' ->
      thread_ (worker sys') = Blocked.
Proof.
  destruct (worker_run (mkSystem [] 0 sim_worker) losing) as [sys|] eqn:E; [|vm_compute in E; discriminate].
  pose proof (in_order_reachable _ _ (in_order_started _ sim_worker_started) (worker_run_reachable _ _ _ E)) as Hio.
  assert (running (worker sys) = false /\ thread_ (worker sys) = Blocked /\ notices sys = 0%nat) as (Hr & Ht & Hn).
  { vm_compute in E. injection E as <-. repeat split. }
  exists sys. split; [reflexivity|]. clear E. split_and!; [done|done|done|]. intros evs sys' Hw Hrun.
  assert (asleep sys) as Hs by (unfold asleep, awake; by rewrite Ht).
  exact (proj2 (asleep_run sys evs sys' Hs Hw Hrun) Ht).
Qed.
