(* ===== verification/WorkerInit.v ===== *)
(** * Starting a worker: [Worker::init]

    Whatever the device answers, initialisation either reports an error and leaves
    nothing behind, or delivers a worker that is ready for batches. *)

From Stdlib Require Import ZArith Lia SpecFloat.
From stdpp Require Import prelude strings gmap fin_maps.
From S2P Require Import Prelude Base Config Scheduler Bytes Device SimDevice Tensor State StateProps.
From S2P Require Import BlockStorage Qwen35 Translate TranslateProps Model ModelProps SimModel.
From S2P Require Import Worker WorkerProps.

(** ** New buffers leave the old ones alone *)

Section keeps.
Context {D : Type} `{!Backend D} `{!BackendLaws D} `{!Ccop} `{!CcopLaws}.

(** Filling a buffer that was not live in [d0]. *)
Lemma dwp_memset_keeps d0 d t l :
  keeps_buffers d0 d -> buf d0 (t_buffer t) = None -> t_offset t = 0 -> 0 < nbytes t ->
  buf d (t_buffer t) = Some l -> size_Z l = nbytes t ->
  dwp (dev_bytes (nbytes t) (memset (t_buffer t) (t_offset t) 0 (nbytes t))) (fun _ d' => keeps_buffers d0 d' /\
    (forall b, b <> t_buffer t -> buf d' b = buf d b)) d.
Proof.
  intros K Hn Ho Hp Hl Hsz. apply dwp_bytes; [done|]. intros r d' E. rewrite Ho in E.
  assert (forall b, b <> t_buffer t -> buf d' b = buf d b) as Hother.
  { destruct r as [[]|e]; [|intros; by eapply memset_err].
    destruct (memset_ok (t_buffer t) 0 0 (nbytes t) d d' l Hl) as [_ Ho']; [unfold in_range; lia|lia|done|exact Ho']. }
  split; [|done]. intros b l' Hb. rewrite Hother; [by apply K|]. congruence.
Qed.

Lemma dwp_create_layers_keeps k n n_v head_k head_v conv_dim conv_len rec conv d0 d :
  0 < n -> Forall (fun x => x <= INT64_MAX) [n; n_v; head_k; head_v; conv_dim; conv_len] ->
  keeps_buffers d0 d ->
  dwp (create_layers k n n_v head_k head_v conv_dim conv_len rec conv) (fun _ d' => keeps_buffers d0 d') d.
Proof.
  intros Hn Hdim. revert rec conv d. induction k as [|k IH]; intros rec conv d K; simpl; [by apply dwp_ret|].
  assert (Forall (fun x => x <= INT64_MAX) [n; n_v; head_k; head_v] /\
          Forall (fun x => x <= INT64_MAX) [n; conv_dim; conv_len]) as [Hd1 Hd2] by (rewrite !Forall_cons in *; naive_solver).
  apply dwp_bind. eapply dwp_mono.
  { apply (dwp_new_layer n kFloat32 [n_v; head_k; head_v]); [done| |done]. rewrite float32_size. unfold SIZE_MAX. lia. }
  intros [t1|e] d1 [K1 T1]; [|by etrans]. destruct T1 as (F1 & O1 & P1 & _ & l1 & B1 & S1).
  apply dwp_bind. eapply dwp_mono.
  { apply (dwp_new_layer n kBFloat16 [conv_dim; conv_len]); [done| |done]. rewrite bfloat16_size. unfold SIZE_MAX. lia. }
  intros [t2|e] d2 [K2 T2]; [|by do 2 (etrans; [eassumption|])]. destruct T2 as (F2 & O2 & P2 & _ & l2 & B2 & S2).
  assert (forall d b, keeps_buffers d0 d -> buf d b = None -> buf d0 b = None) as Hnone.
  { intros d' b Hk Hb. destruct (buf d0 b) as [l|] eqn:E; [|done]. apply Hk in E. congruence. }
  assert (keeps_buffers d0 d1) as K01 by (by etrans). assert (keeps_buffers d0 d2) as K02 by (by etrans).
  apply dwp_bind. eapply dwp_mono.
  { apply (dwp_memset_keeps d0 d2 t1 l1); try done; [by apply (Hnone d)|by apply K2]. }
  intros r d3 [K3 Ho3]. destruct r as [[]|e]; [|done]. apply dwp_bind. eapply dwp_mono.
  { apply (dwp_memset_keeps d0 d3 t2 l2); try done; [by apply (Hnone d1)|]. rewrite Ho3; [done|].
    intros E. rewrite E in F2. congruence. }
  intros r d4 [K4 _]. destruct r as [[]|e]; [|done]. by apply IH.
Qed.

Lemma dwp_create_pool_keeps config ma ms d :
  ma + ms <= INT_MAX -> state_dims_fit config ->
  dwp (create_pool config ma ms) (fun _ d' => keeps_buffers d d') d.
Proof.
  intros Hi Hdims. unfold create_pool, create_storage.
  destruct (_ || _) eqn:Hg; [by apply dwp_error|]. bprop. apply dwp_bind.
  eapply dwp_lift; [apply int_of_ok; unfold INT_MIN; lia|]. apply dwp_bind.
  destruct (_ || _) eqn:Hg2; [by apply dwp_error|]. bprop. destruct (_ <=? 0); [by apply dwp_error|].
  destruct Hdims as (Hr & Hk & ([[hv cd] cl] & Ed)). destruct (state_dims_bounded _ _ _ _ Ed) as (? & ? & ?).
  apply dwp_bind. eapply dwp_lift; [exact Ed|].
  apply dwp_bind. eapply dwp_mono; [apply (dwp_create_layers_keeps _ _ _ _ _ _ _ _ _ d); [lia| |done]|].
  { unfold INT64_MAX, INT_MAX in *. repeat (apply Forall_cons; split; [lia|]). by apply Forall_nil. }
  intros [[rec conv]|e] d1 K; [|done]. apply dwp_bind, dwp_op. intros r d2 E.
  assert (keeps_buffers d d2) as K2 by (etrans; [done|]; apply same_keeps; by eapply synchronize_keeps).
  destruct r as [[]|e]; [|done]. apply dwp_ret. by apply dwp_ret.
Qed.
End keeps.

(** ** Initialisation *)

Section init.
Context {D : Type} `{!Backend D} `{!BackendLaws D} `{!Ccop} `{!CcopLaws} `{!Model D} `{!Sampler D} `{!ModelLaws D}.

(** C++ [int] sizes, and for a hybrid model pool sizes and dimensions in range. *)
Record init_args (model : ModelConfig) (engine : EngineConfig) : Prop := mk_init_args {
  ia_ints : int_args [n_layers_ model; max_blocks engine; kv_block_size engine; n_kv_heads_ model; head_dim_ model];
  ia_block : 0 < kv_block_size engine;
  ia_cache : 0 <= state_prefix_cache_blocks engine;
  ia_states : arch_ model = Qwen3_5 -> max_sequences engine + state_prefix_cache_blocks engine <= INT_MAX /\
    state_dims_fit model;
}.

Lemma count_types_le types n type : count_types types n type <= Z.max 0 n.
Proof.
  unfold count_types, size_Z.
  assert (forall l : list LayerType, (length (List.filter (fun t => bool_decide (t = type)) l) <= length l)%nat) as Hl
    by (induction l as [|x l IH]; simpl; [lia|]; destruct (bool_decide _); simpl; lia).
  pose proof (Hl (take (Z.to_nat n) types)) as H1. rewrite length_take in H1. lia.
Qed.

(** What a failed initialisation leaves. *)
Definition bare (w : Worker D) : Prop :=
  running w = false /\ initialized_ w = false /\ has_model w = false /\ device_ w = None /\
  block_storage_ w = None /\ state_pool_ w = None /\ latest_tokens_ w = ∅ /\ failed_sequences_ w = ∅.

(** Creating the model runs on the new device and leaves the model ready. *)
Definition creates_model (res : Resources) : Prop :=
  forall d, created_backend res = Value d -> loads (created_model res) (fun _ d' => model_ready d') d.

Lemma init_resources_spec res engine :
  init_args model_config engine -> creates_model res ->
  exists r w, init_resources res model_config engine new_worker = Some (r, w) /\ running w = false /\
    match r with Value _ => worker_ok w /\ w_engine_config w = engine /\ latest_tokens_ w = ∅ /\
                            failed_sequences_ w = ∅ /\ queue_ w = [] /\ local_queue w = [] /\ answers w = [] /\
                            thread_ w = AtLock
               | Unexpected _ => True end.
Proof.
  intros [Hi Hb Hc Hs] Hcreate. unfold init_resources.
  destruct (created_backend res) as [d|e] eqn:Eb; [|eexists _, _; split; [done|by split]].
  destruct (opened_checkpoint res) as [[]|e]; [|eexists _, _; split; [done|by split]].
  destruct (Hcreate d Eb) as (rm & d0 & -> & _ & Hready). cbn [mbind option_bind].
  destruct rm as [[]|e]; [|eexists _, _; split; [done|by split]]. set (model := model_config) in *.
  assert (exists kl, kv_layer_count model = Some kl /\ INT_MIN <= kl <= INT_MAX) as (kl & Ekl & Hkl).
  { apply Forall_cons in Hi as [Hn _]. unfold kv_layer_count, num_kv_layers, count_layer_type.
    case_bool_decide; [|by exists (n_layers_ model)]. eexists. split; [done|].
    pose proof (count_types_le (layer_types_ model) (n_layers_ model) FullAttention).
    pose proof (count_types_nonneg (layer_types_ model) (n_layers_ model) FullAttention). unfold INT_MIN, INT_MAX in *. lia. }
  rewrite Ekl. cbn [mbind option_bind]. apply Forall_cons in Hi as [_ Hi].
  destruct (dwp_create_block_storage kl (max_blocks engine) (kv_block_size engine) (n_kv_heads_ model)
    (head_dim_ model) kBFloat16 d0) as (r & d1 & -> & K1 & Hr).
  { apply Forall_cons. by split. } { rewrite bfloat16_size. unfold SIZE_MAX. lia. }
  cbn [mbind option_bind]. destruct r as [s|e]; [|eexists _, _; split; [done|by split]].
  destruct Hr as (Hok & Hnl & _ & Hbs). assert (model_ready d1) as Hready1 by (eapply model_ready_keeps; [by apply keeps_buffers_sizes|done]). rewrite Hbs, Z.eqb_refl. unfold init_states.
  case_bool_decide as Harch.
  - destruct (Hs Harch) as [Hsum Hdims].
    destruct (dwp_create_pool model (max_sequences engine) (state_prefix_cache_blocks engine) d1 Hsum Hdims)
      as (r & d2 & E & Hp).
    destruct (dwp_create_pool_keeps model (max_sequences engine) (state_prefix_cache_blocks engine) d1 Hsum Hdims)
      as (r' & d2' & E' & K2). rewrite E in E'. injection E' as <- <-. rewrite E. cbn [mbind option_bind].
    destruct r as [p|e]; [|eexists _, _; split; [done|by split]].
    unfold new_state_cache. destruct (Z.leb_spec 0 (state_prefix_cache_blocks engine)); [|lia]. cbn [mbind option_bind].
    eexists _, _. split; [done|]. split; [done|]. split; [|done]. split; [done|done|]. exists d2, s.
    split_and!; [done|done| | | |by rewrite Hnl].
    + eapply block_storage_ok_keeps; [exact Hok|by apply keeps_buffers_sizes].
    + exists []. destruct Hp as (Hp1 & Hp2 & _). by split.
    + eapply model_ready_keeps; [by apply keeps_buffers_sizes|done].
  - eexists _, _. split; [done|]. split; [done|]. split; [|done]. split; [done|done|]. exists d1, s.
    split_and!; try done. by rewrite Hnl.
Qed.

Lemma init_worker_run res engine joinable :
  init_args model_config engine -> creates_model res ->
  exists r w, init_worker joinable res model_config engine new_worker = Some (r, w) /\
    match r with
    | Value _ => worker_ok w /\ running w = true /\ w_engine_config w = engine
    | Unexpected _ => bare w
    end.
Proof.
  intros Ha Hm. unfold init_worker. destruct joinable; [by exists (Unexpected InvalidArgument), new_worker|].
  cbn [running new_worker orb].
  destruct (init_resources_spec res engine Ha Hm) as (r & w & -> & Hr & Hw). cbn [mbind option_bind].
  destruct r as [[]|e]; eexists _, _; (split; [done|]).
  - destruct Hw as ([W1 W2 W3] & Hc & _). split; [by split|done].
  - unfold bare. simpl. by split_and!.
Qed.

(** starting a fresh worker, with a model whose creation leaves it ready, never fails
    an assertion: it refuses when it is already running, it reports the first error and drops every resource, or it is running and
    ready for batches (KV storage, and for a hybrid model states, fit the device). *)
Theorem init_worker_ready res engine joinable :
  init_args model_config engine -> creates_model res ->
  exists r w, init_worker joinable res model_config engine new_worker = Some (r, w) /\
    match r with
    | Value _ => worker_ok w /\ running w = true /\ w_engine_config w = engine
    | Unexpected _ => bare w
    end.
Proof. apply init_worker_run. Qed.
End init.

Lemma init_worker_ready_witness :
  exists w, init_worker false (mkResources (Value (mkSim [] [])) (Value tt) (mret tt)) sim_model_config
    sim_engine_config new_worker = Some (Value tt, w) /\ worker_ok w.
Proof.
  assert (init_args (model_config (D := SimDevice)) sim_engine_config) as Ha.
  { split; [|vm_compute; reflexivity|vm_compute; discriminate|discriminate].
    repeat (apply Forall_cons; split; [vm_compute; split; discriminate|]). apply Forall_nil. exact I. }
  assert (creates_model (mkResources (Value (mkSim [] [])) (Value tt) (mret tt))) as Hm by (intros d _; apply loads_ret; exact I).
  destruct (init_worker_ready (D := SimDevice) (mkResources (Value (mkSim [] [])) (Value tt) (mret tt)) sim_engine_config false Ha Hm)
    as (r & w & E & H).
  destruct r as [[]|e]; [|vm_compute in E; discriminate]. exists w. split; [exact E|]. apply H.
Defined.
