(* ===== verification/Pipeline.v ===== *)
(** * The scheduler and the worker together

    What the engine dispatches, the worker can run; what the worker answers, the
    engine can retire; and the KV slots that concurrent batches write are disjoint
    from everything other sequences use. *)

From Stdlib Require Import ZArith Lia SpecFloat.
From stdpp Require Import prelude strings gmap fin_maps.
From S2P Require Import Prelude Base Config BlockPool PrefixCache BlockCache BlockCacheInv.
From S2P Require Import Scheduler SchedFrame SchedKv SchedWork SchedInv SchedRetire Engine EngineProps.
From S2P Require Import Bytes Device SimDevice State BlockStorage Translate TranslateProps.
From S2P Require Import Tensor Model ModelProps SimModel Worker WorkerProps WorkerInit SchedulerFindings.

(** ** Slots *)

(** The blocks of an unfinished item exist. *)
Lemma pending_block_range `{mode : BuildMode} config e it j :
  reachable config e -> it ∈ pending_items e -> j ∈ block_ids_ (work_block_table it) ->
  0 <= j < Config.max_blocks config.
Proof.
  intros Hr Hit Hj. destruct (pending_item_view _ _ _ Hr Hit)
    as (p & st & sc & _ & _ & Hst & Hsc & _ & [_ [_ [k Hpre]]]).
  pose proof (reachable_inv _ _ Hr) as [Hs _ _ _ _].
  assert (0 < count j (block_ids_ (block_table sc))) as Hc by (apply count_elem; rewrite Hpre; set_solver).
  pose proof (occ_lookup _ p st j Hst) as Ho. unfold req_table in Ho. rewrite Hsc in Ho.
  pose proof (kp_own _ _ _ (si_kv _ _ _ _ _ Hs) j) as Hown. simpl in Hown.
  pose proof (kp_ok _ _ _ (si_kv _ _ _ _ _ Hs)) as Hok. destruct (si_geometry _ _ _ _ _ Hs) as [Hg _].
  rewrite (reachable_config _ _ Hr) in Hg. rewrite <- Hg. rewrite <- (wf_size _ (inv_pool _ _ Hok)).
  unfold held, used in Hown.
  destruct (at_Z (blocks_ (kv_pool (kv (sched e)))) j) as [b|] eqn:E; simpl in Hown; [|lia].
  by apply at_Z_Some in E as [? _].
Qed.

(** The slots a table's positions map to. *)
Lemma slot_of_block bs table pos j :
  0 < bs -> table_at table (pos / bs) = Some j -> slot_of bs table pos = j * bs + pos mod bs.
Proof. intros Hbs H. unfold slot_of. by rewrite H. Qed.

(** A slot in a block that a table does not have is no slot of the table. *)
Lemma slot_not_in_table bs table table2 pos j pos2 :
  0 < bs -> table_at table (pos / bs) = Some j -> j ∉ block_ids_ table2 -> 0 <= pos2 < bs * table_size table2 ->
  slot_of bs table2 pos2 <> slot_of bs table pos.
Proof.
  intros Hbs Hj Hn Hpos2. destruct (at_Z_is_Some (block_ids_ table2) (pos2 / bs)) as [j2 Hj2].
  { split; [apply Z.div_pos; lia|]. apply Z.div_lt_upper_bound; [done|exact (proj2 Hpos2)]. }
  rewrite (slot_of_block bs _ pos2 j2), (slot_of_block bs _ pos j) by done.
  pose proof (Z.mod_pos_bound pos2 bs Hbs). pose proof (Z.mod_pos_bound pos bs Hbs).
  intros E. apply Hn. assert (j2 = j) as -> by nia.
  apply at_Z_Some in Hj2 as [_ Hj2]. by eapply list_elem_of_lookup_2.
Qed.

(** C23: the KV slots that unfinished batches write are exclusive: the slot of a position
    an unfinished item writes lies inside the storage, and is different from the slot of
    every position in the block table of every other sequence that holds blocks, and in
    the copies of these tables that its unfinished items carry. *)
Theorem written_slots_exclusive `{mode : BuildMode} config e it1 pos1 :
  reachable config e -> it1 ∈ pending_items e ->
  work_context it1 <= pos1 < work_context it1 + kv_token_count it1 ->
  let bs := bsz (sched e) in
  0 <= slot_of bs (work_block_table it1) pos1 < Config.max_blocks config * bs /\
  (forall p2 st2 sc2 pos2, heap (sched e) !! p2 = Some st2 -> scheduling st2 = Some sc2 ->
    seq_id sc2 <> work_sequence_id it1 -> 0 <= pos2 < bs * table_size (block_table sc2) ->
    slot_of bs (block_table sc2) pos2 <> slot_of bs (work_block_table it1) pos1) /\
  forall it2 pos2, it2 ∈ pending_items e -> work_sequence_id it2 <> work_sequence_id it1 ->
    0 <= pos2 < bs * table_size (work_block_table it2) ->
    slot_of bs (work_block_table it2) pos2 <> slot_of bs (work_block_table it1) pos1.
Proof.
  intros Hr Hit Hpos bs. destruct (written_block _ _ _ _ Hr Hit Hpos) as (j & Hj & _ & Htab & Hex). fold bs in Hj.
  pose proof (reachable_inv _ _ Hr) as [Hs _ _ _ _]. pose proof (bsz_pos _ _ _ _ _ Hs) as Hbs. fold bs in Hbs.
  assert (j ∈ block_ids_ (work_block_table it1)) as Hin.
  { apply at_Z_Some in Hj as [_ Hj]. by eapply list_elem_of_lookup_2. }
  pose proof (pending_block_range _ _ _ _ Hr Hit Hin) as Hrange.
  split_and!.
  - rewrite (slot_of_block bs _ pos1 j) by done. pose proof (Z.mod_pos_bound pos1 bs Hbs). nia.
  - rewrite (slot_of_block bs _ pos1 j) by done. pose proof (Z.mod_pos_bound pos1 bs Hbs). nia.
  - intros p2 st2 sc2 pos2 H2 Hsc2 Hne Hpos2. eapply slot_not_in_table; [done|exact Hj| |done]. by eapply Htab.
  - intros it2 pos2 Hit2 Hne Hpos2. eapply slot_not_in_table; [done|exact Hj| |done]. by apply Hex.
Qed.

Lemma written_slots_exclusive_witness :
  exists it st sc, it ∈ pending_items demo_state /\ demo_other = Some (st, sc) /\
    seq_id sc <> work_sequence_id it /\ table_size (block_table sc) = 1 /\
    0 <= slot_of 2 (work_block_table it) 0 < 16 /\
    forall pos, 0 <= pos < 2 -> slot_of 2 (block_table sc) pos <> slot_of 2 (work_block_table it) 0.
Proof.
  destruct (pending_items demo_state) as [|it l] eqn:E; [vm_compute in E; discriminate|].
  assert (it ∈ pending_items demo_state) as Hin by (rewrite E; left).
  destruct (written_slots_exclusive (mode := checked_build) demo_config demo_state it 0 demo_state_reachable Hin)
    as (Hs & Ht & _).
  { vm_compute in E. injection E as <- _. vm_compute. split; [discriminate|reflexivity]. }
  destruct (heap (sched demo_state) !! 2) as [st|] eqn:Hst; [|vm_compute in Hst; discriminate].
  destruct (scheduling st) as [sc|] eqn:Hsc; [|exfalso; vm_compute in Hst; injection Hst as <-; discriminate Hsc].
  assert (seq_id sc <> work_sequence_id it /\ table_size (block_table sc) = 1) as [Hne Hsz].
  { clear -E Hst Hsc. vm_compute in Hst. injection Hst as <-. injection Hsc as <-. vm_compute in E.
    injection E as <- _. split; [discriminate|reflexivity]. }
  exists it, st, sc. split; [left|]. split; [unfold demo_other; rewrite Hst; simpl; rewrite Hsc; reflexivity|].
  split; [exact Hne|]. split; [exact Hsz|]. split; [exact Hs|]. intros pos Hpos.
  apply (Ht 2 st sc pos Hst Hsc Hne). rewrite Hsz. exact Hpos.
Defined.

(** ** One batch through both *)

Section agree.
Context {D : Type} `{!Backend D} `{!BackendLaws D} `{!Ccop} `{!CcopLaws} `{!Model D} `{!Sampler D} `{!ModelLaws D}.

(** What the worker needs of a batch besides the well-formed items the engine
    guarantees. *)
Record batch_ready (w : Worker D) (batch : ScheduledBatch) : Prop := mk_batch_ready {
  br_items : batch_items batch <> [];
  br_bound : Forall (bindable (latest_tokens_ w) (failed_sequences_ w)) (batch_items batch);
  br_count : total_of (batch_items batch) < INT_MAX /\
    Forall (fun it => table_size (work_block_table it) <= INT_MAX) (batch_items batch);
  br_sampling : sampling_ok (vocab_size_ model_config) (batch_sampling batch) = true /\
    greedy (batch_sampling batch) = true;
  br_position : Forall (fun it => item_last it < max_seq_len_ model_config) (batch_items batch);
}.

Lemma awaited_wf `{mode : BuildMode} config e batch :
  reachable config e -> point e = Collecting batch \/ point e = DrainCollecting batch ->
  Forall (item_wf (kv_block_size config)) (batch_items batch).
Proof.
  intros Hr Hpt. apply Forall_forall. intros it Hit.
  assert (it ∈ pending_items e) as Hin.
  { unfold pending_items, pending_batches. apply list_elem_of_bind. exists batch. split; [done|].
    destruct Hpt as [-> | ->]; left. }
  destruct (pending_item_view _ _ _ Hr Hin) as (p & st & sc & _ & _ & _ & _ & _ & [Hwf _]).
  pose proof (reachable_inv _ _ Hr) as [Hs _ _ _ _]. destruct (si_geometry _ _ _ _ _ Hs) as [_ Hg].
  rewrite (reachable_config _ _ Hr) in Hg. by rewrite <- Hg.
Qed.

(** C22: scheduler and worker compose: when the engine waits for a batch and the worker
    remembers the same failed sequences, then, if the late tokens are known and the
    sampling and positions are within the model's limits ([batch_ready], which the engine
    does not ensure; its counts fit [int]), the worker answers the batch,
    the answer is one the engine accepts, the engine carries it out without a failed
    assertion, and both again agree on the failed sequences. *)
Theorem engine_worker_agree `{mode : BuildMode} config e batch w :
  reachable config e -> point e = Collecting batch \/ point e = DrainCollecting batch ->
  worker_ok w -> w_engine_config w = config -> failed_sequences_ w = failed_seqs e ->
  batch_ready w batch -> 0 < vocab_size_ model_config <= INT_MAX ->
  exists r w' e', process_batch batch w = Some (r, w') /\ enabled (EvCollected r) e /\
    exec (EvCollected r) e = Some e' /\ reachable config e' /\ worker_ok w' /\
    failed_sequences_ w' = failed_seqs e'.
Proof.
  intros Hr Hpt Hw Hc Hf [R1 R2 R3 R4 R5] HV.
  assert (batch_ok w batch) as Hb by (split; try done; rewrite Hc; by eapply awaited_wf).
  destruct (process_batch_run w batch Hw Hb HV) as (r & w' & E & Hw' & _ & Hf' & Hr').
  assert (enabled (EvCollected r) e) as Hen.
  { unfold enabled. destruct r as [result|err]; [|done]. rewrite Hf in Hr'. by destruct Hpt as [-> | ->]; apply Hr'. }
  destruct (exec_quiet (EvCollected r) e (reachable_inv _ _ Hr) Hen eq_refl) as (e' & Hx & _).
  pose proof (step_reachable _ _ _ _ Hr Hen Hx) as Hr2.
  exists r, w', e'. split_and!; try done. rewrite Hf', Hf. unfold exec, collect_step, run_method in Hx.
  assert (forall (m : M unit) (k : unit -> Scheduler -> Engine),
    match m (sched e) with Some (a, s) => Some (k a s) | None => None end = Some e' ->
    exists s, e' = k tt s) as Hrun.
  { intros m k Hm. destruct (m (sched e)) as [[[] s]|]; [|done]. injection Hm as <-. by exists s. }
  destruct Hpt as [Hpt|Hpt]; rewrite Hpt in Hx; by apply Hrun in Hx as [s ->].
Qed.
End agree.

(** The demo engine waiting for its first batch, and a worker of its configuration. *)
Definition collecting_state : Engine := default stub_engine (drive 6 filling_state).

Definition demo_worker : Worker SimDevice :=
  match init_worker false (mkResources (Value (mkSim [] [])) (Value tt) (mret tt)) sim_model_config demo_config new_worker with
  | Some (_, w) => w
  | None => new_worker
  end.

Lemma demo_worker_ok : worker_ok demo_worker.
Proof.
  assert (init_args (model_config (D := SimDevice)) demo_config) as Ha.
  { split; [|vm_compute; reflexivity|vm_compute; discriminate|discriminate].
    repeat (apply Forall_cons; split; [vm_compute; split; discriminate|]). apply Forall_nil. exact I. }
  assert (creates_model (mkResources (Value (mkSim [] [])) (Value tt) (mret tt))) as Hm by (intros d _; apply loads_ret; exact I).
  destruct (init_worker_run (D := SimDevice) (mkResources (Value (mkSim [] [])) (Value tt) (mret tt)) demo_config false Ha Hm) as (r & w & E & H). unfold demo_worker. change sim_model_config with (model_config (D := SimDevice)). rewrite E.
  destruct r as [[]|e]; [apply H|vm_compute in E; discriminate].
Qed.

Lemma collecting_state_reachable : reachable demo_config collecting_state.
Proof.
  destruct (drive 6 filling_state) as [e|] eqn:E; [|vm_compute in E; discriminate].
  unfold collecting_state. rewrite E. simpl. exact (drive_reachable _ _ _ _ filling_state_reachable E).
Qed.

Lemma engine_worker_agree_witness :
  exists r (w' : Worker SimDevice) e', exec (EvCollected r) collecting_state = Some e' /\ failed_sequences_ w' = failed_seqs e'.
Proof.
  destruct (point collecting_state) as [| | | | | |b| | | |] eqn:Hpt; try (vm_compute in Hpt; discriminate).
  destruct (engine_worker_agree demo_config collecting_state b demo_worker collecting_state_reachable (or_introl Hpt)
    demo_worker_ok) as (r & w' & e' & _ & _ & Hx & _ & _ & Hf).
  - vm_compute. reflexivity.
  - vm_compute. reflexivity.
  - vm_compute in Hpt. injection Hpt as <-. split.
    + discriminate.
    + repeat (apply Forall_cons; split; [exact I|]). apply Forall_nil. exact I.
    + split; [vm_compute; reflexivity|]. repeat (apply Forall_cons; split; [vm_compute; discriminate|]). apply Forall_nil. exact I.
    + split; vm_compute; reflexivity.
    + repeat (apply Forall_cons; split; [vm_compute; reflexivity|]). apply Forall_nil. exact I.
  - vm_compute. split; [reflexivity|discriminate].
  - exists r, w', e'. split; [exact Hx|exact Hf].
Defined.
