(* ===== verification/PipelineFindings.v ===== *)
(** * Where the scheduler and the worker disagree

    The engine and a simulated worker run together; two preempted requests show what
    happens to a late-bound token of a sequence that was re-admitted. *)

From Stdlib Require Import ZArith Lia SpecFloat.
From stdpp Require Import prelude strings gmap fin_maps.
From S2P Require Import Prelude Base Config BlockPool PrefixCache BlockCache BlockCacheInv.
From S2P Require Import Scheduler SchedFrame SchedKv SchedWork SchedInv Engine EngineProps SchedulerFindings.
From S2P Require Import Device SimDevice State BlockStorage Model SimModel Worker WorkerProps.

(** ** Engine and worker in lockstep *)

(** One event of the coroutine; the worker answers the batch the engine waits for. *)
Definition lockstep `{BuildMode} (e : Engine) (w : Worker SimDevice) : option (Engine * Worker SimDevice) :=
  match point e with
  | Dispatching _ => e ← exec (EvDispatched (Value tt)) e; Some (e, w)
  | Collecting b | DrainCollecting b =>
      '(r, w) ← process_batch b w;
      if enabledb (EvCollected r) e then e ← exec (EvCollected r) e; Some (e, w) else None
  | _ => e ← exec EvRun e; Some (e, w)
  end.

Fixpoint run_together `{BuildMode} (n : nat) (e : Engine) (w : Worker SimDevice) : option (Engine * Worker SimDevice) :=
  match n with
  | O => Some (e, w)
  | S n => '(e, w) ← lockstep e w; run_together n e w
  end.

(** A fresh engine and a fresh worker of the same configuration. *)
Definition together `{BuildMode} (config : EngineConfig) (evs : list Event) (n : nat) : option (Engine * Worker SimDevice) :=
  e0 ← new_engine config;
  e1 ← run_events evs e0;
  '(r, w) ← init_worker false (mkResources (Value (mkSim [] [])) (Value tt) (mret tt)) sim_model_config config new_worker;
  match r with Value _ => run_together n e1 w | Unexpected _ => None end.

Lemma lockstep_reachable `{mode : BuildMode} config e w e' w' :
  reachable config e -> lockstep e w = Some (e', w') -> reachable config e'.
Proof.
  intros (e0 & H0 & Hr) H. unfold lockstep in H.
  assert (forall ev e1, enabled ev e -> exec ev e = Some e1 -> reachable config e1) as Hstep.
  { intros ev e1 Hen He. exists e0. split; [done|]. eapply rtc_r; [done|]. by econstructor. }
  assert (forall b, (x ← process_batch b w; let '(r, w1) := x in
      if enabledb (EvCollected r) e then e1 ← exec (EvCollected r) e; Some (e1, w1) else None) = Some (e', w') ->
      reachable config e') as Hc.
  { intros b Hb. apply bind_Some in Hb as ([r w1] & _ & Hb). destruct (enabledb (EvCollected r) e) eqn:He; [|done].
    apply bind_Some in Hb as (e1 & E & Hb). injection Hb as <- _. eapply Hstep; [by apply enabledb_sound|done]. }
  assert ((e1 ← exec EvRun e; Some (e1, w)) = Some (e', w') -> reachable config e') as Hrun.
  { intros Hx. apply bind_Some in Hx as (e1 & E & Hx). injection Hx as <- _. by apply (Hstep EvRun). }
  destruct (point e); try (by apply Hrun); try (by eapply Hc).
  apply bind_Some in H as (e1 & E & H). injection H as <- _. by apply (Hstep (EvDispatched (Value tt))).
Qed.

Lemma run_together_reachable `{mode : BuildMode} config n e w e' w' :
  reachable config e -> run_together n e w = Some (e', w') -> reachable config e'.
Proof.
  revert e w. induction n as [|n IH]; intros e w Hr H; simpl in H; [by injection H as <- _|].
  apply bind_Some in H as ([e1 w1] & H1 & H). eapply IH; [|done]. by eapply lockstep_reachable.
Qed.

Lemma together_reachable `{mode : BuildMode} config evs n e w : together config evs n = Some (e, w) -> reachable config e.
Proof.
  unfold together. intros H. apply bind_Some in H as (e0 & H0 & H). apply bind_Some in H as (e1 & H1 & H).
  apply bind_Some in H as ([r w0] & H2 & H). destruct r; [|done].
  eapply run_together_reachable; [|done]. by eapply run_events_reachable.
Qed.

(** Runs of a mode are runs of every mode that tolerates more. *)
Lemma lockstep_mono m m' e w r : tolerates_less m m' -> @lockstep m e w = Some r -> @lockstep m' e w = Some r.
Proof.
  intros Hle. unfold lockstep.
  assert (forall ev (k : Engine -> option (Engine * Worker SimDevice)),
    (e1 ← @exec m ev e; k e1) = Some r -> (e1 ← @exec m' ev e; k e1) = Some r) as Hev.
  { intros ev k (e1 & E & Hk)%bind_Some. by rewrite (exec_mono _ _ _ _ _ Hle E). }
  assert (forall b, ('(a, w) ← process_batch b w; if enabledb (EvCollected a) e
      then e ← @exec m (EvCollected a) e; Some (e, w) else None) = Some r ->
    ('(a, w) ← process_batch b w; if enabledb (EvCollected a) e
      then e ← @exec m' (EvCollected a) e; Some (e, w) else None) = Some r) as Hcol.
  { intros b ([a w1] & -> & Hk)%bind_Some. cbn [mbind option_bind].
    destruct (enabledb (EvCollected a) e); [|done]. exact (Hev (EvCollected a) (fun e1 => Some (e1, w1)) Hk). }
  destruct (point e); first [exact (Hev EvRun (fun e1 => Some (e1, w))) | exact (Hcol _)
    | exact (Hev (EvDispatched (Value tt)) (fun e1 => Some (e1, w)))].
Qed.

Lemma together_mono m m' config evs n r :
  tolerates_less m m' -> @together m config evs n = Some r -> @together m' config evs n = Some r.
Proof.
  intros Hle. unfold together. intros (e0 & -> & H)%bind_Some. apply bind_Some in H as (e1 & H1 & H).
  cbn [mbind option_bind]. rewrite (run_events_mono _ _ _ _ _ Hle H1). cbn [mbind option_bind].
  apply bind_Some in H as ([a w] & -> & H). cbn [mbind option_bind].
  destruct a; [|done]. clear H1. revert e1 w H. induction n as [|n IH]; [done|]. intros e1 w. cbn [run_together].
  intros ([e2 w2] & Hs & Hr)%bind_Some. rewrite (lockstep_mono _ _ _ _ _ Hle Hs). by apply IH.
Qed.

(** ** Scenarios *)

Definition small_config (bs mb : Z) : EngineConfig :=
  {| device_id := 0; max_blocks := mb; kv_block_size := bs; max_sequences := 4;
     max_running_requests := 2; max_concurrent_batches := 1; max_pending_requests := 4;
     max_token_budget := 8; max_seq_prefill_tokens := 0; default_max_context_len := bs * mb;
     state_prefix_cache_blocks := 0 |}.

Definition client (id : string) (prompt : list Z) (tokens ch : Z) : SchedulerRequest :=
  mkSchedulerRequest id prompt (mkSamplingParams tokens 0 f32_one f32_zero 42 (-1)) 0 ch.

(** Two clients with the same prompt. *)
Definition twin_events (prompt : list Z) : list Event :=
  [EvStart; EvRun; EvRun; EvRun; EvSubmit (client "a" prompt 6 7); EvSubmit (client "b" prompt 6 8); EvWake].

(** Two clients whose prompts share one block. *)
Definition fork_events : list Event :=
  [EvStart; EvRun; EvRun; EvRun; EvSubmit (client "a" [2; 3; 9; 9] 6 7); EvSubmit (client "b" [2; 3; 4; 5] 6 8); EvWake].

(** The late-bound items of the batch the engine waits for. *)
Definition late_items (e : Engine) : list DecodeOneToken :=
  match point e with
  | Collecting b => omap (fun it => match it with WDecode d => if late_bind d then Some d else None | _ => None end)
                      (batch_items b)
  | _ => []
  end.

Definition awaited (e : Engine) : option ScheduledBatch :=
  match point e with Collecting b => Some b | _ => None end.

(** C29: in every build, a request that is preempted and comes back with its whole prompt cached breaks
    the worker: two clients with the same two-token prompt and a small KV pool lead, in
    lockstep with a worker that never failed, to a batch with a late-bound decode of a
    fresh sequence, for which the worker has no latest token; [process_batch] fails the
    assertion of [resolve_batch]. *)
Theorem readmitted_decode_aborts_worker (mode : BuildMode) :
  exists e w b d, together (small_config 2 4) (twin_events [2; 3]) 26 = Some (e, w) /\ reachable (small_config 2 4) e /\
    awaited e = Some b /\ d ∈ late_items e /\ latest_tokens_ w !! dt_seq_id d = None /\ failed_sequences_ w = ∅ /\
    process_batch b w = None.
Proof.
  destruct (@together checked_build (small_config 2 4) (twin_events [2; 3]) 26) as [[e w]|] eqn:E;
    [|vm_compute in E; discriminate].
  pose proof (together_mono _ mode _ _ _ _ (checked_least mode) E) as Em.
  pose proof (together_reachable _ _ _ _ _ Em) as Hr.
  destruct (awaited e) as [b|] eqn:Hb; 
    [|clear Em Hr; vm_compute in E; injection E as <- _; vm_compute in Hb; discriminate Hb].
  destruct (late_items e) as [|d0 [|d l]] eqn:Hl;
    [clear Em Hr Hb; vm_compute in E; injection E as <- _; vm_compute in Hl; discriminate Hl..|].
  exists e, w, b, d. split; [exact Em|]. clear Em. split; [exact Hr|]. split; [exact Hb|]. clear Hr.
  split; [rewrite Hl; right; left|]. vm_compute in E. injection E as <- <-.
  vm_compute in Hb. injection Hb as <-. vm_compute in Hl. injection Hl as _ <- _.
  split; [vm_compute; reflexivity|]. split; [vm_compute; reflexivity|]. vm_compute. reflexivity.
Qed.

(** The release build where a suspension works. *)
Definition surviving_build : BuildMode := fun h => match h with SignedOverflow => false | _ => true end.

Lemma surviving_least `{mode : BuildMode} :
  NDEBUG = true -> tolerates FreedNode = true -> tolerates_less surviving_build mode.
Proof. intros Ha Hf h. by destruct h. Qed.

(** a request that is preempted and comes back with part of its prompt cached is
    continued from the wrong token: its replayed prefill samples nothing, so the worker
    remembers the last prompt token, and the next late-bound decode, whose input should
    be the last generated token, gets it instead. *)
Theorem replayed_decode_gets_prompt_token (mode : BuildMode) :
  NDEBUG = true -> tolerates FreedNode = true ->
  exists e w b d p st rb, together (small_config 2 5) fork_events 47 = Some (e, w) /\
    reachable (small_config 2 5) e /\ awaited e = Some b /\ batch_items b = [WDecode d] /\ late_bind d = true /\
    by_seq_id_ (sched e) !! dt_seq_id d = Some p /\ heap (sched e) !! p = Some st /\
    prompt_tokens st = [2; 3; 4; 5] /\ generated_tokens st = [16843009] /\
    resolve_batch (latest_tokens_ w) (failed_sequences_ w) b = Some rb /\
    rb_items rb = [WDecode (mkDecodeOneToken (dt_seq_id d) 5 (dt_expected_context_len d) true false (dt_block_table d))].
Proof.
  intros Ha Hf. destruct (@together surviving_build (small_config 2 5) fork_events 47) as [[e w]|] eqn:E;
    [|vm_compute in E; discriminate].
  pose proof (together_mono _ mode _ _ _ _ (surviving_least Ha Hf) E) as Em.
  pose proof (together_reachable _ _ _ _ _ Em) as Hr.
  clear -Em Hr E. vm_compute in E. injection E as <- <-.
  eexists _, _, _, _, _, _, _. split; [exact Em|]. clear Em. split; [exact Hr|]. clear Hr.
  split; [vm_compute; reflexivity|]. split; [vm_compute; reflexivity|]. split; [vm_compute; reflexivity|].
  split; [vm_compute; reflexivity|]. split; [vm_compute; reflexivity|]. split; [vm_compute; reflexivity|].
  split; [vm_compute; reflexivity|]. split; vm_compute; reflexivity.
Qed.
