(* ===== verification/Json.v ===== *)
(** * The JSON library's interface

    [nlohmann::json] is not part of the repository.  [Json] has the queries the code
    makes of a parsed value and the constructors of the documents it writes; the items
    of an object are in the library's iteration order.  Texts are lists of bytes. *)

From Stdlib Require Import ZArith Lia SpecFloat.
From stdpp Require Import prelude strings pretty gmap fin_maps.
From S2P Require Import Prelude Base.

Abbreviation bytes := (list Z).

(** The bytes of a string literal. *)
Fixpoint lit (s : string) : bytes :=
  match s with
  | EmptyString => []
  | String c s => Z.of_N (Ascii.N_of_ascii c) :: lit s
  end.

(** [std::to_string]. *)
Definition to_string (n : Z) : bytes := lit (pretty n).

Class Json := {
  json : Type;
  json_parse : bytes -> option json;            (* [parse]; [None] is discarded *)
  as_object : json -> option (list (bytes * json));
  as_array : json -> option (list json);
  as_string : json -> option bytes;
  as_integer : json -> option Z;                (* [is_number_integer], [get<int64_t>] *)
  as_unsigned : json -> option Z;               (* [is_number_unsigned], [get<uint64_t>] *)
  as_boolean : json -> option bool;
  as_number : json -> option float32;           (* [is_number], [get<float>] *)
  json_null : json;
  json_bool : bool -> json;
  json_int : Z -> json;
  json_double : spec_float -> json;
  json_string : bytes -> json;
  json_array : list json -> json;
  json_object : list (bytes * json) -> json;
  json_dump : json -> option bytes;             (* [dump]; [None] is a thrown [type_error] *)
}.

(** What the library documents of the integer queries. *)
Class JsonLaws `{Json} := {
  unsigned_range : forall j z, as_unsigned j = Some z -> 0 <= z < 2 ^ 64;
  integer_range : forall j z, as_integer j = Some z -> - 2 ^ 63 <= z < 2 ^ 63;
}.

(** UTF-8 as RFC 3629 defines it: no overlong forms, no surrogates, nothing above
    U+10FFFF. *)
Definition byte_in (lo hi c : Z) : bool := (lo <=? c) && (c <=? hi).

Definition lead3 (c c1 : Z) : bool :=
  (c =? 224) && byte_in 160 191 c1 || byte_in 225 236 c && byte_in 128 191 c1 ||
  (c =? 237) && byte_in 128 159 c1 || byte_in 238 239 c && byte_in 128 191 c1.
Definition lead4 (c c1 : Z) : bool :=
  (c =? 240) && byte_in 144 191 c1 || byte_in 241 243 c && byte_in 128 191 c1 || (c =? 244) && byte_in 128 143 c1.

Fixpoint utf8 (s : bytes) : bool :=
  match s with
  | [] => true
  | c :: s1 =>
      if byte_in 0 127 c then utf8 s1
      else
        match s1 with
        | [] => false
        | c1 :: s2 =>
            if byte_in 194 223 c then byte_in 128 191 c1 && utf8 s2
            else
              match s2 with
              | [] => false
              | c2 :: s3 =>
                  if byte_in 224 239 c then lead3 c c1 && byte_in 128 191 c2 && utf8 s3
                  else
                    match s3 with
                    | [] => false
                    | c3 :: s4 => lead4 c c1 && byte_in 128 191 c2 && byte_in 128 191 c3 && utf8 s4
                    end
              end
        end
  end.

(** Texts of ASCII characters are valid. *)
Lemma utf8_ascii s : Forall (fun c => 0 <= c < 128) s -> utf8 s = true.
Proof. induction 1 as [|c s Hc _ IH]; [done|]. cbn [utf8]. unfold byte_in. by rewrite !(proj2 (Z.leb_le _ _)) by lia. Qed.

(** What the library documents of [dump] with its default arguments: it throws exactly
    when a string or a key of the document is not valid UTF-8. *)
Class JsonDumpLaws `{Json} := {
  dump_null : is_Some (json_dump json_null);
  dump_bool : forall b, is_Some (json_dump (json_bool b));
  dump_int : forall z, is_Some (json_dump (json_int z));
  dump_double : forall x, is_Some (json_dump (json_double x));
  dump_string : forall s, is_Some (json_dump (json_string s)) <-> utf8 s = true;
  dump_array : forall l, is_Some (json_dump (json_array l)) <-> Forall (fun j => is_Some (json_dump j)) l;
  dump_object : forall items, NoDup items.*1 ->
    is_Some (json_dump (json_object items)) <-> Forall (fun x => utf8 x.1 = true /\ is_Some (json_dump x.2)) items;
}.

Section queries.
Context `{Json}.

(** [j[key]] of an object that contains the key. *)
Definition member (key : bytes) (items : list (bytes * json)) : option json :=
  snd <$> List.find (fun x => bool_decide (x.1 = key)) items.

(** [j.contains(key)] and [j[key]]. *)
Definition get_member (j : json) (key : string) : option json :=
  items ← as_object j; member (lit key) items.
End queries.
