(* ===== verification/SimJson.v ===== *)
(** * A small JSON library

    An instance of the queries on a tree type, over any parser of texts, with a printer
    that refuses strings that are not UTF-8. *)

From Stdlib Require Import ZArith Lia SpecFloat.
From stdpp Require Import prelude strings.
From S2P Require Import Prelude Base Json.

Inductive SmallJson :=
| SObj (items : list (bytes * SmallJson)) | SArr (l : list SmallJson) | SStr (s : bytes) | SInt (z : Z)
| SNum (x : float32) | SBool (b : bool) | SNull.

Definition in_word (lo hi z : Z) : option Z := if (lo <=? z) && (z <? hi) then Some z else None.

(** The printer; all numbers but integers are printed as zero. *)
Definition quote (s : bytes) : option bytes :=
  if utf8 s then Some ([34] ++ concat (map (fun c => if (c =? 34) || (c =? 92) then [92; c] else [c]) s) ++ [34]) else None.

Definition joined (l : list bytes) : bytes :=
  match l with [] => [] | x :: l => x ++ concat (map (fun y => 44 :: y) l) end.

Fixpoint small_dump (j : SmallJson) : option bytes :=
  match j with
  | SObj items =>
      (fun l => lit "{" ++ joined l ++ lit "}") <$>
        mapM (fun x => let '(k, v) := x in k ← quote k; v ← small_dump v; Some (k ++ [58] ++ v)) items
  | SArr l => (fun l => lit "[" ++ joined l ++ lit "]") <$> mapM (fun v => small_dump v) l
  | SStr s => quote s
  | SInt z => Some (to_string z)
  | SNum _ => Some (lit "0.0")
  | SBool b => Some (lit (if b then "true" else "false"))
  | SNull => Some (lit "null")
  end.

Definition small_json (parse : bytes -> option SmallJson) : Json := {|
  json := SmallJson;
  json_parse := parse;
  as_object j := match j with SObj l => Some l | _ => None end;
  as_array j := match j with SArr l => Some l | _ => None end;
  as_string j := match j with SStr s => Some s | _ => None end;
  as_integer j := match j with SInt z => in_word (- 2 ^ 63) (2 ^ 63) z | _ => None end;
  as_unsigned j := match j with SInt z => in_word 0 (2 ^ 64) z | _ => None end;
  as_boolean j := match j with SBool b => Some b | _ => None end;
  as_number j := match j with SNum x => Some x | _ => None end;
  json_null := SNull; json_bool := SBool; json_int := SInt; json_double := SNum; json_string := SStr;
  json_array := SArr; json_object := SObj; json_dump := small_dump;
|}.

Lemma in_word_range lo hi z z' : in_word lo hi z = Some z' -> lo <= z' < hi.
Proof.
  unfold in_word. destruct (Z.leb_spec lo z), (Z.ltb_spec z hi); simpl; try done. intros [= <-]. lia.
Qed.

Lemma small_json_laws parse : @JsonLaws (small_json parse).
Proof. split; intros [] n; simpl; try done; apply in_word_range. Qed.

Lemma quote_some s : is_Some (quote s) <-> utf8 s = true.
Proof. unfold quote. destruct (utf8 s); split; [done|by eexists|by intros [? ?]|done]. Qed.

Lemma small_json_dump_laws parse : @JsonDumpLaws (small_json parse).
Proof.
  split; simpl; try by eexists.
  - apply quote_some.
  - intros l. rewrite fmap_is_Some, mapM_is_Some. done.
  - intros items _. rewrite fmap_is_Some, mapM_is_Some. apply Forall_iff. intros [k v]. simpl. rewrite <- quote_some.
    split.
    + intros [x Hx]. destruct (quote k); [|done]. destruct (small_dump v); [|done]. by split; eexists.
    + intros [[k' Hk] [v' Hv]]. rewrite Hk, Hv. by eexists.
Qed.
