(* ===== verification/WeightSource.v ===== *)
(** * Weight sources: [model/weight_source.h]

    What a checkpoint format offers the model loaders: existence, logical shape,
    representation and raw bytes of a named tensor.  A span of raw bytes is a range of
    a mapped file: reading past its end gives the bytes that follow it in the file, and
    reading past the end of the file is undefined. *)

From Stdlib Require Import ZArith Lia.
From stdpp Require Import prelude strings.
From S2P Require Import Prelude Base Bytes Device Json.

(** [ccop::TensorType] as far as the code names its values. *)
Inductive StorageType := StoreFloat32 | StoreFloat16 | StoreBFloat16 | StoreQ8_0.

#[export] Instance StorageType_eq_dec : EqDecision StorageType.
Proof. solve_decision. Defined.

Record WeightSourceTensorInfo := mkWeightInfo {
  logical_shape : list Z;
  wi_type : StorageType;
  wi_offset : Z;
  size_bytes : Z;
}.

(** [std::span<const uint8_t>]. *)
Record Span := mkSpan { sp_file : bytes; sp_offset : Z; sp_size : Z }.

Definition span_bytes (s : Span) : bytes := slice (sp_file s) (sp_offset s) (sp_size s).

(** Reads [n] bytes from [span.data()] on. *)
Definition host_read (s : Span) (n : Z) : option bytes :=
  if (0 <=? sp_offset s) && (0 <=? n) && (sp_offset s + n <=? size_Z (sp_file s))
  then Some (slice (sp_file s) (sp_offset s) n) else None.

Record WeightSource := mkWeightSource {
  has : bytes -> bool;
  info : bytes -> Result WeightSourceTensorInfo;
  read : bytes -> Result Span;
}.

(** What every implementation promises: a span lies in its file and has the announced
    size, and only existing tensors have one. *)
Record source_ok (s : WeightSource) : Prop := mk_source_ok {
  so_range : forall name sp, read s name = Value sp -> in_range (sp_file sp) (sp_offset sp) (sp_size sp);
  so_size : forall name i sp, info s name = Value i -> read s name = Value sp -> sp_size sp = size_bytes i;
  so_has : forall name sp, read s name = Value sp -> has s name = true;
}.

Lemma host_read_span s n : in_range (sp_file s) (sp_offset s) (sp_size s) -> 0 <= n <= sp_size s ->
  host_read s n = Some (slice (sp_file s) (sp_offset s) n).
Proof.
  unfold in_range, host_read. intros (? & ? & ?) Hn.
  destruct (Z.leb_spec 0 (sp_offset s)), (Z.leb_spec 0 n), (Z.leb_spec (sp_offset s + n) (size_Z (sp_file s))); done || lia.
Qed.

(** Reading a whole span gives its bytes. *)
Lemma host_read_all s : in_range (sp_file s) (sp_offset s) (sp_size s) -> host_read s (sp_size s) = Some (span_bytes s).
Proof. intros Hr. apply host_read_span; [done|]. destruct Hr as (_ & ? & _). lia. Qed.
