(* ===== verification/Gguf.v ===== *)
(** * The GGUF reader: [checkpoint/gguf/reader.cpp], [weight_source.cpp]

    A mapped file is a list of bytes on a little-endian machine.  A parser runs at an
    offset and ends with a value and the next offset, with an error code, with a C++
    exception (an allocation whose size comes from the file), or with a read outside the
    file; [NoFuel] marks a recursion that the fuel does not cover. *)

From Stdlib Require Import ZArith Lia SpecFloat.
From stdpp Require Import prelude strings gmap fin_maps.
From S2P Require Import Prelude Base Bytes Floats Q8 Device Json WeightSource.

(** ** Values *)

(** [GGUFValueType], the numbers of the enumeration; the files may hold others. *)
Definition kU8 : Z := 0.
Definition kI8 : Z := 1.
Definition kU16 : Z := 2.
Definition kI16 : Z := 3.
Definition kU32 : Z := 4.
Definition kI32 : Z := 5.
Definition kF32 : Z := 6.
Definition kBool : Z := 7.
Definition kString : Z := 8.
Definition kArray : Z := 9.
Definition kU64 : Z := 10.
Definition kI64 : Z := 11.
Definition kF64 : Z := 12.

(** [GGUFTensorType]: the enumerators that the code names. *)
Definition kTensorF32 : Z := 0.
Definition kTensorF16 : Z := 1.
Definition kTensorQ8_0 : Z := 8.
Definition kTensorBF16 : Z := 30.

(** The [std::variant]; floating-point values are their bits. *)
Inductive GGUFVariant (A : Type) :=
| VU8 (z : Z) | VI8 (z : Z) | VU16 (z : Z) | VI16 (z : Z) | VU32 (z : Z) | VI32 (z : Z)
| VU64 (z : Z) | VI64 (z : Z) | VF32 (bits : Z) | VF64 (bits : Z) | VBool (b : bool)
| VString (s : bytes) | VArray (l : list A).
Arguments VU8 {A} z.
Arguments VI8 {A} z.
Arguments VU16 {A} z.
Arguments VI16 {A} z.
Arguments VU32 {A} z.
Arguments VI32 {A} z.
Arguments VU64 {A} z.
Arguments VI64 {A} z.
Arguments VF32 {A} bits.
Arguments VF64 {A} bits.
Arguments VBool {A} b.
Arguments VString {A} s.
Arguments VArray {A} l.

Inductive GGUFMetadataValue := mkGGUF (gv_type : Z) (gv_value : GGUFVariant GGUFMetadataValue).

Definition value_type (v : GGUFMetadataValue) : Z := let 'mkGGUF t _ := v in t.
Definition value_of (v : GGUFMetadataValue) : GGUFVariant GGUFMetadataValue := let 'mkGGUF _ x := v in x.

(** [None]: [std::bad_variant_access]. *)
Definition gguf_as_string (v : GGUFMetadataValue) : option bytes :=
  match value_of v with VString s => Some s | _ => None end.
Definition as_u64 (v : GGUFMetadataValue) : option Z :=
  match value_of v with VU64 z | VU32 z | VU16 z | VU8 z => Some z | _ => None end.
Definition as_i64 (v : GGUFMetadataValue) : option Z :=
  match value_of v with
  | VI64 z | VI32 z | VI16 z | VI8 z => Some z
  | _ => x ← as_u64 v; Some (i64 x)
  end.

Definition as_f64 (v : GGUFMetadataValue) : option spec_float :=
  match value_of v with
  | VF64 bits => Some (float_of_bits 11 52 bits)
  | VF32 bits => Some (float_of_bits 8 23 bits)
  | _ => None
  end.
Definition as_f32 (v : GGUFMetadataValue) : option float32 :=
  match value_of v with
  | VF32 bits => Some (float_of_bits 8 23 bits)
  | VF64 bits => Some (f32_of_f64 (float_of_bits 11 52 bits))
  | _ => None
  end.
Definition gguf_as_array (v : GGUFMetadataValue) : option (list GGUFMetadataValue) :=
  match value_of v with VArray l => Some l | _ => None end.

Record GGUFTensorInfo := mkTensorInfo {
  ti_name : bytes;
  ti_dims : list Z;
  ti_type : Z;
  ti_offset : Z;
}.

Record GGUFReader := mkReader {
  data_ : bytes;
  data_start_ : Z;
  version_ : Z;
  metadata_ : list (bytes * GGUFMetadataValue);
  tensor_infos_ : list GGUFTensorInfo;
}.

(** ** Parsers *)

Inductive Parse (A : Type) :=
| Parsed (a : A) (offset : Z)
| Rejected (e : ErrorCode)
| Thrown
| OutOfRange
| NoFuel.
Arguments Parsed {A} a offset.
Arguments Rejected {A} e.
Arguments Thrown {A}.
Arguments OutOfRange {A}.
Arguments NoFuel {A}.

Definition Parser (A : Type) : Type := Z -> Parse A.

#[export] Instance Parser_ret : MRet Parser := fun A a o => Parsed a o.
#[export] Instance Parser_bind : MBind Parser := fun A B k p o =>
  match p o with
  | Parsed a o => k a o
  | Rejected e => Rejected e
  | Thrown => Thrown
  | OutOfRange => OutOfRange
  | NoFuel => NoFuel
  end.
#[export] Instance Parser_map : FMap Parser := fun A B f p => p ≫= fun a => mret (f a).

Definition reject {A} (e : ErrorCode) : Parser A := fun _ => Rejected e.

(** The vectors that are reserved with a count from the file. *)
Inductive Reserved := ArrayValues | MetadataEntries | TensorInfos.

(** Whether [reserve(n)] succeeds; otherwise it throws. *)
Class Memory := can_reserve : Reserved -> Z -> bool.

Definition reserve_vector `{Memory} (what : Reserved) (n : Z) : Parser unit := fun o =>
  if can_reserve what n then Parsed tt o else Thrown.

Definition require_bytes (size offset needed : Z) : Result unit :=
  if (size <? offset) || (size - offset <? needed) then Unexpected ModelLoadFailed else Value tt.

(** [for (i = 0; i < n; ++i)]. *)
Fixpoint repeat_parse {A} (fuel : nat) (n : Z) (p : Parser A) : Parser (list A) :=
  if n <=? 0 then mret []
  else
    match fuel with
    | O => fun _ => NoFuel
    | S fuel => x ← p; rest ← repeat_parse fuel (n - 1) p; mret (x :: rest)
    end.

Section parse.
Context `{Memory} (data : bytes).

Definition size : Z := size_Z data.

(** [memcpy(&v, data + offset, n)]. *)
Definition load_bytes (n : Z) : Parser bytes := fun o =>
  if (0 <=? o) && (0 <=? n) && (o + n <=? size) then Parsed (slice data o n) o else OutOfRange.

Definition require (n : Z) : Parser unit := fun o =>
  match require_bytes size o n with Value _ => Parsed tt o | Unexpected e => Rejected e end.

(** [offset += n]. *)
Definition advance (n : Z) : Parser unit := fun o => Parsed tt (o + n).

Definition read_raw (n : Z) : Parser Z :=
  _ ← require n; v ← load_bytes n; _ ← advance n; mret (of_le v).

Definition read_u8 : Parser Z := read_raw 1.
Definition read_i8 : Parser Z := i8 <$> read_raw 1.
Definition read_u16 : Parser Z := read_raw 2.
Definition read_i16 : Parser Z := i16 <$> read_raw 2.
Definition read_u32 : Parser Z := read_raw 4.
Definition read_i32 : Parser Z := i32 <$> read_raw 4.
Definition read_u64 : Parser Z := read_raw 8.
Definition read_i64 : Parser Z := i64 <$> read_raw 8.
Definition read_f32 : Parser Z := read_raw 4.
Definition read_f64 : Parser Z := read_raw 8.
Definition read_bool : Parser bool := (fun v => negb (v =? 0)) <$> read_u8.

Definition read_string : Parser bytes :=
  len ← read_u64;
  if SIZE_MAX <? len then reject ModelLoadFailed
  else _ ← require len; s ← load_bytes len; _ ← advance len; mret s.

Definition supported_tensor_type (type : Z) : bool :=
  (type =? kTensorF32) || (type =? kTensorF16) || (type =? kTensorQ8_0) || (type =? kTensorBF16).

(** Every array is at least 12 bytes and every element at least one byte: the bytes
    of the file bound the nesting and the iterations. *)
Definition loop_fuel : nat := S (length data).

Fixpoint parse_value (fuel : nat) (type : Z) : Parser GGUFMetadataValue :=
  match fuel with
  | O => fun _ => NoFuel
  | S fuel =>
      if type =? kU8 then v ← read_u8; mret (mkGGUF type (VU8 v))
      else if type =? kI8 then v ← read_i8; mret (mkGGUF type (VI8 v))
      else if type =? kU16 then v ← read_u16; mret (mkGGUF type (VU16 v))
      else if type =? kI16 then v ← read_i16; mret (mkGGUF type (VI16 v))
      else if type =? kU32 then v ← read_u32; mret (mkGGUF type (VU32 v))
      else if type =? kI32 then v ← read_i32; mret (mkGGUF type (VI32 v))
      else if type =? kU64 then v ← read_u64; mret (mkGGUF type (VU64 v))
      else if type =? kI64 then v ← read_i64; mret (mkGGUF type (VI64 v))
      else if type =? kF32 then v ← read_f32; mret (mkGGUF type (VF32 v))
      else if type =? kF64 then v ← read_f64; mret (mkGGUF type (VF64 v))
      else if type =? kBool then v ← read_bool; mret (mkGGUF type (VBool v))
      else if type =? kString then s ← read_string; mret (mkGGUF type (VString s))
      else if type =? kArray then
        elem_type ← read_u32;
        count ← read_u64;
        _ ← reserve_vector ArrayValues count;
        values ← repeat_parse loop_fuel count (parse_value fuel elem_type);
        mret (mkGGUF type (VArray values))
      else reject ModelLoadFailed
  end.

(** One metadata entry. *)
Definition parse_entry : Parser (bytes * GGUFMetadataValue) :=
  key ← read_string;
  type ← read_u32;
  if kF64 <? type then reject ModelLoadFailed
  else value ← parse_value loop_fuel type; mret (key, value).

(** One tensor info; at most eight dimensions. *)
Definition parse_tensor_info : Parser GGUFTensorInfo :=
  name ← read_string;
  n_dims ← read_u32;
  if (n_dims =? 0) || (8 <? n_dims) then reject ModelLoadFailed
  else
    dims ← repeat_parse 8 n_dims (i64 <$> read_u64);
    type ← read_u32;
    if kTensorBF16 <? type then reject ModelUnsupportedDType
    else if negb (supported_tensor_type type) then reject ModelUnsupportedDType
    else
      offset ← read_u64;
      mret (mkTensorInfo name dims type offset).

Definition kMagic : bytes := lit "GGUF".

(** [(offset + 31) & ~31] on [size_t]. *)
Definition align32 (offset : Z) : Z := Z.land (u64 (offset + 31)) (SIZE_MAX - 31).

(** [GGUFReader::parse], from offset 0. *)
Definition parse : Parser GGUFReader :=
  if size <? 24 then reject ModelLoadFailed
  else
    magic ← load_bytes 4;
    if negb (bool_decide (magic = kMagic)) then reject ModelLoadFailed
    else
      _ ← advance 4;
      version ← (of_le <$> load_bytes 4);
      _ ← advance 4;
      if negb (version =? 3) then reject ModelLoadFailed
      else
        n_tensors ← read_u64;
        n_metadata ← read_u64;
        _ ← reserve_vector MetadataEntries n_metadata;
        metadata ← repeat_parse loop_fuel n_metadata parse_entry;
        _ ← reserve_vector TensorInfos n_tensors;
        infos ← repeat_parse loop_fuel n_tensors parse_tensor_info;
        offset ← (fun o => Parsed o o : Parse Z);
        let data_start := align32 offset in
        if size <? data_start then reject ModelLoadFailed
        else mret (mkReader data data_start version metadata infos).
End parse.

(** [GGUFReader::create]; [None] when the file cannot be mapped or is empty. *)
Definition create `{Memory} (file : option bytes) : Parse GGUFReader :=
  match file with
  | None | Some [] => Rejected ModelLoadFailed
  | Some data => parse data 0
  end.

(** ** Queries *)

Definition metadata (key : bytes) (r : GGUFReader) : option GGUFMetadataValue :=
  snd <$> List.find (fun x => bool_decide (x.1 = key)) (metadata_ r).

Definition find_tensor (name : bytes) (r : GGUFReader) : option GGUFTensorInfo :=
  List.find (fun info => bool_decide (ti_name info = name)) (tensor_infos_ r).

Definition metadata_count (r : GGUFReader) : Z := size_Z (metadata_ r).
Definition tensor_count (r : GGUFReader) : Z := size_Z (tensor_infos_ r).

(** The loop of [tensor_numel]; [/] truncates. *)
Fixpoint numel_loop (dims : list Z) (n : Z) : Z :=
  match dims with
  | [] => n
  | dim :: dims =>
      if dim <=? 0 then 0
      else if Z.quot INT64_MAX dim <? n then 0
      else numel_loop dims (n * dim)
  end.

Definition tensor_numel (info : GGUFTensorInfo) : Z :=
  match ti_dims info with [] => 0 | dims => numel_loop dims 1 end.

Section tensors.
Context `{Q8Storage}.

Definition tensor_bytes (info : GGUFTensorInfo) : Result Z :=
  if ti_type info =? kTensorF32 then
    let n := tensor_numel info in
    if n <=? 0 then Unexpected ModelShapeMismatch else Value (u64 (n * 4))
  else if (ti_type info =? kTensorF16) || (ti_type info =? kTensorBF16) then
    let n := tensor_numel info in
    if n <=? 0 then Unexpected ModelShapeMismatch else Value (u64 (n * 2))
  else if ti_type info =? kTensorQ8_0 then
    match q8_0_storage_bytes (rev (ti_dims info)) with
    | None => Unexpected ModelShapeMismatch
    | Some bytes => Value (u64 bytes)
    end
  else Unexpected Unsupported.

(** The span as its offset and length in the mapping. *)
Definition raw_tensor_data (info : GGUFTensorInfo) (r : GGUFReader) : Result (Z * Z) :=
  TRY bytes := tensor_bytes info;;
  let data_offset := u64 (data_start_ r + ti_offset info) in
  if (size_Z (data_ r) <? data_offset) || (size_Z (data_ r) - data_offset <? bytes)
  then Unexpected ModelLoadFailed
  else Value (data_offset, bytes).

(** ** [GGUFWeightSource] *)

Definition storage_type (type : Z) : Result StorageType :=
  if type =? kTensorQ8_0 then Value StoreQ8_0
  else if type =? kTensorF32 then Value StoreFloat32
  else if type =? kTensorF16 then Value StoreFloat16
  else if type =? kTensorBF16 then Value StoreBFloat16
  else Unexpected Unsupported.

Definition weight_has (name : bytes) (r : GGUFReader) : bool := bool_decide (is_Some (find_tensor name r)).

Definition weight_info (name : bytes) (r : GGUFReader) : Result WeightSourceTensorInfo :=
  match find_tensor name r with
  | None => Unexpected ModelLoadFailed
  | Some tensor =>
      TRY type := storage_type (ti_type tensor);;
      TRY bytes := tensor_bytes tensor;;
      Value (mkWeightInfo (rev (ti_dims tensor)) type (ti_offset tensor) bytes)
  end.

Definition weight_read (name : bytes) (r : GGUFReader) : Result (Z * Z) :=
  match find_tensor name r with
  | None => Unexpected ModelLoadFailed
  | Some tensor => raw_tensor_data tensor r
  end.
End tensors.

(** The source as the loaders see it. *)
Definition gguf_source `{Q8Storage} (r : GGUFReader) : WeightSource :=
  mkWeightSource (fun name => weight_has name r) (fun name => weight_info name r)
    (fun name => TRY range := weight_read name r;; Value (mkSpan (data_ r) range.1 range.2)).

(** [name.find(pattern) != npos]. *)
Fixpoint contains_pattern (pattern name : bytes) : bool :=
  bool_decide (take (length pattern) name = pattern) ||
  match name with [] => false | _ :: name => contains_pattern pattern name end.

Definition has_nextn_tensors (r : GGUFReader) : bool :=
  existsb (fun info => contains_pattern (lit ".nextn.") (ti_name info) || contains_pattern (lit "nextn_") (ti_name info))
    (tensor_infos_ r).
