(* ===== verification/GgufProps.v ===== *)
(** * What the GGUF reader guarantees

    Parsing any file ends and reads only the file; a tensor's span lies in the file;
    and parsing inverts the writer of the format, which is the reference here. *)

From Stdlib Require Import ZArith Lia SpecFloat.
From stdpp Require Import prelude strings gmap fin_maps.
From S2P Require Import Prelude Base Bytes Q8 Device Json Gguf.

(** ** Safe parsers *)

(** [p] at offset [o] ends, reads in range and delivers [Q]; it throws only when an
    allocation fails. *)
Definition pwp `{Memory} {A} (p : Parser A) (Q : A -> Z -> Prop) (o : Z) : Prop :=
  match p o with
  | Parsed a o' => Q a o'
  | Rejected _ => True
  | Thrown => exists what n, can_reserve what n = false
  | OutOfRange | NoFuel => False
  end.

Lemma pwp_mono `{Memory} {A} (p : Parser A) (Q Q' : A -> Z -> Prop) o :
  pwp p Q o -> (forall a o', Q a o' -> Q' a o') -> pwp p Q' o.
Proof. unfold pwp. destruct (p o); auto. Qed.

Lemma pwp_bind `{Memory} {A B} (p : Parser A) (k : A -> Parser B) Q o :
  pwp p (fun a o' => pwp (k a) Q o') o -> pwp (p ≫= k) Q o.
Proof. unfold pwp, mbind, Parser_bind. by destruct (p o). Qed.

Lemma pwp_ret `{Memory} {A} (a : A) (Q : A -> Z -> Prop) o : Q a o -> pwp (mret a) Q o.
Proof. done. Qed.

Lemma pwp_map `{Memory} {A B} (f : A -> B) (p : Parser A) (Q : B -> Z -> Prop) o :
  pwp p (fun a o' => Q (f a) o') o -> pwp (f <$> p) Q o.
Proof. unfold fmap, Parser_map. intros Hp. by apply pwp_bind. Qed.

Lemma pwp_reserve `{Memory} what n (Q : unit -> Z -> Prop) o : Q tt o -> pwp (reserve_vector what n) Q o.
Proof. intros. unfold pwp, reserve_vector. destruct (can_reserve what n) eqn:E; [done|by eauto]. Qed.

Create HintDb parse.
#[export] Hint Resolve pwp_ret pwp_reserve : parse.

Section safety.
Context `{Memory} (data : bytes) (Hdata : is_bytes data).

Notation size := (size data).

(** Offsets stay in the file, and the parser moves on by at least [k] bytes. *)
Definition moves {A} (k : Z) (Q : A -> Prop) (o : Z) : A -> Z -> Prop :=
  fun a o' => o + k <= o' <= size /\ Q a.

Definition any {A} (_ : A) : Prop := True.

Lemma pwp_require n (Q : unit -> Z -> Prop) o :
  0 <= o -> 0 <= n -> (o + n <= size -> Q tt o) -> pwp (require data n) Q o.
Proof.
  intros Ho Hn HQ. unfold pwp, require, require_bytes.
  destruct (Z.ltb_spec size o); [done|]. destruct (Z.ltb_spec (size - o) n); [done|]. apply HQ. lia.
Qed.

Lemma pwp_load n (Q : bytes -> Z -> Prop) o :
  0 <= o -> 0 <= n -> o + n <= size -> (forall b, is_bytes b -> size_Z b = n -> Q b o) ->
  pwp (load_bytes data n) Q o.
Proof.
  intros Ho Hn Hs HQ. unfold pwp, load_bytes. rewrite (proj2 (Z.leb_le 0 o)), (proj2 (Z.leb_le 0 n)) by lia.
  rewrite (proj2 (Z.leb_le _ size)) by lia. apply HQ.
  - by apply Forall_take, Forall_drop.
  - apply size_slice. by unfold in_range.
Qed.

Lemma pwp_read_raw n o :
  0 <= o -> 0 <= n -> pwp (read_raw data n) (moves n (fun v => 0 <= v < 256 ^ n) o) o.
Proof.
  intros Ho Hn. unfold read_raw. apply pwp_bind, pwp_require; [done|done|]. intros Hs.
  apply pwp_bind, pwp_load; [done|done|done|]. intros b Hb <-. unfold pwp. simpl.
  split; [lia|]. by apply of_le_range.
Qed.

(** A read value at the end of a file has moved [n] bytes on. *)
Lemma pwp_read_then {A} n (k : Z -> Parser A) Q o :
  0 <= o -> 0 <= n -> (forall v o', 0 <= v < 256 ^ n -> o + n <= o' <= size -> pwp (k v) Q o') ->
  pwp (v ← read_raw data n; k v) Q o.
Proof.
  intros Ho Hn Hk. apply pwp_bind. eapply pwp_mono; [by apply pwp_read_raw|]. intros v o' [? ?]. by apply Hk.
Qed.

Lemma pwp_read_map {B} n (f : Z -> B) o :
  0 <= o -> 0 <= n -> pwp (f <$> read_raw data n) (moves n any o) o.
Proof.
  intros Ho Hn. apply pwp_map. eapply pwp_mono; [by apply pwp_read_raw|]. intros v o' [? ?]. by split.
Qed.

Lemma pwp_read_string o :
  0 <= o -> pwp (read_string data) (moves 8 any o) o.
Proof.
  intros Ho. unfold read_string, read_u64. apply pwp_read_then; [done|lia|]. intros len o' Hl Ho'.
  destruct (SIZE_MAX <? len); [done|]. apply pwp_bind, pwp_require; [lia|lia|]. intros Hs.
  apply pwp_bind, pwp_load; [lia|lia|done|]. intros b _ _. unfold pwp. simpl. split; [lia|done].
Qed.

(** Loops: every iteration moves on. *)
Lemma pwp_repeat {A} (p : Parser A) P fuel n o0 o :
  (forall o, o0 <= o <= size -> pwp p (moves 1 P o) o) ->
  o0 <= o <= size -> size - o < Z.of_nat fuel -> pwp (repeat_parse fuel n p) (moves 0 (Forall P) o) o.
Proof.
  intros Hp. revert n o. induction fuel as [|fuel IH]; intros n o Ho Hf; [lia|]. cbn [repeat_parse].
  destruct (n <=? 0); [unfold pwp; simpl; split; [lia|done]|].
  apply pwp_bind. eapply pwp_mono; [by apply Hp|]. intros x o1 [H1 Hx].
  apply pwp_bind. eapply pwp_mono; [apply IH; lia|]. intros xs o2 [H2 Hxs].
  unfold pwp. simpl. split; [lia|by constructor].
Qed.

(** A reader of a simple value, wrapped. *)
Lemma pwp_wrap {A B} k (p : Parser A) (f : A -> B) Q o :
  pwp p (moves k Q o) o -> 1 <= k -> pwp (v ← p; mret (f v)) (moves 1 any o) o.
Proof.
  intros Hp Hk. apply pwp_bind. eapply pwp_mono; [exact Hp|]. intros v o' [? _]. unfold pwp. simpl. by split; [lia|].
Qed.

Lemma pwp_parse_value fuel type o :
  0 <= o <= size -> size - o < Z.of_nat fuel -> pwp (parse_value data fuel type) (moves 1 any o) o.
Proof.
  revert type o. induction fuel as [|fuel IH]; intros type o Ho Hf; [lia|]. cbn [parse_value].
  do 12 match goal with |- pwp (if ?c then _ else _) _ _ =>
    destruct c; [first [eapply pwp_wrap; [apply pwp_read_raw; lia|lia] | eapply pwp_wrap; [apply pwp_read_map; lia|lia]
                       | eapply pwp_wrap; [apply pwp_read_string; lia|lia]]|] end.
  destruct (type =? kArray); [|done]. apply pwp_read_then; [lia|lia|]. intros ety o1 _ H1.
  apply pwp_read_then; [lia|lia|]. intros count o2 _ H2. apply pwp_bind, pwp_reserve.
  apply pwp_bind. eapply pwp_mono.
  - apply (pwp_repeat _ any (loop_fuel data) count o2).
    + intros o3 H3. apply IH; lia.
    + lia.
    + unfold loop_fuel, size, size_Z. lia.
  - intros vs o3 [H3 _]. unfold pwp. simpl. split; [lia|done].
Qed.

Lemma pwp_parse_entry o : 0 <= o <= size -> pwp (parse_entry data) (moves 1 any o) o.
Proof.
  intros Ho. unfold parse_entry. apply pwp_bind. eapply pwp_mono; [apply pwp_read_string; lia|]. intros key o1 [H1 _].
  apply pwp_read_then; [lia|lia|]. intros type o2 _ H2. destruct (kF64 <? type); [done|].
  apply pwp_bind. eapply pwp_mono; [apply pwp_parse_value; [lia|unfold loop_fuel, size, size_Z; lia]|].
  intros v o3 [H3 _]. unfold pwp. simpl. split; [lia|done].
Qed.

(** What the parser checks of a tensor. *)
Record info_ok (info : GGUFTensorInfo) : Prop := mk_info_ok {
  io_rank : (1 <= length (ti_dims info) <= 8)%nat;
  io_type : supported_tensor_type (ti_type info) = true;
  io_offset : 0 <= ti_offset info < 2 ^ 64;
}.

(** The dimensions; here the count bounds the loop. *)
Lemma pwp_dims fuel n o :
  0 <= o <= size -> n <= Z.of_nat fuel ->
  pwp (repeat_parse fuel n (i64 <$> read_u64 data)) (moves 0 (fun l => length l = Z.to_nat n) o) o.
Proof.
  revert n o. induction fuel as [|fuel IH]; intros n o Ho Hn; cbn [repeat_parse].
  { destruct (Z.leb_spec n 0); [|lia]. unfold pwp. simpl. split; [lia|simpl; lia]. }
  destruct (Z.leb_spec n 0); [unfold pwp; simpl; split; [lia|simpl; lia]|].
  apply pwp_bind. eapply pwp_mono; [apply pwp_read_map; lia|]. intros x o1 [H1 _].
  apply pwp_bind. eapply pwp_mono; [apply (IH (n - 1)); lia|]. intros xs o2 [H2 Hl].
  unfold pwp. simpl. split; [lia|]. cbn [length] in *. lia.
Qed.

Lemma pwp_parse_tensor_info o : 0 <= o <= size -> pwp (parse_tensor_info data) (moves 1 info_ok o) o.
Proof.
  intros Ho. unfold parse_tensor_info. apply pwp_bind. eapply pwp_mono; [apply pwp_read_string; lia|]. intros name o1 [H1 _].
  apply pwp_read_then; [lia|lia|]. intros n o2 Hn H2.
  destruct (Z.eqb_spec n 0); [done|]. destruct (Z.ltb_spec 8 n); [done|]. simpl orb. cbv iota.
  apply pwp_bind. eapply pwp_mono; [apply (pwp_dims 8 n); lia|]. intros dims o3 [H3 Hdims].
  apply pwp_read_then; [lia|lia|]. intros type o4 _ H4. destruct (kTensorBF16 <? type); [done|].
  destruct (supported_tensor_type type) eqn:Ht; [|done]. simpl negb. cbv iota.
  apply pwp_read_then; [lia|lia|]. intros off o5 Hoff H5. unfold pwp. simpl. split; [lia|].
  constructor; simpl; [lia|done|]. change (256 ^ 8) with (2 ^ 64) in Hoff. lia.
Qed.

(** What the reader's queries rely on. *)
Record reader_ok (r : GGUFReader) : Prop := mk_reader_ok {
  rd_data : data_ r = data;
  rd_start : 24 <= data_start_ r <= size;
  rd_version : version_ r = 3;
  rd_infos : Forall info_ok (tensor_infos_ r);
}.

Lemma align32_spec o : 0 <= o < 2 ^ 63 -> o <= align32 o < o + 32 /\ (32 | align32 o).
Proof.
  intros Ho. unfold align32. rewrite u64_small by lia.
  assert (Z.land (o + 31) (SIZE_MAX - 31) = (o + 31) / 32 * 32) as ->.
  { change (SIZE_MAX - 31) with (Z.shiftl (Z.ones 59) 5). rewrite <- (Z.shiftl_mul_pow2 _ 5) by lia.
    rewrite <- (Z.shiftr_div_pow2 _ 5) by lia. apply Z.bits_inj'. intros i Hi.
    rewrite Z.land_spec, !Z.shiftl_spec by done. destruct (Z.lt_ge_cases i 5).
    - rewrite !(Z.testbit_neg_r _ (i - 5)) by lia. by rewrite andb_false_r.
    - rewrite Z.shiftr_spec by lia. rewrite Z.sub_add. destruct (Z.lt_ge_cases (i - 5) 59).
      + rewrite Z.ones_spec_low by lia. by rewrite andb_true_r.
      + rewrite Z.ones_spec_high by lia. rewrite andb_false_r. symmetry.
        apply Z.bits_above_log2; [lia|]. destruct (decide (o + 31 = 0)); [lia|].
        apply Z.log2_lt_pow2; [lia|]. apply (Z.lt_le_trans _ (2 ^ 64)); [lia|]. apply Z.pow_le_mono_r; lia. }
  split; [|apply Z.divide_factor_r]. pose proof (Z.div_mod (o + 31) 32 ltac:(lia)).
  pose proof (Z.mod_pos_bound (o + 31) 32 ltac:(lia)). lia.
Qed.

Lemma pwp_parse : size < 2 ^ 63 -> pwp (parse data) (fun r _ => reader_ok r) 0.
Proof.
  intros Hsz. unfold parse. destruct (Z.ltb_spec size 24) as [|Hmin]; [done|].
  apply pwp_bind, pwp_load; [lia|lia|lia|]. intros magic _ _. case_bool_decide; [|done]. simpl negb. cbv iota.
  apply pwp_bind. unfold advance at 1. unfold pwp at 1. apply pwp_bind, pwp_map, pwp_load; [lia|lia|lia|]. intros vb _ _.
  apply pwp_bind. unfold advance, pwp at 1.
  destruct (Z.eqb_spec (of_le vb) 3) as [Hver|]; [|done]. simpl negb. cbv iota.
  apply pwp_read_then; [lia|lia|]. intros nt o1 _ H1. apply pwp_read_then; [lia|lia|]. intros nm o2 _ H2.
  apply pwp_bind, pwp_reserve. apply pwp_bind. eapply pwp_mono.
  { apply (pwp_repeat (parse_entry data) any (loop_fuel data) nm o2); [intros; apply pwp_parse_entry; lia|lia|].
    unfold loop_fuel, size, size_Z. lia. }
  intros meta o3 [H3 _]. apply pwp_bind, pwp_reserve. apply pwp_bind. eapply pwp_mono.
  { apply (pwp_repeat (parse_tensor_info data) info_ok (loop_fuel data) nt o3); [intros; apply pwp_parse_tensor_info; lia|lia|].
    unfold loop_fuel, size, size_Z. lia. }
  intros infos o4 [H4 Hi]. apply pwp_bind. unfold pwp at 1. cbv zeta.
  destruct (align32_spec o4 ltac:(lia)) as [Ha _].
  destruct (Z.ltb_spec size (align32 o4)); [done|]. unfold pwp. simpl. constructor; simpl; [done|lia|done|done].
Qed.

End safety.

(** ** Tensor data *)

Section tensors.
Context `{Q8Storage}.

Lemma tensor_bytes_range info n : tensor_bytes info = Value n -> 0 <= n < 2 ^ 64.
Proof.
  unfold tensor_bytes. repeat case_match; intros E; try done; injection E as <-; apply u64_range.
Qed.

(** A span lies in the file, whatever the tensor info says. *)
Lemma raw_tensor_data_range info r off n :
  raw_tensor_data info r = Value (off, n) -> in_range (data_ r) off n.
Proof.
  unfold raw_tensor_data. destruct (tensor_bytes info) as [m|] eqn:E; [|done]. apply tensor_bytes_range in E.
  pose proof (u64_range (data_start_ r + ti_offset info)).
  destruct (Z.ltb_spec (size_Z (data_ r)) (u64 (data_start_ r + ti_offset info))); [done|].
  destruct (Z.ltb_spec (size_Z (data_ r) - u64 (data_start_ r + ti_offset info)) m); [done|].
  simpl orb. cbv iota. intros [= <- <-]. unfold in_range. lia.
Qed.
End tensors.

(** ** The writer of the format *)

Definition write_string (s : bytes) : bytes := le_bytes 8 (size_Z s) ++ s.

Definition elem_type (l : list GGUFMetadataValue) : Z := match l with [] => 0 | v :: _ => value_type v end.

Fixpoint write_value (v : GGUFMetadataValue) : bytes :=
  match v with
  | mkGGUF _ x =>
      match x with
      | VU8 z | VI8 z => le_bytes 1 z
      | VU16 z | VI16 z => le_bytes 2 z
      | VU32 z | VI32 z | VF32 z => le_bytes 4 z
      | VU64 z | VI64 z | VF64 z => le_bytes 8 z
      | VBool b => [if b then 1 else 0]
      | VString s => write_string s
      | VArray l => le_bytes 4 (elem_type l) ++ le_bytes 8 (size_Z l) ++ concat (map write_value l)
      end
  end.

Definition in_u (w z : Z) : bool := (0 <=? z) && (z <? 2 ^ w).
Definition in_s (w z : Z) : bool := (- 2 ^ (w - 1) <=? z) && (z <? 2 ^ (w - 1)).

(** Values whose type tag is right, whose integers have the width, and whose arrays
    have elements of one type. *)
Fixpoint value_ok (v : GGUFMetadataValue) : bool :=
  match v with
  | mkGGUF t x =>
      match x with
      | VU8 z => (t =? kU8) && in_u 8 z
      | VI8 z => (t =? kI8) && in_s 8 z
      | VU16 z => (t =? kU16) && in_u 16 z
      | VI16 z => (t =? kI16) && in_s 16 z
      | VU32 z => (t =? kU32) && in_u 32 z
      | VI32 z => (t =? kI32) && in_s 32 z
      | VU64 z => (t =? kU64) && in_u 64 z
      | VI64 z => (t =? kI64) && in_s 64 z
      | VF32 z => (t =? kF32) && in_u 32 z
      | VF64 z => (t =? kF64) && in_u 64 z
      | VBool _ => t =? kBool
      | VString s => (t =? kString) && (size_Z s <? 2 ^ 63)
      | VArray l => (t =? kArray) && (size_Z l <? 2 ^ 63) &&
                    forallb (fun e => value_ok e && (value_type e =? elem_type l)) l
      end
  end.

Definition write_entry (e : bytes * GGUFMetadataValue) : bytes :=
  write_string e.1 ++ le_bytes 4 (value_type e.2) ++ write_value e.2.

Definition write_info (i : GGUFTensorInfo) : bytes :=
  write_string (ti_name i) ++ le_bytes 4 (size_Z (ti_dims i)) ++ concat (map (le_bytes 8) (ti_dims i)) ++
  le_bytes 4 (ti_type i) ++ le_bytes 8 (ti_offset i).

Definition write_header (meta : list (bytes * GGUFMetadataValue)) (infos : list GGUFTensorInfo) : bytes :=
  kMagic ++ le_bytes 4 3 ++ le_bytes 8 (size_Z infos) ++ le_bytes 8 (size_Z meta) ++
  concat (map write_entry meta) ++ concat (map write_info infos).

Lemma value_ok_type v : value_ok v = true -> 0 <= value_type v <= kF64.
Proof.
  destruct v as [t []]; simpl; intros; bprop; subst;
    unfold kU8, kI8, kU16, kI16, kU32, kI32, kU64, kI64, kF32, kF64, kBool, kString, kArray; lia.
Qed.

(** ** Reading what was written *)

Section roundtrip.
Context `{Memory} (data : bytes).

Notation size := (size data).

(** The file has [w] at offset [o]. *)
Definition file_has (o : Z) (w : bytes) : Prop := in_range data o (size_Z w) /\ slice data o (size_Z w) = w.

(** Wherever the file has [w], [p] reads it as [a]. *)
Definition parses {A} (p : Parser A) (w : bytes) (a : A) : Prop :=
  forall o, file_has o w -> p o = Parsed a (o + size_Z w).

Lemma has_app o w1 w2 : file_has o (w1 ++ w2) -> file_has o w1 /\ file_has (o + size_Z w1) w2.
Proof.
  unfold file_has, in_range, slice, size_Z. rewrite length_app. intros [(Ho & _ & Hs) E].
  assert (take (length w1) (drop (Z.to_nat o) data) = w1 /\
          take (length w2) (drop (Z.to_nat o + length w1) data) = w2) as [E1 E2].
  { replace (Z.to_nat (Z.of_nat (length w1 + length w2))) with (length w1 + length w2)%nat in E by lia.
    rewrite <- drop_drop. rewrite <- (take_drop (length w1) (take _ _)) in E.
    rewrite take_take, Nat.min_l in E by lia. rewrite <- take_drop_commute in E || rewrite skipn_firstn_comm in E.
    replace (length w1 + length w2 - length w1)%nat with (length w2) in E by lia.
    apply app_inj_1 in E as [? ?]; [done|]. rewrite length_take, length_drop. lia. }
  split; (split; [lia|]).
  - by rewrite Nat2Z.id.
  - rewrite Nat2Z.id. replace (Z.to_nat (o + Z.of_nat (length w1))) with (Z.to_nat o + length w1)%nat by lia. done.
Qed.

Lemma parses_bind {A B} (p : Parser A) (k : A -> Parser B) w1 w2 a b :
  parses p w1 a -> parses (k a) w2 b -> parses (p ≫= k) (w1 ++ w2) b.
Proof.
  intros Hp Hk o [H1 H2]%has_app. unfold mbind, Parser_bind. rewrite (Hp o H1), (Hk _ H2), size_Z_app. f_equal. lia.
Qed.

Lemma parses_ret {A} (a : A) : parses (mret a) [] a.
Proof. intros o _. unfold mret, Parser_ret. f_equal. unfold size_Z. simpl. lia. Qed.

Lemma parses_map {A B} (f : A -> B) (p : Parser A) w a b : parses p w a -> f a = b -> parses (f <$> p) w b.
Proof.
  intros Hp <-. unfold fmap, Parser_map. rewrite <- (app_nil_r w). eapply parses_bind; [exact Hp|apply parses_ret].
Qed.

(** A parser that ends with a bind, on its last part. *)
Lemma parses_last {A B} (p : Parser A) (k : A -> Parser B) w a b :
  parses p w a -> k a = mret b -> parses (p ≫= k) w b.
Proof. intros Hp Hk. rewrite <- (app_nil_r w). eapply parses_bind; [exact Hp|rewrite Hk; apply parses_ret]. Qed.

(** An action that reads nothing. *)
Lemma parses_skip {A B} (p : Parser A) (k : A -> Parser B) w a b :
  (forall o, p o = Parsed a o) -> parses (k a) w b -> parses (p ≫= k) w b.
Proof. intros Hp Hk o Ho. unfold mbind, Parser_bind. rewrite Hp. by apply Hk. Qed.

Lemma parses_word (w : bytes) n : size_Z w = n -> parses (read_raw data n) w (of_le w).
Proof.
  intros Hn o [(Ho & _ & Hs) E]. rewrite Hn in *. unfold read_raw, mbind, Parser_bind, require, require_bytes.
  change (Prelude.size_Z data) with size in *.
  pose proof (size_Z_nonneg w). rewrite Hn in *.
  destruct (Z.ltb_spec size o); [lia|]. destruct (Z.ltb_spec (size - o) n); [lia|]. simpl orb. cbv iota.
  unfold load_bytes. rewrite (proj2 (Z.leb_le 0 o)), (proj2 (Z.leb_le 0 n)), (proj2 (Z.leb_le (o + n) size)) by lia.
  simpl. by rewrite E.
Qed.

Lemma parses_raw n z : parses (read_raw data (Z.of_nat n)) (le_bytes n z) (z mod 256 ^ Z.of_nat n).
Proof. rewrite <- of_le_le_bytes. apply parses_word. unfold size_Z. by rewrite length_le_bytes. Qed.

(** Words that fit their width are read back. *)
Lemma parses_u n z : 0 <= z < 256 ^ Z.of_nat n -> parses (read_raw data (Z.of_nat n)) (le_bytes n z) z.
Proof. intros Hz. rewrite <- (Z.mod_small z (256 ^ Z.of_nat n)) at 2 by done. apply parses_raw. Qed.

Lemma parses_s w n z :
  256 ^ Z.of_nat n = 2 ^ w -> 0 < w -> in_s w z = true ->
  parses (sint w <$> read_raw data (Z.of_nat n)) (le_bytes n z) z.
Proof.
  intros Hw Hpos Hz. eapply parses_map; [apply parses_raw|]. rewrite Hw. unfold sint.
  rewrite Zplus_mod_idemp_l. apply (sint_small w z); [done|]. unfold in_s in Hz. lia.
Qed.

Lemma parses_string s : size_Z s < 2 ^ 63 -> parses (read_string data) (write_string s) s.
Proof.
  intros Hs. unfold read_string, write_string, read_u64. pose proof (size_Z_nonneg s).
  eapply parses_bind; [apply (parses_u 8); simpl; lia|]. rewrite (proj2 (Z.ltb_ge _ _)) by (unfold SIZE_MAX; lia).
  intros o [(Ho & _ & Hso) E]. unfold mbind, Parser_bind, require, require_bytes.
  change (Prelude.size_Z data) with size in *.
  destruct (Z.ltb_spec size o); [lia|]. destruct (Z.ltb_spec (size - o) (size_Z s)); [lia|]. simpl orb. cbv iota.
  unfold load_bytes. rewrite (proj2 (Z.leb_le 0 o)), (proj2 (Z.leb_le 0 _)), (proj2 (Z.leb_le _ size)) by lia.
  simpl. by rewrite E.
Qed.

Lemma parses_repeat {A} (p : Parser A) (write : A -> bytes) l fuel :
  Forall (fun x => parses p (write x) x) l -> (length l <= fuel)%nat ->
  parses (repeat_parse fuel (size_Z l) p) (concat (map write l)) l.
Proof.
  intros Hl. revert fuel. induction Hl as [|x l Hx _ IH]; intros fuel Hf.
  { destruct fuel; apply parses_ret. }
  destruct fuel as [|fuel]; simpl in Hf; [lia|]. cbn [repeat_parse map concat].
  rewrite size_Z_cons. pose proof (size_Z_nonneg l). rewrite (proj2 (Z.leb_gt _ 0)) by lia.
  eapply parses_bind; [exact Hx|]. replace (1 + size_Z l - 1) with (size_Z l) by lia.
  eapply parses_last; [apply IH; lia|done].
Qed.

Lemma concat_part {A} (write : A -> bytes) x l :
  x ∈ l -> (length (write x) <= length (concat (map write l)))%nat.
Proof.
  induction l as [|y l IH]; [by intros ?%not_elem_of_nil|].
  intros [->|Hx]%elem_of_cons; simpl; rewrite length_app; [lia|]. apply IH in Hx. lia.
Qed.

(** What is in the file is not longer than the file. *)
Lemma has_length o w : file_has o w -> (length w <= length data)%nat.
Proof. intros [(? & _ & ?) _]. unfold size_Z in *. lia. Qed.

Lemma length_concat_ge {A} (write : A -> bytes) l :
  Forall (fun x => 1 <= length (write x))%nat l -> (length l <= length (concat (map write l)))%nat.
Proof. induction 1 as [|x l Hx _ IH]; simpl; [lia|]. rewrite length_app. lia. Qed.

Lemma write_value_length v : (1 <= length (write_value v))%nat.
Proof. destruct v as [t []]; simpl; lia. Qed.

Hypothesis Hreserve : forall what n, n <= Prelude.size_Z data -> can_reserve what n = true.

Lemma parses_reserve {B} what n (k : unit -> Parser B) w b :
  n <= Prelude.size_Z data -> parses (k tt) w b -> parses (u ← reserve_vector what n; k u) w b.
Proof. intros Hn. apply parses_skip. intros o. unfold reserve_vector. by rewrite Hreserve. Qed.

(** The array branch of [parse_value]. *)
Definition parse_array (fuel : nat) : Parser GGUFMetadataValue :=
  elem_type ← read_u32 data;
  count ← read_u64 data;
  _ ← reserve_vector ArrayValues count;
  values ← repeat_parse (loop_fuel data) count (parse_value data fuel elem_type);
  mret (mkGGUF 9 (VArray values)).

Ltac uword n := eapply parses_last; [apply (parses_u n); unfold in_u in *; bprop; simpl; lia|reflexivity].
Ltac sword w n := eapply parses_last; [apply (parses_s w n); [reflexivity|lia|assumption]|reflexivity].

Lemma parses_value n v fuel :
  (length (write_value v) <= n)%nat -> (n < fuel)%nat -> value_ok v = true ->
  parses (parse_value data fuel (value_type v)) (write_value v) v.
Proof.
  revert v fuel. induction n as [|n IH]; intros v fuel Hl Hf Hv; [pose proof (write_value_length v); lia|].
  destruct fuel as [|fuel]; [lia|]. destruct v as [t x]; destruct x; simpl in Hv; bprop; subst; cbn [parse_value value_type write_value];
    unfold kU8, kI8, kU16, kI16, kU32, kI32, kU64, kI64, kF32, kF64, kBool, kString, kArray; cbn [Z.eqb Pos.eqb].
  - uword 1%nat.
  - sword 8 1%nat.
  - uword 2%nat.
  - sword 16 2%nat.
  - uword 4%nat.
  - sword 32 4%nat.
  - uword 8%nat.
  - sword 64 8%nat.
  - uword 4%nat.
  - uword 8%nat.
  - (* bool *)
    eapply parses_last; [|done]. eapply parses_map; [apply (parses_word [if b then 1 else 0]); done|]. by destruct b.
  - (* string *)
    eapply parses_last; [by apply parses_string|done].
  - (* array *)
    cbn [write_value] in Hl. rewrite !length_app, !length_le_bytes in Hl. pose proof (size_Z_nonneg l).
    intros o Ho. pose proof (has_length _ _ Ho) as Hlen. rewrite !length_app, !length_le_bytes in Hlen.
    pose proof (length_concat_ge write_value l ltac:(apply Forall_forall; intros; apply write_value_length)) as Hcount.
    assert (0 <= elem_type l < 2 ^ 32) as Hety.
    { destruct l as [|e l]; simpl; [lia|]. simpl in *. bprop. pose proof (value_ok_type e ltac:(done)). unfold kF64 in *. lia. }
    revert o Ho. change (parses (parse_array fuel) (le_bytes 4 (elem_type l) ++ le_bytes 8 (size_Z l) ++
      concat (map write_value l)) (mkGGUF 9 (VArray l))). unfold parse_array.
    eapply (parses_bind _ _ (le_bytes 4 (elem_type l)) _ (elem_type l)); [apply (parses_u 4); simpl; lia|].
    eapply parses_bind; [apply (parses_u 8); simpl; lia|]. apply parses_reserve; [unfold Prelude.size_Z; lia|].
    eapply parses_last; [|done]. apply (parses_repeat _ write_value); [|unfold loop_fuel; lia].
    apply Forall_forall. intros e He. pose proof (concat_part write_value e l He).
    match goal with H : forallb _ l = true |- _ => rewrite forallb_forall in H; specialize (H e (proj1 (list_elem_of_In _ _) He)) end.
    bprop. match goal with H : value_type e = _ |- _ => rewrite <- H end. apply IH; [lia|lia|done].
Qed.
Definition entry_ok (e : bytes * GGUFMetadataValue) : Prop := size_Z e.1 < 2 ^ 63 /\ value_ok e.2 = true.

Record tensor_ok (i : GGUFTensorInfo) : Prop := mk_tensor_ok {
  to_name : size_Z (ti_name i) < 2 ^ 63;
  to_rank : (1 <= length (ti_dims i) <= 8)%nat;
  to_dims : Forall (fun d => in_s 64 d = true) (ti_dims i);
  to_type : supported_tensor_type (ti_type i) = true;
  to_offset : in_u 64 (ti_offset i) = true;
}.

Lemma write_string_length s : (8 <= length (write_string s))%nat.
Proof. unfold write_string. rewrite length_app, length_le_bytes. lia. Qed.

Lemma parses_entry e : entry_ok e -> (length (write_value e.2) <= length data)%nat ->
  parses (parse_entry data) (write_entry e) e.
Proof.
  destruct e as [key v]. intros [Hk Hv] Hl. simpl in *. unfold parse_entry, write_entry. cbn [fst snd].
  pose proof (value_ok_type v Hv) as Ht. unfold kF64 in Ht.
  eapply parses_bind; [by apply parses_string|]. eapply parses_bind; [apply (parses_u 4); simpl; lia|].
  rewrite (proj2 (Z.ltb_ge _ _)) by (unfold kF64; lia).
  eapply parses_last; [apply (parses_value (length data)); [done|unfold loop_fuel; lia|done]|done].
Qed.

Lemma supported_cases t : supported_tensor_type t = true -> 0 <= t <= kTensorBF16.
Proof. unfold supported_tensor_type, kTensorF32, kTensorF16, kTensorQ8_0, kTensorBF16. lia. Qed.

Lemma parses_info i : tensor_ok i -> parses (parse_tensor_info data) (write_info i) i.
Proof.
  destruct i as [name dims type off]. intros [Hn Hr Hd Ht Ho]. simpl in *. unfold parse_tensor_info, write_info.
  cbn [ti_name ti_dims ti_type ti_offset].
  pose proof (supported_cases _ Ht) as Hty. unfold kTensorBF16 in Hty. unfold in_u in Ho. bprop.
  assert (1 <= size_Z dims <= 8) by (unfold size_Z; lia).
  eapply parses_bind; [by apply parses_string|]. eapply parses_bind; [apply (parses_u 4); simpl; lia|].
  rewrite (proj2 (Z.eqb_neq (size_Z dims) 0)), (proj2 (Z.ltb_ge 8 _)) by lia. simpl orb. cbv iota.
  eapply parses_bind; [apply (parses_repeat _ (le_bytes 8)); [|lia]|].
  { eapply Forall_impl; [exact Hd|]. intros d. simpl. apply (parses_s 64 8); [reflexivity|lia]. }
  eapply parses_bind; [apply (parses_u 4); simpl; lia|].
  rewrite (proj2 (Z.ltb_ge _ _)) by (unfold kTensorBF16; lia). rewrite Ht. simpl negb. cbv iota.
  eapply parses_last; [apply (parses_u 8); simpl; lia|done].
Qed.

End roundtrip.

Lemma bind_parsed {A B} (p : Parser A) (k : A -> Parser B) o a o' : p o = Parsed a o' -> (p ≫= k) o = k a o'.
Proof. intros E. unfold mbind, Parser_bind. by rewrite E. Qed.

Lemma map_parsed {A B} (p : Parser A) (f : A -> B) o a o' : p o = Parsed a o' -> (f <$> p) o = Parsed (f a) o'.
Proof. intros E. unfold fmap, Parser_map, mbind, Parser_bind. by rewrite E. Qed.

(** The parts of a header and where they are. *)
Lemma write_header_parts data meta infos :
  file_has data 0 (write_header meta infos) ->
  file_has data 0 kMagic /\ file_has data 4 (le_bytes 4 3) /\ file_has data 8 (le_bytes 8 (size_Z infos)) /\
  file_has data 16 (le_bytes 8 (size_Z meta)) /\ file_has data 24 (concat (map write_entry meta)) /\
  file_has data (24 + size_Z (concat (map write_entry meta))) (concat (map write_info infos)).
Proof.
  intros [H0 H]%has_app. change (0 + size_Z kMagic) with 4 in H. apply has_app in H as [H4 H].
  change (4 + size_Z (le_bytes 4 3)) with 8 in H. apply has_app in H as [H8 H]. apply has_app in H as [H16 H].
  assert (forall z, size_Z (le_bytes 8 z) = 8) as L8 by (intros z; unfold size_Z; by rewrite length_le_bytes).
  rewrite L8 in H16, H. rewrite L8 in H. apply has_app in H as [H24 H]. by split_and!.
Qed.

Lemma load_has data n o w : file_has data o w -> size_Z w = n -> load_bytes data n o = Parsed w o.
Proof.
  intros [(Ho & Hn & Hs) E] <-. unfold load_bytes, Gguf.size.
  rewrite (proj2 (Z.leb_le 0 o)), (proj2 (Z.leb_le 0 _)), (proj2 (Z.leb_le _ (size_Z data))) by lia.
  simpl. by rewrite E.
Qed.

(** A written header is read back. *)
Lemma parse_written `{Memory} meta infos rest :
  let header := write_header meta infos in
  let data := header ++ rest in
  Forall entry_ok meta -> Forall tensor_ok infos -> size_Z data < 2 ^ 63 -> align32 (size_Z header) <= size_Z data ->
  (forall what n, n <= size_Z data -> can_reserve what n = true) ->
  parse data 0 = Parsed (mkReader data (align32 (size_Z header)) 3 meta infos) (size_Z header).
Proof.
  intros header data Hm Hi Hsz Hal Hres.
  assert (file_has data 0 header) as Hhas.
  { split; [|unfold slice, data, size_Z; rewrite Nat2Z.id; apply take_app_length].
    unfold in_range, data. rewrite size_Z_app. pose proof (size_Z_nonneg rest). pose proof (size_Z_nonneg header). lia. }
  assert (24 <= size_Z header) as Hmin.
  { unfold header, write_header, size_Z. rewrite !length_app, !length_le_bytes. change (length kMagic) with 4%nat. lia. }
  assert (24 <= size_Z data) as Hdata by (unfold data; rewrite size_Z_app; pose proof (size_Z_nonneg rest); lia).
  assert (forall z, size_Z (le_bytes 8 z) = 8) as L8 by (intros z; unfold size_Z; by rewrite length_le_bytes).
  assert (size_Z header = 24 + size_Z (concat (map write_entry meta)) + size_Z (concat (map write_info infos))) as Hsize.
  { unfold header, write_header. rewrite !size_Z_app, !L8. change (size_Z kMagic) with 4.
    change (size_Z (le_bytes 4 3)) with 4. lia. }
  set (hs := size_Z header) in *. clearbody hs.
  destruct (write_header_parts data meta infos Hhas) as (H0 & H4 & H8 & H16 & H24 & Hinf).
  unfold parse, Gguf.size. rewrite (proj2 (Z.ltb_ge _ _)) by lia.
  rewrite (bind_parsed _ _ _ _ _ (load_has data 4 0 kMagic H0 eq_refl)), bool_decide_eq_true_2 by done. cbn [negb].
  erewrite bind_parsed by reflexivity. erewrite bind_parsed.
  2: { apply map_parsed. exact (load_has data 4 4 (le_bytes 4 3) H4 eq_refl). }
  erewrite bind_parsed by reflexivity. change (of_le (le_bytes 4 3) =? 3) with true. cbn [negb].
  pose proof (length_concat_ge write_info infos) as Ci. pose proof (length_concat_ge write_entry meta) as Cm.
  pose proof (size_Z_nonneg infos) as Pi. pose proof (size_Z_nonneg meta) as Pm.
  pose proof (has_length _ _ _ H24) as Lm. pose proof (has_length _ _ _ Hinf) as Li.
  assert (Forall (fun x => 1 <= length (write_info x))%nat infos) as Fi.
  { apply Forall_forall. intros x _. unfold write_info. rewrite length_app. pose proof (write_string_length (ti_name x)). lia. }
  assert (Forall (fun x => 1 <= length (write_entry x))%nat meta) as Fm.
  { apply Forall_forall. intros x _. unfold write_entry. rewrite length_app. pose proof (write_string_length x.1). lia. }
  specialize (Ci Fi). specialize (Cm Fm).
  assert (size_Z infos <= size_Z data /\ size_Z meta <= size_Z data) as [Bi Bm] by (unfold size_Z; lia).
  rewrite (bind_parsed _ _ _ _ _ (parses_u data 8 (size_Z infos) ltac:(simpl; lia) 8 H8)), L8.
  rewrite (bind_parsed _ _ _ _ _ (parses_u data 8 (size_Z meta) ltac:(simpl; lia) 16 H16)), L8.
  rewrite (bind_parsed _ _ 24 tt 24) by (unfold reserve_vector; by rewrite Hres).
  erewrite bind_parsed.
  2: { apply (parses_repeat data (parse_entry data) write_entry); [|unfold loop_fuel; lia|exact H24].
       apply Forall_forall. intros e He. apply parses_entry; [done|by eapply Forall_forall in Hm|].
       pose proof (concat_part write_entry e meta He) as Hp. unfold write_entry at 1 in Hp. rewrite !length_app in Hp. lia. }
  rewrite (bind_parsed _ _ _ tt (24 + size_Z (concat (map write_entry meta)))) by (unfold reserve_vector; by rewrite Hres).
  erewrite bind_parsed.
  2: { apply (parses_repeat data (parse_tensor_info data) write_info); [|unfold loop_fuel; lia|exact Hinf].
       eapply Forall_impl; [exact Hi|]. intros i. by apply parses_info. }
  erewrite bind_parsed by reflexivity. cbv zeta. rewrite <- Hsize, (proj2 (Z.ltb_ge _ _)) by done. reflexivity.
Qed.

(** ** The claims *)

Lemma create_safe `{Memory} `{Q8Storage} data :
  is_bytes data -> size_Z data < 2 ^ 63 ->
  match create (Some data) with
  | Parsed r _ =>
      reader_ok data r /\ forall name off n, weight_read name r = Value (off, n) -> in_range data off n
  | Rejected _ => True
  | Thrown => exists what n, can_reserve what n = false
  | OutOfRange | NoFuel => False
  end.
Proof.
  intros Hb Hs. unfold create. destruct data as [|x data]; [done|]. pose proof (pwp_parse (x :: data) Hb Hs) as Hp.
  unfold pwp in Hp. destruct (parse (x :: data) 0) as [r o| | | |]; try done. split; [done|].
  intros name off n Hr. unfold weight_read in Hr. destruct (find_tensor name r); [|done].
  apply raw_tensor_data_range in Hr. by rewrite (rd_data _ _ Hp) in Hr.
Qed.

(** C37: Reading any file ends and never reads outside the file: it is rejected, or an
    allocation of a size the file asks for throws, or the reader is consistent (version,
    start of the data section, supported tensor types) and every tensor's span that it
    hands out lies in the file. *)
Theorem gguf_reading_safe `{Memory} `{Q8Storage} data :
  is_bytes data -> size_Z data < 2 ^ 63 ->
  match create (Some data) with
  | Parsed r _ =>
      reader_ok data r /\ forall name off n, weight_read name r = Value (off, n) -> in_range data off n
  | Rejected _ => True
  | Thrown => exists what n, can_reserve what n = false
  | OutOfRange | NoFuel => False
  end.
Proof. apply create_safe. Qed.

(** C36: Parsing inverts the writer of the format: a file that starts with the header of
    some metadata and tensor infos, nested arrays included, is read back as exactly
    these, with the data section at the next multiple of 32. *)
Theorem gguf_parse_inverts_write `{Memory} meta infos rest :
  let header := write_header meta infos in
  let data := header ++ rest in
  Forall entry_ok meta -> Forall tensor_ok infos -> size_Z data < 2 ^ 63 -> align32 (size_Z header) <= size_Z data ->
  (forall what n, n <= size_Z data -> can_reserve what n = true) ->
  create (Some data) = Parsed (mkReader data (align32 (size_Z header)) 3 meta infos) (size_Z header).
Proof.
  intros header data Hm Hi Hsz Hal Hres. transitivity (parse data 0); [reflexivity|].
  by apply parse_written.
Qed.

(** ** A small file *)

#[local] Instance small_memory : Memory := fun _ n => n <=? 2 ^ 20.
#[local] Instance small_q8 : Q8Storage := fun dims => None.

Definition small_meta : list (bytes * GGUFMetadataValue) :=
  [(lit "general.architecture", mkGGUF kString (VString (lit "qwen35")));
   (lit "n", mkGGUF kI32 (VI32 (-5)));
   (lit "l", mkGGUF kArray (VArray [mkGGUF kArray (VArray [mkGGUF kU8 (VU8 1); mkGGUF kU8 (VU8 255)]);
                                    mkGGUF kArray (VArray [])]))].
Definition small_infos : list GGUFTensorInfo :=
  [mkTensorInfo (lit "w") [2; 2] kTensorF32 0; mkTensorInfo (lit "x") [4] kTensorF32 (2 ^ 64 - 32)].
Definition small_header : bytes := write_header small_meta small_infos.
Definition small_rest : bytes := repeat 7 (Z.to_nat (align32 (size_Z small_header) - size_Z small_header + 16)).
Definition small_reader : GGUFReader :=
  mkReader (small_header ++ small_rest) (align32 (size_Z small_header)) 3 small_meta small_infos.

Lemma gguf_parse_inverts_write_witness :
  create (Some (small_header ++ small_rest)) = Parsed small_reader (size_Z small_header).
Proof.
  apply (gguf_parse_inverts_write small_meta small_infos small_rest).
  - repeat constructor.
  - repeat constructor.
  - vm_compute. reflexivity.
  - vm_compute. discriminate.
  - intros what n Hn. change (size_Z (write_header small_meta small_infos ++ small_rest)) with
      (Z.of_nat (length (small_header ++ small_rest))) in Hn.
    assert (Z.of_nat (length (small_header ++ small_rest)) <=? 2 ^ 20 = true) as Hl by (vm_compute; reflexivity).
    apply Z.leb_le in Hl. apply Z.leb_le. lia.
Defined.

Lemma gguf_reading_safe_witness :
  exists r, create (Some (small_header ++ small_rest)) = Parsed r (size_Z small_header) /\
    weight_read (lit "w") r = Value (data_start_ r, 16) /\ in_range (small_header ++ small_rest) (data_start_ r) 16.
Proof.
  exists small_reader.
  assert (create (Some (small_header ++ small_rest)) = Parsed small_reader (size_Z small_header)) as E
    by (vm_compute; reflexivity).
  assert (weight_read (lit "w") small_reader = Value (data_start_ small_reader, 16)) as Er by (vm_compute; reflexivity).
  split; [exact E|]. split; [exact Er|].
  assert (is_bytes (small_header ++ small_rest)) as Hb by (apply is_bytes_b_ok; vm_compute; reflexivity).
  assert (size_Z (small_header ++ small_rest) < 2 ^ 63) as Hs by (vm_compute; reflexivity).
  pose proof (gguf_reading_safe (small_header ++ small_rest) Hb Hs) as Hsafe. rewrite E in Hsafe.
  exact (proj2 Hsafe (lit "w") _ _ Er).
Defined.

(** The sum of the start and a tensor's offset wraps: this offset is accepted, and the
    span lies in the header. *)
Example wrapping_offset_accepted :
  exists off, weight_read (lit "x") small_reader = Value (off, 16) /\ off < data_start_ small_reader.
Proof. eexists. split; [vm_compute; reflexivity|vm_compute; reflexivity]. Qed.
