(* ===== verification/Tokenizer.v ===== *)
(** * The byte-level BPE tokenizer: [tokenizer/byte_level_bpe_tokenizer.cpp]

    A text is a list of bytes.  Every byte is written as a UTF-8 character by the
    GPT-2 byte map, segments of such characters are merged pair by pair, and the
    symbols are looked up in the vocabulary.  [size_t] positions are [nat].  A failing
    load returns no tokenizer: the callers drop the object. *)

From Stdlib Require Import ZArith Lia.
From stdpp Require Import prelude strings gmap fin_maps.
From S2P Require Import Prelude Base Json.

(** ** State *)

Record ByteLevelBpeTokenizer := mkTokenizer {
  vocab_ : gmap bytes Z;
  id_to_token_ : gmap Z bytes;
  merge_rank_ : gmap (bytes * bytes) Z;
  byte_to_str_ : gmap Z bytes;
  str_to_byte_ : gmap bytes Z;
  special_token_to_id_ : gmap bytes Z;
  id_to_special_token_ : gmap Z bytes;
  max_token_id_ : Z;
  tok_eos_id : Z;
  pad_token_id_ : Z;
  unk_token_id_ : Z;
}.

Definition new_tokenizer : ByteLevelBpeTokenizer := mkTokenizer ∅ ∅ ∅ ∅ ∅ ∅ ∅ (-1) (-1) (-1) (-1).

Definition vocab_size (t : ByteLevelBpeTokenizer) : Z := max_token_id_ t + 1.

(** ** The byte map *)

Definition utf8_from_codepoint (cp : Z) : bytes :=
  if cp <? 128 then [u8 cp]
  else if cp <? 2048 then [u8 (Z.lor 192 (Z.shiftr cp 6)); u8 (Z.lor 128 (Z.land cp 63))]
  else if cp <? 65536 then
    [u8 (Z.lor 224 (Z.shiftr cp 12)); u8 (Z.lor 128 (Z.land (Z.shiftr cp 6) 63)); u8 (Z.lor 128 (Z.land cp 63))]
  else
    [u8 (Z.lor 240 (Z.shiftr cp 18)); u8 (Z.lor 128 (Z.land (Z.shiftr cp 12) 63));
     u8 (Z.lor 128 (Z.land (Z.shiftr cp 6) 63)); u8 (Z.lor 128 (Z.land cp 63))].

(** [add_range]. *)
Definition byte_range (lo hi : Z) : list (Z * Z) := (fun b => (b, b)) <$> seqZ lo (hi - lo + 1).

(** The loop over all bytes: the others get the codepoints from 256. *)
Fixpoint add_others (todo : list Z) (n : Z) (pairs : list (Z * Z)) : list (Z * Z) :=
  match todo with
  | [] => pairs
  | b :: todo =>
      if bool_decide (b ∈ pairs.*1) then add_others todo n pairs
      else add_others todo (n + 1) (pairs ++ [(b, 256 + n)])
  end.

Definition byte_pairs : list (Z * Z) :=
  add_others (seqZ 0 256) 0 (byte_range 33 126 ++ byte_range 161 172 ++ byte_range 174 255).

Definition set_maps (b2s : gmap Z bytes) (s2b : gmap bytes Z) (t : ByteLevelBpeTokenizer) : ByteLevelBpeTokenizer :=
  mkTokenizer (vocab_ t) (id_to_token_ t) (merge_rank_ t) b2s s2b (special_token_to_id_ t)
    (id_to_special_token_ t) (max_token_id_ t) (tok_eos_id t) (pad_token_id_ t) (unk_token_id_ t).

Definition build_byte_maps (t : ByteLevelBpeTokenizer) : ByteLevelBpeTokenizer :=
  set_maps (foldl (fun m '(b, cp) => <[b := utf8_from_codepoint cp]> m) ∅ byte_pairs)
    (foldl (fun m '(b, cp) => <[utf8_from_codepoint cp := b]> m) ∅ byte_pairs) t.

(** ** Loading from a vocabulary *)

Definition add_token (token : bytes) (id : Z) (t : ByteLevelBpeTokenizer) : ByteLevelBpeTokenizer :=
  mkTokenizer (<[token := id]> (vocab_ t)) (<[id := token]> (id_to_token_ t)) (merge_rank_ t) (byte_to_str_ t)
    (str_to_byte_ t) (special_token_to_id_ t) (id_to_special_token_ t)
    (if max_token_id_ t <? id then id else max_token_id_ t) (tok_eos_id t) (pad_token_id_ t) (unk_token_id_ t).
Definition add_special (token : bytes) (id : Z) (t : ByteLevelBpeTokenizer) : ByteLevelBpeTokenizer :=
  mkTokenizer (vocab_ t) (id_to_token_ t) (merge_rank_ t) (byte_to_str_ t) (str_to_byte_ t)
    (<[token := id]> (special_token_to_id_ t)) (<[id := token]> (id_to_special_token_ t)) (max_token_id_ t)
    (tok_eos_id t) (pad_token_id_ t) (unk_token_id_ t).
Definition set_eos (id : Z) (t : ByteLevelBpeTokenizer) : ByteLevelBpeTokenizer :=
  mkTokenizer (vocab_ t) (id_to_token_ t) (merge_rank_ t) (byte_to_str_ t) (str_to_byte_ t) (special_token_to_id_ t)
    (id_to_special_token_ t) (max_token_id_ t) id (pad_token_id_ t) (unk_token_id_ t).
Definition set_pad (id : Z) (t : ByteLevelBpeTokenizer) : ByteLevelBpeTokenizer :=
  mkTokenizer (vocab_ t) (id_to_token_ t) (merge_rank_ t) (byte_to_str_ t) (str_to_byte_ t) (special_token_to_id_ t)
    (id_to_special_token_ t) (max_token_id_ t) (tok_eos_id t) id (unk_token_id_ t).
Definition set_unk (id : Z) (t : ByteLevelBpeTokenizer) : ByteLevelBpeTokenizer :=
  mkTokenizer (vocab_ t) (id_to_token_ t) (merge_rank_ t) (byte_to_str_ t) (str_to_byte_ t) (special_token_to_id_ t)
    (id_to_special_token_ t) (max_token_id_ t) (tok_eos_id t) (pad_token_id_ t) id.
Definition add_merge (p : bytes * bytes) (rank : Z) (t : ByteLevelBpeTokenizer) : ByteLevelBpeTokenizer :=
  mkTokenizer (vocab_ t) (id_to_token_ t) (<[p := rank]> (merge_rank_ t)) (byte_to_str_ t) (str_to_byte_ t)
    (special_token_to_id_ t) (id_to_special_token_ t) (max_token_id_ t) (tok_eos_id t) (pad_token_id_ t) (unk_token_id_ t).

(** [merge.find(' ')] and the two substrings. *)
Fixpoint split_space (s : bytes) : option (bytes * bytes) :=
  match s with
  | [] => None
  | c :: s => if c =? 32 then Some ([], s) else '(a, b) ← split_space s; Some (c :: a, b)
  end.

(** The token loop, at index [i]; [types] are the token types from there. *)
Fixpoint load_tokens (tokens : list bytes) (types : list Z) (i : Z) (t : ByteLevelBpeTokenizer) : ByteLevelBpeTokenizer :=
  match tokens with
  | [] => t
  | token :: tokens =>
      let id := i32 i in
      let t := add_token token id t in
      let t := match types with
               | type :: _ => if 3 <=? type then add_special token id t
                              else if (type =? 2) && (unk_token_id_ t <? 0) then set_unk id t
                              else t
               | [] => t
               end in
      load_tokens tokens (tail types) (i + 1) t
  end.

Fixpoint load_merges (merges : list bytes) (rank : Z) (t : ByteLevelBpeTokenizer) : ByteLevelBpeTokenizer :=
  match merges with
  | [] => t
  | merge :: merges =>
      match split_space merge with
      | None => load_merges merges rank t
      | Some p => load_merges merges (rank + 1) (add_merge p rank t)
      end
  end.

Definition load_from_vocab_and_merges (tokens merges : list bytes) (token_types : list Z) (eos pad : Z)
    (t : ByteLevelBpeTokenizer) : Result ByteLevelBpeTokenizer :=
  let t := mkTokenizer ∅ ∅ ∅ (byte_to_str_ t) (str_to_byte_ t) ∅ ∅ (-1) (-1) (-1) (-1) in
  let t := load_tokens tokens token_types 0 t in
  let t := load_merges merges 0 t in
  let t := build_byte_maps (set_pad pad (set_eos eos t)) in
  if bool_decide (vocab_ t = ∅) then Unexpected ModelLoadFailed else Value t.

(** ** Encoding *)

Definition substr (text : bytes) (begin_ len : nat) : bytes := take len (drop begin_ text).

Definition starts_with_at (text : bytes) (pos : nat) (pattern : bytes) : bool :=
  if (length text <? length pattern)%nat || (length text - length pattern <? pos)%nat then false
  else bool_decide (substr text pos (length pattern) = pattern).

Section encode.
Context (t : ByteLevelBpeTokenizer).

(** The map lookup is asserted to succeed. *)
Fixpoint byte_encode_segment (text : bytes) : option (list bytes) :=
  match text with
  | [] => Some []
  | b :: text => s ← byte_to_str_ t !! b; rest ← byte_encode_segment text; Some (s :: rest)
  end.

(** The scan for the best pair, from position [i]. *)
Fixpoint best_pair (symbols : list bytes) (i : nat) (best_rank : Z) (best_pos : nat) : Z * nat :=
  match symbols with
  | a :: (b :: _) as rest =>
      match merge_rank_ t !! (a, b) with
      | Some rank => if rank <? best_rank then best_pair rest (S i) rank i else best_pair rest (S i) best_rank best_pos
      | None => best_pair rest (S i) best_rank best_pos
      end
  | _ => (best_rank, best_pos)
  end.

(** The merging pass. *)
Fixpoint merge_pass (best_rank : Z) (symbols : list bytes) : list bytes :=
  match symbols with
  | [] => []
  | a :: rest =>
      match rest with
      | [] => [a]
      | b :: rest' =>
          if bool_decide (merge_rank_ t !! (a, b) = Some best_rank) then (a ++ b) :: merge_pass best_rank rest'
          else a :: merge_pass best_rank rest
      end
  end.

Fixpoint bpe_loop (fuel : nat) (symbols : list bytes) : option (list bytes) :=
  match fuel with
  | O => None
  | S fuel =>
      if (length symbols <? 2)%nat then Some symbols
      else
        let '(best_rank, best_pos) := best_pair symbols 0 INT_MAX (length symbols) in
        if (best_pos =? length symbols)%nat then Some symbols
        else bpe_loop fuel (merge_pass best_rank symbols)
  end.

Definition apply_bpe (symbols : list bytes) : option (list bytes) :=
  match symbols with [] => Some [] | _ => bpe_loop (length symbols) symbols end.

Fixpoint symbol_ids (symbols : list bytes) : Result (list Z) :=
  match symbols with
  | [] => Value []
  | s :: symbols =>
      match vocab_ t !! s with
      | Some id => TRY ids := symbol_ids symbols;; Value (id :: ids)
      | None => if 0 <=? unk_token_id_ t then TRY ids := symbol_ids symbols;; Value (unk_token_id_ t :: ids)
                else Unexpected ModelLoadFailed
      end
  end.

Definition encode_normal_segment (text : bytes) : option (Result (list Z)) :=
  symbols ← byte_encode_segment text;
  symbols ← apply_bpe symbols;
  Some (symbol_ids symbols).

(** The longest special token at [pos]; the map's order does not matter. *)
Definition match_step (text : bytes) (pos : nat) (best : bytes * Z) (x : bytes * Z) : bytes * Z :=
  if bool_decide (x.1 = []) then best
  else if (length x.1 <=? length best.1)%nat then best
  else if starts_with_at text pos x.1 then x else best.

Definition try_match_special (text : bytes) (pos : nat) : option (bytes * Z) :=
  let best := foldl (match_step text pos) ([], -1) (map_to_list (special_token_to_id_ t)) in
  if bool_decide (best.1 = []) then None else Some best.

Definition is_space (c : Z) : bool := (c =? 32) || (c =? 9).
Definition is_newline (c : Z) : bool := (c =? 10) || (c =? 13).

(** [while (pos < size && p(text[pos])) ++pos], over the rest of the text. *)
Fixpoint skip_while (p : Z -> bool) (rest : bytes) (pos : nat) : nat :=
  match rest with
  | c :: rest => if p c then skip_while p rest (S pos) else pos
  | [] => pos
  end.

(** The look-ahead for a word, over the rest of the text from [k]. *)
Fixpoint has_next_word (text rest : bytes) (k : nat) : bool :=
  match rest with
  | [] => false
  | c :: rest =>
      match try_match_special text k with
      | Some _ => false
      | None => if negb (is_space c) && negb (is_newline c) then true else has_next_word text rest (S k)
      end
  end.

(** [flush_if_any]. *)
Definition flush (text : bytes) (begin_ end_ : nat) (ids : list Z) : option (Result (list Z)) :=
  if (end_ <=? begin_)%nat then Some (Value ids)
  else r ← encode_normal_segment (substr text begin_ (end_ - begin_));
       Some (TRY seg := r;; Value (ids ++ seg)).

(** Runs [k] on the ids unless the flush failed. *)
Definition and_then {A B} (r : option (Result A)) (k : A -> option (Result B)) : option (Result B) :=
  r ← r; match r with Value a => k a | Unexpected e => Some (Unexpected e) end.

(** The main loop. *)
Fixpoint encode_loop (fuel : nat) (text : bytes) (pos segment_start : nat) (ids : list Z) : option (Result (list Z)) :=
  match fuel with
  | O => None
  | S fuel =>
      if (length text <=? pos)%nat then flush text segment_start (length text) ids
      else
        match try_match_special text pos with
        | Some (token, id) =>
            and_then (flush text segment_start pos ids) (fun ids =>
              encode_loop fuel text (pos + length token) (pos + length token) (ids ++ [id]))
        | None =>
            c ← text !! pos;
            if is_newline c then
              and_then (flush text segment_start pos ids) (fun ids =>
                let next := skip_while is_newline (drop pos text) pos in
                and_then (flush text pos next ids) (fun ids => encode_loop fuel text next next ids))
            else if is_space c then
              and_then (flush text segment_start pos ids) (fun ids =>
                let space_end := skip_while is_space (drop pos text) pos in
                let space_len := (space_end - pos)%nat in
                if negb (has_next_word text (drop space_end text) space_end) then
                  and_then (flush text pos space_end ids) (fun ids => encode_loop fuel text space_end space_end ids)
                else if (space_len =? 1)%nat then encode_loop fuel text space_end pos ids
                else
                  let split_at := (pos + space_len - 1)%nat in
                  and_then (flush text pos split_at ids) (fun ids => encode_loop fuel text space_end split_at ids))
            else encode_loop fuel text (S pos) segment_start ids
        end
  end.

Definition encode (text : bytes) : option (Result (list Z)) :=
  if bool_decide (vocab_ t = ∅) then Some (Unexpected ModelLoadFailed)
  else encode_loop (S (length text)) text 0 0 [].

(** ** Decoding *)

Fixpoint symbol_stream (token_ids : list Z) (skip_special_tokens : bool) : Result bytes :=
  match token_ids with
  | [] => Value []
  | id :: token_ids =>
      match id_to_special_token_ t !! id with
      | Some token =>
          TRY rest := symbol_stream token_ids skip_special_tokens;;
          Value (if skip_special_tokens then rest else token ++ rest)
      | None =>
          match id_to_token_ t !! id with
          | None => Unexpected ModelLoadFailed
          | Some token => TRY rest := symbol_stream token_ids skip_special_tokens;; Value (token ++ rest)
          end
      end
  end.

(** The length of the character that starts with byte [c]. *)
Definition utf8_len (c : Z) : option nat :=
  if Z.land c 128 =? 0 then Some 1%nat
  else if Z.land c 224 =? 192 then Some 2%nat
  else if Z.land c 240 =? 224 then Some 3%nat
  else if Z.land c 248 =? 240 then Some 4%nat
  else None.

(** The character loop, over the rest of the stream. *)
Fixpoint decode_chars (fuel : nat) (stream : bytes) (skip_special_tokens : bool) : option (Result bytes) :=
  match fuel with
  | O => None
  | S fuel =>
      match stream with
      | [] => Some (Value [])
      | c :: _ =>
          match utf8_len c with
          | None => Some (Unexpected ModelLoadFailed)
          | Some len =>
              if (length stream <? len)%nat then Some (Unexpected ModelLoadFailed)
              else
                let ch := take len stream in
                match str_to_byte_ t !! ch with
                | Some b => and_then (decode_chars fuel (drop len stream) skip_special_tokens)
                              (fun rest => Some (Value (b :: rest)))
                | None =>
                    if skip_special_tokens then Some (Unexpected ModelLoadFailed)
                    else and_then (decode_chars fuel (drop len stream) skip_special_tokens)
                           (fun rest => Some (Value (ch ++ rest)))
                end
          end
      end
  end.

Definition decode (token_ids : list Z) (skip_special_tokens : bool) : option (Result bytes) :=
  if bool_decide (id_to_token_ t = ∅) then Some (Unexpected ModelLoadFailed)
  else match symbol_stream token_ids skip_special_tokens with
       | Unexpected e => Some (Unexpected e)
       | Value stream => decode_chars (S (length stream)) stream skip_special_tokens
       end.
End encode.

(** ** Loading [tokenizer.json] *)

Section load.
Context `{Json}.

Definition int32_id (raw : Z) : option Z := if (raw <? 0) || (INT_MAX <=? raw) then None else Some (i32 raw).

Fixpoint parse_vocab_items (items : list (bytes * json)) (t : ByteLevelBpeTokenizer) : Result ByteLevelBpeTokenizer :=
  match items with
  | [] => Value t
  | (token, id_val) :: items =>
      match as_integer id_val ≫= int32_id with
      | None => Unexpected ModelLoadFailed
      | Some id => parse_vocab_items items (add_token token id t)
      end
  end.

Definition parse_vocab (model : json) (t : ByteLevelBpeTokenizer) : Result ByteLevelBpeTokenizer :=
  match get_member model "vocab" ≫= as_object with
  | None => Unexpected ModelLoadFailed
  | Some items => parse_vocab_items items t
  end.

(** One merge: skipped ([None]), a pair, or an error. *)
Definition parse_merge (item : json) : Result (option (bytes * bytes)) :=
  match as_string item with
  | Some merge => Value (split_space merge)
  | None =>
      match as_array item with
      | Some [a; b] => match as_string a, as_string b with
                       | Some a, Some b => Value (Some (a, b))
                       | _, _ => Unexpected ModelLoadFailed
                       end
      | _ => Unexpected ModelLoadFailed
      end
  end.

Fixpoint parse_merge_items (items : list json) (rank : Z) (t : ByteLevelBpeTokenizer) : Result ByteLevelBpeTokenizer :=
  match items with
  | [] => Value t
  | item :: items =>
      TRY merge := parse_merge item;;
      match merge with
      | None => parse_merge_items items rank t
      | Some p => parse_merge_items items (rank + 1) (add_merge p rank t)
      end
  end.

Definition parse_merges (model : json) (t : ByteLevelBpeTokenizer) : Result ByteLevelBpeTokenizer :=
  match get_member model "merges" ≫= as_array with
  | None => Value t
  | Some items => parse_merge_items items 0 t
  end.

Definition eos_names : list bytes := lit <$> ["</s>"; "<|end_of_text|>"; "<|endoftext|>"; "<|im_end|>"]%string.
Definition unk_names : list bytes := lit <$> ["<unk>"; "[UNK]"]%string.

Definition parse_added_token (tok : json) (t : ByteLevelBpeTokenizer) : ByteLevelBpeTokenizer :=
  match get_member tok "content" ≫= as_string, get_member tok "id" ≫= as_integer with
  | Some content, Some raw =>
      match int32_id raw with
      | None => t
      | Some id =>
          let t := add_token content id t in
          let is_special := default false (get_member tok "special" ≫= as_boolean) in
          let t := if is_special then add_special content id t else t in
          if bool_decide (content ∈ eos_names) then set_eos id t
          else if bool_decide (content ∈ unk_names) then set_unk id t
          else t
      end
  | _, _ => t
  end.

Definition parse_added_tokens (j : json) (t : ByteLevelBpeTokenizer) : ByteLevelBpeTokenizer :=
  match get_member j "added_tokens" ≫= as_array with
  | None => t
  | Some toks => foldl (fun t tok => parse_added_token tok t) t toks
  end.

Definition resolve_special_tokens (t : ByteLevelBpeTokenizer) : ByteLevelBpeTokenizer :=
  let eos t token := match vocab_ t !! token with
                     | Some id => if tok_eos_id t <? 0 then set_eos id t else t
                     | None => t
                     end in
  let unk t token := match vocab_ t !! token with
                     | Some id => if unk_token_id_ t <? 0 then set_unk id t else t
                     | None => t
                     end in
  foldl unk (foldl eos t eos_names) unk_names.

(** [load]; [data] is the file's contents, empty when it cannot be read. *)
Definition load (data : bytes) (t : ByteLevelBpeTokenizer) : Result ByteLevelBpeTokenizer :=
  if bool_decide (data = []) then Unexpected ModelLoadFailed
  else
    match json_parse data with
    | None => Unexpected ModelLoadFailed
    | Some j =>
        match get_member j "model" with
        | None => Unexpected ModelLoadFailed
        | Some model =>
            if negb (bool_decide (is_Some (as_object model))) then Unexpected ModelLoadFailed
            else if match get_member model "type" ≫= as_string with
                    | Some type => negb (bool_decide (type = lit "BPE"))
                    | None => false
                    end
            then Unexpected ModelUnsupportedArch
            else
              let t := mkTokenizer ∅ ∅ ∅ (byte_to_str_ t) (str_to_byte_ t) ∅ ∅ (-1) (-1) (pad_token_id_ t) (-1) in
              TRY t := parse_vocab model t;;
              TRY t := parse_merges model t;;
              let t := build_byte_maps (resolve_special_tokens (parse_added_tokens j t)) in
              if bool_decide (vocab_ t = ∅) then Unexpected ModelLoadFailed else Value t
        end
    end.
End load.
