(* ===== verification/GgufLoad.v ===== *)
(** * Loading from a GGUF file: [checkpoint/gguf/config_loader.cpp],
    [tokenizer/gguf_tokenizer.cpp]

    [None] is an exception: [as_string] of a value that is not a string. *)

From Stdlib Require Import ZArith Lia SpecFloat.
From stdpp Require Import prelude strings gmap fin_maps.
From S2P Require Import Prelude Base Bytes Config Device Json Gguf Tokenizer.

(** ** The tokenizer *)

Definition as_strings (l : list GGUFMetadataValue) : option (list bytes) := mapM gguf_as_string l.

(** The loop over the token types. *)
Fixpoint token_types_of (l : list GGUFMetadataValue) : Result (list Z) :=
  match l with
  | [] => Value []
  | v :: l =>
      match as_i64 v with
      | None => Unexpected ModelLoadFailed
      | Some id => TRY types := token_types_of l;; Value (i32 id :: types)
      end
  end.

(** An optional token id; [absent] when the key is missing. *)
Definition token_id (key : string) (r : GGUFReader) (absent : Result Z) : Result Z :=
  match metadata (lit key) r with
  | None => absent
  | Some v => match as_u64 v with None => Unexpected ModelLoadFailed | Some id => Value (i32 id) end
  end.

(** An array that may be missing or of another type. *)
Definition array_of (key : string) (r : GGUFReader) : list GGUFMetadataValue :=
  default [] (metadata (lit key) r ≫= gguf_as_array).

Definition create_tokenizer_from_gguf (r : GGUFReader) : option (Result ByteLevelBpeTokenizer) :=
  match metadata (lit "tokenizer.ggml.tokens") r ≫= gguf_as_array with
  | None => Some (Unexpected ModelLoadFailed)
  | Some tokens_arr =>
      tokens ← as_strings tokens_arr;
      merges ← as_strings (array_of "tokenizer.ggml.merges" r);
      Some (TRY token_types := token_types_of (array_of "tokenizer.ggml.token_type" r);;
            TRY eos := token_id "tokenizer.ggml.eos_token_id" r (Value (-1));;
            TRY pad := token_id "tokenizer.ggml.padding_token_id" r
                         (token_id "tokenizer.ggml.pad_token_id" r (Value (-1)));;
            load_from_vocab_and_merges tokens merges token_types eos pad new_tokenizer)
  end.

(** ** The model configuration *)

Definition metadata_u64 (r : GGUFReader) (key : string) : option Z := v ← metadata (lit key) r; as_u64 v.
Definition metadata_f32 (r : GGUFReader) (key : string) : option float32 := v ← metadata (lit key) r; as_f32 v.
Definition metadata_int (r : GGUFReader) (key : string) : option Z :=
  v ← metadata_u64 r key; if INT_MAX <? v then None else Some v.

Definition get_int (r : GGUFReader) (key : string) : Result Z :=
  match metadata_int r key with None => Unexpected ModelConfigInvalid | Some v => Value v end.
Definition get_f32 (r : GGUFReader) (key : string) : Result float32 :=
  match metadata_f32 r key with None => Unexpected ModelConfigInvalid | Some v => Value v end.

(** The decoder layers: the main ones, then the predictor layers. *)
Definition main_layer (interval i : Z) : LayerType :=
  if (0 <? interval) && (Z.rem i interval =? interval - 1) then FullAttention else GatedDeltaNet.
Definition gguf_layer_types (n_layers interval nextn : Z) : list LayerType :=
  (main_layer interval <$> seqZ 0 n_layers) ++ repeat MtpPredictor (Z.to_nat nextn).

(** The cross-check with the embedded tokenizer. *)
Definition tokens_match (r : GGUFReader) (vocab_size : Z) : bool :=
  match metadata (lit "tokenizer.ggml.tokens") r ≫= gguf_as_array with
  | Some arr => i32 (size_Z arr) =? vocab_size
  | None => true
  end.

(** [GgufConfigLoader::load] after the architecture check. *)
Definition load_fields (r : GGUFReader) : Result ModelConfig :=
  TRY block_count := get_int r "qwen35.block_count";;
  TRY embedding_length := get_int r "qwen35.embedding_length";;
  TRY feed_forward_length := get_int r "qwen35.feed_forward_length";;
  TRY head_count := get_int r "qwen35.attention.head_count";;
  TRY head_count_kv := get_int r "qwen35.attention.head_count_kv";;
  TRY key_length := get_int r "qwen35.attention.key_length";;
  TRY context_length := get_int r "qwen35.context_length";;
  TRY full_attention_interval := get_int r "qwen35.full_attention_interval";;
  TRY nextn_predict_layers := get_int r "qwen35.nextn_predict_layers";;
  let n_layers := block_count - nextn_predict_layers in
  if n_layers <=? 0 then Unexpected ModelConfigInvalid
  else
    TRY ssm_conv := get_int r "qwen35.ssm.conv_kernel";;
    TRY ssm_state := get_int r "qwen35.ssm.state_size";;
    TRY ssm_group := get_int r "qwen35.ssm.group_count";;
    TRY ssm_rank := get_int r "qwen35.ssm.time_step_rank";;
    TRY ssm_inner := get_int r "qwen35.ssm.inner_size";;
    TRY freq := get_f32 r "qwen35.rope.freq_base";;
    TRY rope_dim := get_int r "qwen35.rope.dimension_count";;
    TRY eps := get_f32 r "qwen35.attention.layer_norm_rms_epsilon";;
    match find_tensor (lit "token_embd.weight") r ≫= fun info => last (ti_dims info) with
    | None => Unexpected ModelLoadFailed
    | Some dim =>
        let vocab_size := i32 dim in
        if negb (tokens_match r vocab_size) then Unexpected ModelConfigInvalid
        else
          let cfg := mkModelConfig Qwen3_5 n_layers head_count head_count_kv embedding_length key_length rope_dim
                       feed_forward_length vocab_size context_length freq eps full_attention_interval
                       nextn_predict_layers ssm_conv ssm_state ssm_group ssm_rank ssm_inner
                       (gguf_layer_types n_layers full_attention_interval nextn_predict_layers) in
          TRY _ := validate_model cfg;; Value cfg
    end.

Definition load_gguf_config (r : GGUFReader) : option (Result ModelConfig) :=
  match metadata (lit "general.architecture") r with
  | None => Some (Unexpected ModelUnsupportedArch)
  | Some arch =>
      name ← gguf_as_string arch;
      Some (if bool_decide (name = lit "qwen35") then load_fields r else Unexpected ModelUnsupportedArch)
  end.
