(* ===== verification/Http.v ===== *)
(** * The HTTP server: [http/http_server.cpp]

    A socket is the bytes already buffered and the chunks that the coming reads
    deliver; an empty chunk, or none, is the end of the stream or an error.  A
    connection runs to its response or to a chat, whose coroutine is a function of what
    its awaits return.  The starting, the accept loop and the shutdown of the server are
    the steps of a state machine. *)

From Stdlib Require Import ZArith Lia SpecFloat.
From stdpp Require Import prelude strings pretty gmap fin_maps.
From S2P Require Import Prelude Base Config Json Tokenizer.

(** ** Responses *)

Definition crlf : bytes := [13; 10].

(** Header lines, the empty line and the body. *)
Definition http_message (header : list string) (body : bytes) : bytes :=
  concat (map (fun s => lit s ++ crlf) header) ++ crlf ++ body.

Definition quoted (s : string) : bytes := [34] ++ lit s ++ [34].

Definition kHealthResponse : bytes :=
  http_message ["HTTP/1.1 200 OK"; "Content-Type: application/json"; "Content-Length: 15"; "Connection: close"]
    (lit "{" ++ quoted "status" ++ lit ":" ++ quoted "ok" ++ lit "}").
Definition kModelsResponse : bytes :=
  http_message ["HTTP/1.1 200 OK"; "Content-Type: application/json"; "Content-Length: 27"; "Connection: close"]
    (lit "{" ++ quoted "data" ++ lit ":[{" ++ quoted "id" ++ lit ":" ++ quoted "default" ++ lit "}]}").
Definition kNotFoundResponse : bytes :=
  http_message ["HTTP/1.1 404 Not Found"; "Content-Length: 0"; "Connection: close"] [].
Definition kMethodNotAllowed : bytes :=
  http_message ["HTTP/1.1 405 Method Not Allowed"; "Content-Length: 0"; "Connection: close"] [].
Definition kBadRequest : bytes :=
  http_message ["HTTP/1.1 400 Bad Request"; "Content-Length: 0"; "Connection: close"] [].
Definition kInternalError : bytes :=
  http_message ["HTTP/1.1 500 Internal Server Error"; "Content-Length: 0"; "Connection: close"] [].

(** ** [Content-Length] *)

Definition tolower (c : Z) : Z := if (65 <=? c) && (c <=? 90) then c + 32 else c.
Definition isspace (c : Z) : bool := (c =? 32) || ((9 <=? c) && (c <=? 13)).
Definition isdigit (c : Z) : bool := (48 <=? c) && (c <=? 57).

Definition starts_with_ci (s prefix : bytes) : bool :=
  if (length s <? length prefix)%nat then false
  else bool_decide (tolower <$> take (length prefix) s = tolower <$> prefix).

Inductive CLResult := CLNotPresent | CLValid (value : Z) | CLInvalid.

Definition kMaxBodySize : Z := 64 * 1024 * 1024.

Fixpoint skip_spaces (val : bytes) : bytes :=
  match val with c :: rest => if isspace c then skip_spaces rest else val | [] => [] end.

(** The digit loop; the number, whether there was a digit, and what follows. *)
Fixpoint digits (val : bytes) (out : Z) (has_digit : bool) : option (Z * bool * bytes) :=
  match val with
  | ch :: rest =>
      if negb (isdigit ch) then Some (out, has_digit, val)
      else if Z.quot kMaxBodySize 10 <? out then None
      else
        let out := out * 10 + (ch - 48) in
        if kMaxBodySize <? out then None else digits rest out true
  | [] => Some (out, has_digit, [])
  end.

Definition parse_content_length (line : bytes) : CLResult :=
  if negb (starts_with_ci line (lit "content-length:")) then CLNotPresent
  else
    match digits (skip_spaces (drop 15 line)) 0 false with
    | None => CLInvalid
    | Some (out, has_digit, rest) =>
        if negb has_digit then CLInvalid
        else if forallb isspace rest then CLValid out else CLInvalid
    end.

(** ** Reading *)

Record Socket := mkSocket { sock_buf : bytes; incoming : list bytes }.

(** [async_read_some] of at most [n] bytes; [None] on an error, the end, or no bytes. *)
Definition read_some (n : nat) (chunks : list bytes) : option (bytes * list bytes) :=
  match chunks with
  | [] | [] :: _ => None
  | c :: chunks => Some (take n c, if (length c <=? n)%nat then chunks else drop n c :: chunks)
  end.

Definition kMaxHeaderSize : nat := 128 * 1024.

Definition too_long : bytes := repeat 120 (kMaxHeaderSize + 1).

(** [std::find] of a newline: its index. *)
Fixpoint find_newline (l : bytes) : option nat :=
  match l with
  | [] => None
  | c :: l => if c =? 10 then Some 0%nat else S <$> find_newline l
  end.

Inductive Scan := LineDone (line : bytes) (buf : bytes) | NeedMore (line : bytes).

(** The part of [read_line]'s loop before the read. *)
Definition scan_line (buf line : bytes) : Scan :=
  match buf with
  | [] => NeedMore line
  | _ =>
      match find_newline buf with
      | Some it =>
          let len := if (0 <? it)%nat && bool_decide (buf !! (it - 1)%nat = Some 13) then (it - 1)%nat else it in
          if (kMaxHeaderSize <? length line + len)%nat then LineDone too_long []
          else LineDone (line ++ take len buf) (drop (it + 1) buf)
      | None =>
          if (kMaxHeaderSize <? length line + length buf)%nat then LineDone too_long []
          else NeedMore (line ++ buf)
      end
  end.

(** The bytes that are still to come, and one. *)
Definition read_fuel (chunks : list bytes) : nat := S (length (concat chunks)).

Fixpoint read_line_loop (fuel : nat) (s : Socket) (line : bytes) : option (bytes * Socket) :=
  match fuel with
  | O => None
  | S fuel =>
      match scan_line (sock_buf s) line with
      | LineDone line buf => Some (line, mkSocket buf (incoming s))
      | NeedMore line =>
          match read_some 4096 (incoming s) with
          | None => Some ([], mkSocket [] (tail (incoming s)))
          | Some (chunk, rest) => read_line_loop fuel (mkSocket chunk rest) line
          end
      end
  end.

Definition read_line (s : Socket) : option (bytes * Socket) := read_line_loop (read_fuel (incoming s)) s [].

Fixpoint read_body_loop (fuel : nat) (chunks : list bytes) (body : bytes) (content_length : nat) : option (option bytes) :=
  match fuel with
  | O => None
  | S fuel =>
      if (content_length <=? length body)%nat then Some (Some body)
      else
        match read_some (Nat.min (content_length - length body) 4096) chunks with
        | None => Some None
        | Some (chunk, rest) => read_body_loop fuel rest (body ++ chunk) content_length
        end
  end.

Definition read_body (s : Socket) (content_length : Z) : option (option bytes) :=
  if kMaxBodySize <? content_length then Some None
  else
    let n := Z.to_nat content_length in
    read_body_loop (read_fuel (incoming s)) (incoming s) (take n (sock_buf s)) n.

(** ** One connection up to its handler *)

Inductive Handling :=
| Closed                       (* no response *)
| Respond (response : bytes)
| Health | Models | Metrics
| ChatBody (body : bytes).

(** [s.find(c, pos)]. *)
Fixpoint find_char (c : Z) (s : bytes) : option nat :=
  match s with
  | [] => None
  | x :: s => if x =? c then Some 0%nat else S <$> find_char c s
  end.

(** Method and path, without the query. *)
Definition parse_request_line (line : bytes) : option (bytes * bytes) :=
  sp1 ← find_char 32 line;
  let rest := drop (S sp1) line in
  len ← find_char 32 rest;
  let path := take len rest in
  Some (take sp1 line, match find_char 63 path with Some q => take q path | None => path end).

Inductive Headers := HeadersBad | HeadersRead (content_length : option Z).

(** The header loop; [content_length] is set when one was present. *)
Fixpoint read_headers (fuel : nat) (s : Socket) (header_bytes : nat) (content_length : option Z)
  : option (Headers * Socket) :=
  match fuel with
  | O => None
  | S fuel =>
      '(line, s) ← read_line s;
      if bool_decide (line = []) then Some (HeadersRead content_length, s)
      else
        let header_bytes := (header_bytes + (length line + 2))%nat in
        if (kMaxHeaderSize <? header_bytes)%nat then Some (HeadersBad, s)
        else
          match parse_content_length line with
          | CLInvalid => Some (HeadersBad, s)
          | CLNotPresent => read_headers fuel s header_bytes content_length
          | CLValid value =>
              match content_length with
              | Some v => if v =? value then read_headers fuel s header_bytes (Some value) else Some (HeadersBad, s)
              | None => read_headers fuel s header_bytes (Some value)
              end
          end
  end.

Definition is_get (method : bytes) (h : Handling) : Handling :=
  if bool_decide (method = lit "GET") then h else Respond kMethodNotAllowed.

(** The dispatch on the path. *)
Definition route (method path : bytes) (content_length : option Z) (s : Socket) : option Handling :=
  if bool_decide (path = lit "/health") || bool_decide (path = lit "/healthz") then Some (is_get method Health)
  else if bool_decide (path = lit "/v1/models") then Some (is_get method Models)
  else if bool_decide (path = lit "/metrics") then Some (is_get method Metrics)
  else if bool_decide (path = lit "/v1/chat/completions") then
    if negb (bool_decide (method = lit "POST")) then Some (Respond kMethodNotAllowed)
    else
      match content_length with
      | None | Some 0 => Some (Respond kBadRequest)
      | Some n =>
          body ← read_body s n;
          Some match body with None => Respond kBadRequest | Some body => ChatBody body end
      end
  else Some (Respond kNotFoundResponse).

(** [handle_connection_impl]; lines end the loop after at most as many as there are
    bytes, and one. *)
Definition handle_connection_impl (s : Socket) : option Handling :=
  '(request_line, s1) ← read_line s;
  if bool_decide (request_line = []) then Some Closed
  else
    match parse_request_line request_line with
    | None => Some (Respond kBadRequest)
    | Some (method, path) =>
        '(headers, s2) ← read_headers (S (length (sock_buf s1) + length (concat (incoming s1)))) s1
                           (length request_line + 2) None;
        match headers with
        | HeadersBad => Some (Respond kBadRequest)
        | HeadersRead content_length => route method path content_length s2
        end
    end.

(** ** The chat request *)

Section chat.
Context `{Json} (tokenizer : ByteLevelBpeTokenizer).

Inductive JsonField (A : Type) := FieldMissing | FieldValid (a : A) | FieldInvalid.
#[global] Arguments FieldMissing {A}.
#[global] Arguments FieldValid {A} a.
#[global] Arguments FieldInvalid {A}.

(** [safe_json_get<int>] and [safe_json_get<float>]. *)
Definition json_get_int (j : json) (key : string) : JsonField Z :=
  match get_member j key with
  | None => FieldMissing
  | Some val =>
      match as_integer val with
      | None => FieldInvalid
      | Some raw => if (raw <? INT_MIN) || (INT_MAX <? raw) then FieldInvalid else FieldValid raw
      end
  end.
Definition json_get_float (j : json) (key : string) : JsonField float32 :=
  match get_member j key with
  | None => FieldMissing
  | Some val =>
      match as_number val with
      | None => FieldInvalid
      | Some v => if isfinite v then FieldValid v else FieldInvalid
      end
  end.

(** [read_optional]: the old value when the field is missing. *)
Definition read_optional {A} (f : JsonField A) (old : A) : option A :=
  match f with FieldMissing => Some old | FieldValid a => Some a | FieldInvalid => None end.

Record ParsedChatRequest := mkParsedChat {
  pr_prompt_tokens : list Z;
  pr_sampling : SamplingParams;
  pr_max_context_len : Z;
}.

(** The loop over the messages; the outer [None] is a failed assertion of [encode]. *)
Fixpoint encode_messages (msgs : list json) (prompt : list Z) : option (Result (list Z)) :=
  match msgs with
  | [] => Some (Value prompt)
  | msg :: msgs =>
      match get_member msg "content" ≫= as_string with
      | None => Some (Unexpected InvalidArgument)
      | Some content =>
          encoded ← encode tokenizer content;
          match encoded with
          | Unexpected _ => Some (Unexpected InternalError)
          | Value ids => encode_messages msgs (prompt ++ ids)
          end
      end
  end.

Definition chat_prompt (j : json) : option (Result (list Z)) :=
  match get_member j "messages" with
  | None => Some (Value [])
  | Some m => match as_array m with None => Some (Unexpected InvalidArgument) | Some msgs => encode_messages msgs [] end
  end.

(** The sampling parameters the engine supports: greedy only. *)
Definition chat_sampling (j : json) : Result SamplingParams :=
  let d := default_sampling in
  match read_optional (json_get_int j "max_tokens") (max_tokens d),
        read_optional (json_get_float j "temperature") (temperature d),
        read_optional (json_get_float j "top_p") (top_p d),
        read_optional (json_get_int j "top_k") (top_k d) with
  | Some n, Some t, Some p, Some k =>
      if (n <? 0) || SFltb t f32_zero || SFleb p f32_zero || SFltb f32_one p || (k <? 0)
      then Unexpected InvalidArgument
      else if SFltb f32_zero t || SFltb p f32_one || (0 <? k) then Unexpected InvalidArgument
      else Value {| max_tokens := n; top_k := k; top_p := p; temperature := t; seed := seed d;
                    eos_token_id := tok_eos_id tokenizer |}
  | _, _, _, _ => Unexpected InvalidArgument
  end.

Definition chat_context_len (j : json) : Result Z :=
  match json_get_int j "max_context_len" with
  | FieldInvalid => Unexpected InvalidArgument
  | FieldValid n => if n <=? 0 then Unexpected InvalidArgument else Value n
  | FieldMissing => Value 0
  end.

Definition parse_chat_request (body : bytes) : option (Result ParsedChatRequest) :=
  match json_parse (if bool_decide (body = []) then lit "{}" else body) with
  | None => Some (Unexpected InvalidArgument)
  | Some j =>
      if negb (bool_decide (is_Some (as_object j))) then Some (Unexpected InvalidArgument)
      else
        prompt ← chat_prompt j;
        Some (TRY prompt := prompt;;
              let prompt := if bool_decide (prompt = []) then [1; 2; 3] else prompt in
              TRY sampling := chat_sampling j;;
              TRY context := chat_context_len j;;
              Value (mkParsedChat prompt sampling context))
  end.

(** ** Server-sent events: [None] is the exception that [dump] throws *)

Definition sse_data (j : json) : option bytes := (fun text => lit "data: " ++ text ++ [10; 10]) <$> json_dump j.

Definition sse_error_frame (err : ErrorCode) : option bytes :=
  sse_data (json_object [(lit "error", json_string (lit (error_message err))); (lit "done", json_bool true)]).

(** The outer [None] is an assertion of [decode]. *)
Definition make_sse_frame (tok : GeneratedToken) (request_id : string) : option (option bytes) :=
  delta ← (if has_token tok then
             decoded ← decode tokenizer [token_id tok] false;
             Some (json_object [(lit "content", json_string match decoded with Value text => text | _ => [] end)])
           else Some (json_object []));
  let choice := json_object [(lit "index", json_int 0); (lit "delta", delta);
                  (lit "finish_reason", if finished tok then json_string (lit "stop") else json_null)] in
  Some (sse_data (json_object
    [(lit "id", json_string (if bool_decide (request_id = ""%string) then lit "chatcmpl-default" else lit request_id));
     (lit "object", json_string (lit "chat.completion.chunk")); (lit "created", json_int 0);
     (lit "model", json_string (lit "default")); (lit "choices", json_array [choice])])).

Definition json_response (body : json) : option bytes :=
  payload ← json_dump body;
  Some (lit "HTTP/1.1 200 OK" ++ crlf ++ lit "Content-Type: application/json" ++ crlf ++
  lit "Content-Length: " ++ to_string (size_Z payload) ++ crlf ++ lit "Connection: close" ++ crlf ++ crlf ++ payload).

(** [static_cast<double>(int)]. *)
Definition double_of_int (z : Z) : spec_float := binary_normalize 53 1024 z 0 false.

Definition metrics_json (cap : Capacity) : json :=
  let pool_util := if 0 <? cap_max_blocks cap
                   then SFdiv 53 1024 (double_of_int (cap_block_active cap + cap_block_cached_idle cap))
                          (double_of_int (cap_max_blocks cap))
                   else S754_zero false in
  json_object
    [(lit "engine", json_object [(lit "max_sequences", json_int (cap_max_sequences cap));
                                 (lit "active_sequences", json_int (cap_active_sequences cap))]);
     (lit "kv_cache", json_object
        [(lit "block_total", json_int (cap_max_blocks cap)); (lit "block_free", json_int (cap_free_blocks cap));
         (lit "block_active", json_int (cap_block_active cap));
         (lit "block_cached_idle", json_int (cap_block_cached_idle cap));
         (lit "block_size", json_int (cap_block_size cap)); (lit "pool_utilization", json_double pool_util);
         (lit "active_capacity_tokens", json_int (cap_block_active cap * cap_block_size cap));
         (lit "cached_capacity_tokens", json_int (cap_block_cached_idle cap * cap_block_size cap))]);
     (lit "prefix_cache", json_object
        [(lit "lookup_hits", json_int (cap_prefix_lookup_hits cap));
         (lit "lookup_misses", json_int (cap_prefix_lookup_misses cap));
         (lit "evictions", json_int (cap_prefix_evictions cap));
         (lit "cached_blocks", json_int (cap_prefix_cached_blocks cap))])].

(** What [handle_metrics] writes. *)
Definition handle_metrics (cap : Capacity) : option bytes := json_response (metrics_json cap).

(** ** The chat coroutine *)

Inductive ChatAction :=
| Submit (req : SchedulerRequest)
| Write (response : bytes)
| CancelRequest (request_id : string).

(** What one turn of the loop awaits: the next result of the channel ([None] when the
    channel fails) and whether writing its frame succeeds. *)
Definition ChatTurn : Type := option (Result GeneratedToken) * bool.

(** Where the coroutine is: awaiting the next turn, or ended by a return or an
    exception. *)
Inductive ChatEnd := Suspended | Returned | Threw.

(** The frame of a result, if it can be built, and whether it is the last. *)
Definition turn_frame (request_id : string) (result : Result GeneratedToken) : option (option bytes * bool) :=
  match result with
  | Value tok => frame ← make_sse_frame tok request_id; Some (frame, finished tok)
  | Unexpected e => Some (sse_error_frame e, true)
  end.

(** The loop, on the turns so far: its actions, and where it is. *)
Fixpoint chat_loop (request_id : string) (turns : list ChatTurn) : option (list ChatAction * ChatEnd) :=
  match turns with
  | [] => Some ([], Suspended)
  | (None, _) :: _ => Some ([CancelRequest request_id], Returned)
  | (Some result, written) :: turns =>
      '(frame, done) ← turn_frame request_id result;
      match frame with
      | None => Some ([], Threw)
      | Some frame =>
          if negb written then Some ([Write frame; CancelRequest request_id], Returned)
          else if (done : bool) then Some ([Write frame], Returned)
          else
            '(actions, ended) ← chat_loop request_id turns;
            Some (Write frame :: actions, ended)
      end
  end.

Definition chat_headers : bytes :=
  http_message ["HTTP/1.1 200 OK"; "Content-Type: text/event-stream"; "Cache-Control: no-cache"; "Connection: close";
                "X-Accel-Buffering: no"] [].

(** [handle_chat] with the number of the request and of its channel. *)
Definition handle_chat (body : bytes) (number channel : Z) (headers_written : bool) (turns : list ChatTurn)
  : option (list ChatAction * ChatEnd) :=
  parsed ← parse_chat_request body;
  match parsed with
  | Unexpected e =>
      Some ([Write (if bool_decide (e = InternalError) then kInternalError else kBadRequest)], Returned)
  | Value parsed =>
      let request_id := ("req-" +:+ pretty number)%string in
      let sreq := mkSchedulerRequest request_id (pr_prompt_tokens parsed) (pr_sampling parsed)
                    (pr_max_context_len parsed) channel in
      if negb headers_written then Some ([Submit sreq; Write chat_headers; CancelRequest request_id], Returned)
      else
        '(actions, ended) ← chat_loop request_id turns;
        Some (Submit sreq :: Write chat_headers :: actions, ended)
  end.
End chat.

(** ** The life of the server

    The coroutine of a connection holds the connection in [active_conns_] until
    [handle_connection_impl] has returned.  An exception that leaves it ends the detached
    coroutine between the two: [running_conns] has the connections whose coroutine has
    not ended, which the code has no variable for. *)

Inductive AcceptLoop := NotAccepting | Accepting | Retrying | AcceptEnded.

Record HttpServer := mkHttp {
  http_running : bool;
  accept_state : AcceptLoop;
  accept_loop_done_ : bool;
  active_conns_ : gset Z;
  running_conns : gset Z;
  shutdown_requested : bool;       (* [shutdown_promise_] is set *)
  shutdown_posted : option bool;   (* the posted handler, with [was_running] *)
  shutdown_done_sent_ : bool;
  future_set : nat;                (* how often the promise was fulfilled *)
}.

Definition new_http : HttpServer := mkHttp false NotAccepting false ∅ ∅ false None false 0.

(** Assignments. *)
Definition set_accept (running : bool) (a : AcceptLoop) (done : bool) (s : HttpServer) : HttpServer :=
  mkHttp running a done (active_conns_ s) (running_conns s) (shutdown_requested s) (shutdown_posted s)
    (shutdown_done_sent_ s) (future_set s).
Definition set_conns (active running : gset Z) (s : HttpServer) : HttpServer :=
  mkHttp (http_running s) (accept_state s) (accept_loop_done_ s) active running (shutdown_requested s) (shutdown_posted s)
    (shutdown_done_sent_ s) (future_set s).
Definition set_shutdown (running requested : bool) (posted : option bool) (s : HttpServer) : HttpServer :=
  mkHttp running (accept_state s) (accept_loop_done_ s) (active_conns_ s) (running_conns s) requested posted
    (shutdown_done_sent_ s) (future_set s).
Definition fulfil (s : HttpServer) : HttpServer :=
  mkHttp (http_running s) (accept_state s) (accept_loop_done_ s) (active_conns_ s) (running_conns s) (shutdown_requested s)
    (shutdown_posted s) true (S (future_set s)).

Definition try_finish_shutdown (s : HttpServer) : HttpServer :=
  if shutdown_done_sent_ s then s
  else if negb (http_running s) && accept_loop_done_ s && bool_decide (active_conns_ s = ∅) then
    if shutdown_requested s then fulfil s else s
  else s.

Inductive HttpEvent :=
| HttpStart (bound : bool)             (* [start]; whether the acceptor could be set up *)
| HttpAccepted (conn : Z)              (* an accept completes *)
| HttpAcceptFailed
| HttpRetry                            (* the retry timer *)
| HttpConnectionDone (conn : Z)        (* [handle_connection_impl] returns *)
| HttpConnectionThrew (conn : Z)       (* an exception leaves it *)
| HttpShutdown                         (* [shutdown_async] on any thread *)
| HttpShutdownHandler.                 (* the handler it posted *)

(** The head of the accept loop. *)
Definition accept_again (s : HttpServer) : HttpServer :=
  if http_running s then set_accept true Accepting (accept_loop_done_ s) s
  else try_finish_shutdown (set_accept false AcceptEnded true s).

(** The end of [handle_connection], after [handle_connection_impl] has returned, and what
    is left when an exception ends the coroutine instead. *)
Definition connection_done (conn : Z) (s : HttpServer) : HttpServer :=
  try_finish_shutdown (set_conns (active_conns_ s ∖ {[conn]}) (running_conns s ∖ {[conn]}) s).
Definition connection_threw (conn : Z) (s : HttpServer) : HttpServer :=
  set_conns (active_conns_ s) (running_conns s ∖ {[conn]}) s.

(** [shutdown_async], and the handler it posts. *)
Definition shutdown_async (s : HttpServer) : HttpServer :=
  if shutdown_requested s then s else set_shutdown false true (Some (http_running s)) s.
Definition shutdown_handler (was_running : bool) (s : HttpServer) : HttpServer :=
  let s := set_shutdown (http_running s) (shutdown_requested s) None s in
  try_finish_shutdown (if was_running then s else set_accept (http_running s) (accept_state s) true s).

(** [None]: the event cannot happen in the state. *)
Definition http_step (ev : HttpEvent) (s : HttpServer) : option HttpServer :=
  match ev with
  | HttpStart bound =>
      match accept_state s with
      | NotAccepting =>
          if http_running s || shutdown_requested s then None
          else Some (if bound then set_accept true Accepting (accept_loop_done_ s) s else s)
      | _ => None
      end
  | HttpAccepted conn =>
      match accept_state s with
      | Accepting =>
          if bool_decide (conn ∈ active_conns_ s) then None
          else Some (accept_again (set_conns ({[conn]} ∪ active_conns_ s) ({[conn]} ∪ running_conns s) s))
      | _ => None
      end
  | HttpAcceptFailed =>
      match accept_state s with
      | Accepting =>
          Some (if http_running s then set_accept true Retrying (accept_loop_done_ s) s else accept_again s)
      | _ => None
      end
  | HttpRetry => match accept_state s with Retrying => Some (accept_again s) | _ => None end
  | HttpConnectionDone conn => if bool_decide (conn ∈ running_conns s) then Some (connection_done conn s) else None
  | HttpConnectionThrew conn => if bool_decide (conn ∈ running_conns s) then Some (connection_threw conn s) else None
  | HttpShutdown => Some (shutdown_async s)
  | HttpShutdownHandler => was_running ← shutdown_posted s; Some (shutdown_handler was_running s)
  end.
