(* ===== verification/TokenizerProps.v ===== *)
(** * What the tokenizer guarantees

    Merging keeps the bytes and ends, encoding always ends, and decoding inverts
    encoding for every vocabulary that covers the text. *)

From Stdlib Require Import ZArith Lia.
From stdpp Require Import prelude strings gmap fin_maps.
From S2P Require Import Prelude Base Bytes Json Tokenizer.

(** ** The byte map *)

Definition std_tokenizer : ByteLevelBpeTokenizer := build_byte_maps new_tokenizer.

(** The character of a byte. *)
Definition char (b : Z) : bytes := default [] (byte_to_str_ std_tokenizer !! b).

(** A text in the vocabulary's alphabet. *)
Definition enc (text : bytes) : bytes := text ≫= char.

Definition char_good (b : Z) : bool :=
  bool_decide (byte_to_str_ std_tokenizer !! b = Some (char b)) &&
  bool_decide (str_to_byte_ std_tokenizer !! char b = Some b) &&
  match char b with [] => false | c :: _ => bool_decide (utf8_len c = Some (length (char b))) end &&
  (negb ((33 <=? b) && (b <=? 126)) || bool_decide (char b = [b])).

Lemma all_chars_good : forallb char_good (seqZ 0 256) = true.
Proof. vm_compute. reflexivity. Qed.

#[local] Opaque std_tokenizer.

Lemma char_spec b :
  0 <= b < 256 ->
  byte_to_str_ std_tokenizer !! b = Some (char b) /\ str_to_byte_ std_tokenizer !! char b = Some b /\
  (exists c rest, char b = c :: rest /\ utf8_len c = Some (length (char b))) /\
  (33 <= b <= 126 -> char b = [b]).
Proof.
  intros Hb. pose proof all_chars_good as Hall. rewrite forallb_forall in Hall.
  assert (char_good b = true) as Hg by (apply Hall, list_elem_of_In, elem_of_seqZ; lia).
  unfold char_good in Hg.
  apply andb_prop in Hg as [Hg H4]. apply andb_prop in Hg as [Hg H3]. apply andb_prop in Hg as [H1 H2].
  apply bool_decide_eq_true in H1, H2. split_and!; [done|done| |].
  - destruct (char b) as [|c rest]; [done|]. exists c, rest. split; [done|]. by apply bool_decide_eq_true in H3.
  - intros Hr. apply orb_true_iff in H4 as [H4|H4]; [lia|by apply bool_decide_eq_true in H4].
Qed.

Lemma enc_app a b : enc (a ++ b) = enc a ++ enc b.
Proof. apply bind_app. Qed.

Lemma length_enc text : is_bytes text -> (length text <= length (enc text))%nat.
Proof.
  induction 1 as [|b text Hb _ IH]; [done|]. change (enc (b :: text)) with (char b ++ enc text).
  rewrite length_app. destruct (char_spec b Hb) as (_ & _ & (c & rest & -> & _) & _). simpl. lia.
Qed.

(** ** Tokenizers *)

(** The maps agree; what [load_from_vocab_and_merges] builds. *)
Record tokenizer_ok (t : ByteLevelBpeTokenizer) : Prop := mk_tokenizer_ok {
  tk_b2s : byte_to_str_ t = byte_to_str_ std_tokenizer;
  tk_s2b : str_to_byte_ t = str_to_byte_ std_tokenizer;
  tk_vocab : forall s id, vocab_ t !! s = Some id -> id_to_token_ t !! id = Some s;
  tk_special : forall s id, special_token_to_id_ t !! s = Some id -> id_to_special_token_ t !! id = Some s;
  tk_special_id : forall id s, id_to_special_token_ t !! id = Some s -> id_to_token_ t !! id = Some s;
  tk_ranks : forall p rank, merge_rank_ t !! p = Some rank -> rank < INT_MAX;
}.

(** No unknown-token fallback, and special tokens in printable ASCII. *)
Definition lossless (t : ByteLevelBpeTokenizer) : Prop :=
  unk_token_id_ t < 0 /\
  forall s id, special_token_to_id_ t !! s = Some id -> Forall (fun b => 33 <= b <= 126) s.

(** Every byte and the result of every merge is in the vocabulary. *)
Definition covers (t : ByteLevelBpeTokenizer) : Prop :=
  (forall a b r, merge_rank_ t !! (a, b) = Some r -> is_Some (vocab_ t !! (a ++ b))) /\
  forall b, 0 <= b < 256 -> is_Some (vocab_ t !! char b).

(** ** Merging *)

Section bpe.
Context (t : ByteLevelBpeTokenizer).

(** Adjacent symbols. *)
Definition adjacent (symbols : list bytes) (i : nat) (a b : bytes) : Prop :=
  symbols !! i = Some a /\ symbols !! S i = Some b.

Lemma merge_pass_concat rank symbols : concat (merge_pass t rank symbols) = concat symbols.
Proof.
  induction symbols as [symbols IH] using (induction_ltof1 _ (@length bytes)).
  destruct symbols as [|a [|b rest]]; [done|done|]. cbn [merge_pass]. case_bool_decide.
  - simpl. rewrite IH by (unfold ltof; simpl; lia). by rewrite <- app_assoc.
  - cbn [concat]. f_equal. apply (IH (b :: rest)). unfold ltof. simpl. lia.
Qed.

Lemma merge_pass_length rank symbols : (length (merge_pass t rank symbols) <= length symbols)%nat.
Proof.
  induction symbols as [symbols IH] using (induction_ltof1 _ (@length bytes)).
  destruct symbols as [|a [|b rest]]; [done|done|]. cbn [merge_pass]. case_bool_decide.
  - simpl. pose proof (IH rest ltac:(unfold ltof; simpl; lia)). lia.
  - apply le_n_S, (IH (b :: rest)). unfold ltof. simpl. lia.
Qed.

(** A pair of the rank makes the pass shorten the list. *)
Lemma merge_pass_shorter rank symbols i a b :
  adjacent symbols i a b -> merge_rank_ t !! (a, b) = Some rank ->
  (length (merge_pass t rank symbols) < length symbols)%nat.
Proof.
  revert i. induction symbols as [symbols IH] using (induction_ltof1 _ (@length bytes)). intros i [Ha Hb] Hr.
  destruct symbols as [|x [|y rest]]; [done|by destruct i|]. cbn [merge_pass]. case_bool_decide as Hxy.
  - pose proof (merge_pass_length rank rest). simpl. lia.
  - destruct i as [|i]; [simpl in Ha, Hb; congruence|].
    apply le_n_S, (IH (y :: rest) ltac:(unfold ltof; simpl; lia) i ltac:(by split) Hr).
Qed.

(** The scan returns the initial answer or a pair with a smaller rank, and no pair
    has a smaller one. *)
Lemma best_pair_spec symbols i rank pos :
  let '(r, p) := best_pair t symbols i rank pos in
  ((r, p) = (rank, pos) \/
   exists k a b, p = (i + k)%nat /\ adjacent symbols k a b /\ merge_rank_ t !! (a, b) = Some r /\ r < rank) /\
  r <= rank /\ forall k a b r', adjacent symbols k a b -> merge_rank_ t !! (a, b) = Some r' -> r <= r' \/ rank <= r'.
Proof.
  revert i rank pos. induction symbols as [|x rest IH]; intros i rank pos.
  { simpl. split; [by left|]. split; [lia|]. by intros k a b r' []. }
  destruct rest as [|y rest].
  { simpl. split; [by left|]. split; [lia|]. intros [|k] a b r' []; [done|done]. }
  cbn [best_pair].
  assert (forall rank' pos', (rank', pos') = (rank, pos) /\
      (forall r', merge_rank_ t !! (x, y) = Some r' -> rank <= r') \/
      (merge_rank_ t !! (x, y) = Some rank' /\ rank' < rank /\ pos' = i) ->
    let '(r, p) := best_pair t (y :: rest) (S i) rank' pos' in
    ((r, p) = (rank, pos) \/
     exists k a b, p = (i + k)%nat /\ adjacent (x :: y :: rest) k a b /\ merge_rank_ t !! (a, b) = Some r /\ r < rank) /\
    r <= rank /\
    forall k a b r', adjacent (x :: y :: rest) k a b -> merge_rank_ t !! (a, b) = Some r' -> r <= r' \/ rank <= r')
    as Hstep.
  { intros rank' pos' Hc. specialize (IH (S i) rank' pos').
    destruct (best_pair t (y :: rest) (S i) rank' pos') as [r p]. destruct IH as (I1 & I2 & I3).
    assert (rank' <= rank) as Hle by (destruct Hc as [[[= -> ->] _]|(_ & ? & _)]; lia).
    split; [|split; [lia|]].
    - destruct I1 as [[= -> ->]|(k & a & b & -> & Hab & Hr & Hlt)].
      + destruct Hc as [[[= -> ->] _]|(Hr & Hlt & ->)]; [by left|right]. exists 0%nat, x, y.
        split_and!; [lia|by split|done|done].
      + right. exists (S k), a, b. split_and!; [lia|exact Hab|done|lia].
    - intros [|k] a b r' [Ha Hb] Hr'.
      + simpl in Ha, Hb. injection Ha as <-. injection Hb as <-.
        destruct Hc as [[_ Hc]|(Hr & Hlt & _)]; [right; by apply Hc|left]. rewrite Hr in Hr'. injection Hr' as <-. lia.
      + destruct (I3 k a b r' ltac:(by split) Hr') as [?|?]; [by left|].
        destruct Hc as [[[= -> ->] _]|(Hr & Hlt & _)]; [by right|left; lia]. }
  destruct (merge_rank_ t !! (x, y)) as [rk|] eqn:E; [|apply Hstep; left; split; [done|by intros]].
  destruct (Z.ltb_spec rk rank); apply Hstep; [right; done|left]. split; [done|]. intros r' [= <-]. lia.
Qed.

(** Merging stays within the vocabulary. *)
Definition known (s : bytes) : Prop := is_Some (vocab_ t !! s).

Lemma merge_pass_known rank symbols :
  (forall a b r, merge_rank_ t !! (a, b) = Some r -> known (a ++ b)) ->
  Forall known symbols -> Forall known (merge_pass t rank symbols).
Proof.
  intros Hm. induction symbols as [symbols IH] using (induction_ltof1 _ (@length bytes)). intros Hs.
  destruct symbols as [|a [|b rest]]; [done|done|]. cbn [merge_pass].
  apply Forall_cons in Hs as [Ha Hs]. case_bool_decide as Hr; constructor; [by eapply Hm| |done|].
  - apply Forall_cons in Hs as [_ Hs]. apply IH; [unfold ltof; simpl; lia|done].
  - apply (IH (b :: rest)); [unfold ltof; simpl; lia|done].
Qed.

Lemma apply_bpe_known symbols out :
  (forall a b r, merge_rank_ t !! (a, b) = Some r -> known (a ++ b)) ->
  Forall known symbols -> apply_bpe t symbols = Some out -> Forall known out.
Proof.
  intros Hm. unfold apply_bpe. destruct symbols as [|s symbols]; [by intros _ [= <-]|].
  generalize (length (s :: symbols)) as fuel. generalize (s :: symbols). clear s symbols. intros symbols fuel.
  revert symbols. induction fuel as [|fuel IH]; intros symbols Hs; [done|]. cbn [bpe_loop].
  destruct (length symbols <? 2)%nat; [by intros [= <-]|]. destruct (best_pair _ _ _ _ _) as [r p].
  destruct (p =? length symbols)%nat; [by intros [= <-]|]. apply IH. by apply merge_pass_known.
Qed.

(** ** The reference: byte-pair encoding as a rewriting system *)

(** All occurrences of the pairs of one rank are merged, from left to right. *)
Inductive merged (rank : Z) : list bytes -> list bytes -> Prop :=
  | merged_nil : merged rank [] []
  | merged_pair a b rest rest' :
      merge_rank_ t !! (a, b) = Some rank -> merged rank rest rest' ->
      merged rank (a :: b :: rest) ((a ++ b) :: rest')
  | merged_skip a rest rest' :
      (forall b tl, rest = b :: tl -> merge_rank_ t !! (a, b) <> Some rank) -> merged rank rest rest' ->
      merged rank (a :: rest) (a :: rest').

(** The rank is the lowest among the adjacent pairs. *)
Definition lowest_rank (symbols : list bytes) (rank : Z) : Prop :=
  (exists i a b, adjacent symbols i a b /\ merge_rank_ t !! (a, b) = Some rank) /\
  forall i a b rank', adjacent symbols i a b -> merge_rank_ t !! (a, b) = Some rank' -> rank <= rank'.

Definition bpe_step (symbols symbols' : list bytes) : Prop :=
  exists rank, lowest_rank symbols rank /\ rank < INT_MAX /\ merged rank symbols symbols'.

(** No pair can be merged. *)
Definition fully_merged (symbols : list bytes) : Prop :=
  forall i a b rank, adjacent symbols i a b -> merge_rank_ t !! (a, b) = Some rank -> INT_MAX <= rank.

Lemma merge_pass_merged rank symbols : merged rank symbols (merge_pass t rank symbols).
Proof.
  induction symbols as [symbols IH] using (induction_ltof1 _ (@length bytes)).
  destruct symbols as [|a [|b rest]]; [constructor|constructor; [by intros|constructor]|]. cbn [merge_pass].
  case_bool_decide as Hr.
  - constructor; [done|]. apply IH. unfold ltof. simpl. lia.
  - constructor; [by intros b' tl [= <- _]|]. apply (IH (b :: rest)). unfold ltof. simpl. lia.
Qed.

Lemma bpe_loop_spec fuel symbols :
  (0 < length symbols <= fuel)%nat ->
  exists out, bpe_loop t fuel symbols = Some out /\ rtc bpe_step symbols out /\ fully_merged out /\
    concat out = concat symbols.
Proof.
  revert symbols. induction fuel as [|fuel IH]; intros symbols Hl; [lia|]. cbn [bpe_loop].
  destruct (Nat.ltb_spec (length symbols) 2) as [Hlt|Hge].
  { exists symbols. split_and!; [done|done| |done]. intros i a b rank [Ha Hb] _.
    apply lookup_lt_Some in Hb. lia. }
  pose proof (best_pair_spec symbols 0 INT_MAX (length symbols)) as Hbest.
  destruct (best_pair t symbols 0 INT_MAX (length symbols)) as [r p]. destruct Hbest as (B1 & B2 & B3).
  destruct (Nat.eqb_spec p (length symbols)) as [->|Hne].
  - exists symbols. split_and!; [done|done| |done]. intros i a b rank Hab Hr.
    destruct B1 as [[= ->]|(k & a' & b' & Ek & [Hk _] & _)]; [by destruct (B3 i a b rank Hab Hr)|].
    apply lookup_lt_Some in Hk. lia.
  - destruct B1 as [[= -> ->]|(k & a & b & Ek & Hab & Hr & Hrlt)]; [done|].
    pose proof (merge_pass_shorter r symbols k a b Hab Hr) as Hshort.
    destruct (IH (merge_pass t r symbols)) as (out & E & Hs & Hf & Hc).
    { split; [|lia]. destruct symbols as [|x [|y rest]]; simpl in *; [lia|lia|]. case_bool_decide; simpl; lia. }
    exists out. split_and!; [done| |done|by rewrite Hc, merge_pass_concat].
    eapply rtc_l; [|exact Hs]. exists r. split_and!; [split; [by eauto|]|done|apply merge_pass_merged].
    intros i' a' b' r' Hab' Hr'. destruct (B3 i' a' b' r' Hab' Hr'); lia.
Qed.

Lemma apply_bpe_spec symbols :
  exists out, apply_bpe t symbols = Some out /\ rtc bpe_step symbols out /\ fully_merged out /\
    concat out = concat symbols.
Proof.
  destruct symbols as [|x symbols].
  { exists []. split_and!; [done|done| |done]. by intros i a b rank []. }
  apply bpe_loop_spec. simpl. lia.
Qed.
End bpe.

(** ** Encoding and decoding segments *)

Section segments.
Context (t : ByteLevelBpeTokenizer) (Ht : tokenizer_ok t).

(** The ids stand for the text, for a lossless tokenizer. *)
Definition spells (ids : list Z) (text : bytes) : Prop :=
  lossless t -> symbol_stream t ids false = Value (enc text).

Lemma symbol_stream_app ids1 ids2 s1 s2 :
  symbol_stream t ids1 false = Value s1 -> symbol_stream t ids2 false = Value s2 ->
  symbol_stream t (ids1 ++ ids2) false = Value (s1 ++ s2).
Proof.
  intros H1 H2. revert s1 H1. induction ids1 as [|id ids IH]; intros s1 H1; simpl in *; [by injection H1 as <-|].
  destruct (id_to_special_token_ t !! id) as [s|].
  - destruct (symbol_stream t ids false) as [r|]; [|done]. injection H1 as <-. rewrite (IH r) by done.
    by rewrite <- app_assoc.
  - destruct (id_to_token_ t !! id) as [s|]; [|done]. destruct (symbol_stream t ids false) as [r|]; [|done].
    injection H1 as <-. rewrite (IH r) by done. by rewrite <- app_assoc.
Qed.

Lemma spells_app ids1 ids2 a b : spells ids1 a -> spells ids2 b -> spells (ids1 ++ ids2) (a ++ b).
Proof. intros H1 H2 Hl. rewrite enc_app. apply symbol_stream_app; [by apply H1|by apply H2]. Qed.

(** A token's id stands for the token, special or not. *)
Lemma stream_one s id ids rest :
  vocab_ t !! s = Some id -> symbol_stream t ids false = Value rest -> symbol_stream t (id :: ids) false = Value (s ++ rest).
Proof.
  intros Hv Hr. apply (tk_vocab t Ht) in Hv. simpl. destruct (id_to_special_token_ t !! id) as [s'|] eqn:E.
  - apply (tk_special_id t Ht) in E. assert (s' = s) as -> by congruence. by rewrite Hr.
  - by rewrite Hv, Hr.
Qed.

Lemma byte_encode_spec text :
  is_bytes text -> exists symbols, byte_encode_segment t text = Some symbols /\ concat symbols = enc text.
Proof.
  induction 1 as [|b text Hb _ (symbols & E & Hc)]; [by exists []|]. cbn [byte_encode_segment].
  rewrite (tk_b2s t Ht). destruct (char_spec b Hb) as (-> & _). cbn [mbind option_bind]. rewrite E. cbn [mbind option_bind].
  exists (char b :: symbols). split; [done|]. simpl. by rewrite Hc.
Qed.

Lemma symbol_ids_spec symbols ids :
  unk_token_id_ t < 0 -> symbol_ids t symbols = Value ids -> symbol_stream t ids false = Value (concat symbols).
Proof.
  intros Hu. revert ids. induction symbols as [|s symbols IH]; intros ids H; simpl in *; [by injection H as <-|].
  destruct (vocab_ t !! s) as [id|] eqn:Hv; [|destruct (Z.leb_spec 0 (unk_token_id_ t)); [lia|done]].
  destruct (symbol_ids t symbols) as [rest|]; [|done]. injection H as <-. apply stream_one; [done|by apply IH].
Qed.

Lemma symbol_ids_error symbols e : symbol_ids t symbols = Unexpected e -> ~ Forall (known t) symbols.
Proof.
  induction symbols as [|s symbols IH]; [done|]. simpl. intros E [[id Hid] Hs]%Forall_cons. rewrite Hid in E.
  destruct (symbol_ids t symbols); [done|]. by apply IH.
Qed.

Lemma byte_encode_known text symbols :
  covers t -> is_bytes text -> byte_encode_segment t text = Some symbols -> Forall (known t) symbols.
Proof.
  intros [_ Hv] Hb. revert symbols. induction Hb as [|b text Hb _ IH]; intros symbols; [by intros [= <-]|].
  cbn [byte_encode_segment]. rewrite (tk_b2s t Ht). destruct (char_spec b Hb) as (-> & _). cbn [mbind option_bind].
  destruct (byte_encode_segment t text); [|done]. intros [= <-]. constructor; [by apply Hv|by apply IH].
Qed.

Lemma encode_segment_spec text :
  is_bytes text -> exists r, encode_normal_segment t text = Some r /\
    match r with Value ids => spells ids text | Unexpected _ => ~ covers t end.
Proof.
  intros Hb. unfold encode_normal_segment. destruct (byte_encode_spec text Hb) as (symbols & Es & Hc). rewrite Es.
  cbn [mbind option_bind]. destruct (apply_bpe_spec t symbols) as (out & Eo & _ & _ & Ho). rewrite Eo. cbn [mbind option_bind].
  eexists. split; [done|]. destruct (symbol_ids t out) as [ids|] eqn:E.
  2: { intros Hv. eapply symbol_ids_error; [exact E|]. eapply Forall_impl.
       { eapply apply_bpe_known; [apply Hv|by eapply byte_encode_known|exact Eo]. }
       done. }
  intros [Hu _]. rewrite (symbol_ids_spec out ids Hu E). by rewrite Ho, Hc.
Qed.

(** A special token at a position is that part of the text. *)
Lemma match_special_spec text pos token id :
  try_match_special t text pos = Some (token, id) ->
  special_token_to_id_ t !! token = Some id /\ token <> [] /\ (pos + length token <= length text)%nat /\
  substr text pos (length token) = token.
Proof.
  unfold try_match_special. set (best := foldl _ _ _). case_bool_decide as Hne; [done|]. intros [= E].
  assert (best.1 = [] \/ (special_token_to_id_ t !! best.1 = Some best.2 /\ starts_with_at text pos best.1 = true)) as Hb.
  { unfold best. clear best Hne E.
    assert (forall x, x ∈ map_to_list (special_token_to_id_ t) -> special_token_to_id_ t !! x.1 = Some x.2) as Hin.
    { intros [s i] Hx. by apply elem_of_map_to_list in Hx. }
    assert (forall b0 : bytes * Z, b0.1 = [] \/ (special_token_to_id_ t !! b0.1 = Some b0.2 /\ starts_with_at text pos b0.1 = true) ->
      let b1 := foldl (match_step text pos) b0 (map_to_list (special_token_to_id_ t)) in
      b1.1 = [] \/ (special_token_to_id_ t !! b1.1 = Some b1.2 /\ starts_with_at text pos b1.1 = true)) as Hfold.
    { induction (map_to_list (special_token_to_id_ t)) as [|x l IH]; intros b0 H0; [done|]. simpl.
      apply IH; [intros y Hy; apply Hin; by right|]. unfold match_step. case_bool_decide; [done|].
      destruct (Nat.leb_spec (length x.1) (length b0.1)); [done|].
      destruct (starts_with_at text pos x.1) eqn:Hs; [|done]. right. split; [apply Hin; by left|done]. }
    apply Hfold. by left. }
  rewrite E in Hb, Hne. simpl in *. destruct Hb as [?|[Hb Hs]]; [done|]. split_and!; [done|done| |].
  - unfold starts_with_at in Hs. destruct (_ || _) eqn:Ho; [done|]. apply orb_false_iff in Ho as [H1 H2].
    apply Nat.ltb_ge in H1, H2. lia.
  - unfold starts_with_at in Hs. destruct (_ || _); [done|]. by apply bool_decide_eq_true in Hs.
Qed.

(** A special token stands for itself. *)
Lemma special_spells token id : special_token_to_id_ t !! token = Some id -> spells [id] token.
Proof.
  intros Hs [_ Hascii]. specialize (Hascii token id Hs). simpl. rewrite (tk_special t Ht _ _ Hs). f_equal.
  rewrite app_nil_r. clear Hs. symmetry. induction Hascii as [|b token Hb _ IH]; [done|].
  change (enc (b :: token)) with (char b ++ enc token). rewrite IH.
  destruct (char_spec b ltac:(lia)) as (_ & _ & _ & ->); [done|]. done.
Qed.

(** The parts of a text. *)
Lemma take_substr (text : bytes) a b : (a <= b)%nat -> take a text ++ substr text a (b - a) = take b text.
Proof.
  intros Hab. unfold substr. rewrite <- (take_drop a (take b text)) at 1.
  rewrite take_take, Nat.min_l by done. f_equal.
  by rewrite take_drop_commute, (Nat.add_comm a), Nat.sub_add by done.
Qed.

Lemma is_bytes_substr text a n : is_bytes text -> is_bytes (substr text a n).
Proof. intros H. by apply Forall_take, Forall_drop. Qed.

Lemma skip_while_bounds p rest pos :
  (pos <= skip_while p rest pos <= pos + length rest)%nat.
Proof.
  revert pos. induction rest as [|c rest IH]; intros pos; simpl; [lia|].
  destruct (p c); [|lia]. specialize (IH (S pos)). lia.
Qed.

Lemma skip_while_drop p (text : bytes) pos c :
  text !! pos = Some c -> p c = true ->
  (pos < skip_while p (drop pos text) pos <= length text)%nat.
Proof.
  intros Hc Hp. pose proof (lookup_lt_Some _ _ _ Hc). rewrite (drop_S _ c) by done. simpl. rewrite Hp.
  pose proof (skip_while_bounds p (drop (S pos) text) (S pos)) as Hb. rewrite length_drop in Hb. lia.
Qed.

(** What has been written so far, or an error. *)
Definition spells_result (r : option (Result (list Z))) (text : bytes) : Prop :=
  exists r', r = Some r' /\ match r' with Value ids => spells ids text | Unexpected _ => ~ covers t end.

Lemma flush_spec text begin_ end_ ids :
  is_bytes text -> (begin_ <= end_)%nat -> spells ids (take begin_ text) ->
  spells_result (flush t text begin_ end_ ids) (take end_ text).
Proof.
  intros Hb Hle Hs. unfold flush. destruct (Nat.leb_spec end_ begin_).
  { assert (end_ = begin_) as -> by lia. by exists (Value ids). }
  destruct (encode_segment_spec (substr text begin_ (end_ - begin_)) ltac:(by apply is_bytes_substr)) as (r & -> & Hr).
  cbn [mbind option_bind]. eexists. split; [done|]. destruct r as [seg|]; [|done]. simpl.
  rewrite <- (take_substr text begin_ end_) by lia. by apply spells_app.
Qed.

Lemma and_then_spec r k text final :
  spells_result r text -> (forall ids, spells ids text -> spells_result (k ids) final) ->
  spells_result (and_then r k) final.
Proof.
  intros (r' & -> & Hr) Hk. unfold and_then. cbn [mbind option_bind].
  destruct r' as [ids|e]; [by apply Hk|]. by exists (Unexpected e).
Qed.

Lemma encode_loop_spec text fuel pos segment_start ids :
  is_bytes text -> (segment_start <= pos <= length text)%nat -> (length text - pos < fuel)%nat ->
  spells ids (take segment_start text) ->
  spells_result (encode_loop t fuel text pos segment_start ids) text.
Proof.
  intros Hb. revert pos segment_start ids.
  induction fuel as [|fuel IH]; intros pos ss ids Hp Hf Hs; [lia|]. cbn [encode_loop].
  destruct (Nat.leb_spec (length text) pos) as [Hend|Hlt].
  { pose proof (flush_spec text ss (length text) ids Hb ltac:(lia) Hs) as Hfl. by rewrite firstn_all in Hfl. }
  destruct (try_match_special t text pos) as [[token id]|] eqn:Hm.
  { apply match_special_spec in Hm as (Hid & Hne & Hl & Hsub).
    assert (0 < length token)%nat by (destruct token; [done|simpl; lia]).
    eapply and_then_spec; [apply flush_spec; [done| |exact Hs]; lia|]. intros ids' Hs'.
    apply IH; [lia|lia|]. rewrite <- (take_substr text pos (pos + length token)) by lia.
    replace (pos + length token - pos)%nat with (length token) by lia. rewrite Hsub.
    apply spells_app; [done|by apply special_spells]. }
  destruct (lookup_lt_is_Some_2 text pos Hlt) as [c Hc]. rewrite Hc. cbn [mbind option_bind].
  destruct (is_newline c) eqn:Hnl; [|destruct (is_space c) eqn:Hsp].
  - pose proof (skip_while_drop _ _ _ _ Hc Hnl).
    eapply and_then_spec; [apply flush_spec; [done| |exact Hs]; lia|]. intros ids' Hs'.
    eapply and_then_spec; [apply flush_spec; [done| |exact Hs']; lia|]. intros ids'' Hs''.
    apply IH; [lia|lia|done].
  - pose proof (skip_while_drop _ _ _ _ Hc Hsp). set (e := skip_while is_space (drop pos text) pos) in *.
    eapply and_then_spec; [apply flush_spec; [done| |exact Hs]; lia|]. intros ids' Hs'. cbv zeta.
    destruct (negb _).
    { eapply and_then_spec; [apply flush_spec; [done| |exact Hs']; lia|]. intros ids'' Hs''.
      apply IH; [lia|lia|done]. }
    destruct (Nat.eqb_spec (e - pos) 1); [apply IH; [lia|lia|done]|].
    eapply and_then_spec; [apply flush_spec; [done| |exact Hs']; lia|]. intros ids'' Hs''.
    apply IH; [lia|lia|done].
  - apply IH; [lia|lia|done].
Qed.

Lemma encode_spec text : is_bytes text -> spells_result (encode t text) text.
Proof.
  intros Hb. unfold encode. case_bool_decide as Hv.
  { eexists (Unexpected _). split; [done|]. intros [_ Hc]. destruct (Hc 0 ltac:(lia)) as [id Hid]. by rewrite Hv in Hid. }
  apply encode_loop_spec; [done|lia|lia|]. by intros _.
Qed.

(** ** Decoding *)

Lemma decode_chars_enc text fuel skip :
  is_bytes text -> (length text < fuel)%nat -> decode_chars t fuel (enc text) skip = Some (Value text).
Proof.
  intros Hb. revert fuel. induction Hb as [|b text Hb _ IH]; intros [|fuel] Hf; cbn [length] in Hf; [lia|reflexivity|lia|].
  change (enc (b :: text)) with (char b ++ enc text). destruct (char_spec b Hb) as (_ & Hs & (c & rest & Ec & Hl) & _).
  cbn [decode_chars]. destruct (char b ++ enc text) as [|c' s] eqn:E; [by rewrite Ec in E|].
  assert (c' = c) as -> by (rewrite Ec in E; by injection E). rewrite Hl, <- E.
  rewrite length_app. destruct (Nat.ltb_spec (length (char b) + length (enc text)) (length (char b))); [lia|].
  rewrite take_app_length, drop_app_length, (tk_s2b t Ht), Hs. rewrite IH by lia. done.
Qed.

(** Decoding always ends. *)
Lemma utf8_len_pos c n : utf8_len c = Some n -> (0 < n)%nat.
Proof. unfold utf8_len. repeat case_match; intros [= <-]; lia. Qed.

Lemma decode_chars_total fuel stream skip :
  (length stream < fuel)%nat -> is_Some (decode_chars t fuel stream skip).
Proof.
  revert stream. induction fuel as [|fuel IH]; intros stream Hl; [lia|]. cbn [decode_chars].
  destruct stream as [|c s]; [by eexists|]. destruct (utf8_len c) as [n|] eqn:En; [|by eexists].
  apply utf8_len_pos in En. destruct (length (c :: s) <? n)%nat; [by eexists|].
  destruct (IH (drop n (c :: s))) as [r Hr]; [rewrite length_drop; cbn [length] in *; lia|].
  destruct (str_to_byte_ t !! _); [|destruct skip; [by eexists|]];
    rewrite Hr; unfold and_then; cbn [mbind option_bind]; destruct r; by eexists.
Qed.

Lemma tokenizer_decode_total ids skip : is_Some (decode t ids skip).
Proof.
  unfold decode. case_bool_decide; [by eexists|]. destruct (symbol_stream t ids skip); [|by eexists].
  apply decode_chars_total. lia.
Qed.

(** Encoding ends; it fails only outside the vocabulary, and what it returns
    decodes to the text. *)
Lemma decode_encode_run text :
  is_bytes text ->
  exists r, encode t text = Some r /\
    match r with
    | Value ids => lossless t -> decode t ids false = Some (Value text)
    | Unexpected _ => ~ covers t
    end.
Proof.
  intros Hb. destruct (encode_spec text Hb) as (r & E & Hr). exists r. split; [done|]. destruct r as [ids|]; [|done].
  intros Hl. unfold decode. rewrite (Hr Hl). case_bool_decide as Hn.
  - exfalso. unfold encode in E. case_bool_decide as Hv; [done|]. apply map_choose in Hv as (s & id & Hv).
    apply (tk_vocab t Ht) in Hv. by rewrite Hn in Hv.
  - apply decode_chars_enc; [done|]. pose proof (length_enc text Hb). lia.
Qed.
End segments.

(** ** Loading *)

(** The ids given out so far are below [i]. *)
Record loading (t : ByteLevelBpeTokenizer) (i : Z) : Prop := mk_loading {
  ld_vocab : forall s id, vocab_ t !! s = Some id -> id_to_token_ t !! id = Some s;
  ld_special : forall s id, special_token_to_id_ t !! s = Some id -> id_to_special_token_ t !! id = Some s;
  ld_special_id : forall id s, id_to_special_token_ t !! id = Some s -> id_to_token_ t !! id = Some s;
  ld_below : forall id s, id_to_token_ t !! id = Some s -> 0 <= id < i;
  ld_max : max_token_id_ t = i - 1;
  ld_some : 0 < i -> vocab_ t <> ∅;
}.

Lemma loading_add_token t i token :
  loading t i -> 0 <= i < 2 ^ 31 -> loading (add_token token i t) (i + 1).
Proof.
  intros [Hv Hs Hi Hb Hm _] Hr.
  assert (forall id s, id_to_token_ t !! id = Some s -> (<[i := token]> (id_to_token_ t)) !! id = Some s) as Hold.
  { intros id s H. rewrite lookup_insert_ne; [done|]. intros ->. apply Hb in H. lia. }
  constructor; simpl.
  - intros s id [[<- <-]|[Hne H]]%lookup_insert_Some; [apply lookup_insert_eq|]. apply Hold. by apply Hv.
  - exact Hs.
  - intros id s H. apply Hold. by apply Hi.
  - intros id s [[<- <-]|[Hne H]]%lookup_insert_Some; [lia|]. apply Hb in H. lia.
  - rewrite Hm. destruct (Z.ltb_spec (i - 1) i); lia.
  - intros _. apply insert_non_empty.
Qed.

Lemma loading_add_special t i token :
  loading t (i + 1) -> id_to_token_ t !! i = Some token ->
  (forall s, id_to_special_token_ t !! i = Some s -> s = token) -> loading (add_special token i t) (i + 1).
Proof.
  intros [Hv Hs Hi Hb Hm Hm'] Ht Hn. constructor; simpl; [done| | |done|done|done].
  - intros s id [[<- <-]|[Hne H]]%lookup_insert_Some; [apply lookup_insert_eq|]. apply Hs in H.
    apply lookup_insert_Some. destruct (decide (i = id)) as [<-|]; [left|by right]. split; [done|]. symmetry. by apply Hn.
  - intros id s [[<- <-]|[Hne H]]%lookup_insert_Some; [done|]. by apply Hi.
Qed.

(** One iteration of the token loop. *)
Lemma loading_step t i token types :
  loading t i -> 0 <= i < 2 ^ 31 ->
  let t1 := add_token token i t in
  let t2 := match types with
            | type :: _ => if 3 <=? type then add_special token i t1
                           else if (type =? 2) && (unk_token_id_ t1 <? 0) then set_unk i t1 else t1
            | [] => t1
            end in
  loading t2 (i + 1) /\ id_to_token_ t2 = <[i := token]> (id_to_token_ t) /\ merge_rank_ t2 = merge_rank_ t.
Proof.
  intros Hl Hr t1 t2. pose proof (loading_add_token t i token Hl Hr) as H1. fold t1 in H1. unfold t2.
  destruct types as [|type types]; [done|]. destruct (3 <=? type).
  - split_and!; [|done|done]. apply loading_add_special; [done|by apply lookup_insert_eq|].
    intros s Hs. apply (ld_special_id _ _ Hl) in Hs. apply (ld_below _ _ Hl) in Hs. lia.
  - destruct (_ && _); [|done]. split_and!; [|done|done]. by destruct H1; constructor.
Qed.

Lemma load_tokens_spec tokens types i t :
  loading t i -> 0 <= i -> i + Z.of_nat (length tokens) <= 2 ^ 31 ->
  let t' := load_tokens tokens types i t in
  loading t' (i + Z.of_nat (length tokens)) /\ merge_rank_ t' = merge_rank_ t /\
  (forall id s, id_to_token_ t !! id = Some s -> id_to_token_ t' !! id = Some s) /\
  forall k token, tokens !! k = Some token -> id_to_token_ t' !! (i + Z.of_nat k) = Some token.
Proof.
  revert types i t. induction tokens as [|token tokens IH]; intros types i t Hl Hi Hn; cbv zeta.
  { simpl. rewrite Z.add_0_r. split_and!; [done|done|done|]. by intros k token. }
  cbn [load_tokens length] in *. unfold i32. rewrite (sint_small 32 i) by lia.
  destruct (loading_step t i token types Hl ltac:(lia)) as (H1 & H2 & H3).
  destruct (IH (tail types) (i + 1) _ H1 ltac:(lia) ltac:(lia)) as (J1 & J2 & J3 & J4).
  split_and!; [by replace (i + Z.of_nat (S (length tokens))) with (i + 1 + Z.of_nat (length tokens)) by lia|congruence| |].
  - intros id s Hs. apply J3. rewrite H2, lookup_insert_ne; [done|]. intros ->. apply (ld_below _ _ Hl) in Hs. lia.
  - intros [|k] tok Hk; simpl in Hk.
    + injection Hk as <-. rewrite Z.add_0_r. apply J3. rewrite H2. apply lookup_insert_eq.
    + replace (i + Z.of_nat (S k)) with (i + 1 + Z.of_nat k) by lia. by apply J4.
Qed.

Lemma load_merges_spec merges rank t :
  (forall p r, merge_rank_ t !! p = Some r -> r < rank) ->
  exists m, load_merges merges rank t =
    mkTokenizer (vocab_ t) (id_to_token_ t) m (byte_to_str_ t) (str_to_byte_ t) (special_token_to_id_ t)
      (id_to_special_token_ t) (max_token_id_ t) (tok_eos_id t) (pad_token_id_ t) (unk_token_id_ t) /\
    forall p r, m !! p = Some r -> r < rank + Z.of_nat (length merges).
Proof.
  revert rank t. induction merges as [|merge merges IH]; intros rank t Hr; simpl.
  { exists (merge_rank_ t). split; [by destruct t|]. intros p r H. apply Hr in H. lia. }
  destruct (split_space merge) as [p|].
  - destruct (IH (rank + 1) (add_merge p rank t)) as (m & -> & Hm).
    { simpl. intros q r [[<- <-]|[_ H]]%lookup_insert_Some; [lia|]. apply Hr in H. lia. }
    exists m. split; [done|]. intros q r H. apply Hm in H. lia.
  - destruct (IH rank t Hr) as (m & -> & Hm). exists m. split; [done|]. intros q r H. apply Hm in H. lia.
Qed.

Lemma load_run tokens merges types eos pad t0 :
  tokens <> [] -> Z.of_nat (length tokens) <= INT_MAX -> Z.of_nat (length merges) <= INT_MAX ->
  exists t, load_from_vocab_and_merges tokens merges types eos pad t0 = Value t /\
    tokenizer_ok t /\ vocab_size t = Z.of_nat (length tokens) /\ tok_eos_id t = eos /\ pad_token_id_ t = pad /\
    forall k token, tokens !! k = Some token -> id_to_token_ t !! Z.of_nat k = Some token.
Proof.
  intros Hne Hn Hm. unfold load_from_vocab_and_merges. set (t1 := mkTokenizer _ _ _ _ _ _ _ _ _ _ _).
  assert (loading t1 0) as H0 by by constructor.
  destruct (load_tokens_spec tokens types 0 t1 H0 ltac:(lia) ltac:(unfold INT_MAX in *; lia)) as (Hl & Hmr & _ & Hk).
  set (t2 := load_tokens _ _ _ _) in *.
  destruct (load_merges_spec merges 0 t2) as (m & -> & Hranks); [by rewrite Hmr|].
  case_bool_decide as Hv.
  - exfalso. simpl in Hv. apply (ld_some _ _ Hl); [|done]. destruct tokens; [done|simpl; lia].
  - eexists. split; [done|]. destruct Hl as [L1 L2 L3 L4 L5 _]. split_and!; [|unfold vocab_size; simpl; lia|done|done|done].
    constructor; [done|done|done|done|done|]. simpl. intros p r H. apply Hranks in H. lia.
Qed.

(** ** The claims *)

(** C21: Byte-pair merging always ends; its result is a normal form of the reference
    rewriting system, reached by merging the lowest-ranked pairs first, and it has
    the bytes of its input. *)
Theorem bpe_refines_reference t symbols :
  exists out, apply_bpe t symbols = Some out /\ rtc (bpe_step t) symbols out /\ fully_merged t out /\
    concat out = concat symbols.
Proof. apply apply_bpe_spec. Qed.

(** Loading a vocabulary gives token [k] the id [k]; the maps of the tokenizer
    are inverse to each other, ranks are below the sentinel, and the size is the
    number of tokens. *)
Theorem load_vocab_consistent tokens merges types eos pad t0 :
  tokens <> [] -> Z.of_nat (length tokens) <= INT_MAX -> Z.of_nat (length merges) <= INT_MAX ->
  exists t, load_from_vocab_and_merges tokens merges types eos pad t0 = Value t /\
    tokenizer_ok t /\ vocab_size t = Z.of_nat (length tokens) /\ tok_eos_id t = eos /\ pad_token_id_ t = pad /\
    forall k token, tokens !! k = Some token -> id_to_token_ t !! Z.of_nat k = Some token.
Proof. apply load_run. Qed.

(** C18: Encoding ends on every text, and fails only when the vocabulary does not
    cover all bytes and merges; without an unknown-token fallback, and with special
    tokens in printable ASCII, decoding the ids gives the text back. *)
Theorem decode_encode t text :
  tokenizer_ok t -> is_bytes text ->
  exists r, encode t text = Some r /\
    match r with
    | Value ids => lossless t -> decode t ids false = Some (Value text)
    | Unexpected _ => ~ covers t
    end.
Proof. intros Ht Hb. by apply decode_encode_run. Qed.

(** ** A small tokenizer *)

Definition small_tokens : list bytes := (char <$> seqZ 0 256) ++ [lit "ab"; lit "<|e|>"].

Definition small : Result ByteLevelBpeTokenizer :=
  load_from_vocab_and_merges small_tokens [lit "a b"] (repeat 1 257 ++ [3]) 257 (-1) new_tokenizer.

Definition small_tokenizer : ByteLevelBpeTokenizer := match small with Value t => t | _ => new_tokenizer end.

(** Decidable forms of the conditions. *)
Definition covers_b (t : ByteLevelBpeTokenizer) : bool :=
  forallb (fun '((a, b), _) => bool_decide (is_Some (vocab_ t !! (a ++ b)))) (map_to_list (merge_rank_ t)) &&
  forallb (fun b => bool_decide (is_Some (vocab_ t !! char b))) (seqZ 0 256).

Definition lossless_b (t : ByteLevelBpeTokenizer) : bool :=
  (unk_token_id_ t <? 0) &&
  forallb (fun '(s, _) => forallb (fun b => (33 <=? b) && (b <=? 126)) s) (map_to_list (special_token_to_id_ t)).

Lemma covers_b_ok t : covers_b t = true -> covers t.
Proof.
  intros [H1 H2]%andb_prop. rewrite forallb_forall in H1. rewrite forallb_forall in H2. split.
  - intros a b r Hr. apply elem_of_map_to_list, list_elem_of_In, H1 in Hr. by apply bool_decide_eq_true in Hr.
  - intros b Hb. assert (In b (seqZ 0 256)) as Hin by (apply list_elem_of_In, elem_of_seqZ; lia).
    apply H2 in Hin. by apply bool_decide_eq_true in Hin.
Qed.

Lemma lossless_b_ok t : lossless_b t = true -> lossless t.
Proof.
  intros [H1 H2]%andb_prop. split; [by apply Z.ltb_lt|]. rewrite forallb_forall in H2. intros s id Hs.
  apply elem_of_map_to_list, list_elem_of_In, H2 in Hs. rewrite forallb_forall in Hs. apply Forall_forall. intros b Hb.
  apply list_elem_of_In, Hs in Hb. lia.
Qed.

Lemma small_loaded : small = Value small_tokenizer /\ tokenizer_ok small_tokenizer.
Proof.
  destruct (load_run small_tokens [lit "a b"] (repeat 1 257 ++ [3]) 257 (-1) new_tokenizer) as (t & E & Ht & _).
  { discriminate. }
  { vm_compute. discriminate. }
  { vm_compute. discriminate. }
  unfold small_tokenizer, small. rewrite E. by split.
Qed.

Lemma small_conditions : covers small_tokenizer /\ lossless small_tokenizer.
Proof. split; [apply covers_b_ok|apply lossless_b_ok]; vm_compute; reflexivity. Qed.

Lemma load_vocab_consistent_witness :
  exists t, small = Value t /\ vocab_size t = 258 /\ id_to_token_ t !! 257 = Some (lit "<|e|>").
Proof.
  destruct (load_vocab_consistent small_tokens [lit "a b"] (repeat 1 257 ++ [3]) 257 (-1) new_tokenizer)
    as (t & E & _ & Hv & _ & _ & Hk).
  { discriminate. }
  { vm_compute. discriminate. }
  { vm_compute. discriminate. }
  exists t. split; [exact E|]. split; [exact Hv|]. apply (Hk 257%nat). vm_compute. reflexivity.
Defined.

Lemma decode_encode_witness :
  encode small_tokenizer (lit "abba <|e|>  c") =
    Some (Value [256; 98; 97; 32; 257; 32; 32; 99]) /\
  decode small_tokenizer [256; 98; 97; 32; 257; 32; 32; 99] false = Some (Value (lit "abba <|e|>  c")).
Proof.
  assert (encode small_tokenizer (lit "abba <|e|>  c") = Some (Value [256; 98; 97; 32; 257; 32; 32; 99])) as E
    by (vm_compute; reflexivity).
  split; [exact E|].
  destruct (decode_encode small_tokenizer (lit "abba <|e|>  c")) as (r & Er & Hr).
  { exact (proj2 small_loaded). }
  { repeat constructor; discriminate. }
  rewrite E in Er. injection Er as <-. exact (Hr (proj2 small_conditions)).
Defined.
