(* ===== verification/GgufLoadProps.v ===== *)
(** * What loading from a GGUF file guarantees

    A configuration that loads is valid, its layers follow the attention interval, and
    its vocabulary has the size of the tokenizer of the same file. *)

From Stdlib Require Import ZArith Lia SpecFloat.
From stdpp Require Import prelude strings gmap fin_maps.
From S2P Require Import Prelude Base Bytes Config Qwen35 Device Json Gguf Tokenizer GgufLoad TokenizerProps.

(** ** Layers *)

Lemma at_layers n interval nextn i :
  0 <= i < n -> at_Z (gguf_layer_types n interval nextn) i = Some (main_layer interval i).
Proof.
  intros Hi. unfold at_Z, gguf_layer_types. rewrite (proj2 (Z.leb_le 0 i)) by lia.
  rewrite lookup_app_l by (rewrite length_fmap, length_seqZ; lia).
  rewrite list_lookup_fmap, (lookup_seqZ_lt 0 n) by lia. simpl. f_equal. f_equal. lia.
Qed.

Lemma size_layers n interval nextn : 0 <= n -> 0 <= nextn -> size_Z (gguf_layer_types n interval nextn) = n + nextn.
Proof.
  intros. unfold gguf_layer_types, size_Z. rewrite length_app, length_fmap, length_seqZ, repeat_length. lia.
Qed.

(** One more number below [i + 1]. *)
Lemma div_step i k : 0 <= i -> 0 < k -> (i + 1) / k = i / k + (if i mod k =? k - 1 then 1 else 0).
Proof.
  intros Hi Hk. pose proof (Z.div_mod i k ltac:(lia)) as E. pose proof (Z.mod_pos_bound i k Hk) as Hm. symmetry.
  destruct (Z.eqb_spec (i mod k) (k - 1)).
  - apply (Z.div_unique _ _ _ 0); lia.
  - apply (Z.div_unique _ _ _ (i mod k + 1)); lia.
Qed.

Lemma main_layer_spec k i : 0 <= i -> 0 < k -> main_layer k i = if i mod k =? k - 1 then FullAttention else GatedDeltaNet.
Proof.
  intros Hi Hk. unfold main_layer. rewrite (proj2 (Z.ltb_lt 0 k) Hk), Z.rem_mod_nonneg by lia. done.
Qed.

Lemma count_layers n k nextn i :
  0 < k -> 0 <= i <= n ->
  count_types (gguf_layer_types n k nextn) i FullAttention = i / k /\
  count_types (gguf_layer_types n k nextn) i GatedDeltaNet = i - i / k.
Proof.
  intros Hk [Hi Hn]. revert Hn. pattern i. apply natlike_ind; [|clear i Hi|done].
  { intros _. by rewrite Z.div_0_l by lia. }
  intros i Hi IH Hn. unfold Z.succ in *. destruct (IH ltac:(lia)) as [I1 I2].
  rewrite !(count_types_step _ i _ _ (at_layers n k nextn i ltac:(lia))), I1, I2, div_step, main_layer_spec by lia.
  destruct (i mod k =? k - 1); simpl; lia.
Qed.

(** ** The configuration *)

Lemma get_int_range r key v : get_int r key = Value v -> v <= INT_MAX.
Proof.
  unfold get_int, metadata_int. destruct (metadata_u64 r key) as [z|]; [|done]. simpl.
  destruct (Z.ltb_spec INT_MAX z); [done|]. by intros [= <-].
Qed.

Lemma load_fields_spec r cfg :
  load_fields r = Value cfg ->
  validate_model cfg = Value tt /\ arch_ cfg = Qwen3_5 /\
  layer_types_ cfg = gguf_layer_types (n_layers_ cfg) (full_attention_interval_ cfg) (nextn_predict_layers_ cfg) /\
  tokens_match r (vocab_size_ cfg) = true.
Proof.
  unfold load_fields.
  repeat match goal with
  | |- context [match get_int ?r ?k with _ => _ end] => destruct (get_int r k); [|done]
  | |- context [match get_f32 ?r ?k with _ => _ end] => destruct (get_f32 r k); [|done]
  | |- context [if ?a <=? 0 then _ else _] => destruct (a <=? 0); [done|]
  end.
  destruct (_ ≫= _) as [dim|]; [|done]. destruct (tokens_match r (i32 dim)) eqn:Ht; [|done]. cbn [negb].
  destruct (validate_model _) as [[]|] eqn:Hv; [|done]. intros [= <-]. by split_and!.
Qed.

(** What the validator requires of a hybrid model. *)
Lemma validate_hybrid cfg :
  validate_model cfg = Value tt -> arch_ cfg = Qwen3_5 ->
  0 < n_layers_ cfg /\ 0 < full_attention_interval_ cfg /\
  size_Z (layer_types_ cfg) = n_layers_ cfg + nextn_predict_layers_ cfg.
Proof.
  unfold validate_model. intros Hv Ha. rewrite Ha in Hv. cbn [bool_decide] in Hv.
  repeat match type of Hv with
  | context [if bool_decide ?P then _ else _] => destruct (bool_decide P) eqn:?; [try done|try done]
  | (if ?c then _ else _) = _ => destruct c eqn:?; [try done|try done]
  end; bprop; try done; lia.
Qed.

Lemma load_gguf_config_fields r cfg : load_gguf_config r = Some (Value cfg) -> load_fields r = Value cfg.
Proof.
  unfold load_gguf_config. destruct (metadata _ r) as [arch|]; [|done]. destruct (gguf_as_string arch); [|done]. simpl.
  case_bool_decide; [|done]. by intros [= ->].
Qed.

(** ** The tokenizer *)

Lemma mapM_length {A B} (f : A -> option B) l k : mapM f l = Some k -> length k = length l.
Proof. intros Hm. apply mapM_Some in Hm. symmetry. by eapply Forall2_length. Qed.

Lemma create_tokenizer_spec r t :
  create_tokenizer_from_gguf r = Some (Value t) ->
  exists tokens_arr tokens merges types eos pad,
    metadata (lit "tokenizer.ggml.tokens") r ≫= gguf_as_array = Some tokens_arr /\
    as_strings tokens_arr = Some tokens /\ as_strings (array_of "tokenizer.ggml.merges" r) = Some merges /\
    load_from_vocab_and_merges tokens merges types eos pad new_tokenizer = Value t.
Proof.
  unfold create_tokenizer_from_gguf. destruct (_ ≫= gguf_as_array) as [arr|]; [|done].
  destruct (as_strings arr) as [tokens|] eqn:Et; [|done]. cbn [mbind option_bind].
  destruct (as_strings (array_of _ r)) as [merges|] eqn:Em; [|done]. cbn [mbind option_bind].
  destruct (token_types_of _) as [types|]; [|done]. destruct (token_id _ _ (Value (-1))) as [eos|]; [|done].
  destruct (token_id _ _ _) as [pad|]; [|done]. intros [= E]. by exists arr, tokens, merges, types, eos, pad.
Qed.

(** The tokenizer of the file that the configuration is from. *)
Lemma gguf_tokenizer_size r cfg t :
  load_fields r = Value cfg -> create_tokenizer_from_gguf r = Some (Value t) ->
  size_Z (array_of "tokenizer.ggml.tokens" r) <= INT_MAX -> size_Z (array_of "tokenizer.ggml.merges" r) <= INT_MAX ->
  tokenizer_ok t /\ vocab_size t = vocab_size_ cfg.
Proof.
  intros Hl Hc Hbt Hbm. destruct (load_fields_spec r cfg Hl) as (_ & _ & _ & Hm).
  apply create_tokenizer_spec in Hc as (arr & tokens & merges & types & eos & pad & Harr & Hs & Hms & Hload).
  pose proof (mapM_length _ _ _ Hs) as L1. pose proof (mapM_length _ _ _ Hms) as L2.
  unfold array_of in Hbt. rewrite Harr in Hbt. simpl in Hbt. unfold size_Z in Hbt, Hbm.
  destruct (decide (tokens = [])) as [->|Hne].
  { unfold load_from_vocab_and_merges in Hload.
    destruct (load_merges_spec merges 0 (load_tokens [] types 0 (mkTokenizer ∅ ∅ ∅ (byte_to_str_ new_tokenizer)
      (str_to_byte_ new_tokenizer) ∅ ∅ (-1) (-1) (-1) (-1)))) as (m & Em & _); [by intros p rank|].
    rewrite Em in Hload. done. }
  destruct (load_run tokens merges types eos pad new_tokenizer Hne ltac:(lia) ltac:(lia)) as (t' & E & Hok & Hsize & _).
  rewrite E in Hload. injection Hload as <-. split; [done|]. rewrite Hsize.
  unfold tokens_match in Hm. rewrite Harr in Hm. apply Z.eqb_eq in Hm. rewrite <- Hm. unfold i32, size_Z.
  rewrite sint_small by (unfold INT_MAX in *; lia). lia.
Qed.

(** ** The claims *)

(** C38: A configuration loaded from a GGUF file is valid; every [interval]-th main layer
    is an attention layer and the others are recurrent, so the storages get
    [n / interval] and [n - n / interval] layers; and when the tokenizer of the same
    file loads, its maps are consistent and its size is the model's vocabulary size. *)
Theorem gguf_model_and_tokenizer_agree r cfg :
  load_gguf_config r = Some (Value cfg) ->
  let n := n_layers_ cfg in
  let k := full_attention_interval_ cfg in
  validate_model cfg = Value tt /\
  (forall layer, 0 <= layer < n ->
    at_Z (layer_types_ cfg) layer = Some (if layer mod k =? k - 1 then FullAttention else GatedDeltaNet)) /\
  num_kv_layers cfg = Some (n / k) /\ num_gdn_layers cfg = Some (n - n / k) /\
  forall t, create_tokenizer_from_gguf r = Some (Value t) ->
    size_Z (array_of "tokenizer.ggml.tokens" r) <= INT_MAX -> size_Z (array_of "tokenizer.ggml.merges" r) <= INT_MAX ->
    tokenizer_ok t /\ vocab_size t = vocab_size_ cfg.
Proof.
  intros Hl%load_gguf_config_fields n k. destruct (load_fields_spec r cfg Hl) as (Hv & Ha & Ht & _).
  destruct (validate_hybrid cfg Hv Ha) as (Hn & Hk & Hsz).
  destruct (count_layers n k (nextn_predict_layers_ cfg) n ltac:(done) ltac:(lia)) as [C1 C2].
  split; [done|]. split.
  { intros layer Hlayer. rewrite Ht, at_layers, main_layer_spec by lia. done. }
  unfold num_kv_layers, num_gdn_layers, count_layer_type. rewrite Ha, Ht. cbn [bool_decide]. fold n k. rewrite C1, C2.
  do 2 (split; [done|]). intros t Hc Hbt Hbm. by apply (gguf_tokenizer_size r).
Qed.

(** ** A small model file *)

Definition int_entry (key : string) (z : Z) : bytes * GGUFMetadataValue := (lit key, mkGGUF kU32 (VU32 z)).
Definition strings_entry (key : string) (l : list bytes) : bytes * GGUFMetadataValue :=
  (lit key, mkGGUF kArray (VArray ((fun s => mkGGUF kString (VString s)) <$> l))).

Definition model_reader : GGUFReader := mkReader [] 0 3
  [(lit "general.architecture", mkGGUF kString (VString (lit "qwen35")));
   int_entry "qwen35.block_count" 5; int_entry "qwen35.embedding_length" 8; int_entry "qwen35.feed_forward_length" 8;
   int_entry "qwen35.attention.head_count" 2; int_entry "qwen35.attention.head_count_kv" 1;
   int_entry "qwen35.attention.key_length" 4; int_entry "qwen35.context_length" 16;
   int_entry "qwen35.full_attention_interval" 2; int_entry "qwen35.nextn_predict_layers" 1;
   int_entry "qwen35.ssm.conv_kernel" 4; int_entry "qwen35.ssm.state_size" 2; int_entry "qwen35.ssm.group_count" 1;
   int_entry "qwen35.ssm.time_step_rank" 2; int_entry "qwen35.ssm.inner_size" 4;
   (lit "qwen35.rope.freq_base", mkGGUF kF32 (VF32 1176256512)); int_entry "qwen35.rope.dimension_count" 2;
   (lit "qwen35.attention.layer_norm_rms_epsilon", mkGGUF kF32 (VF32 897988541));
   strings_entry "tokenizer.ggml.tokens" [lit "a"; lit "b"; lit "ab"]; strings_entry "tokenizer.ggml.merges" [lit "a b"]]
  [mkTensorInfo (lit "token_embd.weight") [8; 3] kTensorF32 0].

Definition model_config : ModelConfig :=
  match load_gguf_config model_reader with
  | Some (Value cfg) => cfg
  | _ => mkModelConfig UnknownArch 0 0 0 0 0 0 0 0 0 (S754_zero false) (S754_zero false) 0 0 0 0 0 0 0 []
  end.

Definition model_tokenizer : ByteLevelBpeTokenizer :=
  match create_tokenizer_from_gguf model_reader with Some (Value t) => t | _ => new_tokenizer end.

Lemma gguf_model_and_tokenizer_agree_witness :
  num_kv_layers model_config = Some 2 /\ num_gdn_layers model_config = Some 2 /\
  tokenizer_ok model_tokenizer /\ vocab_size model_tokenizer = vocab_size_ model_config.
Proof.
  assert (load_gguf_config model_reader = Some (Value model_config)) as E by (vm_compute; reflexivity).
  destruct (gguf_model_and_tokenizer_agree model_reader model_config E) as (_ & _ & Hkv & Hgdn & Ht).
  split; [exact Hkv|]. split; [exact Hgdn|]. apply Ht.
  - vm_compute. reflexivity.
  - vm_compute. discriminate.
  - vm_compute. discriminate.
Defined.
