(* ===== verification/HfReader.v ===== *)
(** * The safetensors reader: [checkpoint/huggingface/reader.cpp], [weight_source.cpp]

    The mapped file is a list of bytes; its header is a JSON text whose members
    describe the tensors. *)

From Stdlib Require Import ZArith Lia.
From stdpp Require Import prelude strings.
From S2P Require Import Prelude Base Bytes Device Json WeightSource.

Record SafetensorsTensorInfo := mkSafetensors {
  st_dtype : StorageType;
  st_shape : list Z;
  st_offset : Z;
  st_size_bytes : Z;
}.

(** [tensors_] is the hash map, with the first entry of a name; [size_] is the size of
    the mapping. *)
Record Reader := mkSafeReader {
  hf_data : bytes;
  hf_data_start : Z;
  ordered_tensors_ : list SafetensorsTensorInfo;
  tensors_ : list (bytes * SafetensorsTensorInfo);
}.

Definition kHeaderSize : Z := 8.

Definition parse_dtype (dt : bytes) : Result StorageType :=
  if bool_decide (dt = lit "BF16") then Value StoreBFloat16
  else if bool_decide (dt = lit "F16") then Value StoreFloat16
  else if bool_decide (dt = lit "F32") then Value StoreFloat32
  else Unexpected ModelLoadFailed.

Section reader.
Context `{Json}.

Definition require_some {A} (o : option A) : Result A :=
  match o with Some a => Value a | None => Unexpected ModelLoadFailed end.

(** The loop over [info["shape"]]. *)
Fixpoint parse_shape (l : list json) : Result (list Z) :=
  match l with
  | [] => Value []
  | s :: l => TRY dim := require_some (as_integer s);; TRY dims := parse_shape l;; Value (dim :: dims)
  end.

(** One member of the header; [room] is [size_ - data_start]. *)
Definition parse_info (room : Z) (info : json) : Result SafetensorsTensorInfo :=
  TRY dtype := require_some (get_member info "dtype");;
  TRY shape := require_some (get_member info "shape");;
  TRY data_offsets := require_some (get_member info "data_offsets");;
  TRY dtype := require_some (as_string dtype);;
  TRY shape := require_some (as_array shape);;
  TRY data_offsets := require_some (as_array data_offsets);;
  match data_offsets with
  | [first; second] =>
      TRY dt := parse_dtype dtype;;
      TRY dims := parse_shape shape;;
      TRY begin := require_some (as_unsigned first);;
      TRY end_ := require_some (as_unsigned second);;
      if end_ <? begin then Unexpected ModelLoadFailed
      else if room <? begin then Unexpected ModelLoadFailed
      else if room - begin <? end_ - begin then Unexpected ModelLoadFailed
      else Value (mkSafetensors dt dims begin (end_ - begin))
  | _ => Unexpected ModelLoadFailed
  end.

(** The loop over [j.items()]. *)
Fixpoint parse_items (room : Z) (items : list (bytes * json)) : Result (list (bytes * SafetensorsTensorInfo)) :=
  match items with
  | [] => Value []
  | (name, info) :: items =>
      if bool_decide (name = lit "__metadata__") then parse_items room items
      else TRY t := parse_info room info;; TRY rest := parse_items room items;; Value ((name, t) :: rest)
  end.

(** [Reader::parse]. *)
Definition parse_safetensors (data : bytes) : Result Reader :=
  let size := size_Z data in
  if size <? kHeaderSize then Unexpected ModelLoadFailed
  else
    let header_len := of_le (slice data 0 8) in
    if (header_len =? 0) || (size - kHeaderSize <? header_len) then Unexpected ModelLoadFailed
    else
      let header_str := slice data kHeaderSize header_len in
      TRY j := require_some (json_parse header_str);;
      TRY items := require_some (as_object j);;
      let data_start := u64 (kHeaderSize + header_len) in
      if size <? data_start then Unexpected ModelLoadFailed
      else
        TRY tensors := parse_items (size - data_start) items;;
        if bool_decide (tensors = []) then Unexpected ModelLoadFailed
        else Value (mkSafeReader data data_start (snd <$> tensors) tensors).

(** [Reader::create]; [None] when the file cannot be mapped or is empty. *)
Definition create_safetensors (file : option bytes) : Result Reader :=
  match file with
  | None | Some [] => Unexpected ModelLoadFailed
  | Some data => parse_safetensors data
  end.
End reader.

(** ** Queries *)

Definition find_safetensor (name : bytes) (r : Reader) : option SafetensorsTensorInfo :=
  snd <$> List.find (fun x => bool_decide (x.1 = name)) (tensors_ r).

Definition has_safetensor (name : bytes) (r : Reader) : bool :=
  bool_decide (is_Some (find_safetensor name r)).

(** [Reader::raw_tensor_data]; the differences are unsigned. *)
Definition raw_safetensor (t : SafetensorsTensorInfo) (r : Reader) : Result Span :=
  let room := u64 (size_Z (hf_data r) - hf_data_start r) in
  if (room <? st_offset t) || (u64 (room - st_offset t) <? st_size_bytes t) then Unexpected ModelLoadFailed
  else Value (mkSpan (hf_data r) (hf_data_start r + st_offset t) (st_size_bytes t)).

(** ** [SafetensorsWeightSource] *)

Definition safetensors_info (name : bytes) (r : Reader) : Result WeightSourceTensorInfo :=
  match find_safetensor name r with
  | None => Unexpected ModelLoadFailed
  | Some t => Value (mkWeightInfo (st_shape t) (st_dtype t) (st_offset t) (st_size_bytes t))
  end.

Definition safetensors_read (name : bytes) (r : Reader) : Result Span :=
  match find_safetensor name r with
  | None => Unexpected ModelLoadFailed
  | Some t => raw_safetensor t r
  end.

Definition safetensors_source (r : Reader) : WeightSource :=
  mkWeightSource (fun name => has_safetensor name r) (fun name => safetensors_info name r)
    (fun name => safetensors_read name r).
