(* ===== verification/HfProps.v ===== *)
(** * Reading safetensors files is safe, and finds what the header describes *)

From Stdlib Require Import ZArith Lia.
From stdpp Require Import prelude strings.
From S2P Require Import Prelude Base Bytes Device Json SimJson WeightSource HfReader.

Section props.
Context `{JsonLaws}.

(** A tensor whose range fits [room] bytes. *)
Definition tensor_fits (room : Z) (t : SafetensorsTensorInfo) : Prop :=
  0 <= st_offset t /\ 0 <= st_size_bytes t /\ st_offset t + st_size_bytes t <= room.

(** The reader of a file: the data section lies in it and every tensor in the section. *)
Record hf_reader_ok (data : bytes) (r : Reader) : Prop := mk_hf_reader_ok {
  hr_data : hf_data r = data;
  hr_start : kHeaderSize <= hf_data_start r <= size_Z data;
  hr_fits : Forall (fun x => tensor_fits (size_Z data - hf_data_start r) x.2) (tensors_ r);
  hr_some : tensors_ r <> [];
  hr_order : ordered_tensors_ r = snd <$> tensors_ r;
}.

Lemma require_some_Value {A} (o : option A) a : require_some o = Value a -> o = Some a.
Proof. destruct o; simpl; [by intros [= ->]|done]. Qed.

Lemma parse_info_fits room info t : parse_info room info = Value t -> tensor_fits room t.
Proof.
  unfold parse_info. intros E.
  repeat match type of E with
  | match require_some ?o with _ => _ end = _ => destruct (require_some o) eqn:?; [|discriminate E]
  | match ?x with _ => _ end = _ => destruct x eqn:?; try discriminate E
  end.
  all: repeat match goal with H : require_some _ = Value _ |- _ => apply require_some_Value in H end.
  all: injection E as <-; repeat match goal with H : as_unsigned _ = Some _ |- _ => apply unsigned_range in H end.
  all: bprop; unfold tensor_fits; simpl; lia.
Qed.

Lemma parse_items_fit room items ts : parse_items room items = Value ts -> Forall (fun x => tensor_fits room x.2) ts.
Proof.
  revert ts. induction items as [|[name info] items IH]; intros ts; simpl; [by intros [= <-]|].
  case_bool_decide; [apply IH|]. destruct (parse_info room info) as [t|] eqn:Et; [|done].
  destruct (parse_items room items) as [rest|] eqn:Er; [|done]. intros [= <-]. constructor; [|by apply IH].
  by apply parse_info_fits in Et.
Qed.

Lemma parse_safetensors_ok data r : size_Z data < 2 ^ 63 -> is_bytes data -> parse_safetensors data = Value r ->
  hf_reader_ok data r.
Proof.
  intros Hsize Hb. unfold parse_safetensors, kHeaderSize. destruct (Z.ltb_spec (size_Z data) 8); [done|].
  set (len := of_le (slice data 0 8)). assert (0 <= len).
  { apply of_le_range. unfold slice, is_bytes. by apply Forall_take, Forall_drop. }
  destruct (Z.eqb_spec len 0), (Z.ltb_spec (size_Z data - 8) len); simpl; try done.
  destruct (require_some (json_parse _)) as [j|]; [|done]. destruct (require_some (as_object j)) as [items|]; [|done].
  rewrite u64_small by lia. destruct (Z.ltb_spec (size_Z data) (8 + len)); [done|].
  destruct (parse_items _ items) as [ts|] eqn:E; [|done]. case_bool_decide; [done|]. intros [= <-].
  split; simpl; try done; [unfold kHeaderSize; lia|by apply parse_items_fit in E].
Qed.

Lemma create_safetensors_ok data r : size_Z data < 2 ^ 63 -> is_bytes data -> create_safetensors (Some data) = Value r ->
  hf_reader_ok data r.
Proof. intros Hs Hb. destruct data; [done|]. by apply parse_safetensors_ok. Qed.

Lemma find_unique name t data start order ts : (name, t) ∈ ts -> NoDup ts.*1 ->
  find_safetensor name (mkSafeReader data start order ts) = Some t.
Proof.
  unfold find_safetensor. simpl. induction ts as [|[n x] ts IH]; [by intros ?%elem_of_nil|]. simpl.
  rewrite elem_of_cons, NoDup_cons. intros [[= <- <-]|Hin] [Hn Hnd]; [by rewrite bool_decide_eq_true_2|].
  case_bool_decide as E; [|by apply IH]. simpl in E. subst n. exfalso. apply Hn. apply list_elem_of_fmap. by exists (name, t).
Qed.

Lemma find_safetensor_In name r t : find_safetensor name r = Some t -> t ∈ (snd <$> tensors_ r).
Proof.
  unfold find_safetensor. destruct (List.find _ _) as [[n x]|] eqn:E; [|done]. intros [= <-].
  apply find_some in E as [Hin _]. apply list_elem_of_fmap. exists (n, x). split; [done|]. by apply list_elem_of_In.
Qed.

(** The span of a tensor that the reader knows. *)
Lemma safetensors_read_spec data r name t : hf_reader_ok data r -> size_Z data < 2 ^ 63 ->
  find_safetensor name r = Some t ->
  safetensors_read name r = Value (mkSpan data (hf_data_start r + st_offset t) (st_size_bytes t)) /\
  in_range data (hf_data_start r + st_offset t) (st_size_bytes t).
Proof.
  intros Hr Hs Hf. destruct (hr_start _ _ Hr) as [H1 H2]. unfold kHeaderSize in H1.
  assert (tensor_fits (size_Z data - hf_data_start r) t) as (Ho & Hn & Hle).
  { pose proof (hr_fits _ _ Hr) as Hfits. apply find_safetensor_In in Hf.
    apply list_elem_of_fmap in Hf as ([n x] & -> & Hin). by rewrite Forall_forall in Hfits; apply (Hfits (n, x)). }
  unfold safetensors_read. rewrite Hf. unfold raw_safetensor. rewrite (hr_data _ _ Hr).
  rewrite (u64_small (size_Z data - hf_data_start r)) by lia. rewrite u64_small by lia.
  destruct (Z.ltb_spec (size_Z data - hf_data_start r) (st_offset t)); [lia|].
  destruct (Z.ltb_spec (size_Z data - hf_data_start r - st_offset t) (st_size_bytes t)); [lia|].
  split; [done|]. unfold in_range. lia.
Qed.

Lemma safetensors_source_ok data r : hf_reader_ok data r -> size_Z data < 2 ^ 63 -> source_ok (safetensors_source r).
Proof.
  intros Hr Hs. split; simpl.
  - intros name sp E. destruct (find_safetensor name r) as [t|] eqn:Ef.
    + destruct (safetensors_read_spec data r name t Hr Hs Ef) as [E' Hin]. rewrite E in E'. by injection E' as ->.
    + unfold safetensors_read in E. by rewrite Ef in E.
  - intros name i sp Ei E. unfold safetensors_info in Ei. destruct (find_safetensor name r) as [t|] eqn:Ef; [|done].
    injection Ei as <-. destruct (safetensors_read_spec data r name t Hr Hs Ef) as [E' _]. rewrite E in E'.
    by injection E' as ->.
  - intros name sp E. unfold has_safetensor. apply bool_decide_eq_true. unfold safetensors_read in E.
    by destruct (find_safetensor name r).
Qed.

(** C12: Reading a safetensors file is safe: whatever its bytes and its header, it is
    rejected, or the data section lies in the file, every tensor has a span inside it,
    and the reader is a weight source that keeps its promises to the model loaders. *)
Theorem safetensors_reading_safe data r :
  is_bytes data -> size_Z data < 2 ^ 63 -> create_safetensors (Some data) = Value r ->
  hf_reader_ok data r /\ source_ok (safetensors_source r) /\
  forall name t, find_safetensor name r = Some t ->
    exists sp, safetensors_read name r = Value sp /\ sp_file sp = data /\ sp_size sp = st_size_bytes t /\
      hf_data_start r <= sp_offset sp /\ in_range data (sp_offset sp) (sp_size sp).
Proof.
  intros Hb Hs E. pose proof (create_safetensors_ok data r Hs Hb E) as Hr. split; [done|].
  split; [by apply (safetensors_source_ok data)|]. intros name t Hf.
  destruct (safetensors_read_spec data r name t Hr Hs Hf) as [-> Hin]. eexists. split; [done|]. simpl.
  pose proof (hr_fits _ _ Hr) as Hfits. apply find_safetensor_In in Hf.
  apply list_elem_of_fmap in Hf as ([n x] & -> & Hx). rewrite Forall_forall in Hfits.
  destruct (Hfits _ Hx) as [Ho _]. simpl in Ho. split_and!; try done. simpl. lia.
Qed.

(** ** The writer of the format *)

(** A member of the header that describes a tensor. *)
Definition describes (room : Z) (info : json) (t : SafetensorsTensorInfo) : Prop :=
  exists dj dtype sj dims oj first second,
    get_member info "dtype" = Some dj /\ as_string dj = Some dtype /\ parse_dtype dtype = Value (st_dtype t) /\
    get_member info "shape" = Some sj /\ as_array sj = Some dims /\ Forall2 (fun d z => as_integer d = Some z) dims (st_shape t) /\
    get_member info "data_offsets" = Some oj /\ as_array oj = Some [first; second] /\
    as_unsigned first = Some (st_offset t) /\ as_unsigned second = Some (st_offset t + st_size_bytes t) /\
    tensor_fits room t.

(** The members of a header, metadata aside, and the tensors they describe. *)
Inductive header_of (room : Z) : list (bytes * json) -> list (bytes * SafetensorsTensorInfo) -> Prop :=
| header_nil : header_of room [] []
| header_metadata info items ts : header_of room items ts -> header_of room ((lit "__metadata__", info) :: items) ts
| header_tensor name info t items ts : name <> lit "__metadata__" -> describes room info t -> header_of room items ts ->
    header_of room ((name, info) :: items) ((name, t) :: ts).

Definition write_safetensors (header content : bytes) : bytes := le_bytes 8 (size_Z header) ++ header ++ content.

Lemma parse_shape_written dims l : Forall2 (fun d z => as_integer d = Some z) dims l -> parse_shape dims = Value l.
Proof. induction 1 as [|d z dims l Ed _ IH]; [done|]. simpl. rewrite Ed. simpl. by rewrite IH. Qed.

Lemma parse_info_written room info t : describes room info t -> parse_info room info = Value t.
Proof.
  intros (dj & dtype & sj & dims & oj & first & second & E1 & E2 & E3 & E4 & E5 & E6 & E7 & E8 & E9 & E10 & Ho & Hn & Hle).
  unfold parse_info. rewrite E1, E4, E7. simpl require_some. cbv iota. rewrite E2, E5, E8. simpl require_some. cbv iota.
  rewrite E3, (parse_shape_written _ _ E6), E9, E10. simpl require_some. cbv iota.
  destruct (Z.ltb_spec (st_offset t + st_size_bytes t) (st_offset t)); [lia|].
  destruct (Z.ltb_spec room (st_offset t)); [lia|].
  destruct (Z.ltb_spec (room - st_offset t) (st_offset t + st_size_bytes t - st_offset t)); [lia|].
  destruct t. simpl. do 2 f_equal. lia.
Qed.

Lemma parse_items_written room items ts : header_of room items ts -> parse_items room items = Value ts.
Proof.
  induction 1 as [|info items ts _ IH|name info t items ts Hne Hd _ IH]; [done|done|]. cbn [parse_items].
  rewrite bool_decide_eq_false_2 by done. by rewrite (parse_info_written room info t Hd), IH.
Qed.

(** The parts of a written file. *)
Lemma slice_prefix {A} (l k : list A) n : size_Z l = n -> slice (l ++ k) 0 n = l.
Proof. intros <-. unfold slice, size_Z. rewrite Nat2Z.id. change (Z.to_nat 0) with 0%nat. by rewrite drop_0, take_app_length. Qed.

Lemma slice_suffix {A} (l k : list A) off n : 0 <= off -> slice (l ++ k) (size_Z l + off) n = slice k off n.
Proof.
  intros Ho. unfold slice, size_Z. f_equal. rewrite drop_app_ge by lia. f_equal. lia.
Qed.

Lemma create_written header content j items ts :
  let file := write_safetensors header content in
  let room := size_Z content in
  0 < size_Z header -> size_Z file < 2 ^ 63 -> json_parse header = Some j -> as_object j = Some items ->
  header_of room items ts -> ts <> [] ->
  create_safetensors (Some file) = Value (mkSafeReader file (8 + size_Z header) (snd <$> ts) ts).
Proof.
  intros file room Hh Hsize Ej Eo Hts Hne. assert (size_Z (le_bytes 8 (size_Z header)) = 8) as E8 by done.
  assert (size_Z file = 8 + (size_Z header + size_Z content)) as Ef.
  { unfold file, write_safetensors. by rewrite !size_Z_app, E8. }
  pose proof (size_Z_nonneg content). transitivity (parse_safetensors file).
  { destruct file eqn:E; [|done]. unfold size_Z in Ef at 1. simpl in Ef. lia. }
  unfold parse_safetensors, kHeaderSize. destruct (Z.ltb_spec (size_Z file) 8); [lia|].
  assert (of_le (slice file 0 8) = size_Z header) as ->.
  { unfold file, write_safetensors. rewrite slice_prefix by done. rewrite of_le_le_bytes. apply Z.mod_small.
    change (256 ^ Z.of_nat 8) with (2 ^ 64). lia. }
  destruct (Z.eqb_spec (size_Z header) 0), (Z.ltb_spec (size_Z file - 8) (size_Z header)); simpl; try lia.
  assert (slice file 8 (size_Z header) = header) as ->.
  { unfold file, write_safetensors. pose proof (slice_suffix (le_bytes 8 (size_Z header)) (header ++ content) 0 (size_Z header) ltac:(lia)) as Es.
    rewrite E8, Z.add_0_r in Es. rewrite Es. by apply slice_prefix. }
  rewrite Ej. simpl require_some. cbv iota. rewrite Eo. simpl require_some. cbv iota. rewrite u64_small by lia.
  destruct (Z.ltb_spec (size_Z file) (8 + size_Z header)); [lia|].
  assert (size_Z file - (8 + size_Z header) = room) as -> by (unfold room; lia).
  rewrite (parse_items_written _ _ _ Hts). by rewrite bool_decide_eq_false_2.
Qed.

(** C13: Reading inverts writing: a file made of the length of a header, a header whose
    JSON describes some tensors, and a data section is read back with exactly these
    tensors in the order of the header, and the bytes read for each are the ones its
    offsets select in the data section. *)
Theorem safetensors_parse_inverts_write header content j items ts :
  let file := write_safetensors header content in
  0 < size_Z header -> size_Z file < 2 ^ 63 -> json_parse header = Some j -> as_object j = Some items ->
  header_of (size_Z content) items ts -> ts <> [] -> NoDup ts.*1 ->
  exists r, create_safetensors (Some file) = Value r /\ tensors_ r = ts /\ ordered_tensors_ r = ts.*2 /\
    forall name t, (name, t) ∈ ts ->
      safetensors_info name r = Value (mkWeightInfo (st_shape t) (st_dtype t) (st_offset t) (st_size_bytes t)) /\
      exists sp, safetensors_read name r = Value sp /\ span_bytes sp = slice content (st_offset t) (st_size_bytes t).
Proof.
  intros file Hh Hsize Ej Eo Hts Hne Hnd. pose proof (create_written header content j items ts Hh Hsize Ej Eo Hts Hne) as E.
  exists (mkSafeReader file (8 + size_Z header) ts.*2 ts). split; [exact E|]. split; [done|]. split; [done|]. intros name t Hin.
  assert (find_safetensor name (mkSafeReader file (8 + size_Z header) ts.*2 ts) = Some t) as Hf.
  { apply find_unique; done. }
  unfold safetensors_info, safetensors_read. rewrite Hf. split; [done|].
  assert (tensor_fits (size_Z content) t) as (Ho & Hn & Hle).
  { clear -Hts Hin. induction Hts as [|info items ts _ IH|name' info t' items ts _ Hd _ IH]; [by apply elem_of_nil in Hin|by apply IH|].
    apply elem_of_cons in Hin as [[= -> ->]|Hin]; [|by apply IH]. destruct Hd as (?&?&?&?&?&?&?&_&_&_&_&_&_&_&_&_&_&Hd). exact Hd. }
  assert (size_Z file = 8 + (size_Z header + size_Z content)) as Ef.
  { unfold file, write_safetensors. by rewrite !size_Z_app. }
  unfold raw_safetensor. simpl hf_data. simpl hf_data_start. rewrite Ef.
  replace (8 + (size_Z header + size_Z content) - (8 + size_Z header)) with (size_Z content) by lia.
  pose proof (size_Z_nonneg header). rewrite (u64_small (size_Z content)) by lia. rewrite u64_small by lia.
  destruct (Z.ltb_spec (size_Z content) (st_offset t)); [lia|].
  destruct (Z.ltb_spec (size_Z content - st_offset t) (st_size_bytes t)); [lia|]. eexists. split; [done|].
  unfold span_bytes, file, write_safetensors. cbn [sp_file sp_offset sp_size hf_data hf_data_start]. rewrite app_assoc.
  replace (8 + size_Z header) with (size_Z (le_bytes 8 (size_Z header) ++ header)) by (by rewrite size_Z_app).
  by apply slice_suffix.
Qed.
End props.

(** ** A file with two tensors *)

Definition hf_items : list (bytes * SmallJson) :=
       [(lit "__metadata__", SObj [(lit "format", SStr (lit "pt"))]);
        (lit "a", SObj [(lit "dtype", SStr (lit "BF16")); (lit "shape", SArr [SInt 2; SInt 1]);
                        (lit "data_offsets", SArr [SInt 0; SInt 4])]);
        (lit "b", SObj [(lit "dtype", SStr (lit "F32")); (lit "shape", SArr [SInt 1]);
                        (lit "data_offsets", SArr [SInt 4; SInt 8])])].
Definition hf_header : SmallJson := SObj hf_items.

#[local] Instance hf_json : Json := small_json (fun text => if decide (text = lit "H") then Some hf_header else None).
#[local] Instance hf_json_laws : JsonLaws := small_json_laws _.

Definition hf_content : bytes := [1; 2; 3; 4; 5; 6; 7; 8].
Definition hf_tensors : list (bytes * SafetensorsTensorInfo) :=
  [(lit "a", mkSafetensors StoreBFloat16 [2; 1] 0 4); (lit "b", mkSafetensors StoreFloat32 [1] 4 4)].

Lemma safetensors_reading_safe_witness :
  exists r, create_safetensors (Some (write_safetensors (lit "H") hf_content)) = Value r /\ source_ok (safetensors_source r).
Proof.
  exists (mkSafeReader (write_safetensors (lit "H") hf_content) 9 hf_tensors.*2 hf_tensors).
  assert (create_safetensors (Some (write_safetensors (lit "H") hf_content)) =
          Value (mkSafeReader (write_safetensors (lit "H") hf_content) 9 hf_tensors.*2 hf_tensors)) as E
    by (vm_compute; reflexivity).
  split; [exact E|].
  assert (is_bytes (write_safetensors (lit "H") hf_content)) as Hb by (apply is_bytes_b_ok; vm_compute; reflexivity).
  assert (size_Z (write_safetensors (lit "H") hf_content) < 2 ^ 63) as Hs by (vm_compute; reflexivity).
  exact (proj1 (proj2 (safetensors_reading_safe _ _ Hb Hs E))).
Defined.

Lemma hf_header_of : header_of (size_Z hf_content) hf_items hf_tensors.
Proof.
  unfold hf_items, hf_tensors. apply (@header_metadata hf_json), (@header_tensor hf_json); [done| |].
  2: apply (@header_tensor hf_json); [done| |constructor].
  - do 7 eexists. split_and!; try reflexivity; [|by vm_compute..]. repeat constructor.
  - do 7 eexists. split_and!; try reflexivity; [|by vm_compute..]. repeat constructor.
Qed.

Lemma safetensors_parse_inverts_write_witness :
  exists r sp, create_safetensors (Some (write_safetensors (lit "H") hf_content)) = Value r /\
    safetensors_read (lit "b") r = Value sp /\ span_bytes sp = [5; 6; 7; 8].
Proof.
  assert (0 < size_Z (lit "H")) as H1 by (vm_compute; reflexivity).
  assert (size_Z (write_safetensors (lit "H") hf_content) < 2 ^ 63) as H2 by (vm_compute; reflexivity).
  assert (json_parse (lit "H") = Some hf_header) as H3 by (vm_compute; reflexivity).
  assert (hf_tensors <> []) as H4 by discriminate.
  assert (NoDup hf_tensors.*1) as H5 by (repeat (apply NoDup_cons; split; [vm_compute; set_solver|]); apply NoDup_nil_2).
  destruct (@safetensors_parse_inverts_write hf_json (lit "H") hf_content hf_header _ hf_tensors H1 H2 H3 eq_refl hf_header_of H4 H5)
    as (r & E & _ & _ & Hread).
  assert ((lit "b", mkSafetensors StoreFloat32 [1] 4 4) ∈ hf_tensors) as Hin by (right; left).
  destruct (Hread _ _ Hin) as (_ & sp & Esp & Hsp). exists r, sp. split; [exact E|]. split; [exact Esp|]. exact Hsp.
Defined.
