(* ===== verification/HfConfig.v ===== *)
(** * The configuration of a Hugging Face checkpoint: [checkpoint/huggingface/config_loader.cpp]

    [config.json] is parsed by the JSON library; the loader translates its keys. *)

From Stdlib Require Import ZArith Lia SpecFloat.
From stdpp Require Import prelude strings.
From S2P Require Import Prelude Base Bytes Floats Config Json SimJson.

(** The initialisers of [ModelConfig]: [10000.0f] and [1e-6f]. *)
Definition default_rope_theta : float32 := f32 0x461c4000.
Definition default_rms_norm_eps : float32 := f32 0x358637bd.

Section loader.
Context `{Json}.

Definition to_int (v : Z) : Result Z :=
  if (v <? INT_MIN) || (INT_MAX <? v) then Unexpected ModelConfigInvalid else Value v.

Definition get_required_int (j : json) (key : string) : Result Z :=
  match get_member j key ≫= as_integer with
  | None => Unexpected ModelConfigInvalid
  | Some v => to_int v
  end.

(** [out] keeps its value when the key is missing. *)
Definition get_optional_int (j : json) (key : string) (out : Z) : Result Z :=
  match get_member j key with
  | None => Value out
  | Some val => match as_integer val with None => Unexpected ModelConfigInvalid | Some v => to_int v end
  end.

Definition get_optional_float (j : json) (key : string) (out : float32) : Result float32 :=
  match get_member j key with
  | None => Value out
  | Some val => match as_number val with None => Unexpected ModelConfigInvalid | Some v => Value v end
  end.

(** The architecture: the first entry of an array of strings. *)
Definition config_arch (j : json) : ModelArch :=
  match get_member j "architectures" ≫= as_array with
  | Some (first :: _) =>
      match as_string first with
      | Some arch => if bool_decide (arch = lit "Qwen3ForCausalLM") then Qwen3 else UnknownArch
      | None => UnknownArch
      end
  | _ => UnknownArch
  end.

(** [from_json_impl], [HfConfigLoader::load_from_json].  [/] and [%] are evaluated for
    positive operands only. *)
Definition load_from_json (j : json) : Result ModelConfig :=
  if bool_decide (config_arch j = UnknownArch) then Unexpected ModelUnsupportedArch
  else
    TRY d_model := get_required_int j "hidden_size";;
    TRY n_q_heads := get_required_int j "num_attention_heads";;
    TRY n_layers := get_required_int j "num_hidden_layers";;
    TRY d_ff := get_required_int j "intermediate_size";;
    TRY vocab_size := get_required_int j "vocab_size";;
    if (d_model <=? 0) || (n_q_heads <=? 0) || (n_layers <=? 0) || (d_ff <=? 0) || (vocab_size <=? 0)
    then Unexpected ModelConfigInvalid
    else if negb (Z.rem d_model n_q_heads =? 0) then Unexpected ModelConfigInvalid
    else
      let default_head_dim := Z.quot d_model n_q_heads in
      TRY n_kv_heads := get_optional_int j "num_key_value_heads" n_q_heads;;
      TRY head_dim := get_optional_int j "head_dim" default_head_dim;;
      let rotary_dim := head_dim in
      TRY max_seq_len := get_optional_int j "max_position_embeddings" 2048;;
      TRY rope_theta := get_optional_float j "rope_theta" default_rope_theta;;
      TRY rms_norm_eps := get_optional_float j "rms_norm_eps" default_rms_norm_eps;;
      let cfg := mkModelConfig (config_arch j) n_layers n_q_heads n_kv_heads d_model head_dim rotary_dim d_ff vocab_size
                   max_seq_len rope_theta rms_norm_eps 0 0 0 0 0 0 0 [] in
      TRY _ := validate_model cfg;;
      Value cfg.

(** [HfConfigLoader::load]; [None] when the file cannot be opened. *)
Definition load_hf_config (config_json : option bytes) : Result ModelConfig :=
  match config_json with
  | None => Unexpected ModelLoadFailed
  | Some text =>
      match json_parse text with
      | None => Unexpected ModelConfigInvalid
      | Some j => load_from_json j
      end
  end.
End loader.

(** ** What a loaded configuration guarantees *)

(** The canonical configuration of the Qwen3 architecture. *)
Record qwen3_config_ok (c : ModelConfig) : Prop := mk_qwen3_config_ok {
  qc_arch : arch_ c = Qwen3;
  qc_pos : 0 < n_layers_ c /\ 0 < n_q_heads_ c /\ 0 < n_kv_heads_ c /\ 0 < d_model_ c /\ 0 < head_dim_ c /\
           0 < d_ff_ c /\ 0 < vocab_size_ c /\ 0 < max_seq_len_ c;
  qc_int : n_layers_ c <= INT_MAX /\ n_q_heads_ c <= INT_MAX /\ n_kv_heads_ c <= INT_MAX /\ d_model_ c <= INT_MAX /\
           head_dim_ c <= INT_MAX /\ d_ff_ c <= INT_MAX /\ vocab_size_ c <= INT_MAX /\ max_seq_len_ c <= INT_MAX;
  qc_groups : (n_kv_heads_ c | n_q_heads_ c);
  qc_rotary : rotary_dim_ c = head_dim_ c;
  qc_floats : isfinite (rope_theta_ c) = true /\ f32_le_zero (rope_theta_ c) = false /\
              isfinite (rms_norm_eps_ c) = true /\ f32_le_zero (rms_norm_eps_ c) = false;
  qc_layers : layer_types_ c = [];
}.

Section props.
Context `{Json}.

Lemma to_int_range v z : to_int v = Value z -> INT_MIN <= z <= INT_MAX.
Proof. unfold to_int. destruct (_ || _)%bool eqn:E; [done|]. intros [= <-]. bprop. lia. Qed.

Lemma get_required_range j key z : get_required_int j key = Value z -> INT_MIN <= z <= INT_MAX.
Proof. unfold get_required_int. destruct (_ ≫= _); [apply to_int_range|done]. Qed.

Lemma get_optional_range j key out z : INT_MIN <= out <= INT_MAX -> get_optional_int j key out = Value z ->
  INT_MIN <= z <= INT_MAX.
Proof.
  intros Ho. unfold get_optional_int. destruct (get_member j key) as [val|]; [|by intros [= <-]].
  destruct (as_integer val); [apply to_int_range|done].
Qed.

(** The head dimension that a configuration without one gets. *)
Lemma quot_range a b : 0 < a <= INT_MAX -> 0 < b -> INT_MIN <= Z.quot a b <= INT_MAX.
Proof.
  intros Ha Hb. rewrite Z.quot_div_nonneg by lia. pose proof (Z.div_pos a b ltac:(lia) Hb).
  pose proof (Z.div_le_upper_bound a b a ltac:(lia) ltac:(nia)). unfold INT_MIN. lia.
Qed.

(** What the validator accepts of this architecture. *)
Lemma validate_qwen3 c u : arch_ c = Qwen3 -> validate_model c = Value u ->
  (0 < n_layers_ c /\ 0 < n_q_heads_ c /\ 0 < n_kv_heads_ c /\ 0 < d_model_ c /\ 0 < head_dim_ c /\
   0 < d_ff_ c /\ 0 < vocab_size_ c /\ 0 < max_seq_len_ c) /\ (n_kv_heads_ c | n_q_heads_ c) /\
  isfinite (rope_theta_ c) = true /\ f32_le_zero (rope_theta_ c) = false /\
  isfinite (rms_norm_eps_ c) = true /\ f32_le_zero (rms_norm_eps_ c) = false.
Proof.
  intros Ha. unfold validate_model. rewrite Ha. rewrite bool_decide_eq_false_2 by done.
  destruct (_ || _)%bool eqn:E1; [done|]. destruct (_ || _)%bool eqn:E2 at 1; [done|].
  destruct (_ || _)%bool eqn:E3 at 1; [done|]. intros _. bprop. split_and!; try done; try lia.
  apply Z.rem_divide; [lia|done].
Qed.

Definition loader_error (e : ErrorCode) : Prop :=
  e = ModelLoadFailed \/ e = ModelConfigInvalid \/ e = ModelUnsupportedArch.

Lemma to_int_err v e : to_int v = Unexpected e -> loader_error e.
Proof. unfold to_int. destruct (_ || _)%bool; [|done]. intros [= <-]. by right; left. Qed.

Lemma required_err j key e : get_required_int j key = Unexpected e -> loader_error e.
Proof. unfold get_required_int. destruct (_ ≫= _); [apply to_int_err|intros [= <-]; by right; left]. Qed.

Lemma optional_err j key out e : get_optional_int j key out = Unexpected e -> loader_error e.
Proof.
  unfold get_optional_int. destruct (get_member j key) as [val|]; [|done].
  destruct (as_integer val); [apply to_int_err|intros [= <-]; by right; left].
Qed.

Lemma optional_float_err j key out e : get_optional_float j key out = Unexpected e -> loader_error e.
Proof.
  unfold get_optional_float. destruct (get_member j key) as [val|]; [|done].
  destruct (as_number val); [done|intros [= <-]; by right; left].
Qed.

Lemma validate_err c e : validate_model c = Unexpected e -> loader_error e.
Proof.
  unfold validate_model, loader_error. intros E.
  repeat match type of E with (if ?b then _ else _) = _ => destruct b end; simplify_eq; auto.
Qed.

(** Peels one step of the loader off [E]. *)
Ltac load_step E :=
  match type of E with
  | match ?r with Value _ => _ | Unexpected _ => _ end = _ => destruct r eqn:?;
      [|first [discriminate E | injection E as <-; eauto using required_err, optional_err, optional_float_err, validate_err]]
  end.

Lemma load_from_json_err j e : load_from_json j = Unexpected e -> loader_error e.
Proof.
  unfold load_from_json. case_bool_decide; [intros [= <-]; by do 2 right|]. intros E. do 5 load_step E.
  destruct (_ || _)%bool in E; [injection E as <-; by right; left|].
  destruct (negb _) in E; [injection E as <-; by right; left|]. do 6 load_step E. done.
Qed.

Lemma load_from_json_ok j cfg : load_from_json j = Value cfg -> qwen3_config_ok cfg /\ validate_model cfg = Value tt.
Proof.
  unfold load_from_json. case_bool_decide as Ha; [done|]. intros E. do 5 load_step E.
  destruct (_ || _)%bool eqn:Epos in E; [done|]. destruct (negb _) eqn:Ediv in E; [done|].
  do 6 load_step E. injection E as <-. bprop.
  assert (config_arch j = Qwen3) as Harch.
  { revert Ha. unfold config_arch. destruct (get_member j "architectures" ≫= as_array) as [[|x l]|]; try done.
    destruct (as_string x); [|done]. by case_bool_decide. }
  match goal with H : validate_model ?c = Value ?u |- _ =>
    destruct (validate_qwen3 c u Harch H) as (Hpos & Hdiv & Hf); destruct u; simpl in Hpos, Hdiv, Hf end.
  repeat match goal with H : get_required_int _ _ = Value _ |- _ => apply get_required_range in H end.
  repeat match goal with H : get_optional_int _ _ _ = Value _ |- _ =>
    apply get_optional_range in H; [|first [apply quot_range; lia | unfold INT_MIN, INT_MAX in *; lia]] end.
  split; [|done]. split; simpl; try done; lia.
Qed.

Lemma load_hf_config_ok text :
  match load_hf_config text with
  | Value cfg => qwen3_config_ok cfg /\ validate_model cfg = Value tt
  | Unexpected e => loader_error e
  end.
Proof.
  destruct text as [text|]; [|by left]. simpl. destruct (json_parse text) as [j|]; [|by right; left].
  destruct (load_from_json j) eqn:E; [by apply load_from_json_ok in E|by apply load_from_json_err in E].
Qed.

(** A configuration that is loaded from [config.json] is canonical: it names the
    Qwen3 architecture, all dimensions are positive [int]s, the key heads divide the
    query heads, the rotary dimension is the head dimension, and the floats are finite
    and positive; any other file is answered with an error code. *)
Theorem hf_config_canonical text :
  match load_hf_config text with
  | Value cfg => qwen3_config_ok cfg /\ validate_model cfg = Value tt
  | Unexpected e => loader_error e
  end.
Proof. apply load_hf_config_ok. Qed.
End props.

(** A configuration with the defaults of the loader: the head dimension is the quotient,
    the key heads are the query heads. *)
Definition small_hf_config : SmallJson :=
  SObj [(lit "architectures", SArr [SStr (lit "Qwen3ForCausalLM")]); (lit "hidden_size", SInt 8);
        (lit "num_attention_heads", SInt 2); (lit "num_hidden_layers", SInt 1); (lit "intermediate_size", SInt 16);
        (lit "vocab_size", SInt 10); (lit "rope_theta", SNum (f32 0x461c4000))].

Example hf_config_defaults :
  @load_hf_config (small_json (fun _ => Some small_hf_config)) (Some []) =
  Value (mkModelConfig Qwen3 1 2 2 8 4 4 16 10 2048 default_rope_theta default_rms_norm_eps 0 0 0 0 0 0 0 []).
Proof. vm_compute. reflexivity. Qed.
