(* ===== verification/Checkpoint.v ===== *)
(** * Checkpoints: [checkpoint/checkpoint.cpp], [huggingface/checkpoint.cpp],
    [gguf/checkpoint.cpp]

    Opening a model path: a directory with a Hugging Face checkpoint or a GGUF file.
    Both give a canonical configuration and a weight source.  [None] is an exception. *)

From Stdlib Require Import ZArith Lia SpecFloat.
From stdpp Require Import prelude strings.
From S2P Require Import Prelude Base Bytes Config Q8 Device Json SimJson WeightSource Gguf GgufProps GgufLoad GgufLoadProps.
From S2P Require Import HfReader HfProps HfConfig.

(** ** Paths *)

Definition slash : Z := 47.
Definition dot : Z := 46.

(** [path / name] for a name without a slash. *)
Definition path_append (path name : bytes) : bytes :=
  match last path with
  | Some c => if c =? slash then path ++ name else path ++ slash :: name
  | None => name
  end.

(** The part after the last slash. *)
Fixpoint filename (path : bytes) : bytes :=
  match path with
  | [] => []
  | c :: rest => if existsb (Z.eqb slash) path then filename rest else path
  end.

(** [path.extension()]: from the last dot of the file name, unless it starts the name. *)
Fixpoint last_dot (name : bytes) : bytes :=
  match name with
  | [] => []
  | c :: rest => if (c =? dot) && negb (existsb (Z.eqb dot) rest) then name else last_dot rest
  end.
Definition extension (path : bytes) : bytes :=
  let name := filename path in
  if bool_decide (name = lit "..") then []
  else match name with [] => [] | _ :: rest => last_dot rest end.

(** ** The file system *)

(** What [stat] reports; [StatFailed] is an error other than a missing file, such as a
    directory that may not be searched. *)
Inductive FileType := NotFound | Directory | RegularFile | OtherFile | StatFailed.

Record FileSystem := mkFileSystem {
  file_type : bytes -> FileType;
  file_content : bytes -> option bytes;
}.

Definition is_directory (fs : FileSystem) (path : bytes) : bool :=
  match file_type fs path with Directory => true | _ => false end.
Definition is_regular_file (fs : FileSystem) (path : bytes) : bool :=
  match file_type fs path with RegularFile => true | _ => false end.
(** The overload of [fs::exists] without an error code throws when [stat] fails. *)
Definition exists_file (fs : FileSystem) (path : bytes) : option bool :=
  match file_type fs path with NotFound => Some false | StatFailed => None | _ => Some true end.

(** ** Checkpoints *)

Inductive Checkpoint :=
| HuggingFaceCheckpoint (model_path : bytes) (reader : Reader)
| GGUFCheckpoint (reader : GGUFReader).

Section checkpoint.
Context `{Json} `{Memory} `{Q8Storage} (fs : FileSystem).

(** [HuggingFaceCheckpoint::open]. *)
Definition open_hf (model_path : bytes) : Result Checkpoint :=
  TRY reader := create_safetensors (file_content fs (model_path ++ lit "/model.safetensors"));;
  Value (HuggingFaceCheckpoint model_path reader).

(** [GGUFCheckpoint::open]. *)
Definition open_gguf (path : bytes) : option (Result Checkpoint) :=
  match create (file_content fs path) with
  | Parsed reader _ => Some (Value (GGUFCheckpoint reader))
  | Rejected e => Some (Unexpected e)
  | Thrown | OutOfRange | NoFuel => None
  end.

(** [Checkpoint::open]. *)
Definition checkpoint_open (model_path : bytes) : option (Result Checkpoint) :=
  if is_directory fs model_path then
    has_config ← exists_file fs (path_append model_path (lit "config.json"));
    if negb has_config then Some (Unexpected ModelLoadFailed)
    else
      has_weights ← exists_file fs (path_append model_path (lit "model.safetensors"));
      if negb has_weights then Some (Unexpected ModelLoadFailed) else Some (open_hf model_path)
  else if is_regular_file fs model_path && bool_decide (extension model_path = lit ".gguf") then open_gguf model_path
  else Some (Unexpected ModelLoadFailed).

(** [load_config]. *)
Definition checkpoint_config (c : Checkpoint) : option (Result ModelConfig) :=
  match c with
  | HuggingFaceCheckpoint model_path _ => Some (load_hf_config (file_content fs (model_path ++ lit "/config.json")))
  | GGUFCheckpoint reader => load_gguf_config reader
  end.

(** [weights]. *)
Definition checkpoint_weights (c : Checkpoint) : WeightSource :=
  match c with
  | HuggingFaceCheckpoint _ reader => safetensors_source reader
  | GGUFCheckpoint reader => gguf_source reader
  end.
End checkpoint.

(** ** What every opened checkpoint promises *)

Lemma gguf_source_ok `{Q8Storage} r : source_ok (gguf_source r).
Proof.
  assert (forall name sp, (TRY range := weight_read name r;; Value (mkSpan (data_ r) range.1 range.2)) = Value sp ->
    exists t, find_tensor name r = Some t /\ raw_tensor_data t r = Value (sp_offset sp, sp_size sp) /\ sp_file sp = data_ r) as Hread.
  { intros name sp. unfold weight_read. destruct (find_tensor name r) as [t|]; [|done].
    destruct (raw_tensor_data t r) as [[off n]|] eqn:E; [|done]. intros [= <-]. by exists t. }
  split; simpl.
  - intros name sp (t & _ & E & ->)%Hread. by apply (raw_tensor_data_range t).
  - intros name i sp Ei (t & Ef & E & _)%Hread. unfold weight_info in Ei. rewrite Ef in Ei.
    destruct (storage_type (ti_type t)) as [ty|]; [|done]. unfold raw_tensor_data in E.
    destruct (tensor_bytes t) as [m|]; [|done]. injection Ei as <-. destruct (_ || _)%bool; [done|]. by injection E.
  - intros name sp (t & Ef & _)%Hread. unfold weight_has. by rewrite Ef.
Qed.

(** A directory that opens was opened by its loader. *)
Lemma checkpoint_open_dir `{Json} `{Memory} `{Q8Storage} fs path c :
  is_directory fs path = true -> checkpoint_open fs path = Some (Value c) -> open_hf fs path = Value c.
Proof.
  unfold checkpoint_open. intros ->. destruct (exists_file fs (path_append _ (lit "config.json"))) as [[]|]; simpl; try discriminate.
  destruct (exists_file fs _) as [[]|]; simpl; try discriminate. by intros E%(inj Some).
Qed.

(** Files are byte strings of a size an [off_t] can hold. *)
Definition files_ok (fs : FileSystem) : Prop :=
  forall path data, file_content fs path = Some data -> is_bytes data /\ size_Z data < 2 ^ 63.

Section sound.
Context `{JsonLaws} `{Memory} `{Q8Storage}.

Lemma open_hf_ok fs path c : files_ok fs -> open_hf fs path = Value c ->
  exists r data, c = HuggingFaceCheckpoint path r /\ hf_reader_ok data r /\ size_Z data < 2 ^ 63.
Proof.
  intros Hfs. unfold open_hf. destruct (file_content fs _) as [data|] eqn:Ef; [|done].
  destruct (Hfs _ _ Ef) as [Hb Hs]. destruct (create_safetensors (Some data)) as [r|] eqn:E; [|done].
  intros [= <-]. exists r, data. split_and!; [done| |done]. by apply create_safetensors_ok.
Qed.

(** C14: Every checkpoint that opens, from any file system and of either format, keeps the
    promises of the interface: its weight source's spans lie in the mapped file and have
    the announced sizes, and a configuration it delivers passes the validator and
    belongs to the format (Qwen3 in a directory, the hybrid model in a GGUF file). *)
Theorem checkpoint_keeps_promises fs path c :
  files_ok fs -> checkpoint_open fs path = Some (Value c) ->
  source_ok (checkpoint_weights c) /\
  (forall cfg, checkpoint_config fs c = Some (Value cfg) ->
    validate_model cfg = Value tt /\ arch_ cfg = if is_directory fs path then Qwen3 else Qwen3_5) /\
  (if is_directory fs path then exists r, c = HuggingFaceCheckpoint path r
   else is_regular_file fs path = true /\ extension path = lit ".gguf" /\ exists r, c = GGUFCheckpoint r).
Proof.
  intros Hfs. destruct (is_directory fs path) eqn:Ed.
  - intros E%checkpoint_open_dir; [|done]. destruct (open_hf_ok fs path c Hfs E) as (r & data & -> & Hr & Hs).
    split; [by apply (safetensors_source_ok data)|]. split; [|by exists r]. intros cfg Ec. unfold checkpoint_config in Ec. apply (inj Some) in Ec.
    pose proof (load_hf_config_ok (file_content fs (path ++ lit "/config.json"))) as Hc. rewrite Ec in Hc.
    destruct Hc as [Hok Hv]. split; [done|]. apply Hok.
  - unfold checkpoint_open. rewrite Ed.
    destruct (is_regular_file fs path); [|done]. case_bool_decide; [|done]. simpl andb. cbv iota. unfold open_gguf.
    destruct (create _) as [r o|e| | |]; try done. intros [= <-]. split; [apply gguf_source_ok|].
    split; [|by split_and!; [..|exists r]]. intros cfg Ec. apply load_gguf_config_fields in Ec.
    by destruct (load_fields_spec r cfg Ec) as (Hv & Ha & _).
Qed.
End sound.

(** ** A directory with a checkpoint *)

#[local] Instance dir_json : Json := small_json (fun text =>
  if decide (text = lit "H") then Some hf_header else if decide (text = lit "C") then Some small_hf_config else None).
#[local] Instance dir_json_laws : JsonLaws := small_json_laws _.
#[local] Instance dir_memory : Memory := fun _ _ => true.
#[local] Instance dir_storage : Q8Storage := fun _ => None.

Definition model_dir : FileSystem :=
  mkFileSystem (fun path => if decide (path = lit "m") then Directory
                            else if decide (path = lit "m/config.json" \/ path = lit "m/model.safetensors") then RegularFile
                            else NotFound)
    (fun path => if decide (path = lit "m/config.json") then Some (lit "C")
                 else if decide (path = lit "m/model.safetensors") then Some (write_safetensors (lit "H") hf_content)
                 else None).

Lemma model_dir_ok : files_ok model_dir.
Proof.
  intros path data. unfold model_dir, file_content.
  destruct (decide _); [|destruct (decide _); [|done]]; intros E; apply (inj Some) in E; subst data;
    (split; [apply is_bytes_b_ok; vm_compute; reflexivity|vm_compute; reflexivity]).
Qed.

Lemma checkpoint_keeps_promises_witness :
  exists c cfg, checkpoint_open model_dir (lit "m") = Some (Value c) /\ checkpoint_config model_dir c = Some (Value cfg) /\
    source_ok (checkpoint_weights c) /\ arch_ cfg = Qwen3.
Proof.
  exists (HuggingFaceCheckpoint (lit "m") (mkSafeReader (write_safetensors (lit "H") hf_content) 9 hf_tensors.*2 hf_tensors)),
    (mkModelConfig Qwen3 1 2 2 8 4 4 16 10 2048 default_rope_theta default_rms_norm_eps 0 0 0 0 0 0 0 []).
  assert (checkpoint_open model_dir (lit "m") = Some (Value (HuggingFaceCheckpoint (lit "m")
    (mkSafeReader (write_safetensors (lit "H") hf_content) 9 hf_tensors.*2 hf_tensors)))) as E by (vm_compute; reflexivity).
  assert (checkpoint_config model_dir (HuggingFaceCheckpoint (lit "m")
    (mkSafeReader (write_safetensors (lit "H") hf_content) 9 hf_tensors.*2 hf_tensors)) = Some (Value
    (mkModelConfig Qwen3 1 2 2 8 4 4 16 10 2048 default_rope_theta default_rms_norm_eps 0 0 0 0 0 0 0 []))) as Ec
    by (vm_compute; reflexivity).
  split; [exact E|]. split; [exact Ec|].
  destruct (checkpoint_keeps_promises model_dir (lit "m") _ model_dir_ok E) as (Hs & Hc & _).
  split; [exact Hs|exact (proj2 (Hc _ Ec))].
Defined.
