(* ===== verification/HttpProps.v ===== *)
(** * What the HTTP server guarantees

    Lines are read exactly, body sizes are parsed exactly and bounded, every accepted
    chat is one the model runner supports and ends with a final frame or a
    cancellation, and a shutdown completes once, when everything has ended. *)

From Stdlib Require Import ZArith Lia SpecFloat.
From stdpp Require Import prelude strings pretty gmap fin_maps.
From S2P Require Import Prelude Base Config Json SimJson Tokenizer Device Model Http.

(** ** [Content-Length] *)

Definition digit_list (ds : bytes) : Prop := Forall (fun c => isdigit c = true) ds.

(** The decimal number of a digit string, after [out]. *)
Definition decimal (ds : bytes) (out : Z) : Z := foldl (fun out c => out * 10 + (c - 48)) out ds.

Lemma decimal_ge ds out : digit_list ds -> 0 <= out -> out <= decimal ds out.
Proof.
  intros Hd. revert out. induction Hd as [|c ds Hc _ IH]; intros out Ho; simpl; [lia|]. unfold isdigit in Hc. bprop.
  etrans; [|apply IH]; lia.
Qed.

Lemma digits_spec ds rest out has :
  digit_list ds -> match rest with [] => True | c :: _ => isdigit c = false end -> 0 <= out <= kMaxBodySize ->
  digits (ds ++ rest) out has =
    if decimal ds out <=? kMaxBodySize then Some (decimal ds out, has || negb (bool_decide (ds = [])), rest) else None.
Proof.
  intros Hd Hr. revert out has. induction Hd as [|c ds Hc Hd IH]; intros out has Ho.
  { simpl. rewrite (proj2 (Z.leb_le _ _)), orb_false_r by lia. destruct rest as [|c rest]; [done|]. simpl. by rewrite Hr. }
  cbn [app digits decimal foldl]. rewrite Hc. cbn [negb]. pose proof Hc as Hc'. unfold isdigit in Hc'. bprop.
  fold (decimal ds (out * 10 + (c - 48))). pose proof (decimal_ge ds (out * 10 + (c - 48)) Hd ltac:(lia)).
  unfold kMaxBodySize in *. change (Z.quot (64 * 1024 * 1024) 10) with 6710886.
  destruct (Z.ltb_spec 6710886 out); [rewrite (proj2 (Z.leb_gt _ _)) by lia; done|]. cbv zeta.
  destruct (Z.ltb_spec (64 * 1024 * 1024) (out * 10 + (c - 48))); [rewrite (proj2 (Z.leb_gt _ _)) by lia; done|].
  rewrite IH by lia. rewrite (bool_decide_eq_false_2 (c :: ds = [])) by done. by rewrite orb_true_r.
Qed.

Lemma skip_spaces_app sp l :
  Forall (fun c => isspace c = true) sp -> match l with [] => True | c :: _ => isspace c = false end ->
  skip_spaces (sp ++ l) = l.
Proof. induction 1 as [|c sp Hc _ IH]; intros Hl; simpl; [destruct l; [done|simpl; by rewrite Hl]|rewrite Hc; by apply IH]. Qed.

Lemma digit_not_space c : isdigit c = true -> isspace c = false.
Proof. unfold isdigit, isspace. lia. Qed.
Lemma space_not_digit c : isspace c = true -> isdigit c = false.
Proof. unfold isdigit, isspace. lia. Qed.

(** A header with any case, spaces around the number and leading zeros is read exactly,
    and refused above the limit, without overflow. *)
Theorem content_length_exact name sp1 ds sp2 :
  length name = 15%nat -> starts_with_ci name (lit "content-length:") = true ->
  Forall (fun c => isspace c = true) sp1 -> digit_list ds -> ds <> [] -> Forall (fun c => isspace c = true) sp2 ->
  parse_content_length (name ++ sp1 ++ ds ++ sp2) =
    if decimal ds 0 <=? kMaxBodySize then CLValid (decimal ds 0) else CLInvalid.
Proof.
  intros Hl Hn H1 Hd Hne H2. unfold parse_content_length.
  assert (starts_with_ci (name ++ sp1 ++ ds ++ sp2) (lit "content-length:") = true) as ->.
  { unfold starts_with_ci in *. change (length (lit "content-length:")) with 15%nat in *.
    rewrite length_app, Hl. destruct (15 + length (sp1 ++ ds ++ sp2) <? 15)%nat eqn:E; [apply Nat.ltb_lt in E; lia|].
    rewrite Hl in Hn. change (15 <? 15)%nat with false in Hn. cbv iota in Hn. rewrite take_ge in Hn by lia.
    rewrite take_app_le, take_ge by lia. exact Hn. }
  cbn [negb]. rewrite drop_app_ge, Hl by lia. change (15 - 15)%nat with 0%nat. rewrite drop_0.
  rewrite skip_spaces_app; [|done|destruct Hd; [done|by apply digit_not_space]].
  rewrite digits_spec; [|done|destruct H2; [done|by apply space_not_digit]|unfold kMaxBodySize; lia].
  destruct (decimal ds 0 <=? kMaxBodySize); [|done]. rewrite bool_decide_eq_false_2 by done. cbn [orb negb].
  assert (forallb isspace sp2 = true) as -> by (apply forallb_forall; intros c Hc; apply list_elem_of_In in Hc;
    by eapply Forall_forall in H2). done.
Qed.

(** A valid length fits the limit. *)
Lemma digits_range val out has v h rest :
  0 <= out <= kMaxBodySize -> digits val out has = Some (v, h, rest) -> 0 <= v <= kMaxBodySize.
Proof.
  revert out has. induction val as [|c val IH]; intros out has Ho; simpl; [by intros [= <- _ _]|].
  destruct (isdigit c) eqn:Hc; [|by intros [= <- _ _]]. cbn [negb]. unfold isdigit in Hc. bprop.
  destruct (_ <? out); [done|]. destruct (Z.ltb_spec kMaxBodySize (out * 10 + (c - 48))); [done|]. apply IH. lia.
Qed.

Lemma parse_content_length_range line v : parse_content_length line = CLValid v -> 0 <= v <= kMaxBodySize.
Proof.
  unfold parse_content_length. destruct (negb _); [done|].
  destruct (digits _ 0 false) as [[[out has] rest]|] eqn:E; [|done]. destruct (negb has); [done|].
  destruct (forallb isspace rest); [|done]. intros [= <-]. eapply digits_range; [|exact E]. unfold kMaxBodySize. lia.
Qed.

(** ** Reading lines *)

Definition stream (s : Socket) : bytes := sock_buf s ++ concat (incoming s).

(** No chunk ends with a carriage return. *)
Definition no_split (s : Socket) : Prop :=
  last (sock_buf s) <> Some 13 /\ Forall (fun c => c <> [] /\ (length c <= 4096)%nat /\ last c <> Some 13) (incoming s).

Lemma find_newline_app l rest : Forall (fun c => c <> 10) l -> find_newline (l ++ 10 :: rest) = Some (length l).
Proof.
  induction 1 as [|c l Hc _ IH]; [done|]. simpl. rewrite (proj2 (Z.eqb_neq c 10) Hc), IH. done.
Qed.

Lemma find_newline_none l : Forall (fun c => c <> 10) l -> find_newline l = None.
Proof. induction 1 as [|c l Hc _ IH]; [done|]. simpl. by rewrite (proj2 (Z.eqb_neq c 10) Hc), IH. Qed.

(** A line that ends in the buffer. *)
Lemma scan_line_done l rest line :
  Forall (fun c => c <> 10) l -> (length line + length l <= kMaxHeaderSize)%nat ->
  scan_line (l ++ [13; 10] ++ rest) line = LineDone (line ++ l) rest.
Proof.
  intros Hl Hlen. unfold scan_line. destruct (l ++ [13; 10] ++ rest) as [|b bs] eqn:E; [by destruct l|]. rewrite <- E.
  replace (l ++ [13; 10] ++ rest) with ((l ++ [13]) ++ 10 :: rest) by by rewrite <- app_assoc.
  rewrite find_newline_app by (apply Forall_app; split; [done|by constructor]).
  rewrite length_app. cbn [length]. replace (length l + 1 - 1)%nat with (length l) by lia.
  rewrite (proj2 (Nat.ltb_lt 0 (length l + 1))) by lia.
  rewrite bool_decide_eq_true_2.
  2: { rewrite <- app_assoc, lookup_app_r, Nat.sub_diag by lia. done. }
  cbn [andb]. rewrite (proj2 (Nat.ltb_ge _ _)) by lia. f_equal.
  - rewrite <- app_assoc, take_app_length. done.
  - replace (length l + 1 + 1)%nat with (length ((l ++ [13]) ++ [10])) by (rewrite !length_app; simpl; lia).
    replace ((l ++ [13]) ++ 10 :: rest) with (((l ++ [13]) ++ [10]) ++ rest) by by rewrite <- app_assoc.
    by rewrite drop_app_length.
Qed.

(** A buffer without the end of the line is appended. *)
Lemma scan_line_more buf line :
  Forall (fun c => c <> 10) buf -> (length line + length buf <= kMaxHeaderSize)%nat ->
  scan_line buf line = NeedMore (line ++ buf).
Proof.
  intros Hb Hl. unfold scan_line. destruct buf as [|b bs] eqn:E; [by rewrite app_nil_r|]. rewrite <- E in *.
  rewrite find_newline_none by done. by rewrite (proj2 (Nat.ltb_ge _ _)) by lia.
Qed.

Lemma read_line_loop_spec fuel s line l rest :
  no_split s -> stream s = l ++ [13; 10] ++ rest -> Forall (fun c => c <> 10) l ->
  (length line + length l <= kMaxHeaderSize)%nat -> (length (concat (incoming s)) < fuel)%nat ->
  exists s', read_line_loop fuel s line = Some (line ++ l, s') /\ stream s' = rest /\ no_split s'.
Proof.
  revert s line l. induction fuel as [|fuel IH]; intros [buf inc] line l [Hlast Hinc] Hst Hl Hlen Hf; [lia|].
  unfold stream in Hst. cbn [sock_buf incoming] in *. cbn [read_line_loop sock_buf incoming].
  destruct (Nat.le_gt_cases (length l + 2) (length buf)) as [Hge|Hlt].
  - assert (exists buf', buf = l ++ [13; 10] ++ buf' /\ rest = buf' ++ concat inc) as (buf' & -> & ->).
    { exists (drop (length l + 2) buf). assert (take (length l + 2) buf = l ++ [13; 10]) as Et.
      { rewrite <- (take_app_le buf (concat inc)), Hst by lia. rewrite app_assoc.
        replace (length l + 2)%nat with (length (l ++ [13; 10])) by (rewrite length_app; simpl; lia).
        by rewrite take_app_length. }
      split; [by rewrite app_assoc, <- Et, take_drop|].
      rewrite <- (take_drop (length l + 2) buf), Et in Hst. rewrite <- !app_assoc in Hst.
      by apply app_inv_head, app_inv_head in Hst. }
    rewrite scan_line_done by done. exists (mkSocket buf' inc). split_and!; [done|done|].
    split; [|done]. cbn [sock_buf]. intros Hl'. apply Hlast. by rewrite app_assoc, last_app, Hl'.
  - assert (exists l', l = buf ++ l' /\ concat inc = l' ++ [13; 10] ++ rest) as (l' & -> & Hc).
    { assert (length buf <= length l)%nat as Hle.
      { destruct (decide (length buf = S (length l))) as [E|]; [|lia]. exfalso. apply Hlast.
        rewrite last_lookup, E. simpl. rewrite <- (lookup_app_l buf (concat inc)), Hst by lia.
        by rewrite lookup_app_r, Nat.sub_diag by lia. }
      exists (drop (length buf) l). assert (take (length buf) l = buf) as Et.
      { rewrite <- (take_app_le l ([13; 10] ++ rest)), <- Hst by lia. by rewrite take_app_length. }
      split; [by rewrite <- (take_drop (length buf) l) at 1; rewrite Et|].
      apply (app_inv_head buf). rewrite Hst, (app_assoc buf). f_equal.
      rewrite <- (take_drop (length buf) l) at 1. by rewrite Et. }
    apply Forall_app in Hl as [Hb Hl']. rewrite length_app in Hlen. rewrite scan_line_more by (done || lia).
    destruct inc as [|c inc]; [by destruct l'|]. apply Forall_cons in Hinc as [(Hne & Hc4 & Hcl) Hinc].
    cbn [concat] in Hc, Hf. rewrite length_app in Hf. unfold read_some. destruct c as [|x cs] eqn:Ec; [done|]. rewrite <- Ec in *.
    rewrite (proj2 (Nat.leb_le _ _)), take_ge by lia. rewrite app_assoc.
    apply IH; [done|done|done|rewrite length_app; lia|]. cbn [incoming].
    assert (0 < length c)%nat by (rewrite Ec; simpl; lia). lia.
Qed.

(** Whatever the chunks, as long as none ends between a carriage return and its
    newline, [read_line] returns the next line and leaves the rest. *)
Theorem read_line_exact s l rest :
  no_split s -> stream s = l ++ [13; 10] ++ rest -> Forall (fun c => c <> 10) l -> (length l <= kMaxHeaderSize)%nat ->
  exists s', read_line s = Some (l, s') /\ stream s' = rest /\ no_split s'.
Proof. intros Hn Hs Hl Hlen. apply (read_line_loop_spec _ s [] l rest); [done|done|done|done|]. unfold read_fuel. lia. Qed.

(** A chunk that ends with the carriage return of the empty line: its newline is taken
    for the rest of a line, and the body is lost. *)
Definition split_head : bytes :=
  lit "POST /v1/chat/completions HTTP/1.1" ++ crlf ++ lit "Content-Length: 2" ++ crlf ++ [13].

Example crlf_split_loses_body :
  handle_connection_impl (mkSocket [] [split_head ++ [10] ++ lit "{}"]) = Some (ChatBody (lit "{}")) /\
  handle_connection_impl (mkSocket [] [split_head; [10] ++ lit "{}"]) = Some (Respond kBadRequest).
Proof. split; vm_compute; reflexivity. Qed.

(** The fixed responses announce the length of their bodies. *)
Lemma fixed_bodies :
  length (lit "{" ++ quoted "status" ++ lit ":" ++ quoted "ok" ++ lit "}") = 15%nat /\
  length (lit "{" ++ quoted "data" ++ lit ":[{" ++ quoted "id" ++ lit ":" ++ quoted "default" ++ lit "}]}") = 27%nat.
Proof. by split. Qed.

(** ** Handling a connection ends *)

Lemma read_some_shrinks n chunks c rest :
  (0 < n)%nat -> read_some n chunks = Some (c, rest) ->
  (length c + length (concat rest) = length (concat chunks))%nat /\ (0 < length c)%nat.
Proof.
  intros Hn. unfold read_some. destruct chunks as [|c0 chunks]; [done|]. destruct c0 as [|x cs] eqn:Ec; [done|].
  assert (0 < length c0)%nat as Hpos by (rewrite Ec; simpl; lia). rewrite <- Ec in *. clear Ec x cs.
  intros [= <- <-]. destruct (Nat.leb_spec (length c0) n).
  - rewrite take_ge by done. cbn [concat]. rewrite length_app. lia.
  - cbn [concat]. rewrite !length_app, length_take, length_drop. lia.
Qed.

Lemma scan_line_shrinks buf line :
  match scan_line buf line with
  | LineDone _ buf' => (length buf' < length buf)%nat
  | NeedMore line' => (length line' <= length line + length buf)%nat
  end.
Proof.
  unfold scan_line. destruct buf as [|b bs] eqn:E; [lia|]. rewrite <- E.
  assert (0 < length buf)%nat by (rewrite E; simpl; lia).
  destruct (find_newline buf) as [it|]; cbv zeta.
  - destruct (_ <? _)%nat; [simpl; lia|]. rewrite length_drop. lia.
  - destruct (_ <? _)%nat; [simpl; lia|]. rewrite length_app. lia.
Qed.

(** A non-empty line has consumed something; the bytes of the pending line count. *)
Lemma read_line_loop_total fuel s line :
  (length (concat (incoming s)) < fuel)%nat ->
  exists l s', read_line_loop fuel s line = Some (l, s') /\
    (length (stream s') <= length (stream s))%nat /\
    (l <> [] -> (length (stream s') < length (stream s) + length line)%nat).
Proof.
  revert s line. induction fuel as [|fuel IH]; intros [buf inc] line Hf; [lia|]. cbn [read_line_loop sock_buf incoming] in *.
  pose proof (scan_line_shrinks buf line) as Hs. unfold stream at 2 4. cbn [sock_buf incoming].
  destruct (scan_line buf line) as [l buf'|line'].
  { exists l, (mkSocket buf' inc). unfold stream. cbn [sock_buf incoming]. rewrite !length_app. split_and!; [done|lia|lia]. }
  destruct (read_some 4096 inc) as [[c rest]|] eqn:E.
  - apply read_some_shrinks in E as [E Hc]; [|lia].
    destruct (IH (mkSocket c rest) line' ltac:(cbn [incoming]; lia)) as (l & s' & -> & H1 & H2).
    exists l, s'. unfold stream in H1 at 2, H2 at 2. cbn [sock_buf incoming] in *. rewrite length_app in *.
    split_and!; [done|lia|]. intros Hl. specialize (H2 Hl). lia.
  - exists [], (mkSocket [] (tail inc)). unfold stream. cbn [sock_buf incoming]. rewrite !length_app.
    split_and!; [done| |done]. destruct inc as [|x inc]; simpl; [lia|]. rewrite length_app. lia.
Qed.

Lemma read_line_total s :
  exists l s', read_line s = Some (l, s') /\ (l <> [] -> (length (stream s') < length (stream s))%nat) /\
    (length (stream s') <= length (stream s))%nat.
Proof.
  destruct (read_line_loop_total (read_fuel (incoming s)) s []) as (l & s' & E & H1 & H2); [unfold read_fuel; lia|].
  exists l, s'. split_and!; [done| |done]. intros Hl. specialize (H2 Hl). simpl in H2. lia.
Qed.

Lemma read_headers_total fuel s n c :
  (length (stream s) < fuel)%nat -> exists h s', read_headers fuel s n c = Some (h, s').
Proof.
  revert s n c. induction fuel as [|fuel IH]; intros s n c Hf; [lia|]. cbn [read_headers].
  destruct (read_line_total s) as (l & s1 & -> & Hl & _). cbn [mbind option_bind]. case_bool_decide as Hne; [by eauto|].
  specialize (Hl Hne). destruct (_ <? _)%nat; [by eauto|].
  destruct (parse_content_length l); [apply IH; lia| |by eauto].
  destruct c as [v|]; [|apply IH; lia]. destruct (v =? value); [apply IH; lia|by eauto].
Qed.

Lemma read_body_loop_total fuel chunks body n :
  (length (concat chunks) < fuel)%nat ->
  exists r, read_body_loop fuel chunks body n = Some r /\ forall b, r = Some b -> (n <= length b)%nat.
Proof.
  revert chunks body. induction fuel as [|fuel IH]; intros chunks body Hf; [lia|]. cbn [read_body_loop].
  destruct (Nat.leb_spec n (length body)) as [Hn|Hn]; [exists (Some body); split; [done|by intros b [= <-]]|].
  destruct (read_some _ chunks) as [[c rest]|] eqn:E; [|by exists None].
  apply read_some_shrinks in E as [E Hc]; [|lia]. apply IH. lia.
Qed.

(** Every connection that stops sending gets to its handler or to a response. *)
Theorem handle_connection_total s : is_Some (handle_connection_impl s).
Proof.
  unfold handle_connection_impl. destruct (read_line_total s) as (l & s1 & -> & _). cbn [mbind option_bind].
  case_bool_decide; [by eexists|]. destruct (parse_request_line l) as [[method path]|]; [|by eexists].
  destruct (read_headers_total (S (length (sock_buf s1) + length (concat (incoming s1)))) s1 (length l + 2) None)
    as (h & s2 & ->).
  { unfold stream. rewrite length_app. lia. }
  cbn [mbind option_bind]. destruct h as [|c]; [by eexists|]. unfold route.
  repeat case_bool_decide; simpl; try by eexists. destruct c as [[|p|p]|]; try by eexists.
  unfold read_body. destruct (_ <? _); [by eexists|].
    destruct (read_body_loop_total (read_fuel (incoming s2)) (incoming s2) (take (Z.to_nat (Z.pos p)) (sock_buf s2))
      (Z.to_nat (Z.pos p))) as (r & -> & _); [unfold read_fuel; lia|]. by destruct r; eexists.
Qed.

(** ** Chats *)

Lemma SFcompare_sym x y : SFcompare y x = CompOpp <$> SFcompare x y.
Proof.
  destruct x as [sx|sx| |sx mx ex], y as [sy|sy| |sy my ey]; simpl; try done; try (by destruct sx);
    try (by destruct sy); try (by destruct sx, sy).
  destruct sx, sy; simpl; try done; rewrite (Z.compare_antisym ex ey); destruct (ex ?= ey)%Z; simpl; try done;
    rewrite (Pos.compare_cont_antisym mx my Eq); simpl; by rewrite ?CompOpp_involutive.
Qed.

(** Finite numbers are comparable. *)
Lemma SFcompare_finite x y : isfinite x = true -> isfinite y = true -> exists c, SFcompare x y = Some c.
Proof. destruct x, y; simpl; try done; repeat case_match; by eauto. Qed.

Lemma not_less x y : isfinite x = true -> isfinite y = true -> SFltb x y = false -> SFleb y x = true.
Proof.
  intros Hx Hy. destruct (SFcompare_finite x y Hx Hy) as [c Hc]. unfold SFltb, SFleb.
  rewrite (SFcompare_sym x y), Hc. by destruct c.
Qed.

Lemma not_leb x y : isfinite x = true -> isfinite y = true -> SFleb x y = false -> SFltb y x = true.
Proof.
  intros Hx Hy. destruct (SFcompare_finite x y Hx Hy) as [c Hc]. unfold SFltb, SFleb.
  rewrite (SFcompare_sym x y), Hc. by destruct c.
Qed.

Section chat.
Context `{Json} (tokenizer : ByteLevelBpeTokenizer).

(** What the engine and the runner require of a request. *)
Record chat_supported (r : ParsedChatRequest) : Prop := mk_chat_supported {
  cs_prompt : pr_prompt_tokens r <> [];
  cs_greedy : greedy (pr_sampling r) = true;
  cs_sampling : forall V, 0 < V -> sampling_ok V (pr_sampling r) = true;
  cs_max_tokens : 0 <= max_tokens (pr_sampling r) <= INT_MAX;
  cs_context : 0 <= pr_max_context_len r <= INT_MAX;
  cs_eos : eos_token_id (pr_sampling r) = tok_eos_id tokenizer;
}.

Lemma json_int_range j key z : json_get_int j key = FieldValid z -> INT_MIN <= z <= INT_MAX.
Proof.
  unfold json_get_int. destruct (get_member j key) as [val|]; [|done]. destruct (as_integer val) as [raw|]; [|done].
  destruct (_ || _) eqn:E; [done|]. intros [= <-]. bprop. lia.
Qed.

Lemma json_float_finite j key x : json_get_float j key = FieldValid x -> isfinite x = true.
Proof.
  unfold json_get_float. destruct (get_member j key) as [val|]; [|done]. destruct (as_number val) as [v|]; [|done].
  destruct (isfinite v) eqn:E; [|done]. by intros [= <-].
Qed.

Lemma read_optional_case {A} (f : JsonField A) old x : read_optional f old = Some x -> x = old \/ f = FieldValid x.
Proof. destruct f; simpl; [intros [= <-]; by left|intros [= <-]; by right|done]. Qed.

Lemma chat_sampling_spec j s :
  chat_sampling tokenizer j = Value s ->
  greedy s = true /\ (forall V, 0 < V -> sampling_ok V s = true) /\ 0 <= max_tokens s <= INT_MAX /\
  eos_token_id s = tok_eos_id tokenizer.
Proof.
  unfold chat_sampling. cbv zeta.
  destruct (read_optional (json_get_int j "max_tokens") _) as [n|] eqn:En; [|done].
  destruct (read_optional (json_get_float j "temperature") _) as [t|] eqn:Et; [|done].
  destruct (read_optional (json_get_float j "top_p") _) as [p|] eqn:Ep; [|done].
  destruct (read_optional (json_get_int j "top_k") _) as [k|] eqn:Ek; [|done].
  assert (n <= INT_MAX) as Hn.
  { apply read_optional_case in En as [->|En]; [done|]. apply json_int_range in En. lia. }
  assert (isfinite t = true) as Ht by (apply read_optional_case in Et as [->|Et]; [done|by apply json_float_finite in Et]).
  assert (isfinite p = true) as Hp by (apply read_optional_case in Ep as [->|Ep]; [done|by apply json_float_finite in Ep]).
  clear En Et Ep Ek. 
  match goal with |- context [if ?c then _ else _] => destruct c eqn:E1; [done|] end.
  match goal with |- context [if ?c then _ else _] => destruct c eqn:E2; [done|] end.
  intros [= <-]. bprop. assert (k = 0) as -> by lia. unfold greedy, sampling_ok. cbn [top_k top_p temperature max_tokens eos_token_id].
  split_and!; [|intros V HV|lia|lia|done].
  - rewrite !not_less by done. done.
  - rewrite Ht, Hp, (not_less t f32_zero), (not_leb p f32_zero) by done. rewrite (proj2 (Z.leb_le 0 V)) by lia. done.
Qed.

Lemma parse_chat_spec body r : parse_chat_request tokenizer body = Some (Value r) -> chat_supported r.
Proof.
  unfold parse_chat_request. destruct (json_parse _) as [j|]; [|done]. destruct (negb _); [done|].
  destruct (chat_prompt tokenizer j) as [[prompt|]|]; [|done|done]. cbn [mbind option_bind].
  destruct (chat_sampling tokenizer j) as [s|] eqn:Es; [|done].
  destruct (chat_context_len j) as [n|] eqn:Ec; [|done]. intros [= <-].
  apply chat_sampling_spec in Es as (H1 & H2 & H3 & H4). constructor; simpl; [by case_bool_decide|done|done|done| |done].
  unfold chat_context_len in Ec. destruct (json_get_int j "max_context_len") as [|z|] eqn:E; [|..].
  - injection Ec as <-. unfold INT_MAX. lia.
  - apply json_int_range in E. destruct (Z.leb_spec z 0); [done|]. injection Ec as <-. lia.
  - done.
Qed.
(** Each result of a list was written as a frame that is not the last. *)
Definition streamed (request_id : string) (turn : ChatTurn) (a : ChatAction) : Prop :=
  exists result frame, turn = (Some result, true) /\
    turn_frame tokenizer request_id result = Some (Some frame, false) /\ a = Write frame.

(** A token whose text, decoded by itself, is not valid UTF-8. *)
Definition unprintable (result : Result GeneratedToken) : Prop :=
  exists tok text, result = Value tok /\ has_token tok = true /\
    decode tokenizer [token_id tok] false = Some (Value text) /\ utf8 text = false.

(** The frames [acts] were written for the turns [pre]; then the loop is waiting, or it
    returned with a cancellation or after its last frame, or it threw. *)
Definition chat_ends (request_id : string) (turns : list ChatTurn) (actions : list ChatAction) (e : ChatEnd) : Prop :=
  exists pre acts, Forall2 (streamed request_id) pre acts /\
    match e with
    | Suspended => turns = pre /\ actions = acts
    | Returned => exists turn post, turns = pre ++ turn :: post /\
        (turn.1 = None /\ actions = acts ++ [CancelRequest request_id] \/
         exists result frame done, turn_frame tokenizer request_id result = Some (Some frame, done) /\
           (turn = (Some result, false) /\ actions = acts ++ [Write frame; CancelRequest request_id] \/
            turn = (Some result, true) /\ done = true /\ actions = acts ++ [Write frame]))
    | Threw => exists result written post, turns = pre ++ (Some result, written) :: post /\
        unprintable result /\ actions = acts
    end.

Lemma chat_ends_cons request_id turn turns a actions e :
  streamed request_id turn a -> chat_ends request_id turns actions e ->
  chat_ends request_id (turn :: turns) (a :: actions) e.
Proof.
  intros Ht (pre & acts & Hp & He). exists (turn :: pre), (a :: acts). split; [by constructor|]. destruct e.
  - by destruct He as [-> ->].
  - destruct He as (t & post & -> & [[H1 ->]|(r & f & d & Hf & [[H1 ->]|(H1 & H2 & ->)])]); exists t, post; (split; [done|]).
    + by left.
    + right. exists r, f, d. split; [done|by left].
    + right. exists r, f, d. split; [done|by right].
  - destruct He as (r & w & post & -> & Hu & ->). by exists r, w, post.
Qed.

Context `{!JsonDumpLaws}.

Lemma dump_text s : utf8 (lit s) = true -> is_Some (json_dump (json_string (lit s))).
Proof. apply dump_string. Qed.

Lemma sse_error_frame_built e : is_Some (sse_error_frame e).
Proof.
  unfold sse_error_frame, sse_data. apply fmap_is_Some, dump_object; [by repeat constructor; set_solver|].
  repeat constructor; simpl; [|apply dump_bool]. apply dump_text. by destruct e.
Qed.

(** Building the frame of a token throws exactly when its text is not UTF-8. *)
Lemma make_sse_frame_throws tok request_id frame :
  utf8 (lit request_id) = true -> make_sse_frame tokenizer tok request_id = Some frame ->
  frame = None <-> unprintable (Value tok).
Proof.
  intros Hid. unfold make_sse_frame. set (delta := if has_token tok then _ else _).
  destruct delta as [d|] eqn:Ed; [|done]. cbn [mbind option_bind]. intros [= <-].
  assert (json_dump d = None <-> unprintable (Value tok)) as Hd.
  { subst delta. unfold unprintable. destruct (has_token tok) eqn:Et.
    - destruct (decode tokenizer [token_id tok] false) as [r|] eqn:Er in Ed; [|done]. cbn [mbind option_bind] in Ed.
      injection Ed as <-. rewrite eq_None_not_Some, dump_object by (repeat constructor; set_solver).
      rewrite Forall_singleton. cbn [fst snd]. rewrite dump_string. split.
      + intros Hn. destruct r as [text|]; [|by destruct Hn]. exists tok, text. split_and!; [done|done|done|].
        apply not_true_iff_false. intros Hu. by apply Hn.
      + intros (tok' & text & [= <-] & _ & Hdec & Hu) [_ Hu']. rewrite Er in Hdec. injection Hdec as ->. congruence.
    - injection Ed as <-. rewrite eq_None_not_Some, dump_object by constructor.
      split; [by intros []; constructor|]. intros (tok' & text & [= <-] & Ht & _). congruence. }
  assert (is_Some (json_dump (if finished tok then json_string (lit "stop") else json_null))) as Hf
    by (destruct (finished tok); [by apply dump_text|apply dump_null]).
  pose proof (dump_int 0) as Hi0. rewrite <- Hd, !eq_None_not_Some. apply not_iff_compat. unfold sse_data.
  rewrite fmap_is_Some, dump_object by (repeat constructor; set_solver). rewrite !Forall_cons, Forall_nil. cbn [fst snd].
  rewrite dump_array, Forall_singleton, dump_object by (repeat constructor; set_solver).
  rewrite !Forall_cons, Forall_nil. cbn [fst snd]. rewrite !dump_string.
  case_bool_decide; (split; [tauto|]; intros Hx; by repeat split).
Qed.

(** The loop ends in one of the ways of [chat_ends]. *)
Lemma chat_loop_ends request_id turns actions ended :
  utf8 (lit request_id) = true ->
  chat_loop tokenizer request_id turns = Some (actions, ended) -> chat_ends request_id turns actions ended.
Proof.
  intros Hid. revert actions. induction turns as [|[[result|] written] turns IH]; intros actions; cbn [chat_loop].
  - intros [= <- <-]. by exists [], [].
  - destruct (turn_frame tokenizer request_id result) as [[[frame|] d]|] eqn:Ef; [| |done]; cbn [mbind option_bind].
    + destruct written; cbn [negb].
      * destruct d.
        -- intros [= <- <-]. exists [], []. split; [done|]. exists (Some result, true), turns. split; [done|]. right.
           exists result, frame, true. split; [done|]. by right.
        -- destruct (chat_loop tokenizer request_id turns) as [[acts e]|] eqn:El; [|done]. cbn [mbind option_bind].
           intros [= <- <-]. apply chat_ends_cons; [by exists result, frame|by apply IH].
      * intros [= <- <-]. exists [], []. split; [done|]. exists (Some result, false), turns. split; [done|]. right.
        exists result, frame, d. split; [done|]. by left.
    + intros [= <- <-]. exists [], []. split; [done|]. exists result, written, turns. split; [done|]. split; [|done].
      unfold turn_frame in Ef. destruct result as [tok|e].
      * destruct (make_sse_frame tokenizer tok request_id) as [fr|] eqn:Em; [|done]. cbn [mbind option_bind] in Ef.
        injection Ef as -> _. by apply (make_sse_frame_throws tok request_id None Hid Em).
      * injection Ef as Ee _. destruct (sse_error_frame_built e) as [x Hx]. congruence.
  - intros [= <- <-]. exists [], []. split; [done|]. exists (None, written), turns. split; [done|]. by left.
Qed.

(** The metrics are always answered. *)
Lemma handle_metrics_answers cap : is_Some (handle_metrics cap).
Proof.
  unfold handle_metrics, json_response. assert (is_Some (json_dump (metrics_json cap))) as [text ->]; [|by eexists].
  unfold metrics_json. cbv zeta. rewrite dump_object by (repeat constructor; set_solver).
  pose proof dump_int as Hi. pose proof dump_double as Hd.
  repeat (apply Forall_cons; split; [split; [done|]; cbn [snd]; rewrite dump_object by (repeat constructor; set_solver);
    repeat (apply Forall_cons; split; [by split; [|cbn [snd]; auto]|]); constructor|]). constructor.
Qed.
End chat.

(** The identifiers of requests are ASCII. *)
Lemma lit_app a b : lit (a +:+ b) = lit a ++ lit b.
Proof. induction a as [|c a IH]; [done|]. change (lit (String c (a +:+ b)) = lit (String c a) ++ lit b).
  cbn [lit app]. by rewrite IH.
Qed.

Lemma pretty_N_go_ascii x s : Forall (fun c => 0 <= c < 128) (lit s) -> Forall (fun c => 0 <= c < 128) (lit (pretty_N_go x s)).
Proof.
  revert s. induction x as [x IH] using (well_founded_induction N.lt_wf_0). intros s Hs.
  destruct (decide (x = 0)%N) as [->|Hx]; [by rewrite pretty_N_go_0|]. rewrite pretty_N_go_step by lia.
  apply IH; [apply N.div_lt; lia|]. cbn [lit]. constructor; [|done]. unfold pretty_N_char.
  by repeat (case_match; try by vm_compute).
Qed.

Lemma request_id_ascii n : utf8 (lit ("req-" +:+ pretty (A := Z) n)) = true.
Proof.
  apply utf8_ascii. rewrite lit_app. apply Forall_app. split; [by repeat constructor|].
  assert (forall p, Forall (fun c => 0 <= c < 128) (lit (pretty (N.pos p)))) as Hp by
    (intros p; change (pretty (N.pos p)) with (pretty_N_go (N.pos p) ""); by apply pretty_N_go_ascii; constructor).
  destruct n as [|p|p]; [by repeat constructor|apply Hp|]. change (pretty (Z.neg p)) with ("-" +:+ pretty (N.pos p)).
  rewrite lit_app. apply Forall_app. by split; [repeat constructor|].
Qed.

(** ** Shutting the server down *)

Inductive http_reachable : HttpServer -> Prop :=
  | http_init : http_reachable new_http
  | http_next s ev s' : http_reachable s -> http_step ev s = Some s' -> http_reachable s'.

(** The invariant, but for the completion. *)
Record http_pre (s : HttpServer) : Prop := mk_http_pre {
  hp_set : future_set s = if shutdown_done_sent_ s then 1%nat else 0%nat;
  hp_done : shutdown_done_sent_ s = true ->
    shutdown_requested s = true /\ accept_loop_done_ s = true /\ active_conns_ s = ∅;
  hp_loop_done : accept_loop_done_ s = true ->
    shutdown_requested s = true /\ (accept_state s = NotAccepting \/ accept_state s = AcceptEnded);
  hp_ended : accept_state s = AcceptEnded -> accept_loop_done_ s = true;
  hp_conns : running_conns s ⊆ active_conns_ s;
  hp_running : http_running s = true -> shutdown_requested s = false /\
    (accept_state s = Accepting \/ accept_state s = Retrying);
  hp_accepting : accept_state s <> NotAccepting -> http_running s = true \/ shutdown_requested s = true;
  hp_active : accept_state s = NotAccepting -> active_conns_ s = ∅;
  hp_posted : forall was, shutdown_posted s = Some was ->
    shutdown_requested s = true /\ (was = true <-> accept_state s <> NotAccepting);
  hp_idle : shutdown_requested s = true -> shutdown_posted s = None -> accept_state s = NotAccepting ->
    accept_loop_done_ s = true;
}.

Record http_ok (s : HttpServer) : Prop := mk_http_ok {
  ho_pre : http_pre s;
  ho_finish : accept_loop_done_ s = true -> active_conns_ s = ∅ -> shutdown_done_sent_ s = true;
}.

Lemma try_finish_ok s : http_pre s -> http_ok (try_finish_shutdown s).
Proof.
  intros Hp. unfold try_finish_shutdown. destruct (shutdown_done_sent_ s) eqn:Ed; [by split|].
  destruct (_ && _) eqn:Ec.
  - bprop. destruct (hp_loop_done s Hp) as [Hr _]; [done|]. rewrite Hr. split; [|done].
    destruct Hp as [P1 P2 P3 P4 Pc P5 P6 P7 P8 P9]. rewrite Ed in P1. constructor; simpl; naive_solver congruence.
  - split; [done|]. intros Hl Ha. exfalso. rewrite Hl in Ec. rewrite (bool_decide_eq_true_2 _ Ha) in Ec.
    destruct (http_running s) eqn:Er; [|done]. destruct (hp_running s Hp Er), (hp_loop_done s Hp Hl). congruence.
Qed.

Lemma accept_again_ok s :
  http_pre s -> accept_state s <> NotAccepting -> shutdown_done_sent_ s = false -> accept_loop_done_ s = false ->
  http_ok (accept_again s).
Proof.
  intros Hp Ha Hd Hl. unfold accept_again. destruct (http_running s) eqn:Er.
  - destruct Hp as [P1 P2 P3 P4 Pc P5 P6 P7 P8 P9]. destruct (P5 Er) as [Hq _].
    split; [constructor; simpl|]; naive_solver congruence.
  - apply try_finish_ok. destruct Hp as [P1 P2 P3 P4 Pc P5 P6 P7 P8 P9]. destruct (P6 Ha) as [?|Hq]; [congruence|].
    constructor; simpl; naive_solver congruence.
Qed.

Lemma http_step_ok s ev s' : http_ok s -> http_step ev s = Some s' -> http_ok s'.
Proof.
  intros [Hp Hf] Hs. pose proof Hp as [P1 P2 P3 P4 Pc P5 P6 P7 P8 P9].
  assert (forall st, accept_state s = st -> st = Accepting \/ st = Retrying ->
    accept_loop_done_ s = false /\ shutdown_done_sent_ s = false) as Hopen.
  { intros st E Hst. assert (accept_loop_done_ s = false) as Hl.
    { destruct (accept_loop_done_ s); [|done]. destruct (P3 eq_refl) as [_ [?|?]], Hst; congruence. }
    split; [done|]. destruct (shutdown_done_sent_ s); [|done]. destruct (P2 eq_refl) as (_ & ? & _). congruence. }
  destruct ev; cbn [http_step] in Hs.
  - destruct (accept_state s) eqn:Ea; try done. destruct (http_running s || shutdown_requested s) eqn:E; [done|]. bprop.
    destruct bound; injection Hs as <-; [|done].
    split; [constructor; simpl|]; naive_solver congruence.
  - destruct (accept_state s) eqn:Ea; try done. case_bool_decide; [done|]. injection Hs as <-.
    destruct (Hopen _ eq_refl ltac:(by left)) as [Hl Hd].
    apply accept_again_ok; [|simpl; congruence..]. constructor; simpl; first [by apply union_mono_l|naive_solver congruence].
  - destruct (accept_state s) eqn:Ea; try done. injection Hs as <-. destruct (Hopen _ eq_refl ltac:(by left)) as [Hl Hd].
    destruct (http_running s) eqn:Er; [|apply accept_again_ok; congruence].
    split; [constructor; simpl|]; naive_solver congruence.
  - destruct (accept_state s) eqn:Ea; try done. injection Hs as <-. destruct (Hopen _ eq_refl ltac:(by right)) as [Hl Hd].
    apply accept_again_ok; congruence.
  - case_bool_decide as Hc; [|done]. injection Hs as <-. apply try_finish_ok. apply Pc in Hc.
    assert (shutdown_done_sent_ s = false) as Hd.
    { destruct (shutdown_done_sent_ s); [|done]. destruct (P2 eq_refl) as (_ & _ & He). rewrite He in Hc. set_solver. }
    constructor; simpl; try done; [congruence|set_solver|]. intros Hna. rewrite (P7 Hna). set_solver.
  - case_bool_decide as Hc; [|done]. injection Hs as <-. split; [constructor; simpl; try done|done]. set_solver.
  - injection Hs as <-. unfold shutdown_async. destruct (shutdown_requested s) eqn:Er; [done|]. split; [constructor; simpl|]; naive_solver congruence.
  - destruct (shutdown_posted s) as [was|] eqn:Ep; [|done]. injection Hs as <-. apply try_finish_ok.
    destruct (P8 was eq_refl) as [Hr Hw]. destruct was.
    + assert (accept_state s <> NotAccepting) as Hn by by apply Hw. by constructor.
    + assert (accept_state s = NotAccepting) as Hn.
      { destruct (accept_state s); [done|..]; exfalso; enough (false = true) by done; by apply Hw. }
      constructor; simpl; try done; [|by split; [|left]]. intros Hd. by destruct (P2 Hd) as (? & ? & ?).
Qed.

Lemma http_reachable_ok s : http_reachable s -> http_ok s.
Proof.
  induction 1 as [|s ev s' _ IH Hs]; [|by eapply http_step_ok].
  split; [constructor; simpl; naive_solver|done].
Qed.

(** The events of a list, one after the other. *)
Definition http_run (s : HttpServer) (evs : list HttpEvent) : option HttpServer :=
  foldl (fun s ev => s ← s; http_step ev s) (Some s) evs.

Lemma http_run_cons s ev evs : http_run s (ev :: evs) = s' ← http_step ev s; http_run s' evs.
Proof.
  unfold http_run. simpl. destruct (http_step ev s) as [s1|]; simpl; [done|]. induction evs; simpl; [done|by apply IHevs].
Qed.

Lemma http_run_reachable s evs s' : http_reachable s -> http_run s evs = Some s' -> http_reachable s'.
Proof.
  revert s. induction evs as [|ev evs IH]; intros s H0; [by intros [= <-]|]. rewrite http_run_cons.
  destruct (http_step ev s) as [s1|] eqn:E; [|done]. apply IH. by eapply http_next.
Qed.

(** The coroutine of [conn] has ended and the connection is still there. *)
Definition abandoned (conn : Z) (s : HttpServer) : Prop := conn ∈ active_conns_ s /\ conn ∉ running_conns s.

Lemma try_finish_conns s :
  active_conns_ (try_finish_shutdown s) = active_conns_ s /\ running_conns (try_finish_shutdown s) = running_conns s.
Proof. unfold try_finish_shutdown. by repeat case_match. Qed.

Lemma accept_again_conns s :
  active_conns_ (accept_again s) = active_conns_ s /\ running_conns (accept_again s) = running_conns s.
Proof. unfold accept_again. destruct (http_running s); [done|]. exact (try_finish_conns (set_accept false AcceptEnded true s)). Qed.

Lemma http_step_abandoned conn s ev s' : abandoned conn s -> http_step ev s = Some s' -> abandoned conn s'.
Proof.
  unfold abandoned. intros [Ha Hr] Hs. destruct ev; cbn [http_step] in Hs.
  - repeat case_match; by simplify_eq.
  - destruct (accept_state s); try done. case_bool_decide as Hc; [done|]. injection Hs as <-.
    destruct (accept_again_conns (set_conns ({[conn0]} ∪ active_conns_ s) ({[conn0]} ∪ running_conns s) s)) as [-> ->].
    simpl. set_solver.
  - destruct (accept_state s); try done. injection Hs as <-. destruct (http_running s); [done|].
    by destruct (accept_again_conns s) as [-> ->].
  - destruct (accept_state s); try done. injection Hs as <-. by destruct (accept_again_conns s) as [-> ->].
  - case_bool_decide; [|done]. injection Hs as <-. unfold connection_done.
    destruct (try_finish_conns (set_conns (active_conns_ s ∖ {[conn0]}) (running_conns s ∖ {[conn0]}) s)) as [-> ->].
    simpl. set_solver.
  - case_bool_decide; [|done]. injection Hs as <-. simpl. set_solver.
  - injection Hs as <-. unfold shutdown_async. by destruct (shutdown_requested s).
  - destruct (shutdown_posted s) as [was|]; [|done]. injection Hs as <-. unfold shutdown_handler. cbv zeta.
    match goal with |- context [try_finish_shutdown ?x] => destruct (try_finish_conns x) as [-> ->] end. by destruct was.
Qed.

Lemma http_run_abandoned conn s evs s' : abandoned conn s -> http_run s evs = Some s' -> abandoned conn s'.
Proof.
  revert s. induction evs as [|ev evs IH]; intros s H0; [by intros [= <-]|]. rewrite http_run_cons.
  destruct (http_step ev s) as [s1|] eqn:E; [|done]. apply IH. by eapply http_step_abandoned.
Qed.

Lemma abandoned_unfulfilled conn s : http_reachable s -> abandoned conn s -> future_set s = 0%nat.
Proof.
  intros [Hp _]%http_reachable_ok [Ha _]. rewrite (hp_set s Hp). destruct (shutdown_done_sent_ s) eqn:Ed; [|done].
  destruct (hp_done s Hp Ed) as (_ & _ & He). rewrite He in Ha. set_solver.
Qed.

(** ** The claims *)

(** C34: A shutdown fulfils its future at most once; when it is fulfilled the accept loop
    has ended and no connection is open or can be accepted; every completion of the
    accept loop after the request ends the loop, and once it has ended the future is
    fulfilled exactly when no connection is left, in whatever order they end.  A
    connection is taken away when its handler returns: one whose coroutine was ended by
    an exception is never taken away, and the shutdown then never completes. *)
Theorem http_shutdown_completes_once s :
  http_reachable s ->
  (future_set s <= 1)%nat /\
  (future_set s = 1%nat -> shutdown_requested s = true /\ http_running s = false /\ active_conns_ s = ∅ /\
    forall conn, http_step (HttpAccepted conn) s = None) /\
  (forall ev s', shutdown_requested s = true -> http_step ev s = Some s' ->
    match ev with HttpAccepted _ | HttpAcceptFailed | HttpRetry => accept_state s' = AcceptEnded | _ => True end) /\
  (accept_loop_done_ s = true -> future_set s = 1%nat <-> active_conns_ s = ∅) /\
  (forall conn, conn ∈ active_conns_ s -> conn ∉ running_conns s ->
    forall evs s', http_run s evs = Some s' -> conn ∈ active_conns_ s' /\ future_set s' = 0%nat).
Proof.
  intros Hreach. destruct (http_reachable_ok s Hreach) as [[P1 P2 P3 P4 Pc P5 P6 P7 P8 P9] Hf]. split_and!.
  - rewrite P1. destruct (shutdown_done_sent_ s); lia.
  - intros E. rewrite P1 in E. destruct (shutdown_done_sent_ s); [|done]. destruct (P2 eq_refl) as (Hr & Hl & Ha).
    split_and!; [done| |done|].
    + destruct (http_running s); [|done]. destruct (P5 eq_refl). congruence.
    + intros conn. cbn [http_step]. by destruct (P3 Hl) as [_ [-> | ->]].
  - intros ev s' Hr Hs.
    assert (http_running s = false) as Hrun by (destruct (http_running s); [destruct (P5 eq_refl); congruence|done]).
    destruct ev; try done; cbn [http_step] in Hs; destruct (accept_state s); try done.
    + case_bool_decide; [done|]. injection Hs as <-. unfold accept_again. simpl. rewrite Hrun.
      unfold try_finish_shutdown. simpl. repeat case_match; done.
    + rewrite Hrun in Hs. injection Hs as <-. unfold accept_again. rewrite Hrun.
      unfold try_finish_shutdown. simpl. repeat case_match; done.
    + injection Hs as <-. unfold accept_again. rewrite Hrun.
      unfold try_finish_shutdown. simpl. repeat case_match; done.
  - intros Hl. split; [|intros Ha; by rewrite P1, (Hf Hl Ha)]. rewrite P1.
    destruct (shutdown_done_sent_ s) eqn:Ed; [|done]. intros _. by destruct (P2 eq_refl) as (_ & _ & ?).
  - intros conn Ha Hr evs s' Hs. assert (abandoned conn s') as Hab by by eapply http_run_abandoned.
    split; [apply Hab|]. apply (abandoned_unfulfilled conn); [by eapply http_run_reachable|done].
Qed.

(** C33: A chat answers with an error response and submits nothing, or submits exactly
    one request, with tokens, limits in range and the greedy sampling that the model
    runner supports.  Its frames are then those of the results in order, up to the first
    turn that ends the coroutine, and it ends in one of four ways: it cancels the request
    because the channel failed, because the header could not be written or because a
    frame could not be; its last frame was written; or an exception leaves it, without a
    cancellation and without a last frame, which happens only at a token whose text by
    itself is not valid UTF-8. *)
Theorem http_chats_supported `{JsonDumpLaws} tokenizer body number channel headers_written turns actions ended :
  handle_chat tokenizer body number channel headers_written turns = Some (actions, ended) ->
  (exists response, actions = [Write response] /\ ended = Returned /\ (response = kBadRequest \/ response = kInternalError)) \/
  exists r rest,
    let request_id := ("req-" +:+ pretty.pretty number)%string in
    parse_chat_request tokenizer body = Some (Value r) /\ chat_supported tokenizer r /\
    actions = Submit (mkSchedulerRequest request_id (pr_prompt_tokens r) (pr_sampling r) (pr_max_context_len r) channel)
                :: Write chat_headers :: rest /\
    if headers_written then chat_ends tokenizer request_id turns rest ended
    else rest = [CancelRequest request_id] /\ ended = Returned.
Proof.
  unfold handle_chat. destruct (parse_chat_request tokenizer body) as [[r|e]|] eqn:Ep; [| |done]; cbn [mbind option_bind].
  - intros Hh. right. pose proof (parse_chat_spec tokenizer body r Ep) as Hr. destruct headers_written; cbn [negb] in Hh.
    + destruct (chat_loop _ _ _) as [[acts e]|] eqn:El; [|done]. cbn [mbind option_bind] in Hh. injection Hh as <- <-.
      apply (chat_loop_ends tokenizer _ _ _ _ (request_id_ascii number)) in El. eexists r, _. by split_and!.
    + injection Hh as <- <-. eexists r, _. by split_and!.
  - intros [= <- <-]. left. eexists. split_and!; [done|done|]. case_bool_decide; auto.
Qed.

(** ** A small server *)

Definition http_events : list HttpEvent :=
  [HttpStart true; HttpAccepted 1; HttpShutdown; HttpAccepted 2; HttpConnectionDone 1; HttpShutdownHandler;
   HttpConnectionDone 2].

Lemma http_shutdown_completes_once_witness :
  exists s, http_run new_http http_events = Some s /\ future_set s = 1%nat.
Proof.
  assert (exists s, http_run new_http http_events = Some s /\ accept_loop_done_ s = true /\ active_conns_ s = ∅) as (s & E & Hl & Ha).
  { eexists. split; [vm_compute; reflexivity|]. split; reflexivity. }
  exists s. split; [exact E|].
  exact (proj2 (proj1 (proj2 (proj2 (proj2 (http_shutdown_completes_once s
    (http_run_reachable new_http http_events s http_init E))))) Hl) Ha).
Defined.

(** A JSON library that parses every text to one value, for the witness. *)
#[local] Instance http_json : Json := small_json (fun _ =>
  Some (SObj [(lit "messages", SArr [SObj [(lit "content", SStr (lit "ab"))]]);
              (lit "temperature", SNum f32_zero); (lit "max_tokens", SInt 5)])).
#[local] Instance http_json_dumps : JsonDumpLaws := small_json_dump_laws _.

(** The last token is the first byte of a letter with an accent. *)
Definition http_tokenizer : ByteLevelBpeTokenizer :=
  match load_from_vocab_and_merges [lit "a"; lit "b"; lit "ab"; [195; 131]] [lit "a b"] [] 7 (-1) new_tokenizer with
  | Value t => t
  | _ => new_tokenizer
  end.

Definition chat_turns : list ChatTurn :=
  [(Some (Value (mkGeneratedToken 0 true false)), true); (Some (Value (mkGeneratedToken 7 false true)), true)].

Definition chat_parsed : ParsedChatRequest := mkParsedChat [2]
  {| max_tokens := 5; top_k := 0; top_p := f32_one; temperature := f32_zero; seed := 42; eos_token_id := 7 |} 0.

Lemma http_chats_supported_witness :
  (exists actions, handle_chat http_tokenizer (lit "{}") 1 9 true chat_turns = Some (actions, Returned)) /\
  chat_supported http_tokenizer chat_parsed.
Proof.
  assert (exists actions, handle_chat http_tokenizer (lit "{}") 1 9 true chat_turns = Some (actions, Returned) /\
    length actions = 4%nat) as (actions & E & Hlen).
  { eexists. split; [vm_compute; reflexivity|reflexivity]. }
  split; [exists actions; exact E|].
  destruct (http_chats_supported http_tokenizer (lit "{}") 1 9 true chat_turns actions Returned E)
    as [(resp & Ha & _)|(r & rest & Hp & Hr & _)].
  - rewrite Ha in Hlen. discriminate.
  - assert (parse_chat_request http_tokenizer (lit "{}") = Some (Value chat_parsed)) as Ep by (vm_compute; reflexivity).
    rewrite Ep in Hp. injection Hp as <-. exact Hr.
Defined.

(** A chat on the second connection, whose first token is half of a letter. *)
Definition broken_turns : list ChatTurn := [(Some (Value (mkGeneratedToken 3 true false)), true)].

Definition broken_events : list HttpEvent :=
  [HttpStart true; HttpAccepted 1; HttpAccepted 2; HttpConnectionThrew 2; HttpConnectionDone 1; HttpShutdown;
   HttpAcceptFailed; HttpShutdownHandler].

(** C35: A token that is half of a UTF-8 letter ends its chat by an exception: the request
    is submitted and the header written, and neither a frame nor an end of the stream nor
    a cancellation follows.  The connection stays registered, and a shutdown that is
    requested later, with the accept loop ended and every handler gone, is never
    completed by any sequence of events. *)
Theorem broken_text_blocks_shutdown :
  (exists submitted, handle_chat http_tokenizer (lit "{}") 1 9 true broken_turns =
     Some ([Submit submitted; Write chat_headers], Threw)) /\
  exists s, http_run new_http broken_events = Some s /\ accept_state s = AcceptEnded /\ running_conns s = ∅ /\
    forall evs s', http_run s evs = Some s' -> future_set s' = 0%nat.
Proof.
  split; [eexists; vm_compute; reflexivity|].
  assert (exists s, http_run new_http broken_events = Some s /\ accept_state s = AcceptEnded /\ running_conns s = ∅ /\
    active_conns_ s = {[2]}) as (s & E & Ha & Hr & Hc).
  { eexists. split; [vm_compute; reflexivity|]. by repeat split. }
  exists s. split_and!; [done|done|done|]. intros evs s' Hs.
  assert (http_reachable s) as H0 by exact (http_run_reachable _ _ _ http_init E).
  apply (abandoned_unfulfilled 2); [by eapply http_run_reachable|].
  eapply http_run_abandoned; [|exact Hs]. unfold abandoned. rewrite Hc, Hr. set_solver.
Qed.
