(* ===== verification/TokenizerLoad.v ===== *)
(** * Tokenizers of a model path: [tokenizer/byte_level_bpe_tokenizer.cpp]

    What a [tokenizer.json] must say for the loaded tokenizer to be consistent, and
    [create_tokenizer], which finds the tokenizer of a model path. *)

From Stdlib Require Import ZArith Lia SpecFloat.
From stdpp Require Import prelude strings gmap fin_maps.
From S2P Require Import Prelude Base Bytes Config Q8 Device Json SimJson WeightSource Gguf GgufProps Tokenizer GgufLoad.
From S2P Require Import TokenizerProps GgufLoadProps HfReader HfProps HfConfig Checkpoint.

(** ** The entries of a [tokenizer.json] *)

Section entries.
Context `{Json}.

Definition vocab_entry (item : bytes * json) : option (bytes * Z) :=
  id ← as_integer item.2 ≫= int32_id; Some (item.1, id).
Definition vocab_entries (model : json) : list (bytes * Z) :=
  omap vocab_entry (default [] (get_member model "vocab" ≫= as_object)).

Definition added_entry (tok : json) : option (bytes * Z) :=
  content ← get_member tok "content" ≫= as_string;
  id ← (get_member tok "id" ≫= as_integer) ≫= int32_id;
  Some (content, id).
Definition added_entries (j : json) : list (bytes * Z) :=
  omap added_entry (default [] (get_member j "added_tokens" ≫= as_array)).

Definition merge_count (model : json) : Z := size_Z (default [] (get_member model "merges" ≫= as_array)).
End entries.

(** No token has two ids and no id two tokens. *)
Definition one_to_one (l : list (bytes * Z)) : Prop :=
  forall s i s' i', (s, i) ∈ l -> (s', i') ∈ l -> s = s' <-> i = i'.

(** ** The maps while loading *)

(** The maps hold the entries [l]. *)
Record tables (l : list (bytes * Z)) (t : ByteLevelBpeTokenizer) : Prop := mk_tables {
  tb_vocab : forall s i, vocab_ t !! s = Some i <-> (s, i) ∈ l;
  tb_tokens : forall s i, id_to_token_ t !! i = Some s <-> (s, i) ∈ l;
  tb_special : forall s i, special_token_to_id_ t !! s = Some i <-> id_to_special_token_ t !! i = Some s;
  tb_special_entry : forall s i, id_to_special_token_ t !! i = Some s -> (s, i) ∈ l;
  tb_max : forall s i, (s, i) ∈ l -> 0 <= i <= max_token_id_ t;
}.

Lemma tables_same l t t' : tables l t -> vocab_ t' = vocab_ t -> id_to_token_ t' = id_to_token_ t ->
  special_token_to_id_ t' = special_token_to_id_ t -> id_to_special_token_ t' = id_to_special_token_ t ->
  max_token_id_ t' = max_token_id_ t -> tables l t'.
Proof. intros [] E1 E2 E3 E4 E5. by split; rewrite ?E1, ?E2, ?E3, ?E4, ?E5. Qed.

Lemma omap_head {A B} (f : A -> option B) x l : omap f (x :: l) = option_list (f x) ++ omap f l.
Proof. simpl. by destruct (f x). Qed.

Section loading.
Context (all : list (bytes * Z)) (Hall : one_to_one all).

Lemma tables_add_token l t s i : tables l t -> (s, i) :: l ⊆ all -> 0 <= i -> tables (l ++ [(s, i)]) (add_token s i t).
Proof.
  intros [T1 T2 T3 T4 T5] Hsub Hi. assert ((s, i) ∈ all) as Hin by (apply Hsub; by left).
  assert (forall s' i', (s', i') ∈ l -> s = s' <-> i = i') as Hl by (intros s' i' H'; apply Hall; [done|apply Hsub; by right]).
  split; simpl.
  - intros s' i'. rewrite lookup_insert_Some, elem_of_app, list_elem_of_singleton, T1. split.
    + intros [[-> ->]|[_ Hs]]; [by right|by left].
    + intros [Hs|[= -> ->]]; [|by left]. destruct (decide (s = s')) as [->|]; [|by right]. left. split; [done|by apply (Hl s')].
  - intros s' i'. rewrite lookup_insert_Some, elem_of_app, list_elem_of_singleton, T2. split.
    + intros [[-> ->]|[_ Hs]]; [by right|by left].
    + intros [Hs|[= -> ->]]; [|by left]. destruct (decide (i = i')) as [->|]; [|by right]. left. split; [done|]. by apply (Hl s' i').
  - exact T3.
  - intros s' i' Hs. apply elem_of_app. left. by apply T4.
  - intros s' i'. rewrite elem_of_app, list_elem_of_singleton. destruct (Z.ltb_spec (max_token_id_ t) i).
    + intros [Hs|[= -> ->]]; [|lia]. apply T5 in Hs. lia.
    + intros [Hs|[= -> ->]]; [by apply (T5 s')|lia].
Qed.

Lemma tables_add_special l t s i : tables l t -> l ⊆ all -> (s, i) ∈ l -> tables l (add_special s i t).
Proof.
  intros [T1 T2 T3 T4 T5] Hsub Hin. split; simpl; [done|done| | |done].
  - intros s' i'. rewrite !lookup_insert_Some, T3. split; (intros [[-> ->]|[Hne Hs]]; [by left|right; split; [|done]]).
    + intros ->. apply Hne. pose proof (T4 _ _ Hs) as H'. by apply (Hall s i' s' i'); auto.
    + intros ->. apply Hne. pose proof (T4 _ _ Hs) as H'. by apply (Hall s' i s' i'); auto.
  - intros s' i' [[<- <-]|[_ Hs]]%lookup_insert_Some; [done|by apply T4].
Qed.

Section json.
Context `{Json}.

Lemma int32_id_range raw i : int32_id raw = Some i -> 0 <= i < INT_MAX.
Proof.
  unfold int32_id. destruct (Z.ltb_spec raw 0); [done|]. destruct (Z.leb_spec INT_MAX raw); [done|]. simpl. intros [= <-].
  unfold i32, INT_MAX in *. rewrite sint_small by lia. lia.
Qed.

Lemma load_vocab_items items l t t' : parse_vocab_items items t = Value t' -> tables l t ->
  l ++ omap vocab_entry items ⊆ all ->
  tables (l ++ omap vocab_entry items) t' /\ merge_rank_ t' = merge_rank_ t.
Proof.
  revert l t. induction items as [|[s v] items IH]; intros l t; [intros [= <-] ? _; split; [by rewrite app_nil_r|done]|].
  rewrite omap_head. unfold vocab_entry at 1 3. cbn [parse_vocab_items snd fst].
  destruct (as_integer v ≫= int32_id) as [i|] eqn:Ei; [|done]. cbn [mbind option_bind option_list].
  intros E Ht Hsub. apply bind_Some in Ei as (raw & _ & Hr). apply int32_id_range in Hr. rewrite app_assoc in Hsub |- *.
  assert (tables (l ++ [(s, i)]) (add_token s i t)) as Ht1.
  { apply tables_add_token; [done| |lia]. intros x [->|Hx]%elem_of_cons; apply Hsub; set_solver. }
  by apply (IH _ _ E Ht1).
Qed.

Lemma load_merge_items items rank t t' : parse_merge_items items rank t = Value t' ->
  (forall p r, merge_rank_ t !! p = Some r -> r < rank) ->
  vocab_ t' = vocab_ t /\ id_to_token_ t' = id_to_token_ t /\ special_token_to_id_ t' = special_token_to_id_ t /\
  id_to_special_token_ t' = id_to_special_token_ t /\ max_token_id_ t' = max_token_id_ t /\
  forall p r, merge_rank_ t' !! p = Some r -> r < rank + size_Z items.
Proof.
  unfold size_Z. revert rank t. induction items as [|item items IH]; intros rank t; simpl.
  { intros [= <-] Hr. split_and!; try done. intros p r Hp. apply Hr in Hp. lia. }
  destruct (parse_merge item) as [[p|]|e]; [| |done]; intros E Hr.
  - destruct (IH (rank + 1) _ E) as (-> & -> & -> & -> & -> & Hm).
    { simpl. intros q r [[<- <-]|[_ Hq]]%lookup_insert_Some; [lia|]. apply Hr in Hq. lia. }
    split_and!; try done. intros q r Hq. apply Hm in Hq. lia.
  - destruct (IH rank _ E Hr) as (-> & -> & -> & -> & -> & Hm). split_and!; try done. intros q r Hq. apply Hm in Hq. lia.
Qed.

Lemma load_added_token tok l t : tables l t -> l ++ option_list (added_entry tok) ⊆ all ->
  tables (l ++ option_list (added_entry tok)) (parse_added_token tok t) /\ merge_rank_ (parse_added_token tok t) = merge_rank_ t.
Proof.
  unfold added_entry, parse_added_token. destruct (_ ≫= as_string) as [s|]; simpl; [|by rewrite app_nil_r].
  destruct (get_member tok "id" ≫= as_integer) as [raw|]; simpl; [|by rewrite app_nil_r].
  destruct (int32_id raw) as [i|] eqn:Ei; simpl; [|by rewrite app_nil_r]. intros Ht Hsub. apply int32_id_range in Ei.
  assert (tables (l ++ [(s, i)]) (add_token s i t)) as H1.
  { apply tables_add_token; [done| |lia]. intros x [->|Hx]%elem_of_cons; apply Hsub; set_solver. }
  assert (forall b, tables (l ++ [(s, i)]) (if b : bool then add_special s i (add_token s i t) else add_token s i t)) as H2.
  { intros []; [|done]. apply tables_add_special; [done|done|set_solver]. }
  case_bool_decide; [|case_bool_decide]; (split; [eapply tables_same; [apply H2|try done..]|by destruct (default _ _)]).
Qed.

Lemma load_added_tokens toks l t : tables l t -> l ++ omap added_entry toks ⊆ all ->
  tables (l ++ omap added_entry toks) (foldl (fun t tok => parse_added_token tok t) t toks) /\
  merge_rank_ (foldl (fun t tok => parse_added_token tok t) t toks) = merge_rank_ t.
Proof.
  revert l t. induction toks as [|tok toks IH]; intros l t Ht Hsub; [split; [by rewrite app_nil_r|done]|].
  rewrite omap_head, app_assoc in *. destruct (load_added_token tok l t Ht) as [H1 H2]; [set_solver|].
  destruct (IH _ _ H1 Hsub) as [H3 H4]. cbn [foldl]. split; [done|congruence].
Qed.

(** Only the unknown and the end-of-text id change. *)
Lemma resolve_same t : let t' := resolve_special_tokens t in
  vocab_ t' = vocab_ t /\ id_to_token_ t' = id_to_token_ t /\ special_token_to_id_ t' = special_token_to_id_ t /\
  id_to_special_token_ t' = id_to_special_token_ t /\ max_token_id_ t' = max_token_id_ t /\ merge_rank_ t' = merge_rank_ t.
Proof.
  assert (forall f, (forall t s, vocab_ (f t s) = vocab_ t /\ id_to_token_ (f t s) = id_to_token_ t /\
    special_token_to_id_ (f t s) = special_token_to_id_ t /\ id_to_special_token_ (f t s) = id_to_special_token_ t /\
    max_token_id_ (f t s) = max_token_id_ t /\ merge_rank_ (f t s) = merge_rank_ t) -> forall (names : list bytes) t,
    let t' := foldl f t names in
    vocab_ t' = vocab_ t /\ id_to_token_ t' = id_to_token_ t /\ special_token_to_id_ t' = special_token_to_id_ t /\
    id_to_special_token_ t' = id_to_special_token_ t /\ max_token_id_ t' = max_token_id_ t /\ merge_rank_ t' = merge_rank_ t) as Hf.
  { intros f Hf names. induction names as [|s names IH]; intros u; simpl; [done|].
    destruct (IH (f u s)) as (-> & -> & -> & -> & -> & ->). apply Hf. }
  unfold resolve_special_tokens. cbv zeta.
  match goal with |- context [foldl ?g (foldl ?f t _) _] =>
    destruct (Hf g) with (names := unk_names) (t := foldl f t eos_names) as (-> & -> & -> & -> & -> & ->);
      [|apply (Hf f)] end; intros u s; destruct (vocab_ u !! s); try done; by destruct (_ <? 0).
Qed.
End json.
End loading.

(** ** Loading *)

Section load_json.
Context `{Json}.

Lemma load_json_run data t0 t j model :
  json_parse data = Some j -> get_member j "model" = Some model ->
  one_to_one (vocab_entries model ++ added_entries j) -> merge_count model <= INT_MAX ->
  load data t0 = Value t ->
  tokenizer_ok t /\ (forall s i, vocab_ t !! s = Some i <-> (s, i) ∈ vocab_entries model ++ added_entries j) /\
  (forall s i, vocab_ t !! s = Some i -> 0 <= i < vocab_size t) /\ vocab_ t <> ∅.
Proof.
  intros Hj Hm Hone Hcount. unfold load. case_bool_decide; [done|]. rewrite Hj, Hm.
  destruct (negb _); [done|]. destruct (match _ with Some _ => _ | None => _ end); [done|].
  set (t1 := mkTokenizer _ _ _ _ _ _ _ _ _ _ _). assert (tables [] t1) as T1.
  { split; simpl; [..|by intros s i ?%elem_of_nil]; intros s i; rewrite ?lookup_empty; try done; split; try done; by intros ?%elem_of_nil. }
  unfold parse_vocab. destruct (get_member model "vocab" ≫= as_object) as [items|] eqn:Ev; [|done].
  destruct (parse_vocab_items items t1) as [t2|e] eqn:E2; [|done].
  assert (vocab_entries model = omap vocab_entry items) as Eve by (unfold vocab_entries; by rewrite Ev).
  destruct (load_vocab_items _ Hone items [] t1 t2 E2 T1) as [T2 R2]; [rewrite Eve; set_solver|]. cbn [app] in T2.
  destruct (parse_merges model t2) as [t3|e] eqn:E3; [|done].
  assert (tables (omap vocab_entry items) t3 /\ forall p r, merge_rank_ t3 !! p = Some r -> r < INT_MAX) as [T3 R3].
  { assert (forall p r, merge_rank_ t2 !! p = Some r -> r < 0) as Hr by (rewrite R2; by intros p r).
    unfold parse_merges in E3. unfold merge_count in Hcount. destruct (_ ≫= as_array) as [ms|].
    - destruct (load_merge_items ms 0 t2 t3 E3 Hr) as (A1 & A2 & A3 & A4 & A5 & A6). split; [by eapply tables_same|].
      intros p r Hp. apply A6 in Hp. simpl in *. lia.
    - injection E3 as <-. split; [done|]. intros p r Hp. apply Hr in Hp. unfold INT_MAX. lia. }
  set (t4 := parse_added_tokens j t3).
  assert (tables (vocab_entries model ++ added_entries j) t4 /\ merge_rank_ t4 = merge_rank_ t3) as [T4 R4].
  { unfold t4, parse_added_tokens, added_entries in *. rewrite Eve in *. destruct (_ ≫= as_array) as [toks|]; simpl in *.
    - by apply (load_added_tokens _ Hone).
    - by rewrite app_nil_r. }
  destruct (resolve_same t4) as (A1 & A2 & A3 & A4 & A5 & A6). set (t5 := resolve_special_tokens t4) in *.
  assert (tables (vocab_entries model ++ added_entries j) (build_byte_maps t5)) as T5 by (by eapply tables_same).
  case_bool_decide as Hv; [done|]. intros [= <-]. destruct T5 as [V1 V2 V3 V4 V5]. split; [|split; [exact V1|split]].
  - apply (mk_tokenizer_ok (build_byte_maps t5) eq_refl eq_refl).
    + intros s i Hs. apply V2, V1, Hs.
    + intros s i Hs. apply V3, Hs.
    + intros i s Hs. apply V2, V4, Hs.
    + intros p r Hp. apply (R3 p). rewrite <-R4, <-A6. exact Hp.
  - intros s i Hs%V1%V5. unfold vocab_size. lia.
  - exact Hv.
Qed.

(** C19: Loading a [tokenizer.json] whose entries, the vocabulary and the added tokens
    together, give no token two ids and no id two tokens, gives a consistent tokenizer:
    its vocabulary is exactly the entries, its maps are inverse to each other, all ids
    are below its size, and so decoding inverts encoding for every text. *)
Theorem tokenizer_json_consistent data t0 t j model :
  json_parse data = Some j -> get_member j "model" = Some model ->
  one_to_one (vocab_entries model ++ added_entries j) -> merge_count model <= INT_MAX ->
  load data t0 = Value t ->
  tokenizer_ok t /\ (forall s i, vocab_ t !! s = Some i <-> (s, i) ∈ vocab_entries model ++ added_entries j) /\
  (forall s i, vocab_ t !! s = Some i -> 0 <= i < vocab_size t) /\
  forall text, is_bytes text -> exists r, encode t text = Some r /\
    match r with Value ids => lossless t -> decode t ids false = Some (Value text) | Unexpected _ => ~ covers t end.
Proof.
  intros Hj Hm Hone Hc Hl. destruct (load_json_run data t0 t j model Hj Hm Hone Hc Hl) as (Ht & Hv & Hs & _).
  split; [done|]. split; [done|]. split; [done|]. intros text Hb. by apply decode_encode_run.
Qed.
End load_json.

(** ** The tokenizer of a model path *)

Section factory.
Context `{Json} `{Memory} `{Q8Storage} (fs : FileSystem).

(** [read_file]: empty when the file cannot be read. *)
Definition read_file (path : bytes) : bytes := default [] (file_content fs path).

(** [create_tokenizer]. *)
Definition create_tokenizer (model_path : bytes) : option (Result ByteLevelBpeTokenizer) :=
  if bool_decide (extension model_path = lit ".gguf") then
    match create (file_content fs model_path) with
    | Parsed reader _ => create_tokenizer_from_gguf reader
    | Rejected e => Some (Unexpected e)
    | Thrown | OutOfRange | NoFuel => None
    end
  else
    let tokenizer_json := path_append model_path (lit "tokenizer.json") in
    found ← exists_file fs tokenizer_json;
    if found : bool then Some (load (read_file tokenizer_json) new_tokenizer) else Some (Unexpected ModelLoadFailed).
End factory.

Section agree.
Context `{Json} `{Memory} `{Q8Storage}.

(** C20: The tokenizer belongs to the checkpoint.  For a path that opens as a GGUF file, the
    tokenizer comes from the same parsed file as configuration and weights, and when both
    load, its maps are consistent and its size is the model's vocabulary size.  For a path
    that opens as a directory, it is the directory's [tokenizer.json], if there is one,
    unless the directory's name ends in [.gguf]: then there is no tokenizer.  Asking for
    the file throws when its status cannot be read. *)
Theorem tokenizer_of_checkpoint fs path c :
  checkpoint_open fs path = Some (Value c) ->
  match c with
  | GGUFCheckpoint r =>
      create_tokenizer fs path = create_tokenizer_from_gguf r /\
      forall cfg t, checkpoint_config fs c = Some (Value cfg) -> create_tokenizer fs path = Some (Value t) ->
        size_Z (array_of "tokenizer.ggml.tokens" r) <= INT_MAX -> size_Z (array_of "tokenizer.ggml.merges" r) <= INT_MAX ->
        tokenizer_ok t /\ vocab_size t = vocab_size_ cfg
  | HuggingFaceCheckpoint _ _ =>
      let file := path_append path (lit "tokenizer.json") in
      if bool_decide (extension path = lit ".gguf")
      then file_content fs path = None -> create_tokenizer fs path = Some (Unexpected ModelLoadFailed)
      else create_tokenizer fs path =
        (found ← exists_file fs file;
         Some (if found : bool then load (default [] (file_content fs file)) new_tokenizer else Unexpected ModelLoadFailed))
  end.
Proof.
  destruct (is_directory fs path) eqn:Ed.
  - intros E%checkpoint_open_dir; [|done]. unfold open_hf in E.
    destruct (create_safetensors _) as [r|e]; [|done]. injection E as <-. cbv zeta. unfold create_tokenizer, read_file.
    case_bool_decide; [by intros ->|]. by destruct (exists_file fs _) as [[]|].
  - unfold checkpoint_open. rewrite Ed.
    destruct (is_regular_file fs path); [|done]. case_bool_decide as Hx; [|done]. cbn [andb]. unfold open_gguf.
    destruct (create (file_content fs path)) as [r o|e| | |] eqn:Ec; try done. intros [= <-].
    assert (create_tokenizer fs path = create_tokenizer_from_gguf r) as Et.
    { unfold create_tokenizer. by rewrite bool_decide_eq_true_2, Ec. }
    split; [exact Et|]. intros cfg t Hcfg Ht. rewrite Et in Ht. apply load_gguf_config_fields in Hcfg.
    by apply (gguf_tokenizer_size r).
Qed.
End agree.

(** ** Two directories with a tokenizer *)

Definition tok_model : SmallJson :=
  SObj [(lit "type", SStr (lit "BPE")); (lit "vocab", SObj [(lit "a", SInt 0); (lit "b", SInt 1); (lit "ab", SInt 2)]);
        (lit "merges", SArr [SStr (lit "a b")])].
Definition tok_doc : SmallJson :=
  SObj [(lit "model", tok_model);
        (lit "added_tokens", SArr [SObj [(lit "id", SInt 12); (lit "content", SStr (lit "</s>")); (lit "special", SBool true)]])].

#[local] Instance tok_json : Json := small_json (fun text =>
  if decide (text = lit "H") then Some hf_header else if decide (text = lit "C") then Some small_hf_config
  else if decide (text = lit "T") then Some tok_doc else None).
#[local] Instance tok_memory : Memory := fun _ _ => true.
#[local] Instance tok_storage : Q8Storage := fun _ => None.

Definition tok_tokenizer : ByteLevelBpeTokenizer := match load (lit "T") new_tokenizer with Value t => t | _ => new_tokenizer end.

Lemma tokenizer_json_consistent_witness :
  tokenizer_ok tok_tokenizer /\ vocab_ tok_tokenizer !! lit "ab" = Some 2 /\ vocab_ tok_tokenizer !! lit "</s>" = Some 12.
Proof.
  assert (one_to_one (vocab_entries (H := tok_json) tok_model ++ added_entries (H := tok_json) tok_doc)) as Hone.
  { replace (vocab_entries (H := tok_json) tok_model ++ added_entries (H := tok_json) tok_doc) with [(lit "a", 0); (lit "b", 1); (lit "ab", 2); (lit "</s>", 12)]
      by (vm_compute; reflexivity).
    intros s i s' i' H1 H2. rewrite !elem_of_cons, elem_of_nil in H1, H2.
    destruct H1 as [E1|[E1|[E1|[E1|[]]]]], H2 as [E2|[E2|[E2|[E2|[]]]]]; injection E1 as -> ->; injection E2 as -> ->;
      (split; [intros E; first [reflexivity|exfalso; revert E; vm_compute; discriminate]|intros E; first [reflexivity|discriminate E]]). }
  destruct (tokenizer_json_consistent (H := tok_json) (lit "T") new_tokenizer tok_tokenizer tok_doc tok_model) as (Hok & Hv & _);
    [vm_compute; reflexivity|vm_compute; reflexivity|exact Hone|vm_compute; discriminate|vm_compute; reflexivity|].
  split; [exact Hok|]. split; apply Hv.
  - replace (vocab_entries (H := tok_json) tok_model) with [(lit "a", 0); (lit "b", 1); (lit "ab", 2)] by (vm_compute; reflexivity).
    right; right; left.
  - apply elem_of_app. right. replace (added_entries (H := tok_json) tok_doc) with [(lit "</s>", 12)] by (vm_compute; reflexivity). left.
Defined.

(** A directory of the given name. *)
Definition tok_dir (name : bytes) : FileSystem :=
  mkFileSystem (fun path => if decide (path = name) then Directory
                            else if decide (path = name ++ lit "/config.json" \/ path = name ++ lit "/model.safetensors" \/
                                            path = name ++ lit "/tokenizer.json") then RegularFile
                            else NotFound)
    (fun path => if decide (path = name ++ lit "/config.json") then Some (lit "C")
                 else if decide (path = name ++ lit "/model.safetensors") then Some (write_safetensors (lit "H") hf_content)
                 else if decide (path = name ++ lit "/tokenizer.json") then Some (lit "T") else None).

Definition tok_reader : Reader := mkSafeReader (write_safetensors (lit "H") hf_content) 9 hf_tensors.*2 hf_tensors.

Lemma tokenizer_of_checkpoint_witness : create_tokenizer (tok_dir (lit "m")) (lit "m") = Some (Value tok_tokenizer).
Proof.
  assert (checkpoint_open (tok_dir (lit "m")) (lit "m") = Some (Value (HuggingFaceCheckpoint (lit "m") tok_reader))) as E
    by (vm_compute; reflexivity).
  pose proof (tokenizer_of_checkpoint (tok_dir (lit "m")) (lit "m") _ E) as H. cbv zeta iota beta in H.
  rewrite bool_decide_eq_false_2 in H by (vm_compute; discriminate). rewrite H. vm_compute. reflexivity.
Defined.

(** A directory whose name ends in [.gguf] opens as a checkpoint, but has no tokenizer. *)
Example gguf_named_directory :
  checkpoint_open (tok_dir (lit "m.gguf")) (lit "m.gguf") = Some (Value (HuggingFaceCheckpoint (lit "m.gguf") tok_reader)) /\
  create_tokenizer (tok_dir (lit "m.gguf")) (lit "m.gguf") = Some (Unexpected ModelLoadFailed).
Proof. split; vm_compute; reflexivity. Qed.

(** Nothing compares the ids of a [tokenizer.json] with the vocabulary of the model: here
    the model has ten tokens and the tokenizer has ids up to twelve. *)
Example tokenizer_size_unchecked : vocab_size tok_tokenizer = 13 /\
  vocab_size_ <$> (c ← checkpoint_open (tok_dir (lit "m")) (lit "m");
                   match c with Value c => r ← checkpoint_config (tok_dir (lit "m")) c;
                                           match r with Value cfg => Some cfg | _ => None end | _ => None end) = Some 10.
Proof. split; vm_compute; reflexivity. Qed.
