(* ===== verification/Qwen3Weights.v ===== *)
(** * Loading Qwen3 weights: [model/qwen3/qwen3_weights.cpp]

    Tensors of a checkpoint are uploaded as they are; the query, key and value
    projections of a layer are joined on the device. *)

From Stdlib Require Import ZArith Lia.
From stdpp Require Import prelude strings.
From S2P Require Import Prelude Base Config Bytes Q8 Device SimDevice Tensor Json WeightSource HfReader HfProps.

(** A tensor that is not loaded is the empty [Tensor]. *)
Record Qwen3LayerWeights `{Ccop} := mkQwen3Layer {
  lw_qkv : Tensor;
  lw_o : Tensor;
  lw_gate : Tensor;
  lw_up : Tensor;
  lw_down : Tensor;
  lw_rms_attn : Tensor;
  lw_rms_ffn : Tensor;
  lw_q_norm : option Tensor;
  lw_k_norm : option Tensor;
}.

Record Qwen3Weights `{Ccop} := mkQwen3Weights {
  w_embed : Tensor;
  w_lm_head : Tensor;
  w_rms_final : Tensor;
  w_layers : list Qwen3LayerWeights;
}.

(** [(nq + 2 * nkv) * hd] in [int]. *)
Definition qkv_dim_of (cfg : ModelConfig) : option Z :=
  kv ← int_of (2 * n_kv_heads_ cfg);
  heads ← int_of (n_q_heads_ cfg + kv);
  int_of (heads * head_dim_ cfg).

Section load.
Context {D : Type} `{Backend D} `{Ccop}.

(** [Tensor::from_host] on [raw->data()], which is not null. *)
Definition from_span (s : Span) (dtype : DType) (shape : list Z) : Dev D Tensor :=
  tensor ← empty_tensor dtype shape;
  bytes ← dev_lift (host_read s (nbytes tensor));
  _ ← dev_bytes (nbytes tensor) (memcpy_h2d (t_buffer tensor) (t_offset tensor) bytes);
  mret tensor.

(** [load_tensor]. *)
Definition load_tensor (weights : WeightSource) (name : bytes) (shape : list Z) : Dev D Tensor :=
  i ← dev_try (info weights name);
  if negb (bool_decide (logical_shape i = shape)) then dev_error ModelShapeMismatch
  else if negb (bool_decide (wi_type i = StoreBFloat16)) then dev_error ModelUnsupportedDType
  else
    raw ← dev_try (read weights name);
    from_span raw kBFloat16 shape.

Definition merge_qkv (q k v : Tensor) (qkv_dim d_model : Z) : Dev D Tensor :=
  let q_bytes := nbytes q in
  let k_bytes := nbytes k in
  let v_bytes := nbytes v in
  _ ← dev_assert (q_bytes <=? SIZE_MAX - k_bytes);
  _ ← dev_assert (v_bytes <=? u64 (SIZE_MAX - q_bytes - k_bytes));
  let total_bytes := u64 (q_bytes + k_bytes + v_bytes) in
  qkv_buffer ← dev_bytes total_bytes (allocate_buffer total_bytes);
  _ ← dev_bytes q_bytes (memcpy_d2d qkv_buffer 0 (t_buffer q) (t_offset q) q_bytes);
  _ ← dev_bytes k_bytes (memcpy_d2d qkv_buffer q_bytes (t_buffer k) (t_offset k) k_bytes);
  _ ← dev_bytes v_bytes (memcpy_d2d qkv_buffer (q_bytes + k_bytes) (t_buffer v) (t_offset v) v_bytes);
  _ ← dev_op synchronize;
  wrap_tensor qkv_buffer kBFloat16 [qkv_dim; d_model].

(** A tensor that the checkpoint may lack. *)
Definition load_optional (weights : WeightSource) (name : bytes) (shape : list Z) : Dev D (option Tensor) :=
  if has weights name then t ← load_tensor weights name shape; mret (Some t) else mret None.

Definition layer_prefix (i : Z) : bytes := lit "model.layers." ++ to_string i.

(** The body of the layer loop. *)
Definition load_layer (cfg : ModelConfig) (weights : WeightSource) (qkv_dim i : Z) : Dev D Qwen3LayerWeights :=
  let D_ := d_model_ cfg in
  let d_ff := d_ff_ cfg in
  let hd := head_dim_ cfg in
  let p := layer_prefix i in
  q_dim ← dev_lift (int_of (n_q_heads_ cfg * hd));
  o ← load_tensor weights (p ++ lit ".self_attn.o_proj.weight") [D_; q_dim];
  gate ← load_tensor weights (p ++ lit ".mlp.gate_proj.weight") [d_ff; D_];
  up ← load_tensor weights (p ++ lit ".mlp.up_proj.weight") [d_ff; D_];
  down ← load_tensor weights (p ++ lit ".mlp.down_proj.weight") [D_; d_ff];
  rms_attn ← load_tensor weights (p ++ lit ".input_layernorm.weight") [D_];
  rms_ffn ← load_tensor weights (p ++ lit ".post_attention_layernorm.weight") [D_];
  q ← load_tensor weights (p ++ lit ".self_attn.q_proj.weight") [q_dim; D_];
  kv_dim ← dev_lift (int_of (n_kv_heads_ cfg * hd));
  k ← load_tensor weights (p ++ lit ".self_attn.k_proj.weight") [kv_dim; D_];
  v ← load_tensor weights (p ++ lit ".self_attn.v_proj.weight") [kv_dim; D_];
  qkv ← merge_qkv q k v qkv_dim D_;
  q_norm ← load_optional weights (p ++ lit ".self_attn.q_norm.weight") [hd];
  k_norm ← load_optional weights (p ++ lit ".self_attn.k_norm.weight") [hd];
  mret (mkQwen3Layer _ qkv o gate up down rms_attn rms_ffn q_norm k_norm).

(** The layer loop, from layer [i] on. *)
Fixpoint load_layers (cfg : ModelConfig) (weights : WeightSource) (qkv_dim : Z) (todo : nat) (i : Z)
  : Dev D (list Qwen3LayerWeights) :=
  match todo with
  | O => mret []
  | S todo =>
      lw ← load_layer cfg weights qkv_dim i;
      rest ← load_layers cfg weights qkv_dim todo (i + 1);
      mret (lw :: rest)
  end.

(** [Qwen3Weights::load]. *)
Definition load_qwen3 (cfg : ModelConfig) (weights : WeightSource) : Dev D Qwen3Weights :=
  let D_ := d_model_ cfg in
  qkv_dim ← dev_lift (qkv_dim_of cfg);
  embed ← load_tensor weights (lit "model.embed_tokens.weight") [vocab_size_ cfg; D_];
  lm_head ← load_tensor weights (lit "lm_head.weight") [vocab_size_ cfg; D_];
  rms_final ← load_tensor weights (lit "model.norm.weight") [D_];
  layers ← load_layers cfg weights qkv_dim (Z.to_nat (n_layers_ cfg)) 0;
  mret (mkQwen3Weights _ embed lm_head rms_final layers).
End load.

(** ** What loading delivers *)

(** The sizes a source announces are those of its shapes. *)
Definition sizes_exact (src : WeightSource) (type : StorageType) (elem : Z) : Prop :=
  forall name i, info src name = Value i -> wi_type i = type -> size_bytes i = product (logical_shape i) * elem.

(** The projection width of a layer fits [int]. *)
Definition dims_fit (cfg : ModelConfig) : Prop :=
  0 < n_q_heads_ cfg /\ 0 < n_kv_heads_ cfg /\ 0 < head_dim_ cfg /\ 0 < d_model_ cfg <= INT_MAX /\
  0 < d_ff_ cfg <= INT_MAX /\ 0 < vocab_size_ cfg <= INT_MAX /\ 0 <= n_layers_ cfg /\
  (n_q_heads_ cfg + 2 * n_kv_heads_ cfg) * head_dim_ cfg <= INT_MAX.

(** Writing at the end of what was written. *)
Lemma splice_extends (x y r : list Z) : size_Z y <= size_Z r ->
  splice (x ++ r) (size_Z x) y = (x ++ y) ++ drop (length y) r.
Proof.
  unfold splice, size_Z. intros Hl. rewrite Nat2Z.id, take_app_length, drop_app_add', <-app_assoc; done.
Qed.

Lemma splice_three (l q k v : list Z) : size_Z l = size_Z q + size_Z k + size_Z v ->
  splice (splice (splice l 0 q) (size_Z q) k) (size_Z q + size_Z k) v = q ++ k ++ v.
Proof.
  intros Hl. assert (splice l 0 q = q ++ drop (length q) l) as -> by done. unfold size_Z in *.
  rewrite splice_extends by (unfold size_Z; rewrite length_drop; lia).
  replace (Z.of_nat (length q) + Z.of_nat (length k)) with (size_Z (q ++ k)) by (unfold size_Z; rewrite length_app; lia).
  rewrite splice_extends by (unfold size_Z; rewrite !length_drop; lia).
  rewrite drop_ge by (rewrite !length_drop; lia). by rewrite app_nil_r, <-app_assoc.
Qed.

Section sound.
Context {D : Type} `{!Backend D} `{!BackendLaws D} `{!Ccop} `{!CcopLaws} `{!CcopViews} `{!Q8Storage} `{!CcopViewsLaws}.

Lemma bfloat16_ok : 0 < dtype_size kBFloat16 <= SIZE_MAX.
Proof. rewrite bfloat16_size. unfold SIZE_MAX. lia. Qed.

Lemma loads_from_span s shape d :
  in_range (sp_file s) (sp_offset s) (sp_size s) -> sp_size s = product shape * 2 ->
  Forall (fun x => x <= INT64_MAX) shape ->
  loads (from_span s kBFloat16 shape) (fun t d' => shape_ok shape /\ tensor_holds d' t kBFloat16 shape (span_bytes s) /\ buf d (t_buffer t) = None) d.
Proof.
  intros Hr Hs Hf. assert (size_Z (span_bytes s) = product shape * dtype_size kBFloat16) as Hsz.
  { unfold span_bytes. rewrite size_slice by done. by rewrite bfloat16_size. }
  pose proof (dwp_from_host_holds (span_bytes s) kBFloat16 shape d bfloat16_ok Hf Hsz) as Hh.
  destruct (dwp_empty_fresh kBFloat16 shape d bfloat16_ok Hf) as (r1 & d1 & E1 & _ & Hv).
  unfold loads, dwp, from_host, from_span, mbind, Dev_bind, dev_lift in *. rewrite E1 in *.
  destruct r1 as [t|e]; [|exact Hh]. destruct Hv as (_ & _ & _ & Hn & _).
  assert (nbytes t = sp_size s) as En by (rewrite Hn, bfloat16_size; lia).
  rewrite En, host_read_all, <-En by done.
  assert (take (Z.to_nat (nbytes t)) (span_bytes s) = span_bytes s) as Ht
    by (apply take_ge; unfold size_Z in Hsz; lia). rewrite Ht in Hh. exact Hh.
Qed.

(** [t] holds the bytes of the checkpoint's tensor [name]. *)
Definition weight_is (src : WeightSource) (d : D) (name : bytes) (shape : list Z) (t : Tensor) : Prop :=
  exists s, read src name = Value s /\ size_Z (span_bytes s) = product shape * 2 /\
    shape_ok shape /\ tensor_holds d t kBFloat16 shape (span_bytes s).

Lemma weight_is_mono src d d' name shape t :
  keeps_buffers d d' -> weight_is src d name shape t -> weight_is src d' name shape t.
Proof.
  intros Hk (s & Hs & Hsz & Hok & Ht). exists s. split_and!; try done. by apply (tensor_holds_mono d).
Qed.

Lemma loads_tensor src name shape d :
  source_ok src -> sizes_exact src StoreBFloat16 2 -> Forall (fun x => x <= INT64_MAX) shape ->
  loads (load_tensor src name shape) (fun t d' => weight_is src d' name shape t) d.
Proof.
  intros Hs He Hf. unfold load_tensor. eapply loads_bind; [by apply loads_try with (P := fun i _ => info src name = Value i)|].
  intros i d1 Hk Hi. case_bool_decide as Hshape; [|apply loads_error].
  case_bool_decide as Ht; [|apply loads_error]. simpl negb. cbv iota.
  eapply loads_bind; [by apply loads_try with (P := fun s _ => read src name = Value s)|]. intros s d2 Hk2 Hr.
  assert (sp_size s = product shape * 2) as Hsz.
  { rewrite (so_size _ Hs _ _ _ Hi Hr), (He _ _ Hi Ht). by subst shape. }
  pose proof (so_range _ Hs _ _ Hr) as Hin.
  eapply loads_mono; [by apply loads_from_span|]. intros t d3 Hk3 (Hok & Hh & _). exists s. split_and!; try done.
  unfold span_bytes. by rewrite size_slice.
Qed.

Lemma nbytes_weight d t shape bytes : tensor_holds d t kBFloat16 shape bytes -> nbytes t = product shape * 2.
Proof. intros [(_ & Hd & Hs & _) _]. unfold nbytes. by rewrite Hd, Hs, view_nbytes_dense, bfloat16_size. Qed.

(** Copying a whole tensor into a new buffer, after what is already there. *)
Lemma loads_copy_to d0 b l x t shape d :
  keeps_buffers d0 d -> buf d0 b = None -> buf d b = Some l -> tensor_holds d t kBFloat16 shape x ->
  size_Z x = nbytes t -> 0 < nbytes t -> t_buffer t <> b -> forall off, 0 <= off -> off + nbytes t <= size_Z l ->
  dwp (dev_bytes (nbytes t) (memcpy_d2d b off (t_buffer t) (t_offset t) (nbytes t))) (fun r d' => keeps_buffers d0 d' /\
    match r with Value _ => buf d' b = Some (splice l off x) /\ only_buffer b d d' | Unexpected _ => True end) d.
Proof.
  intros Hk Hn Hl [(Ho & _) Hx] Hsz Hp Hne off H1' H2'. apply dwp_bytes; [done|]. intros r d' E. rewrite Ho in E.
  pose proof (size_Z_nonneg x). destruct r as [[]|e].
  - destruct (memcpy_d2d_ok b off (t_buffer t) 0 (nbytes t) d d' l x Hl Hx) as [Hb Honly]; [| |by left|exact E|].
    { unfold in_range. lia. } { unfold in_range. lia. }
    split; [by eapply keeps_only_fresh|]. split; [|done]. rewrite Hb. f_equal. f_equal. unfold slice. simpl.
    apply take_ge. unfold size_Z in Hsz. lia.
  - split; [|done]. etransitivity; [exact Hk|]. apply same_keeps. by eapply memcpy_d2d_err.
Qed.

(** A live tensor is not in a buffer allocated later. *)
Lemma holds_other d b t dtype shape x : buf d b = None -> tensor_holds d t dtype shape x -> t_buffer t <> b.
Proof. intros Hn [_ Hx] <-. congruence. Qed.

Lemma loads_merge q k v sq sk sv x y z n m d :
  tensor_holds d q kBFloat16 sq x -> tensor_holds d k kBFloat16 sk y -> tensor_holds d v kBFloat16 sv z ->
  size_Z x = nbytes q -> size_Z y = nbytes k -> size_Z z = nbytes v ->
  0 < nbytes q -> 0 < nbytes k -> 0 < nbytes v ->
  nbytes q + nbytes k + nbytes v = n * m * 2 -> n * m * 2 <= SIZE_MAX ->
  loads (merge_qkv q k v n m) (fun t d' => tensor_holds d' t kBFloat16 [n; m] (x ++ y ++ z)) d.
Proof.
  intros Hq Hk Hv Hx Hy Hz Pq Pk Pv Hsum Hmax. unfold merge_qkv. unfold SIZE_MAX in *.
  rewrite !u64_small by lia. apply loads_assert_bind; [lia|]. apply loads_assert_bind; [lia|].
  apply dwp_bind, dwp_bytes; [lia|]. intros [b|e] d1 Ea.
  2: { split; [|done]. apply same_keeps. by eapply allocate_err. }
  destruct (allocate_ok (nbytes q + nbytes k + nbytes v) d d1 b ltac:(lia) Ea) as (Hb & (l & Hl & Hsz) & Honly).
  assert (keeps_buffers d d1) as K1 by (by eapply only_fresh).
  pose proof (holds_other _ _ _ _ _ _ Hb Hq). pose proof (holds_other _ _ _ _ _ _ Hb Hk). pose proof (holds_other _ _ _ _ _ _ Hb Hv).
  apply dwp_bind. eapply dwp_mono.
  { apply (loads_copy_to d b l x q sq d1); try done; [by eapply tensor_holds_mono|lia]. }
  intros [u|e] d2 [K2 P2]; [destruct P2 as [Hl2 _]|done].
  assert (size_Z (splice l 0 x) = size_Z l) as S2 by (apply size_splice; unfold in_range; lia).
  apply dwp_bind. eapply dwp_mono.
  { apply (loads_copy_to d b (splice l 0 x) y k sk d2); try done; [by eapply tensor_holds_mono|lia|lia]. }
  intros [u3|e] d3 [K3 P3]; [destruct P3 as [Hl3 _]|done].
  assert (size_Z (splice (splice l 0 x) (nbytes q) y) = size_Z l) as S3
    by (rewrite size_splice; [done|unfold in_range; lia]).
  apply dwp_bind. eapply dwp_mono.
  { apply (loads_copy_to d b (splice (splice l 0 x) (nbytes q) y) z v sv d3); try done; [by eapply tensor_holds_mono|lia|lia]. }
  intros [u4|e] d4 [K4 P4]; [destruct P4 as [Hl4 _]|done].
  rewrite <-Hx, <-Hy, splice_three in Hl4 by lia.
  apply dwp_bind, dwp_op. intros r d5 Es. pose proof (synchronize_keeps _ _ _ Es) as Hs.
  assert (keeps_buffers d d5) as K5 by (etransitivity; [exact K4|by apply same_keeps]).
  destruct r as [u5|e]; [|done]. unfold wrap_tensor, buffer_bytes.
  assert (buf d5 b = Some (x ++ y ++ z)) as Hl5 by (by rewrite Hs).
  apply dwp_bind. exists (Value (x ++ y ++ z)), d5. split; [by rewrite Hl5|].
  apply dwp_bind, dwp_assert.
  { unfold nbytes. simpl. rewrite view_nbytes_dense, bfloat16_size. apply Z.leb_le. simpl. rewrite Z.mul_1_r, <-Hsum.
    unfold size_Z in *. rewrite !length_app. lia. }
  apply dwp_ret. split; [done|]. split; [|done]. unfold whole_tensor. simpl. by rewrite strides_row_major.
Qed.
(** ** Layers *)

(** A tensor the checkpoint may lack is loaded exactly when it is there. *)
Definition optional_is (src : WeightSource) (d : D) (name : bytes) (shape : list Z) (t : option Tensor) : Prop :=
  match t with
  | Some t => has src name = true /\ weight_is src d name shape t
  | None => has src name = false
  end.

(** The joined projection holds the bytes of the three, one after the other. *)
Definition qkv_is (src : WeightSource) (d : D) (p : bytes) (qkv_dim d_model : Z) (t : Tensor) : Prop :=
  exists q k v,
    read src (p ++ lit ".self_attn.q_proj.weight") = Value q /\
    read src (p ++ lit ".self_attn.k_proj.weight") = Value k /\
    read src (p ++ lit ".self_attn.v_proj.weight") = Value v /\
    size_Z (span_bytes q ++ span_bytes k ++ span_bytes v) = qkv_dim * d_model * 2 /\
    tensor_holds d t kBFloat16 [qkv_dim; d_model] (span_bytes q ++ span_bytes k ++ span_bytes v).

Record layer_exact (cfg : ModelConfig) (src : WeightSource) (d : D) (i : Z) (lw : Qwen3LayerWeights) : Prop := mk_layer_exact {
  le_qkv : qkv_is src d (layer_prefix i) ((n_q_heads_ cfg + 2 * n_kv_heads_ cfg) * head_dim_ cfg) (d_model_ cfg) (lw_qkv lw);
  le_o : weight_is src d (layer_prefix i ++ lit ".self_attn.o_proj.weight")
    [d_model_ cfg; n_q_heads_ cfg * head_dim_ cfg] (lw_o lw);
  le_gate : weight_is src d (layer_prefix i ++ lit ".mlp.gate_proj.weight") [d_ff_ cfg; d_model_ cfg] (lw_gate lw);
  le_up : weight_is src d (layer_prefix i ++ lit ".mlp.up_proj.weight") [d_ff_ cfg; d_model_ cfg] (lw_up lw);
  le_down : weight_is src d (layer_prefix i ++ lit ".mlp.down_proj.weight") [d_model_ cfg; d_ff_ cfg] (lw_down lw);
  le_rms_attn : weight_is src d (layer_prefix i ++ lit ".input_layernorm.weight") [d_model_ cfg] (lw_rms_attn lw);
  le_rms_ffn : weight_is src d (layer_prefix i ++ lit ".post_attention_layernorm.weight") [d_model_ cfg] (lw_rms_ffn lw);
  le_q_norm : optional_is src d (layer_prefix i ++ lit ".self_attn.q_norm.weight") [head_dim_ cfg] (lw_q_norm lw);
  le_k_norm : optional_is src d (layer_prefix i ++ lit ".self_attn.k_norm.weight") [head_dim_ cfg] (lw_k_norm lw);
}.

Lemma optional_is_mono src d d' name shape t :
  keeps_buffers d d' -> optional_is src d name shape t -> optional_is src d' name shape t.
Proof. destruct t as [t|]; [|done]. intros Hk [Hh Hw]. split; [done|]. by eapply weight_is_mono. Qed.

Lemma qkv_is_mono src d d' p n m t : keeps_buffers d d' -> qkv_is src d p n m t -> qkv_is src d' p n m t.
Proof.
  intros Hk (q & k & v & Hq & Hkk & Hv & Hsz & Ht). exists q, k, v. split_and!; try done. by eapply tensor_holds_mono.
Qed.

Lemma layer_exact_mono cfg src d d' i lw :
  keeps_buffers d d' -> layer_exact cfg src d i lw -> layer_exact cfg src d' i lw.
Proof.
  intros Hk []. split; first [by eapply qkv_is_mono|by eapply weight_is_mono|by eapply optional_is_mono].
Qed.

Section source.
Context (src : WeightSource) (Hsrc : source_ok src) (Hexact : sizes_exact src StoreBFloat16 2).

Lemma loads_optional name shape d : Forall (fun x => x <= INT64_MAX) shape ->
  loads (load_optional src name shape) (fun t d' => optional_is src d' name shape t) d.
Proof.
  intros Hf. unfold load_optional. destruct (has src name) eqn:Eh; [|by apply loads_ret].
  eapply loads_bind; [by apply loads_tensor|]. intros t d' Hk Hw. by apply loads_ret.
Qed.

(** The three projections, joined. *)
Lemma loads_qkv p q k v nq nkv n m d :
  weight_is src d (p ++ lit ".self_attn.q_proj.weight") [nq; m] q ->
  weight_is src d (p ++ lit ".self_attn.k_proj.weight") [nkv; m] k ->
  weight_is src d (p ++ lit ".self_attn.v_proj.weight") [nkv; m] v ->
  n = nq + 2 * nkv -> 0 <= n <= INT_MAX -> 0 <= m <= INT_MAX ->
  loads (merge_qkv q k v n m) (fun t d' => qkv_is src d' p n m t) d.
Proof.
  intros (sq & Rq & Sq & Oq & Hq) (sk & Rk & Sk & Ok & Hk) (sv & Rv & Sv & Ov & Hv) -> Hn Hm.
  pose proof (nbytes_weight _ _ _ _ Hq) as Nq. pose proof (nbytes_weight _ _ _ _ Hk) as Nk.
  pose proof (nbytes_weight _ _ _ _ Hv) as Nv.
  destruct Oq as (_ & _ & Oq%product_pos), Ok as (_ & _ & Ok%product_pos), Ov as (_ & _ & Ov%product_pos).
  unfold product in *. simpl foldr in *. rewrite ?Z.mul_1_r in *.
  eapply loads_mono; [eapply loads_merge; try done; [congruence|congruence|congruence|lia|lia|lia|lia|unfold INT_MAX, SIZE_MAX in *; nia]|].
  intros t d' Hkeep Ht. exists sq, sk, sv. split_and!; try done.
  unfold size_Z in *. rewrite !length_app, !Nat2Z.inj_add. lia.
Qed.

(** ** The layer loop *)

Context (cfg : ModelConfig) (Hfit : dims_fit cfg).

Lemma dims_products : n_q_heads_ cfg * head_dim_ cfg <= INT_MAX /\ n_kv_heads_ cfg * head_dim_ cfg <= INT_MAX /\
  head_dim_ cfg <= INT_MAX /\ 0 < n_q_heads_ cfg * head_dim_ cfg /\ 0 < n_kv_heads_ cfg * head_dim_ cfg.
Proof. unfold dims_fit in Hfit. split_and!; nia. Qed.

Lemma qkv_dim_ok : qkv_dim_of cfg = Some ((n_q_heads_ cfg + 2 * n_kv_heads_ cfg) * head_dim_ cfg).
Proof.
  unfold dims_fit, qkv_dim_of in *. rewrite int_of_ok by (unfold INT_MIN, INT_MAX in *; nia). simpl mbind. unfold mbind, option_bind.
  rewrite int_of_ok by (unfold INT_MIN, INT_MAX in *; nia). apply int_of_ok. unfold INT_MIN, INT_MAX in *. nia.
Qed.

Ltac dims := pose proof dims_products; unfold dims_fit, INT_MIN, INT_MAX, INT64_MAX in *;
  repeat (apply Forall_cons; split); try apply Forall_nil; lia.
Ltac next_tensor := eapply loads_bind; [apply loads_tensor; [exact Hsrc|exact Hexact|dims]|cbv beta; intros ? ? ? ?].

Lemma loads_layer i d :
  loads (load_layer cfg src ((n_q_heads_ cfg + 2 * n_kv_heads_ cfg) * head_dim_ cfg) i)
    (fun lw d' => layer_exact cfg src d' i lw) d.
Proof.
  unfold load_layer. eapply loads_lift_bind; [apply int_of_ok; dims|]. do 7 next_tensor.
  eapply loads_lift_bind; [apply int_of_ok; dims|]. do 2 next_tensor.
  eapply loads_bind.
  { eapply loads_qkv; try done; [eapply weight_is_mono; [|eassumption]; eauto with live..|lia|dims|dims]. }
  cbv beta. intros qkv ? ? ?. eapply loads_bind; [apply loads_optional; dims|]. cbv beta. intros qn ? ? ?.
  eapply loads_bind; [apply loads_optional; dims|]. cbv beta. intros kn ? ? ?. apply loads_ret.
  split; simpl; first [eapply weight_is_mono; [|eassumption]|eapply qkv_is_mono; [|eassumption]|eapply optional_is_mono; [|eassumption]];
    eauto 20 with live.
Qed.

Lemma loads_layers todo i d :
  loads (load_layers cfg src ((n_q_heads_ cfg + 2 * n_kv_heads_ cfg) * head_dim_ cfg) todo i)
    (fun l d' => length l = todo /\ forall k lw, l !! k = Some lw -> layer_exact cfg src d' (i + Z.of_nat k) lw) d.
Proof.
  revert i d. induction todo as [|todo IH]; intros i d; simpl; [by apply loads_ret|].
  eapply loads_bind; [apply loads_layer|]. intros lw d1 K1 Hlw. eapply loads_bind; [apply IH|].
  intros rest d2 K2 [Hlen Hrest]. apply loads_ret. split; [simpl; lia|]. intros [|k] lw' E; simpl in E.
  - injection E as <-. rewrite Z.add_0_r. by apply (layer_exact_mono _ _ d1).
  - replace (i + Z.of_nat (S k)) with (i + 1 + Z.of_nat k) by lia. by apply Hrest.
Qed.

(** What a loaded model holds. *)
Definition weights_exact (w : Qwen3Weights) (d : D) : Prop :=
  weight_is src d (lit "model.embed_tokens.weight") [vocab_size_ cfg; d_model_ cfg] (w_embed w) /\
  weight_is src d (lit "lm_head.weight") [vocab_size_ cfg; d_model_ cfg] (w_lm_head w) /\
  weight_is src d (lit "model.norm.weight") [d_model_ cfg] (w_rms_final w) /\
  size_Z (w_layers w) = n_layers_ cfg /\
  forall i lw, at_Z (w_layers w) i = Some lw -> layer_exact cfg src d i lw.

Lemma loads_qwen3 d : loads (load_qwen3 cfg src) weights_exact d.
Proof.
  pose proof Hfit as (_ & _ & _ & _ & _ & _ & Hn & _).
  unfold load_qwen3. eapply loads_lift_bind; [apply qkv_dim_ok|]. do 3 next_tensor.
  eapply loads_bind; [apply loads_layers|]. intros layers d4 K4 [Hlen Hl]. apply loads_ret.
  unfold weights_exact. split_and!; simpl; [eapply weight_is_mono; [|eassumption]; eauto with live..| |].
  - unfold size_Z. lia.
  - intros i lw [Hi E]%at_Z_Some. pose proof (Hl _ _ E) as Hlw. by rewrite Z.add_0_l, Z2Nat.id in Hlw by lia.
Qed.

(** Loading Qwen3 weights from any source that keeps its promises and announces the
    sizes of its shapes: nothing is read outside the file, no assertion fails, no [int]
    overflows and no live buffer changes; a missing tensor, a wrong shape or type and a
    device error are reported, and otherwise every tensor of the model, of every layer,
    holds exactly the bytes of the checkpoint's tensor of its name, the joined
    projection those of the query, the key and the value one after the other, and the
    optional norms are there exactly when the checkpoint has them. *)
Theorem qwen3_load_exact d :
  dwp (load_qwen3 cfg src) (fun r d' => keeps_buffers d d' /\
    match r with
    | Value w =>
        weight_is src d' (lit "model.embed_tokens.weight") [vocab_size_ cfg; d_model_ cfg] (w_embed w) /\
        weight_is src d' (lit "lm_head.weight") [vocab_size_ cfg; d_model_ cfg] (w_lm_head w) /\
        weight_is src d' (lit "model.norm.weight") [d_model_ cfg] (w_rms_final w) /\
        size_Z (w_layers w) = n_layers_ cfg /\
        forall i lw, at_Z (w_layers w) i = Some lw -> layer_exact cfg src d' i lw
    | Unexpected _ => True
    end) d.
Proof. exact (loads_qwen3 d). Qed.
End source.
End sound.

(** ** A small checkpoint *)

(** Tensors of two bytes per element, one after the other from [off] on. *)
Fixpoint lay_out (off : Z) (l : list (bytes * list Z)) : list (bytes * SafetensorsTensorInfo) :=
  match l with
  | [] => []
  | (name, shape) :: l =>
      (name, mkSafetensors StoreBFloat16 shape off (product shape * 2)) :: lay_out (off + product shape * 2) l
  end.

Definition tiny_config : ModelConfig := mkModelConfig Qwen3 1 1 1 2 2 0 1 3 8 f32_one f32_one 0 0 0 0 0 0 0 [].

Definition tiny_names : list (bytes * list Z) :=
  [(lit "model.embed_tokens.weight", [3; 2]); (lit "lm_head.weight", [3; 2]); (lit "model.norm.weight", [2]);
   (lit "model.layers.0.self_attn.q_proj.weight", [2; 2]); (lit "model.layers.0.self_attn.k_proj.weight", [2; 2]);
   (lit "model.layers.0.self_attn.v_proj.weight", [2; 2]); (lit "model.layers.0.self_attn.o_proj.weight", [2; 2]);
   (lit "model.layers.0.mlp.gate_proj.weight", [1; 2]); (lit "model.layers.0.mlp.up_proj.weight", [1; 2]);
   (lit "model.layers.0.mlp.down_proj.weight", [2; 1]); (lit "model.layers.0.input_layernorm.weight", [2]);
   (lit "model.layers.0.post_attention_layernorm.weight", [2]); (lit "model.layers.0.self_attn.k_norm.weight", [2])].

Definition tiny_data : bytes := Z.of_nat <$> seq 0 110.
Definition tiny_reader : Reader := mkSafeReader tiny_data 8 (lay_out 0 tiny_names).*2 (lay_out 0 tiny_names).
Definition tiny_source : WeightSource := safetensors_source tiny_reader.

Lemma tiny_source_ok : source_ok tiny_source.
Proof.
  apply (safetensors_source_ok tiny_data); [|vm_compute; reflexivity]. split; [done|vm_compute; split; discriminate| |discriminate|done].
  cbn [tensors_ tiny_reader]. repeat (apply Forall_cons; split); try apply Forall_nil; vm_compute; repeat split; discriminate.
Qed.

Lemma lay_out_exact name t l off : (name, t) ∈ lay_out off l -> st_size_bytes t = product (st_shape t) * 2.
Proof.
  revert off. induction l as [|[n shape] l IH]; intros off; cbn [lay_out]; [by intros ?%elem_of_nil|].
  rewrite elem_of_cons. intros [[= -> ->]|Hin]; [done|by eapply IH].
Qed.

Lemma tiny_source_exact : sizes_exact tiny_source StoreBFloat16 2.
Proof.
  intros name i. cbn [info tiny_source safetensors_source]. unfold safetensors_info.
  destruct (find_safetensor name tiny_reader) as [t|] eqn:E; [|done]. intros [= <-] _.
  apply find_safetensor_In in E. apply list_elem_of_fmap in E as ([n x] & -> & Hin). exact (lay_out_exact n x tiny_names 0 Hin).
Qed.

Lemma tiny_fit : dims_fit tiny_config.
Proof. unfold dims_fit, INT_MAX. cbn. lia. Qed.

Lemma qwen3_load_exact_witness :
  exists w d', load_qwen3 tiny_config tiny_source (mkSim [] []) = Some (Value w, d') /\
    weight_is tiny_source d' (lit "lm_head.weight") [3; 2] (w_lm_head w).
Proof.
  destruct (qwen3_load_exact tiny_source tiny_source_ok tiny_source_exact tiny_config tiny_fit (mkSim [] [])) as (r & d' & E & H).
  destruct r as [w|e].
  - exists w, d'. split; [exact E|exact (proj1 (proj2 (proj2 H)))].
  - exfalso. revert E. vm_compute. discriminate.
Defined.

(** The joined projection of the layer, and the norm that the checkpoint lacks. *)
Example tiny_qkv :
  match load_qwen3 tiny_config tiny_source (mkSim [] []) with
  | Some (Value w, d') =>
      (fun lw => (buf d' (t_buffer (lw_qkv lw)), lw_q_norm lw)) <$> w_layers w = [(Some (Z.of_nat <$> seq 36 24), None)]
  | _ => False
  end.
Proof. vm_compute. reflexivity. Qed.

(** The safetensors reader accepts a tensor whose byte range is shorter than its shape:
    the upload takes the bytes of the tensor that follows. *)
Example short_tensor_reads_neighbour :
  let ts := [(lit "a", mkSafetensors StoreBFloat16 [3] 0 2); (lit "b", mkSafetensors StoreBFloat16 [2] 2 4)] in
  let r := mkSafeReader [8; 0; 0; 0; 0; 0; 0; 0; 11; 12; 13; 14; 15; 16] 8 ts.*2 ts in
  exists t d', load_tensor (safetensors_source r) (lit "a") [3] (mkSim [] []) = Some (Value t, d') /\
    buf d' (t_buffer t) = Some [11; 12; 13; 14; 15; 16].
Proof. do 2 eexists. split; vm_compute; reflexivity. Qed.

(** ... or, for the last tensor of the file, reads past the mapping. *)
Example short_tensor_reads_outside :
  let ts := [(lit "a", mkSafetensors StoreBFloat16 [3] 0 2)] in
  let r := mkSafeReader [8; 0; 0; 0; 0; 0; 0; 0; 11; 12] 8 ts.*2 ts in
  load_tensor (safetensors_source r) (lit "a") [3] (mkSim [] []) = None.
Proof. vm_compute. reflexivity. Qed.
