(* ===== verification/Kernels.v ===== *)
(** * The operators of [facade/ops.h] that models call

    The operator library is not part of the repository: [Kernels] has its entry points,
    [KernelSem] the functions of tensor values that they compute (uninterpreted), and
    [KernelLaws] that an operator that succeeds writes exactly these values to its
    outputs.  Inputs and outputs share memory only when they are the same range. *)

From Stdlib Require Import ZArith Lia SpecFloat.
From stdpp Require Import prelude strings gmap fin_maps.
From S2P Require Import Prelude Base Device SimDevice Model.

Class Kernels (D : Type) `{Ccop} := {
  embed : Tensor -> Tensor -> Tensor -> D -> option CcopError * D;          (* table, ids, out *)
  rms_norm : Tensor -> Tensor -> Tensor -> float32 -> D -> option CcopError * D;   (* out, x, weight, eps *)
  gemm : Tensor -> Tensor -> Tensor -> bool -> bool -> float32 -> float32 -> D -> option CcopError * D;
    (* out, a, b, transposed a, transposed b, alpha, beta *)
  split_qkv : Tensor -> Tensor -> Tensor -> Tensor -> D -> option CcopError * D;   (* qkv, q, k, v *)
  rope : Tensor -> Tensor -> Tensor -> Tensor -> Z -> D -> option CcopError * D;   (* q, k, positions, table, dim *)
  write_kv_cache : Tensor -> Tensor -> Tensor -> Tensor -> Tensor -> D -> option CcopError * D;
    (* k, v, k cache, v cache, slots *)
  decode_attention : Tensor -> Tensor -> Tensor -> Tensor -> Tensor -> Tensor -> float32 -> D -> option CcopError * D;
    (* q, k blocks, v blocks, block table, context lengths, out, scale *)
  prefill_attention : Tensor -> Tensor -> Tensor -> Tensor -> Tensor -> Tensor -> Tensor -> float32 -> D ->
    option CcopError * D;
    (* q, k blocks, v blocks, block table, query starts, context lengths, out, scale *)
  element_add : Tensor -> Tensor -> D -> option CcopError * D;              (* a += b *)
  silu_mul : Tensor -> Tensor -> Tensor -> D -> option CcopError * D;       (* out, gate, up *)
}.

(** ** Values of tensors *)

Record TVal `{Ccop} := mkTVal { tv_dtype : DType; tv_shape : list Z; tv_bytes : list Z }.

Section values.
Context {D : Type} `{Backend D} `{Ccop}.

(** The value of a row-major view inside its buffer. *)
Definition tval (d : D) (t : Tensor) : option TVal :=
  l ← buf d (t_buffer t);
  if bool_decide (t_stride t = (row_major (t_shape t)).1) && (0 <=? t_offset t) && (0 <=? nbytes t) &&
     (t_offset t + nbytes t <=? size_Z l)
  then Some (mkTVal _ (t_dtype t) (t_shape t) (slice l (t_offset t) (nbytes t))) else None.

(** Storing to a view. *)
Definition store (t : Tensor) (x : list Z) (m : Z -> option (list Z)) (b : Z) : option (list Z) :=
  if decide (b = t_buffer t) then (fun l => splice l (t_offset t) x) <$> m b else m b.
Fixpoint stores (outs : list Tensor) (xs : list (list Z)) (m : Z -> option (list Z)) : Z -> option (list Z) :=
  match outs, xs with
  | t :: outs, x :: xs => stores outs xs (store t x m)
  | _, _ => m
  end.

(** Two views share nothing, or are the same range. *)
Definition same_or_apart (t u : Tensor) : Prop :=
  t_buffer t <> t_buffer u \/ t_offset t = t_offset u /\ nbytes t = nbytes u.

(** A kernel that computes [f] of its inputs, given the types and shapes of its outputs. *)
Definition KFun : Type := list (DType * list Z) -> list TVal -> list (list Z).

Definition computes (run : D -> option CcopError * D) (ins outs : list Tensor) (f : KFun) : Prop :=
  forall d d' vs ws, run d = (None, d') -> Forall2 (fun t v => tval d t = Some v) ins vs ->
    Forall2 (fun t v => tval d t = Some v) outs ws ->
    Forall (fun t => Forall (same_or_apart t) ins) outs -> NoDup (t_buffer <$> outs) ->
    let xs := f ((fun t => (t_dtype t, t_shape t)) <$> outs) vs in
    Forall2 (fun t x => size_Z x = nbytes t) outs xs /\ forall b, buf d' b = stores outs xs (buf d) b.
End values.

(** ** What the operators compute *)

Class KernelSem `{Ccop} := {
  embed_sem : KFun;
  rms_norm_sem : float32 -> KFun;
  gemm_sem : bool -> bool -> float32 -> KFun;
  split_qkv_sem : KFun;
  rope_sem : Z -> KFun;
  write_kv_cache_sem : KFun;
  decode_attention_sem : float32 -> KFun;
  prefill_attention_sem : float32 -> KFun;
  element_add_sem : KFun;
  silu_mul_sem : KFun;
}.

(** With [beta = 0] a product ignores the old contents of its output. *)
Class KernelLaws (D : Type) `{Backend D} `{Ccop} `{!Kernels D} `{!KernelSem} := {
  embed_ok : forall table ids out, computes (embed table ids out) [table; ids] [out] embed_sem;
  rms_norm_ok : forall out x w eps, computes (rms_norm out x w eps) [x; w] [out] (rms_norm_sem eps);
  gemm_ok : forall out a b ta tb alpha,
    computes (gemm out a b ta tb alpha f32_zero) [a; b] [out] (gemm_sem ta tb alpha);
  split_qkv_ok : forall qkv q k v, computes (split_qkv qkv q k v) [qkv] [q; k; v] split_qkv_sem;
  rope_ok : forall q k positions table dim,
    computes (rope q k positions table dim) [q; k; positions; table] [q; k] (rope_sem dim);
  write_kv_cache_ok : forall k v kc vc slots,
    computes (write_kv_cache k v kc vc slots) [k; v; kc; vc; slots] [kc; vc] write_kv_cache_sem;
  decode_attention_ok : forall q kb vb table lens out scale,
    computes (decode_attention q kb vb table lens out scale) [q; kb; vb; table; lens] [out] (decode_attention_sem scale);
  prefill_attention_ok : forall q kb vb table starts lens out scale,
    computes (prefill_attention q kb vb table starts lens out scale) [q; kb; vb; table; starts; lens] [out]
      (prefill_attention_sem scale);
  element_add_ok : forall a b, computes (element_add a b) [a; b] [a] element_add_sem;
  silu_mul_ok : forall out gate up, computes (silu_mul out gate up) [gate; up] [out] silu_mul_sem;
  embed_sizes : forall table ids out d, keeps_sizes d (embed table ids out d).2;
  rms_norm_sizes : forall out x w eps d, keeps_sizes d (rms_norm out x w eps d).2;
  gemm_sizes : forall out a b ta tb alpha beta d, keeps_sizes d (gemm out a b ta tb alpha beta d).2;
  split_qkv_sizes : forall qkv q k v d, keeps_sizes d (split_qkv qkv q k v d).2;
  rope_sizes : forall q k positions table dim d, keeps_sizes d (rope q k positions table dim d).2;
  write_kv_cache_sizes : forall k v kc vc slots d, keeps_sizes d (write_kv_cache k v kc vc slots d).2;
  decode_attention_sizes : forall q kb vb table lens out scale d,
    keeps_sizes d (decode_attention q kb vb table lens out scale d).2;
  prefill_attention_sizes : forall q kb vb table starts lens out scale d,
    keeps_sizes d (prefill_attention q kb vb table starts lens out scale d).2;
  element_add_sizes : forall a b d, keeps_sizes d (element_add a b d).2;
  silu_mul_sizes : forall out gate up d, keeps_sizes d (silu_mul out gate up d).2;
}.

(** ** On the simulated device

    An operator on [SimDevice] computes its function when its inputs and outputs are in
    place and the results have the right sizes, and reports an error otherwise. *)

Definition sim_stores (outs : list Tensor) (xs : list (list Z)) (d : SimDevice) : SimDevice :=
  foldl (fun d '(t, x) => match at_Z (sim_bufs d) (t_buffer t) with
                          | Some l => mkSim (set_Z (sim_bufs d) (t_buffer t) (splice l (t_offset t) x)) (faults d)
                          | None => d
                          end) d (zip outs xs).

Definition sim_kernel (ins outs : list Tensor) (f : KFun) (d : SimDevice) : option CcopError * SimDevice :=
  match sim_answer d with
  | (Some _, fs) => (Some kRuntimeError, mkSim (sim_bufs d) fs)
  | (None, fs) =>
      let xs := f ((fun t => (t_dtype t, t_shape t)) <$> outs) (default [] (mapM (tval d) ins)) in
      if bool_decide (is_Some (mapM (tval d) ins)) && bool_decide (is_Some (mapM (tval d) outs)) &&
         bool_decide (Forall2 (fun t x => size_Z x = nbytes t) outs xs)
      then (None, sim_stores outs xs (mkSim (sim_bufs d) fs))
      else (Some kInvalidArgument, mkSim (sim_bufs d) fs)
  end.

Lemma sim_stores_buf outs xs d b : length outs = length xs -> buf (sim_stores outs xs d) b = stores outs xs (buf d) b.
Proof.
  unfold sim_stores. revert xs d b. induction outs as [|t outs IH]; intros [|x xs] d b Hl; try done. cbn [zip_with foldl stores].
  rewrite IH by (simpl in Hl; lia). clear IH Hl. revert b.
  assert (forall b, buf (match at_Z (sim_bufs d) (t_buffer t) with
      | Some l => mkSim (set_Z (sim_bufs d) (t_buffer t) (splice l (t_offset t) x)) (faults d) | None => d end) b =
    store t x (buf d) b) as Hs.
  { intros b. unfold store, buf. simpl. destruct (at_Z (sim_bufs d) (t_buffer t)) as [l|] eqn:E; simpl.
    - destruct (decide (b = t_buffer t)) as [->|Hne].
      + rewrite E. simpl. apply at_Z_Some in E as [Hr _]. by apply at_set_Z_eq.
      + by apply at_set_Z_ne.
    - destruct (decide (b = t_buffer t)) as [->|Hne]; [by rewrite E|done]. }
  revert Hs. generalize (match at_Z (sim_bufs d) (t_buffer t) with
      | Some l => mkSim (set_Z (sim_bufs d) (t_buffer t) (splice l (t_offset t) x)) (faults d) | None => d end) as d1.
  intros d1 Hs. assert (forall m m', (forall b, m b = m' b) -> forall b, stores outs xs m b = stores outs xs m' b) as Hext.
  { clear. revert xs. induction outs as [|t outs IH]; intros [|x xs] m m' Hm b; simpl; try done.
    apply IH. intros b'. unfold store. by rewrite Hm. }
  by apply Hext.
Qed.

Lemma sim_stores_sizes outs xs d : Forall2 (fun t x => is_Some (tval d t) /\ size_Z x = nbytes t) outs xs ->
  keeps_sizes d (sim_stores outs xs d).
Proof.
  unfold sim_stores. revert xs d. induction outs as [|t outs IH]; intros xs d Hf; inversion Hf as [|? x ? xs' [[v Hv] Hx] Hrest]; subst; [done|].
  cbn [zip_with foldl]. unfold tval in Hv. apply bind_Some in Hv as (l & Hl & Hv).
  destruct (_ && _) eqn:Hin in Hv; [|done]. bprop. simpl in Hl. rewrite Hl.
  assert (keeps_sizes d (mkSim (set_Z (sim_bufs d) (t_buffer t) (splice l (t_offset t) x)) (faults d))) as Hk.
  { intros b l' Hl'. simpl in *. destruct (decide (b = t_buffer t)) as [->|Hne].
    - exists (splice l (t_offset t) x). pose proof (at_Z_Some _ _ _ Hl) as [Hr _]. split; [by apply at_set_Z_eq|].
      rewrite Hl in Hl'. injection Hl' as <-. apply size_splice. unfold in_range. lia.
    - exists l'. split; [|done]. by rewrite at_set_Z_ne. }
  etransitivity; [exact Hk|]. apply IH. eapply Forall2_impl; [exact Hrest|]. intros u y [[w Hw] Hy]. split; [|done].
  unfold tval in Hw |- *. apply bind_Some in Hw as (l' & Hl' & Hw). destruct (Hk _ _ Hl') as (l2 & Hl2 & Hsz).
  rewrite Hl2. simpl. rewrite Hsz. destruct (_ && _); [by eexists|done].
Qed.

Lemma sim_kernel_computes ins outs f : computes (sim_kernel ins outs f) ins outs f.
Proof.
  intros d d' vs ws E Hins _ _ _. unfold sim_kernel in E. destruct (sim_answer d) as [[e|] fs]; [done|].
  assert (mapM (tval d) ins = Some vs) as Hm by (apply mapM_Some; exact Hins). rewrite Hm in E. simpl in E.
  destruct (_ && _) eqn:Hc in E; [|done]. injection E as <-. bprop. split; [done|]. intros b.
  rewrite sim_stores_buf; [done|]. by eapply Forall2_length.
Qed.

Lemma sim_kernel_sizes ins outs f d : keeps_sizes d (sim_kernel ins outs f d).2.
Proof.
  unfold sim_kernel. destruct (sim_answer d) as [[e|] fs]; [by intros b l Hl; exists l|].
  generalize (f ((fun t => (t_dtype t, t_shape t)) <$> outs) (default [] (mapM (tval d) ins))). intros xs.
  destruct (_ && _) eqn:Hc; [|by intros b l Hl; exists l].
  apply andb_true_iff in Hc as [[_ Ho]%andb_true_iff Hx]. apply bool_decide_eq_true in Ho as [ws Hws], Hx.
  etransitivity; [|apply sim_stores_sizes]; [by intros b l Hl; exists l|].
  apply mapM_Some in Hws. clear -Hws Hx. revert ws Hws.
  induction Hx as [|t x outs xs Hx _ IH]; intros ws Hws; inversion Hws as [|? w ? ws' Hw Hrest]; subst; constructor.
  - split; [|done]. change (is_Some (tval d t)). by eexists.
  - by eapply IH.
Qed.

(** Every output repeats the bytes of the inputs, added up. *)
Definition sim_sum (vs : list TVal) : Z := foldr (fun v z => foldr Z.add z (tv_bytes v)) 0 vs.
Definition sim_fun (k : Z) : KFun := fun outs vs =>
  (fun '(dtype, shape) => (fun i => u8 (k * sim_sum vs + Z.of_nat i)) <$> seq 0 (Z.to_nat (view_nbytes dtype shape))) <$> outs.

#[export] Instance sim_kernel_sem : KernelSem := {
  embed_sem := sim_fun 1; rms_norm_sem _ := sim_fun 2; gemm_sem _ _ _ := sim_fun 3; split_qkv_sem := sim_fun 4;
  rope_sem _ := sim_fun 5; write_kv_cache_sem := sim_fun 6; decode_attention_sem _ := sim_fun 7;
  prefill_attention_sem _ := sim_fun 8; element_add_sem := sim_fun 9; silu_mul_sem := sim_fun 10;
}.

#[export] Instance sim_kernels : Kernels SimDevice := {
  embed table ids out := sim_kernel [table; ids] [out] embed_sem;
  rms_norm out x w eps := sim_kernel [x; w] [out] (rms_norm_sem eps);
  gemm out a b ta tb alpha _ := sim_kernel [a; b] [out] (gemm_sem ta tb alpha);
  split_qkv qkv q k v := sim_kernel [qkv] [q; k; v] split_qkv_sem;
  rope q k positions table dim := sim_kernel [q; k; positions; table] [q; k] (rope_sem dim);
  write_kv_cache k v kc vc slots := sim_kernel [k; v; kc; vc; slots] [kc; vc] write_kv_cache_sem;
  decode_attention q kb vb table lens out scale := sim_kernel [q; kb; vb; table; lens] [out] (decode_attention_sem scale);
  prefill_attention q kb vb table starts lens out scale :=
    sim_kernel [q; kb; vb; table; starts; lens] [out] (prefill_attention_sem scale);
  element_add a b := sim_kernel [a; b] [a] element_add_sem;
  silu_mul out gate up := sim_kernel [gate; up] [out] silu_mul_sem;
}.

#[export] Instance sim_kernel_laws : KernelLaws SimDevice.
Proof. split; intros; first [apply sim_kernel_computes|apply sim_kernel_sizes]. Qed.
