(* ===== verification/KernelRules.v ===== *)
(** * A small logic for sequences of operators

    A forward pass works on a fixed list of buffers, its scratch tensors and the ones it
    writes for its caller; everything else stays as it is.  [holds d cs] gives the
    contents of these buffers, and one rule describes every operator. *)

From Stdlib Require Import ZArith Lia SpecFloat.
From stdpp Require Import prelude strings gmap fin_maps.
From S2P Require Import Prelude Base Q8 Device Tensor Model Kernels.

(** A tensor operand: a whole buffer of the list, a window of one, or a tensor elsewhere. *)
Inductive Operand `{Ccop} :=
| Whole (i : nat) (dtype : DType) (shape : list Z)
| Window (i : nat) (offset : Z) (dtype : DType) (shape : list Z)
| Elsewhere (t : Tensor).

Section rules.
Context {D : Type} `{!Backend D} `{!BackendLaws D} `{!Ccop} `{!CcopLaws}.
Context (bufs : list (Z * Z)) (Hbufs : NoDup bufs.*1) (d0 : D).

Definition nth_buffer (i : nat) : Z := default 0 (fst <$> bufs !! i).

Definition bytes_of (dtype : DType) (shape : list Z) : Z := product shape * dtype_size dtype.

Definition operand_tensor (a : Operand) : Tensor :=
  match a with
  | Whole i dtype shape => mkTensor _ (nth_buffer i) 0 dtype shape (row_major shape).1
  | Window i offset dtype shape => mkTensor _ (nth_buffer i) offset dtype shape (row_major shape).1
  | Elsewhere t => t
  end.

(** The type and shape of an operand. *)
Definition operand_type (a : Operand) : DType * list Z :=
  match a with
  | Whole _ dtype shape => (dtype, shape)
  | Window _ _ dtype shape => (dtype, shape)
  | Elsewhere t => (t_dtype t, t_shape t)
  end.

Lemma operand_types (outs : list Operand) :
  (fun t => (t_dtype t, t_shape t)) <$> (operand_tensor <$> outs) = operand_type <$> outs.
Proof. rewrite <-list_fmap_compose. apply list_fmap_ext. by intros i [] _. Qed.

(** The contents of the buffers; nothing else that was live in [d0] has changed. *)
Record holds (d : D) (cs : list (list Z)) : Prop := mk_holds {
  h_bufs : Forall2 (fun bn x => buf d bn.1 = Some x /\ size_Z x = bn.2) bufs cs;
  h_rest : forall b l, b ∉ bufs.*1 -> buf d0 b = Some l -> buf d b = Some l;
}.

(** The value of an operand. *)
Inductive operand_val (cs : list (list Z)) : Operand -> TVal -> Prop :=
| val_whole i dtype shape b x : bufs !! i = Some (b, bytes_of dtype shape) -> cs !! i = Some x ->
    operand_val cs (Whole i dtype shape) (mkTVal _ dtype shape x)
| val_window i offset dtype shape b n x : bufs !! i = Some (b, n) -> cs !! i = Some x ->
    0 <= offset -> 0 <= bytes_of dtype shape -> offset + bytes_of dtype shape <= n ->
    operand_val cs (Window i offset dtype shape) (mkTVal _ dtype shape (slice x offset (bytes_of dtype shape)))
| val_elsewhere t v : tval d0 t = Some v -> t_buffer t ∉ bufs.*1 -> operand_val cs (Elsewhere t) v.

Lemma nth_buffer_Some i b n : bufs !! i = Some (b, n) -> nth_buffer i = b.
Proof. intros E. unfold nth_buffer. by rewrite E. Qed.

Lemma holds_lookup d cs i b n x : holds d cs -> bufs !! i = Some (b, n) -> cs !! i = Some x ->
  buf d b = Some x /\ size_Z x = n.
Proof. intros [Hf _] Hb Hx. exact (Forall2_lookup_lr _ _ _ _ _ _ Hf Hb Hx). Qed.

Lemma nbytes_operand i offset dtype shape :
  nbytes (operand_tensor (Window i offset dtype shape)) = bytes_of dtype shape.
Proof. unfold nbytes. simpl. by rewrite view_nbytes_dense. Qed.

Lemma slice_all {A} (x : list A) n : size_Z x = n -> slice x 0 n = x.
Proof. intros <-. unfold slice, size_Z. simpl. apply take_ge. lia. Qed.

Lemma tval_window d cs i offset dtype shape b n x :
  holds d cs -> bufs !! i = Some (b, n) -> cs !! i = Some x ->
  0 <= offset -> 0 <= bytes_of dtype shape -> offset + bytes_of dtype shape <= n ->
  tval d (mkTensor _ (nth_buffer i) offset dtype shape (row_major shape).1) =
  Some (mkTVal _ dtype shape (slice x offset (bytes_of dtype shape))).
Proof.
  intros Hh Hb Hx Ho Hn Hle. destruct (holds_lookup d cs i b n x Hh Hb Hx) as [Hd Hsz]. unfold tval. simpl.
  rewrite (nth_buffer_Some i b n Hb), Hd. simpl. rewrite bool_decide_eq_true_2 by done.
  pose proof (nbytes_operand i offset dtype shape) as Hnb. unfold operand_tensor in Hnb.
  rewrite (nth_buffer_Some i b n Hb) in Hnb. rewrite Hnb, Hsz.
  by rewrite (proj2 (Z.leb_le _ _) Ho), (proj2 (Z.leb_le _ _) Hn), (proj2 (Z.leb_le _ _) Hle).
Qed.

Lemma operand_tval d cs a v : holds d cs -> operand_val cs a v -> tval d (operand_tensor a) = Some v.
Proof.
  intros Hh Hv. destruct Hv as [i dtype shape b x Hb Hx|i offset dtype shape b n x Hb Hx Ho Hn Hle|t v Ht Hout].
  - destruct (holds_lookup d cs i b _ x Hh Hb Hx) as [_ Hsz]. pose proof (size_Z_nonneg x).
    simpl. rewrite (tval_window d cs i 0 dtype shape b _ x Hh Hb Hx) by lia. by rewrite slice_all.
  - simpl. by apply (tval_window d cs i offset dtype shape b n x).
  - simpl. unfold tval in *. apply bind_Some in Ht as (l & Hl & Ht). by rewrite (h_rest _ _ Hh _ l).
Qed.

(** ** Writing *)

(** Where an operator writes: whole buffers or windows. *)
Definition written (a : Operand) (x c : list Z) : list Z :=
  match a with Window _ offset _ _ => splice c offset x | _ => x end.

Definition operand_index (a : Operand) : nat :=
  match a with Whole i _ _ => i | Window i _ _ _ => i | Elsewhere _ => 0 end.

(** The contents after writing the results to the outputs. *)
Fixpoint write_all (outs : list Operand) (xs : list (list Z)) (cs : list (list Z)) : list (list Z) :=
  match outs with
  | [] => cs
  | a :: outs => write_all outs (tl xs) (alter (written a (hd [] xs)) (operand_index a) cs)
  end.

(** An output is in the list. *)
Definition out_ok (a : Operand) : Prop :=
  match a with
  | Whole i dtype shape => exists b, bufs !! i = Some (b, bytes_of dtype shape)
  | Window i offset dtype shape => exists b n, bufs !! i = Some (b, n) /\ 0 <= offset /\ 0 <= bytes_of dtype shape /\
      offset + bytes_of dtype shape <= n
  | Elsewhere _ => False
  end.

(** Outputs and inputs overlap only when they are the same range. *)
Definition compatible (out arg : Operand) : Prop :=
  match out, arg with
  | _, Elsewhere _ => True
  | Whole _ _ _, Whole _ _ _ => True
  | Whole i _ _, Window j _ _ _ => i <> j
  | Window i _ _ _, Whole j _ _ => i <> j
  | Window i o dtype shape, Window j o' dtype' shape' =>
      i <> j \/ o = o' /\ bytes_of dtype shape = bytes_of dtype' shape'
  | Elsewhere _, _ => False
  end.

Lemma nth_buffer_inj i j b n b' n' : bufs !! i = Some (b, n) -> bufs !! j = Some (b', n') ->
  nth_buffer i = nth_buffer j -> i = j.
Proof.
  intros Hi Hj. rewrite (nth_buffer_Some i b n Hi), (nth_buffer_Some j b' n' Hj). intros ->.
  eapply (NoDup_lookup (bufs.*1)); [done|by rewrite list_lookup_fmap, Hi|by rewrite list_lookup_fmap, Hj].
Qed.

Lemma nth_buffer_in i b n : bufs !! i = Some (b, n) -> nth_buffer i ∈ bufs.*1.
Proof.
  intros Hi. rewrite (nth_buffer_Some i b n Hi). apply list_elem_of_fmap. exists (b, n). split; [done|].
  by eapply list_elem_of_lookup_2.
Qed.

Lemma compatible_apart cs out arg v : out_ok out -> operand_val cs arg v -> compatible out arg ->
  same_or_apart (operand_tensor out) (operand_tensor arg).
Proof.
  unfold same_or_apart. intros Ho Hv Hc.
  assert (forall i b n, bufs !! i = Some (b, n) -> forall t, t_buffer t ∉ bufs.*1 -> nth_buffer i <> t_buffer t) as Hout.
  { intros i b n Hi t Ht E. apply Ht. rewrite <-E. by eapply nth_buffer_in. }
  destruct Hv as [j dtype' shape' b' x Hb' _|j off' dtype' shape' b' n' x Hb' _ _ _ _|t v Ht Hnot];
    destruct out as [i dtype shape|i off dtype shape|u]; simpl in *; try done.
  - destruct Ho as [b Hb]. destruct (decide (i = j)) as [->|Hne]; [right|left; intros E; by eapply Hne, nth_buffer_inj].
    split; [done|]. rewrite Hb in Hb'. injection Hb' as _ Hn. unfold nbytes. simpl. rewrite !view_nbytes_dense. exact Hn.
  - destruct Ho as (b & n & Hb & _). left. intros E. by eapply Hc, nth_buffer_inj.
  - destruct Ho as [b Hb]. left. intros E. by eapply Hc, nth_buffer_inj.
  - destruct Ho as (b & n & Hb & _). destruct Hc as [Hne|[-> Hn]]; [left; intros E; by eapply Hne, nth_buffer_inj|right].
    split; [done|]. unfold nbytes. simpl. by rewrite !view_nbytes_dense.
  - destruct Ho as [b Hb]. left. by eapply Hout.
  - destruct Ho as (b & n & Hb & _). left. by eapply Hout.
Qed.

(** One write. *)
Lemma holds_store m m' cs a x :
  out_ok a -> size_Z x = nbytes (operand_tensor a) -> (forall b, m' b = store (operand_tensor a) x m b) ->
  Forall2 (fun bn c => m bn.1 = Some c /\ size_Z c = bn.2) bufs cs ->
  Forall2 (fun bn c => m' bn.1 = Some c /\ size_Z c = bn.2) bufs (alter (written a x) (operand_index a) cs) /\
  (forall b, b ∉ bufs.*1 -> m' b = m b).
Proof.
  intros Ho Hx Hm Hf.
  assert (exists i b n, operand_index a = i /\ bufs !! i = Some (b, n) /\ t_buffer (operand_tensor a) = b /\
    forall c, size_Z c = n -> splice c (t_offset (operand_tensor a)) x = written a x c /\ size_Z (written a x c) = n)
    as (i & b & n & Hi & Hb & Ht & Hs).
  { destruct a as [i dtype shape|i off dtype shape|t]; simpl in *; [| |done].
    - destruct Ho as [b Hb]. exists i, b, (bytes_of dtype shape). split_and!; try done; [by eapply nth_buffer_Some|].
      intros c Hc. unfold nbytes in Hx. simpl in Hx. rewrite view_nbytes_dense in Hx. fold (product shape) in Hx.
      unfold bytes_of in *. split; [|congruence]. unfold splice. simpl. rewrite drop_ge; [by rewrite app_nil_r|].
      unfold size_Z in *. lia.
    - destruct Ho as (b & n & Hb & H1 & H2 & H3). exists i, b, n. split_and!; try done; [by eapply nth_buffer_Some|].
      intros c Hc. split; [done|]. unfold nbytes in Hx. simpl in Hx. rewrite view_nbytes_dense in Hx.
      fold (product shape) in Hx. unfold bytes_of in *. rewrite size_splice; [done|]. unfold in_range. lia. }
  split.
  - rewrite Hi. apply Forall2_same_length_lookup_2.
    { rewrite length_alter. by eapply Forall2_length. }
    intros j [b' n'] c Hj Hc. destruct (decide (j = i)) as [->|Hne].
    + rewrite list_lookup_alter_eq in Hc. apply fmap_Some in Hc as (c0 & Hc0 & ->). rewrite Hb in Hj. injection Hj as <- <-.
      destruct (Forall2_lookup_lr _ _ _ _ _ _ Hf Hb Hc0) as [Hm0 Hsz]. simpl in *. destruct (Hs c0 Hsz) as [Hsp Hsz'].
      rewrite Hm. unfold store. rewrite decide_True by done. rewrite Hm0. simpl. by rewrite Hsp.
    + rewrite list_lookup_alter_ne in Hc by done. destruct (Forall2_lookup_lr _ _ _ _ _ _ Hf Hj Hc) as [Hm0 Hsz].
      simpl in *. split; [|done]. rewrite Hm. unfold store. rewrite decide_False; [done|]. rewrite Ht. intros ->.
      apply Hne. by eapply (NoDup_lookup (bufs.*1)); [done|rewrite list_lookup_fmap, Hj|rewrite list_lookup_fmap, Hb].
  - intros b' Hout. rewrite Hm. unfold store. rewrite decide_False; [done|]. rewrite Ht. intros ->. apply Hout.
    apply list_elem_of_fmap. exists (b, n). split; [done|]. by eapply list_elem_of_lookup_2.
Qed.

Lemma holds_stores outs xs m m' cs :
  Forall out_ok outs -> Forall2 (fun t x => size_Z x = nbytes t) (operand_tensor <$> outs) xs ->
  (forall b, m' b = stores (operand_tensor <$> outs) xs m b) ->
  Forall2 (fun bn c => m bn.1 = Some c /\ size_Z c = bn.2) bufs cs ->
  Forall2 (fun bn c => m' bn.1 = Some c /\ size_Z c = bn.2) bufs (write_all outs xs cs) /\
  (forall b, b ∉ bufs.*1 -> m' b = m b).
Proof.
  intros Ho. revert xs m cs. induction Ho as [|a outs Ha Ho IH]; intros xs m cs Hx Hm Hf.
  { simpl in *. split; [|done]. eapply Forall2_impl; [exact Hf|]. intros bn c. simpl. by rewrite Hm. }
  inversion Hx as [|? x ? xs' Hx1 Hx2]; subst. simpl in Hm.
  destruct (holds_store m (store (operand_tensor a) x m) cs a x Ha Hx1 (fun _ => eq_refl) Hf) as [Hf1 Hrest1].
  destruct (IH xs' (store (operand_tensor a) x m) _ Hx2 Hm Hf1) as [Hf2 Hrest2]. split; [exact Hf2|].
  intros b Hb. by rewrite Hrest2, Hrest1.
Qed.

(** ** Running operators

    [runs m P d]: [m] fails no assertion, keeps the sizes of all buffers since [d0], and
    delivers a value with [P] or an error. *)

Definition runs {A} (m : Dev D A) (P : A -> D -> Prop) (d : D) : Prop :=
  dwp m (fun r d' => keeps_sizes d0 d' /\ match r with Value a => P a d' | Unexpected _ => True end) d.

Lemma runs_bind {A B} (m : Dev D A) (f : A -> Dev D B) (P : A -> D -> Prop) (Q : B -> D -> Prop) d :
  runs m P d -> (forall a d', P a d' -> runs (f a) Q d') -> runs (m ≫= f) Q d.
Proof.
  intros Hm Hf. apply dwp_bind. eapply dwp_mono; [exact Hm|]. intros [a|e] d1 [Hk Ha]; [|done]. by apply Hf.
Qed.

Lemma runs_mono {A} (m : Dev D A) (P Q : A -> D -> Prop) d :
  runs m P d -> (forall a d', P a d' -> Q a d') -> runs m Q d.
Proof. intros Hm HQ. eapply dwp_mono; [exact Hm|]. intros [a|e] d1 [Hk Ha]; [|done]. split; [done|]. by apply HQ. Qed.

(** A computation that delivers its value without touching the device. *)
Lemma runs_exact {A B} (m : Dev D A) a (f : A -> Dev D B) (Q : B -> D -> Prop) d :
  m d = Some (Value a, d) -> runs (f a) Q d -> runs (m ≫= f) Q d.
Proof. intros E Hf. unfold runs, dwp, mbind, Dev_bind. by rewrite E. Qed.

(** A buffer of the list that is live in [d0] has its size there. *)
Context (Hd0 : forall b n l, (b, n) ∈ bufs -> buf d0 b = Some l -> size_Z l = n).

Lemma holds_sizes d cs : holds d cs -> keeps_sizes d0 d.
Proof.
  intros Hh b l Hl. destruct (decide (b ∈ bufs.*1)) as [Hin|Hout].
  - apply list_elem_of_fmap in Hin as ([b' n] & -> & Hin). pose proof (Hd0 b' n l Hin Hl) as Hs0. apply list_elem_of_lookup in Hin as [i Hi].
    destruct (Forall2_lookup_l _ _ _ _ _ (h_bufs _ _ Hh) Hi) as (x & Hx & Hb & Hs).
    simpl in *. exists x. split; [done|]. congruence.
  - exists l. split; [|done]. by apply (h_rest _ _ Hh).
Qed.

Lemma runs_ret {A} (a : A) (P : A -> D -> Prop) d cs : holds d cs -> P a d -> runs (mret a) P d.
Proof. intros Hh Ha. apply dwp_ret. split; [by eapply holds_sizes|done]. Qed.

(** The rule of an operator: its results go to the outputs, the rest stays. *)
Lemma runs_operator {A} run ins outs (f : KFun) (k : unit -> Dev D A) (Q : A -> D -> Prop) d cs vs :
  computes run (operand_tensor <$> ins) (operand_tensor <$> outs) f -> (forall d, keeps_sizes d (run d).2) ->
  holds d cs -> Forall2 (operand_val cs) ins vs -> Forall out_ok outs ->
  Forall (fun o => Forall (compatible o) ins) outs -> NoDup (operand_index <$> outs) ->
  (forall d', let xs := f (operand_type <$> outs) vs in
     Forall2 (fun a x => size_Z x = nbytes (operand_tensor a)) outs xs ->
     holds d' (write_all outs xs cs) -> runs (k tt) Q d') ->
  runs (dev_ccop run ≫= k) Q d.
Proof.
  intros Hrun Hsz Hh Hins Houts Hcompat Hnd HQ. apply dwp_bind, dwp_op. intros r d' E.
  destruct (run d) as [e d1] eqn:Er. simpl in E. injection E as <- <-.
  pose proof (Hsz d) as Hk. rewrite Er in Hk. simpl in Hk. destruct e as [e|]; simpl.
  { split; [|done]. etransitivity; [by eapply holds_sizes|exact Hk]. }
  assert (exists ws, Forall2 (fun t v => tval d t = Some v) (operand_tensor <$> outs) ws) as [ws Hws].
  { clear Hrun Hcompat Hnd HQ Hsz Er. induction Houts as [|o outs Ho _ [ws IH]]; [by exists []|].
    assert (exists w, tval d (operand_tensor o) = Some w) as [w Hw]; [|exists (w :: ws); by constructor].
    destruct o as [i dtype shape|i off dtype shape|t]; [| |done]; simpl in Ho.
    - destruct Ho as [b Hb]. destruct (Forall2_lookup_l _ _ _ _ _ (h_bufs _ _ Hh) Hb) as (x & Hx & _).
      eexists. by eapply operand_tval, val_whole.
    - destruct Ho as (b & n & Hb & H1 & H2 & H3). destruct (Forall2_lookup_l _ _ _ _ _ (h_bufs _ _ Hh) Hb) as (x & Hx & _).
      eexists. by eapply operand_tval, val_window. }
  cut (Forall2 (fun t x => size_Z x = nbytes t) (operand_tensor <$> outs) (f (operand_type <$> outs) vs) /\
       forall b, buf d1 b = stores (operand_tensor <$> outs) (f (operand_type <$> outs) vs) (buf d) b).
  { intros [Hx Hm]. apply HQ; [by apply Forall2_fmap_l in Hx|].
    destruct (holds_stores outs (f (operand_type <$> outs) vs) (buf d) (buf d1) cs Houts Hx Hm (h_bufs _ _ Hh)) as [Hf Hrest].
    split; [exact Hf|]. intros b l Hb Hl. rewrite Hrest by done. by apply (h_rest _ _ Hh). }
  rewrite <-operand_types. apply (Hrun d d1 vs ws Er).
  - apply Forall2_fmap_l. eapply Forall2_impl; [exact Hins|]. intros a v Hv. by eapply operand_tval.
  - done.
  - apply Forall_fmap. apply Forall_forall. intros o Ho. apply Forall_fmap. apply Forall_forall. intros a Ha. simpl.
    apply list_elem_of_lookup in Ha as [i Hi]. destruct (Forall2_lookup_l _ _ _ _ _ Hins Hi) as (v & _ & Hv).
    rewrite Forall_forall in Houts, Hcompat. eapply compatible_apart; [by apply Houts|exact Hv|].
    specialize (Hcompat o Ho). rewrite Forall_forall in Hcompat. apply Hcompat. by eapply list_elem_of_lookup_2.
  - clear Hrun Hcompat HQ Hsz Er Hws. induction Houts as [|o outs Ho Houts IH]; [constructor|]. cbn [fmap list_fmap] in *.
    apply NoDup_cons in Hnd as [Hn Hnd]. apply NoDup_cons. split; [|by apply IH]. intros Hin. apply Hn.
    apply list_elem_of_fmap in Hin as (t & Et & Ht). apply list_elem_of_fmap in Ht as (o' & -> & Ho').
    apply list_elem_of_fmap. exists o'. split; [|done]. rewrite Forall_forall in Houts. pose proof (Houts o' Ho') as Hok'.
    assert (forall o, out_ok o -> exists b n, bufs !! operand_index o = Some (b, n) /\ t_buffer (operand_tensor o) = nth_buffer (operand_index o)) as Hix.
    { clear. intros [i dtype shape|i off dtype shape|t]; simpl; [|  |done].
      - intros [b Hb]. by exists b, (bytes_of dtype shape).
      - intros (b & n & Hb & _). by exists b, n. }
    destruct (Hix o Ho) as (b & n & Hb & E1). destruct (Hix o' Hok') as (b' & n' & Hb' & E2).
    eapply nth_buffer_inj; [exact Hb|exact Hb'|]. congruence.
Qed.

(** An operator at the end. *)
Lemma runs_operator_last run ins outs (f : KFun) (Q : unit -> D -> Prop) d cs vs :
  computes run (operand_tensor <$> ins) (operand_tensor <$> outs) f -> (forall d, keeps_sizes d (run d).2) ->
  holds d cs -> Forall2 (operand_val cs) ins vs -> Forall out_ok outs ->
  Forall (fun o => Forall (compatible o) ins) outs -> NoDup (operand_index <$> outs) ->
  (forall d', let xs := f (operand_type <$> outs) vs in
     Forall2 (fun a x => size_Z x = nbytes (operand_tensor a)) outs xs ->
     holds d' (write_all outs xs cs) -> Q tt d') ->
  runs (dev_ccop run) Q d.
Proof.
  intros H1 H2 H3 H4 H5 H6 H7 HQ.
  assert (runs (dev_ccop run ≫= fun u => mret u) Q d) as Hr.
  { eapply runs_operator; try done. intros d' xs Hx Hh. eapply runs_ret; [exact Hh|]. by apply HQ. }
  unfold runs, dwp, mbind, Dev_bind, dev_ccop, dev_op in *. by destruct (map_result (run d).1).
Qed.
End rules.

(** ** Scratch buffers *)

Section scratch.
Context {D : Type} `{!Backend D} `{!BackendLaws D} `{!Ccop} `{!CcopLaws} `{!CcopViews} `{!Q8Storage} `{!CcopViewsLaws}.
Context (d0 : D).

(** Buffers allocated since [d0], with their sizes. *)
Record fresh_list (d : D) (bs : list (Z * Z)) : Prop := mk_fresh_list {
  fl_keeps : keeps_buffers d0 d;
  fl_nodup : NoDup bs.*1;
  fl_new : Forall (fun bn => buf d0 bn.1 = None /\ exists x, buf d bn.1 = Some x /\ size_Z x = bn.2) bs;
}.

Lemma fresh_nil : fresh_list d0 [].
Proof. split; [done|constructor|constructor]. Qed.

Lemma runs_alloc {A} dtype shape (k : Tensor -> Dev D A) (Q : A -> D -> Prop) d bs :
  fresh_list d bs -> 0 < dtype_size dtype <= SIZE_MAX -> Forall (fun x => x <= INT64_MAX) shape ->
  (forall b d', Forall (Z.lt 0) shape -> fresh_list d' (bs ++ [(b, bytes_of dtype shape)]) ->
     runs d0 (k (mkTensor _ b 0 dtype shape (row_major shape).1)) Q d') ->
  runs d0 (empty_tensor dtype shape ≫= k) Q d.
Proof.
  intros [Hk Hn Hf] Hd Hs HQ. apply dwp_bind. eapply dwp_mono; [by apply dwp_empty_fresh|].
  intros [t|e] d1 [K1 Ht]; [|split; [|done]; apply keeps_buffers_sizes; by etransitivity].
  destruct Ht as (Hok & (Ho & Hdt & Hsh & Hst) & Hfresh & Hnb & l & Hl & Hsz).
  destruct t as [tb off dt sh st]. simpl in *. subst off dt sh st. apply HQ; [by apply Hok|]. split.
  - by etransitivity.
  - rewrite fmap_app. apply NoDup_app. split; [done|]. split; [|apply NoDup_singleton]. intros b Hb Hin. simpl in Hin.
    apply list_elem_of_singleton in Hin as ->. apply list_elem_of_fmap in Hb as (bn & -> & Hin). rewrite Forall_forall in Hf.
    destruct (Hf bn Hin) as (_ & x & Hx & _). congruence.
  - apply Forall_app. split.
    + eapply Forall_impl; [exact Hf|]. intros bn (Hnone & x & Hx & Hsx). split; [done|]. exists x. split; [by apply K1|done].
    + apply Forall_singleton. simpl. split; [|exists l; split; [done|]; unfold bytes_of; congruence].
      destruct (buf d0 tb) as [y|] eqn:E; [|done]. apply Hk in E. congruence.
Qed.

Lemma runs_view {A} b dtype shape shape' (k : Tensor -> Dev D A) (Q : A -> D -> Prop) d bs i :
  fresh_list d bs -> bs !! i = Some (b, bytes_of dtype shape) -> Forall (Z.lt 0) shape -> product shape' = product shape ->
  runs d0 (k (mkTensor _ b 0 dtype shape' (row_major shape').1)) Q d ->
  runs d0 (view_dense (mkTensor _ b 0 dtype shape (row_major shape).1) shape' ≫= k) Q d.
Proof.
  intros [_ _ Hf] Hi Hp Hprod HQ. eapply Forall_lookup_1 in Hf as (_ & x & Hx & Hsz); [|exact Hi]. simpl in *.
  destruct (view_dense_spec d (mkTensor _ b 0 dtype shape (row_major shape).1) dtype shape shape' x) as (v & E & Hv & Hb); try done.
  destruct Hv as [(Ho & Hdt & Hsh & Hst) _]. simpl in Hb.
  assert (v = mkTensor _ b 0 dtype shape' (row_major shape').1) as -> by (destruct v; simpl in *; by subst).
  by eapply runs_exact.
Qed.

Lemma runs_flat {A} b dtype shape (k : Tensor -> Dev D A) (Q : A -> D -> Prop) d bs i :
  fresh_list d bs -> bs !! i = Some (b, bytes_of dtype shape) -> Forall (Z.lt 0) shape ->
  runs d0 (k (mkTensor _ b 0 dtype [product shape] (row_major [product shape]).1)) Q d ->
  runs d0 (flat (mkTensor _ b 0 dtype shape (row_major shape).1) ≫= k) Q d.
Proof.
  intros Hf Hi Hp HQ. unfold flat. assert (numel (mkTensor _ b 0 dtype shape (row_major shape).1) = product shape) as ->
    by (unfold numel; simpl; by rewrite view_numel_product).
  eapply runs_view; try done. unfold product. simpl. lia.
Qed.

(** The scratch buffers, and buffers of the caller, are what the operators work on. *)
Lemma fresh_holds d bs ext xs :
  fresh_list d bs -> NoDup ext.*1 -> Forall2 (fun bn x => buf d0 bn.1 = Some x /\ size_Z x = bn.2) ext xs ->
  NoDup (bs ++ ext).*1 /\
  (forall b n l, (b, n) ∈ bs ++ ext -> buf d0 b = Some l -> size_Z l = n) /\
  exists cs, length cs = length bs /\ holds (bs ++ ext) d0 d (cs ++ xs).
Proof.
  intros [Hk Hn Hf] Hext Hxs. rewrite fmap_app. split_and!.
  - apply NoDup_app. split; [done|]. split; [|done]. intros b Hb Hin.
    apply list_elem_of_fmap in Hb as (bn & -> & Hb). apply list_elem_of_fmap in Hin as (bn' & E & Hb').
    rewrite Forall_forall in Hf. destruct (Hf bn Hb) as [Hnone _]. apply list_elem_of_lookup in Hb' as [i Hi].
    destruct (Forall2_lookup_l _ _ _ _ _ Hxs Hi) as (x & _ & Hx & _). rewrite E in Hnone. congruence.
  - intros b n l Hin Hl. apply elem_of_app in Hin as [Hin|Hin].
    + rewrite Forall_forall in Hf. destruct (Hf _ Hin) as [Hnone _]. simpl in Hnone. congruence.
    + apply list_elem_of_lookup in Hin as [i Hi]. destruct (Forall2_lookup_l _ _ _ _ _ Hxs Hi) as (x & _ & Hx & Hs).
      simpl in *. congruence.
  - assert (exists cs, Forall2 (fun bn x => buf d bn.1 = Some x /\ size_Z x = bn.2) bs cs) as [cs Hcs].
    { clear Hn Hxs Hext. induction Hf as [|bn bs (_ & x & Hx & Hs) _ [cs IH]]; [by exists []|]. exists (x :: cs). by constructor. }
    exists cs. split; [symmetry; by eapply Forall2_length|]. split.
    + apply Forall2_app; [exact Hcs|]. eapply Forall2_impl; [exact Hxs|]. intros bn x [Hx Hs]. split; [by apply Hk|done].
    + intros b l _ Hl. by apply Hk.
Qed.
End scratch.
