(* ===== verification/RopeCache.v ===== *)
(** * The table of rotary angles: [model/rope/rope_cache.cpp]

    The cosine and sine of every position and pair, computed on the host and uploaded
    once.  [LibM] has the functions of the C library; they return the stored word. *)

From Stdlib Require Import ZArith Lia SpecFloat.
From stdpp Require Import prelude strings.
From S2P Require Import Prelude Base Config Bytes Floats Q8 Device SimDevice Tensor Qwen3Weights.

Class LibM := {
  powf : float32 -> float32 -> float32;
  cosf : float32 -> Z;
  sinf : float32 -> Z;
}.

(** [static_cast<float>] of an [int]. *)
Definition float_of_int (z : Z) : float32 := binary_normalize 24 128 z 0 false.

Record RopeCache := mkRopeCache {
  rc_max_position : Z;
  rc_rotary_dim : Z;
  rc_theta : float32;
  rc_cache : Z;
}.

Definition half_rotary_dim (c : RopeCache) : Z := Z.quot (rc_rotary_dim c) 2.
Definition rope_numel (c : RopeCache) : Z := u64 (u64 (u64 (rc_max_position c) * u64 (half_rotary_dim c)) * 2).
Definition rope_bytes (c : RopeCache) : Z := u64 (rope_numel c * 4).

Section create.
Context `{LibM}.

(** The loop over the inverse frequencies. *)
Definition inv_freq (rope_theta : float32) (rotary_dim pair : Z) : float32 :=
  SFdiv 24 128 f32_one (powf rope_theta (SFdiv 24 128 (float_of_int (2 * pair)) (float_of_int rotary_dim))).
Definition inv_freqs (rope_theta : float32) (rotary_dim : Z) : list float32 :=
  inv_freq rope_theta rotary_dim <$> (Z.of_nat <$> seq 0 (Z.to_nat (Z.quot rotary_dim 2))).

(** [(pos * half_dim + pair) * 2] in [int]. *)
Definition rope_index (half_dim pos pair : Z) : option Z :=
  row ← int_of (pos * half_dim);
  i ← int_of (row + pair);
  int_of (i * 2).

(** [host_cache[idx] = x]: writing past the end of the vector is undefined. *)
Definition write_float (cache : list Z) (idx x : Z) : option (list Z) :=
  if (0 <=? idx) && (idx <? size_Z cache) then Some (set_Z cache idx x) else None.

(** The loop over the pairs of a position. *)
Fixpoint fill_pairs (freqs : list float32) (half_dim pos : Z) (todo : nat) (pair : Z) (cache : list Z) : option (list Z) :=
  match todo with
  | O => Some cache
  | S todo =>
      freq ← at_Z freqs pair;
      let angle := SFmul 24 128 (float_of_int pos) freq in
      idx ← rope_index half_dim pos pair;
      cache ← write_float cache (idx + 0) (cosf angle);
      cache ← write_float cache (idx + 1) (sinf angle);
      fill_pairs freqs half_dim pos todo (pair + 1) cache
  end.

(** The loop over the positions. *)
Fixpoint fill_cache (freqs : list float32) (half_dim : Z) (todo : nat) (pos : Z) (cache : list Z) : option (list Z) :=
  match todo with
  | O => Some cache
  | S todo =>
      cache ← fill_pairs freqs half_dim pos (Z.to_nat half_dim) 0 cache;
      fill_cache freqs half_dim todo (pos + 1) cache
  end.

(** The bytes of a vector of floats. *)
Definition floats_bytes (l : list Z) : list Z := l ≫= le_bytes 4.

Context {D : Type} `{Backend D} `{Ccop}.

(** [RopeCache::create]. *)
Definition create_rope (max_position rotary_dim : Z) (rope_theta : float32) : Dev D RopeCache :=
  if (max_position <=? 0) || (rotary_dim <=? 0) || negb (Z.rem rotary_dim 2 =? 0) then dev_error InvalidArgument
  else if f32_le_zero rope_theta || negb (isfinite rope_theta) then dev_error InvalidArgument
  else
    let floats_per_pos := u64 rotary_dim in
    if SIZE_MAX / floats_per_pos <? u64 max_position then dev_error InvalidArgument
    else
      let total_floats := u64 (u64 max_position * floats_per_pos) in
      let half_dim := Z.quot rotary_dim 2 in
      host_cache ← dev_lift (fill_cache (inv_freqs rope_theta rotary_dim) half_dim (Z.to_nat max_position) 0
                               (repeat 0 (Z.to_nat total_floats)));
      buf ← dev_bytes (u64 (size_Z host_cache * 4)) (allocate_buffer (u64 (size_Z host_cache * 4)));
      _ ← dev_bytes (u64 (size_Z host_cache * 4)) (memcpy_h2d buf 0 (floats_bytes host_cache));
      _ ← dev_op synchronize;
      mret (mkRopeCache max_position rotary_dim rope_theta buf).

(** [RopeCache::tensor]. *)
Definition rope_tensor (c : RopeCache) : Dev D Tensor :=
  wrap_tensor (rc_cache c) kFloat32 [rc_max_position c; half_rotary_dim c; 2].
End create.

(** ** The contents of the table *)

Section table.
Context `{LibM}.

(** The two words of a pair, the row of a position, the table. *)
Definition rope_pair (theta : float32) (dim pos pair : Z) : list Z :=
  let angle := SFmul 24 128 (float_of_int pos) (inv_freq theta dim pair) in [cosf angle; sinf angle].
Definition rope_row (theta : float32) (dim pos : Z) : list Z :=
  seqZ 0 (dim / 2) ≫= rope_pair theta dim pos.
Definition rope_table (theta : float32) (dim max_position : Z) : list Z :=
  seqZ 0 max_position ≫= rope_row theta dim.

Lemma set_Z_app {A} (pre : list A) x rest y : set_Z (pre ++ x :: rest) (size_Z pre) y = pre ++ y :: rest.
Proof.
  unfold set_Z, size_Z. destruct (Z.leb_spec 0 (Z.of_nat (length pre))); [|lia].
  rewrite Nat2Z.id. by rewrite insert_app_r_alt, Nat.sub_diag.
Qed.

Lemma write_float_app pre x rest y : write_float (pre ++ x :: rest) (size_Z pre) y = Some (pre ++ y :: rest).
Proof.
  unfold write_float. rewrite set_Z_app. unfold size_Z. rewrite length_app. cbn [length].
  destruct (Z.leb_spec 0 (Z.of_nat (length pre))), (Z.ltb_spec (Z.of_nat (length pre)) (Z.of_nat (length pre + S (length rest))));
    done || lia.
Qed.

Lemma rope_index_ok half pos pair n : 0 <= pos -> 0 <= pair < half -> (pos * half + pair) * 2 <= n -> n <= INT_MAX ->
  rope_index half pos pair = Some ((pos * half + pair) * 2).
Proof.
  intros Hp Hr Hn Hmax. unfold rope_index, INT_MAX in *. assert (0 <= pos * half) by nia.
  rewrite int_of_ok by (unfold INT_MIN, INT_MAX; lia). unfold mbind, option_bind.
  rewrite int_of_ok by (unfold INT_MIN, INT_MAX; lia). apply int_of_ok. unfold INT_MIN, INT_MAX. lia.
Qed.

Lemma inv_freqs_lookup theta dim pair : 0 <= pair < dim / 2 -> 0 <= dim ->
  at_Z (inv_freqs theta dim) pair = Some (inv_freq theta dim pair).
Proof.
  intros Hp Hd. unfold inv_freqs. rewrite Z.quot_div_nonneg by lia. unfold at_Z. destruct (Z.leb_spec 0 pair); [|lia].
  rewrite !list_lookup_fmap, lookup_seq_lt by lia. simpl. by rewrite Z2Nat.id by lia.
Qed.

Section fill.
Context (theta : float32) (dim : Z) (Hdim : 0 < dim) (n : Z) (Hmax : n * dim <= INT_MAX).
Notation half := (dim / 2).

Lemma fill_pairs_spec pos todo pair pre rest :
  0 <= pos < n -> 0 <= pair -> pair + Z.of_nat todo <= half ->
  size_Z pre = (pos * half + pair) * 2 -> (2 * todo <= length rest)%nat ->
  fill_pairs (inv_freqs theta dim) half pos todo pair (pre ++ rest) =
  Some ((pre ++ (seqZ pair (Z.of_nat todo) ≫= rope_pair theta dim pos)) ++ drop (2 * todo) rest).
Proof.
  intros Hpos. revert pair pre rest. induction todo as [|todo IH]; intros pair pre rest Hp Hle Hpre Hrest.
  { simpl. by rewrite app_nil_r. }
  assert (half * 2 <= dim) by (pose proof (Z.mul_div_le dim 2); lia).
  destruct rest as [|x [|y rest]]; [simpl in Hrest; lia..|]. cbn [fill_pairs].
  rewrite inv_freqs_lookup by lia. unfold mbind at 1, option_bind at 1.
  rewrite (rope_index_ok _ _ _ (n * dim)) by (try done; try lia; nia). unfold mbind at 1, option_bind at 1.
  rewrite Z.add_0_r, <-Hpre, write_float_app. unfold mbind at 1, option_bind at 1.
  set (c := cosf _). set (s := sinf _).
  replace (pre ++ c :: y :: rest) with ((pre ++ [c]) ++ y :: rest) by (by rewrite <-app_assoc).
  replace (size_Z pre + 1) with (size_Z (pre ++ [c])) by (unfold size_Z; rewrite length_app; simpl; lia).
  rewrite write_float_app. unfold mbind at 1, option_bind at 1.
  replace ((pre ++ [c]) ++ s :: rest) with ((pre ++ [c; s]) ++ rest) by (by rewrite <-!app_assoc).
  rewrite IH; [|lia|lia|unfold size_Z in *; rewrite length_app; simpl; lia|simpl in Hrest; lia].
  rewrite (seqZ_cons pair) by lia. rewrite bind_cons. replace (Z.pred (Z.of_nat (S todo))) with (Z.of_nat todo) by lia.
  rewrite <-Z.add_1_r, <-!app_assoc.
  replace (2 * S todo)%nat with (S (S (2 * todo))) by lia. done.
Qed.

Lemma length_rope_row pos : 0 <= half -> size_Z (rope_row theta dim pos) = half * 2.
Proof.
  intros Hh. unfold rope_row, size_Z. rewrite <-(Z2Nat.id half) at 2 by done. rewrite <-(length_seqZ 0 half).
  induction (seqZ 0 half) as [|x l IH]; [done|]. rewrite bind_cons, length_app, Nat2Z.inj_add, IH. simpl length. lia.
Qed.

Lemma fill_cache_spec todo pos pre rest :
  0 <= pos -> pos + Z.of_nat todo <= n -> size_Z pre = pos * (half * 2) -> size_Z rest = Z.of_nat todo * (half * 2) ->
  fill_cache (inv_freqs theta dim) half todo pos (pre ++ rest) =
  Some (pre ++ (seqZ pos (Z.of_nat todo) ≫= rope_row theta dim)).
Proof.
  assert (0 <= half) as Hh by (apply Z.div_pos; lia).
  revert pos pre rest. induction todo as [|todo IH]; intros pos pre rest Hp Hle Hpre Hrest.
  { destruct rest; [done|]. unfold size_Z in Hrest. simpl in Hrest. lia. }
  cbn [fill_cache]. rewrite fill_pairs_spec; [|lia|lia|rewrite Z2Nat.id; lia|lia|unfold size_Z in Hrest; nia].
  unfold mbind at 1, option_bind at 1. rewrite Z2Nat.id by done. fold (rope_row theta dim pos).
  rewrite IH; [|lia|lia| |unfold size_Z in *; rewrite length_drop; nia].
  - rewrite (seqZ_cons pos) by lia. rewrite bind_cons. replace (Z.pred (Z.of_nat (S todo))) with (Z.of_nat todo) by lia.
    by rewrite <-Z.add_1_r, <-app_assoc.
  - pose proof (length_rope_row pos Hh). unfold size_Z in *. rewrite length_app. nia.
Qed.
End fill.
End table.

(** ** Reading the table *)

Section lookup.
Context `{LibM} (theta : float32) (dim : Z) (Hdim : 0 < dim) (Heven : Z.rem dim 2 = 0).

Lemma even_half : dim / 2 * 2 = dim.
Proof. rewrite Z.rem_mod_nonneg in Heven by lia. pose proof (Z.div_mod dim 2). lia. Qed.

Lemma size_rope_rows n : 0 <= n -> size_Z (rope_table theta dim n) = n * dim.
Proof.
  intros Hn. unfold rope_table, size_Z. rewrite <-(length_seqZ 0 n) at 1 || idtac.
  transitivity (Z.of_nat (length (seqZ 0 n)) * dim); [|rewrite length_seqZ; lia].
  induction (seqZ 0 n) as [|x l IH]; [done|]. rewrite bind_cons, length_app, Nat2Z.inj_add, IH.
  pose proof (length_rope_row theta dim x ltac:(apply Z.div_pos; lia)) as Hr. unfold size_Z in Hr.
  rewrite Hr, even_half. simpl length. lia.
Qed.

(** Element [j] of block [i] of equally long blocks. *)
Lemma bind_lookup {A B} (f : A -> list B) (k : nat) (l : list A) i j x :
  (forall a, length (f a) = k) -> l !! i = Some x -> (j < k)%nat -> (l ≫= f) !! (i * k + j)%nat = f x !! j.
Proof.
  intros Hk. revert i. induction l as [|a l IH]; intros i Hi Hj; [done|]. rewrite bind_cons. destruct i as [|i]; simpl in Hi.
  - injection Hi as ->. rewrite lookup_app_l; [done|]. rewrite Hk. lia.
  - rewrite lookup_app_r, Hk by (rewrite Hk; lia). replace (S i * k + j - k)%nat with (i * k + j)%nat by lia. by apply IH.
Qed.

Lemma rope_table_lookup n pos pair : 0 <= pos < n -> 0 <= pair < dim / 2 ->
  let i := (pos * (dim / 2) + pair) * 2 in
  let angle := SFmul 24 128 (float_of_int pos) (inv_freq theta dim pair) in
  at_Z (rope_table theta dim n) i = Some (cosf angle) /\ at_Z (rope_table theta dim n) (i + 1) = Some (sinf angle).
Proof.
  intros Hpos Hpair i angle. pose proof even_half as He. assert (0 <= pos * (dim / 2)) by nia.
  assert (forall p, length (rope_row theta dim p) = Z.to_nat dim) as Hrow.
  { intros p. pose proof (length_rope_row theta dim p ltac:(lia)) as Hr. unfold size_Z in Hr. lia. }
  assert (forall j, (j < 2)%nat ->
    at_Z (rope_table theta dim n) (i + Z.of_nat j) = rope_pair theta dim pos pair !! j) as Hat.
  { intros j Hj. unfold at_Z, i. destruct (Z.leb_spec 0 ((pos * (dim / 2) + pair) * 2 + Z.of_nat j)); [|lia].
    replace (Z.to_nat _) with (Z.to_nat pos * Z.to_nat dim + (Z.to_nat pair * 2 + j))%nat by nia.
    unfold rope_table. rewrite (bind_lookup _ (Z.to_nat dim) _ _ _ pos Hrow); [|apply lookup_seqZ; lia|nia].
    unfold rope_row. apply (bind_lookup _ 2%nat); [done|apply lookup_seqZ; lia|done]. }
  split; [rewrite <-(Z.add_0_r i); apply (Hat 0%nat)|apply (Hat 1%nat)]; lia.
Qed.
End lookup.

Lemma size_floats_bytes l : size_Z (floats_bytes l) = size_Z l * 4.
Proof.
  induction l as [|x l IH]; [done|]. unfold floats_bytes in *. rewrite bind_cons. unfold size_Z in *.
  rewrite length_app, length_le_bytes. cbn [length]. lia.
Qed.

Section sound.
Context {D : Type} `{!Backend D} `{!BackendLaws D} `{!Ccop} `{!CcopLaws} `{!CcopViews} `{!Q8Storage} `{!CcopViewsLaws} `{LibM}.

(** The buffer of a created table. *)
Definition rope_holds (d : D) (c : RopeCache) : Prop :=
  buf d (rc_cache c) = Some (floats_bytes (rope_table (rc_theta c) (rc_rotary_dim c) (rc_max_position c))).

(** The host computes the table. *)
Lemma fill_cache_table max_position rotary_dim rope_theta :
  0 < max_position -> 0 < rotary_dim -> Z.rem rotary_dim 2 = 0 -> max_position * rotary_dim <= INT_MAX ->
  fill_cache (inv_freqs rope_theta rotary_dim) (Z.quot rotary_dim 2) (Z.to_nat max_position) 0
    (repeat 0 (Z.to_nat (max_position * rotary_dim))) = Some (rope_table rope_theta rotary_dim max_position).
Proof.
  intros Hn Hdim Heven Hmax. pose proof (even_half rotary_dim Hdim Heven) as He. rewrite Z.quot_div_nonneg by lia.
  pose proof (fill_cache_spec rope_theta rotary_dim Hdim max_position Hmax (Z.to_nat max_position) 0 []
    (repeat 0 (Z.to_nat (max_position * rotary_dim)))) as Hf.
  rewrite app_nil_l in Hf. rewrite Hf; [by rewrite Z2Nat.id by lia|lia|lia|done|].
  unfold size_Z. rewrite repeat_length. nia.
Qed.

(** A new buffer with the given contents. *)
Lemma dwp_upload_table {B} x (f : Z -> Dev D B) (Q : B -> D -> Prop) d :
  0 < size_Z x ->
  (forall b d', keeps_buffers d d' -> buf d b = None -> buf d' b = Some x -> loads (f b) Q d') ->
  loads (buf ← dev_bytes (size_Z x) (allocate_buffer (size_Z x)); _ ← dev_bytes (size_Z x) (memcpy_h2d buf 0 x); f buf) Q d.
Proof.
  intros Hx Hf. apply dwp_bind, dwp_bytes; [done|]. intros [b|e] d1 Ea.
  2: { split; [|done]. apply same_keeps. by eapply allocate_err. }
  destruct (allocate_ok (size_Z x) d d1 b ltac:(lia) Ea) as (Hb & (l & Hl & Hsz) & Ho).
  assert (keeps_buffers d d1) as K1 by (by eapply only_fresh). apply dwp_bind, dwp_bytes; [done|]. intros [[]|e] d2 Eh.
  2: { split; [|done]. etransitivity; [exact K1|]. apply same_keeps. by eapply memcpy_h2d_err. }
  destruct (memcpy_h2d_ok b 0 x d1 d2 l Hl) as [Hl2 Ho2]; [unfold in_range; lia|done|].
  assert (keeps_buffers d d2) as K2 by (by eapply keeps_only_fresh).
  eapply dwp_mono; [apply (Hf b d2 K2 Hb)|].
  - rewrite Hl2. f_equal. unfold splice. simpl. rewrite drop_ge by (unfold size_Z in *; lia). by rewrite app_nil_r.
  - intros r d' [K Hr]. split; [by etransitivity|done].
Qed.

(** The view of a table whose sizes fit. *)
Lemma rope_tensor_spec c d :
  0 < rc_max_position c -> 0 < rc_rotary_dim c -> Z.rem (rc_rotary_dim c) 2 = 0 ->
  rc_max_position c * rc_rotary_dim c <= INT_MAX -> rope_holds d c ->
  exists t, rope_tensor c d = Some (Value t, d) /\ t_buffer t = rc_cache c /\
    whole_tensor t kFloat32 [rc_max_position c; rc_rotary_dim c / 2; 2] /\ nbytes t = rope_bytes c.
Proof.
  intros Hn Hdim Heven Hmax Hh. pose proof (even_half _ Hdim Heven) as He. unfold INT_MAX in *.
  assert (rc_max_position c < 2 ^ 32 /\ rc_rotary_dim c < 2 ^ 32) as [Hn' Hd'] by nia.
  assert (rope_bytes c = rc_max_position c * rc_rotary_dim c * 4) as Hrb.
  { unfold rope_bytes, rope_numel, half_rotary_dim. rewrite Z.quot_div_nonneg by lia.
    assert (rc_max_position c * (rc_rotary_dim c / 2) * 2 = rc_max_position c * rc_rotary_dim c) as Hp by nia.
    rewrite (u64_small (rc_max_position c)), (u64_small (rc_rotary_dim c / 2)) by lia.
    rewrite (u64_small (rc_max_position c * _)) by nia. rewrite Hp. rewrite (u64_small (rc_max_position c * _)) by nia.
    rewrite u64_small by nia. lia. }
  set (shape := [rc_max_position c; rc_rotary_dim c / 2; 2]).
  exists (mkTensor _ (rc_cache c) 0 kFloat32 shape (view_strides shape)).
  assert (nbytes (mkTensor _ (rc_cache c) 0 kFloat32 shape (view_strides shape)) = rc_max_position c * rc_rotary_dim c * 4) as Hnb.
  { unfold nbytes. simpl. rewrite view_nbytes_dense, float32_size. simpl. nia. }
  split_and!; [|done| |by rewrite Hnb, Hrb].
  - unfold rope_tensor, wrap_tensor, buffer_bytes, dev_lift, mbind, Dev_bind, half_rotary_dim.
    rewrite Z.quot_div_nonneg by lia. unfold rope_holds in Hh. fold shape. rewrite Hh, Hnb. unfold dev_assert.
    rewrite size_floats_bytes, size_rope_rows by lia.
    by destruct (Z.leb_spec (rc_max_position c * rc_rotary_dim c * 4) (rc_max_position c * rc_rotary_dim c * 4)); [|lia].
  - unfold whole_tensor. simpl. by rewrite strides_row_major.
Qed.

Lemma loads_rope max_position rotary_dim rope_theta d :
  0 < max_position -> 0 < rotary_dim -> Z.rem rotary_dim 2 = 0 -> isfinite rope_theta = true ->
  f32_le_zero rope_theta = false -> max_position * rotary_dim <= INT_MAX ->
  loads (create_rope max_position rotary_dim rope_theta) (fun c d' =>
    c = mkRopeCache max_position rotary_dim rope_theta (rc_cache c) /\ buf d (rc_cache c) = None /\ rope_holds d' c) d.
Proof.
  intros Hn Hdim Heven Hfin Hpos Hmax. unfold create_rope. rewrite Hfin, Hpos.
  destruct (Z.leb_spec max_position 0), (Z.leb_spec rotary_dim 0), (Z.eqb_spec (Z.rem rotary_dim 2) 0); try lia. cbn [negb orb].
  assert (max_position < 2 ^ 32 /\ rotary_dim < 2 ^ 32) as [Hn' Hd'] by (unfold INT_MAX in *; nia).
  rewrite (u64_small rotary_dim), (u64_small max_position), (u64_small (max_position * rotary_dim)) by (unfold INT_MAX in *; nia).
  destruct (Z.ltb_spec (SIZE_MAX / rotary_dim) max_position) as [Hlt|_].
  { exfalso. assert (max_position <= SIZE_MAX / rotary_dim); [|lia]. apply Z.div_le_lower_bound; [lia|].
    unfold SIZE_MAX, INT_MAX in *. nia. }
  eapply loads_lift_bind; [by apply fill_cache_table|]. set (table := rope_table _ _ _).
  pose proof (size_floats_bytes table) as Hfb. pose proof (size_rope_rows rope_theta rotary_dim Hdim Heven max_position) as Hst.
  fold table in Hst. rewrite u64_small by (unfold INT_MAX in *; lia). rewrite <-Hfb. apply dwp_upload_table; [rewrite Hfb, Hst; nia|]. intros b d1 K1 Hb Hl.
  eapply loads_bind with (P := fun _ d' => keeps_buffers d1 d').
  { apply dwp_op. intros r d2 Es. assert (keeps_buffers d1 d2) by (apply same_keeps; by eapply synchronize_keeps). by destruct r. }
  intros [] d2 K2 _. apply loads_ret. pose proof (K2 _ _ Hl) as Hl2. done.
Qed.

(** Arguments [RopeCache::create] refuses. *)
Definition rope_refused (max_position rotary_dim : Z) (rope_theta : float32) : bool :=
  (max_position <=? 0) || (rotary_dim <=? 0) || negb (Z.rem rotary_dim 2 =? 0) ||
  f32_le_zero rope_theta || negb (isfinite rope_theta).

Lemma create_rope_refuses max_position rotary_dim rope_theta d :
  rope_refused max_position rotary_dim rope_theta = true ->
  create_rope max_position rotary_dim rope_theta d = Some (Unexpected InvalidArgument, d).
Proof.
  unfold rope_refused, create_rope. destruct (max_position <=? 0), (rotary_dim <=? 0), (Z.rem rotary_dim 2 =? 0); try done.
  by destruct (f32_le_zero rope_theta), (isfinite rope_theta).
Qed.

Lemma rope_accepted max_position rotary_dim rope_theta :
  rope_refused max_position rotary_dim rope_theta = false ->
  0 < max_position /\ 0 < rotary_dim /\ Z.rem rotary_dim 2 = 0 /\ isfinite rope_theta = true /\ f32_le_zero rope_theta = false.
Proof.
  unfold rope_refused. destruct (Z.leb_spec max_position 0), (Z.leb_spec rotary_dim 0), (Z.eqb_spec (Z.rem rotary_dim 2) 0); try done.
  by destruct (f32_le_zero rope_theta), (isfinite rope_theta).
Qed.

(** C11: Creating a rope cache.  A non-positive size, an odd rotary dimension and a theta
    that is not positive and finite are refused with [InvalidArgument] before the device
    is used.  Any other arguments with [max_position * rotary_dim <= INT_MAX] (which the
    code does not check: beyond it the [int] index overflows) fail no assertion and are
    free of undefined behaviour: a device error is reported and live buffers are kept, or
    the new buffer holds, for every position and pair, the cosine and the sine of the
    position times the inverse frequency of the pair, at the offset the tensor view gives
    them. *)
Theorem rope_cache_exact max_position rotary_dim rope_theta d :
  max_position * rotary_dim <= INT_MAX ->
  if rope_refused max_position rotary_dim rope_theta
  then create_rope max_position rotary_dim rope_theta d = Some (Unexpected InvalidArgument, d)
  else dwp (create_rope max_position rotary_dim rope_theta) (fun r d' => keeps_buffers d d' /\
    match r with
    | Value c =>
        c = mkRopeCache max_position rotary_dim rope_theta (rc_cache c) /\ buf d (rc_cache c) = None /\ rope_holds d' c /\
        (exists t, rope_tensor c d' = Some (Value t, d') /\ t_buffer t = rc_cache c /\
          whole_tensor t kFloat32 [max_position; rotary_dim / 2; 2] /\ nbytes t = rope_bytes c) /\
        forall pos pair, 0 <= pos < max_position -> 0 <= pair < rotary_dim / 2 ->
          let angle := SFmul 24 128 (float_of_int pos) (inv_freq rope_theta rotary_dim pair) in
          let i := (pos * (rotary_dim / 2) + pair) * 2 in
          at_Z (rope_table rope_theta rotary_dim max_position) i = Some (cosf angle) /\
          at_Z (rope_table rope_theta rotary_dim max_position) (i + 1) = Some (sinf angle)
    | Unexpected _ => True
    end) d.
Proof.
  intros Hmax. destruct (rope_refused _ _ _) eqn:Er; [by apply create_rope_refuses|].
  destruct (rope_accepted _ _ _ Er) as (Hn & Hdim & Heven & Hfin & Hpos).
  eapply loads_mono; [by apply loads_rope|]. intros c d' K (Ec & Hb & Hh). split_and!; try done.
  - rewrite Ec in Hh |- *. by apply (rope_tensor_spec (mkRopeCache max_position rotary_dim rope_theta (rc_cache c))).
  - intros pos pair Hp Hq. by apply rope_table_lookup.
Qed.
End sound.

(** ** Two positions of a small head *)

#[export] Instance sim_libm : LibM := {
  powf x y := SFmul 24 128 x (SFadd 24 128 f32_one y); cosf x := bits_of_float 8 23 0 x; sinf x := 7;
}.

Lemma rope_cache_exact_witness :
  exists c d', create_rope 2 4 f32_one (mkSim [] []) = Some (Value c, d') /\ rope_holds d' c /\
    rope_table f32_one 4 2 = [0; 7; 0; 7; 1065353216; 7; 1059760811; 7].
Proof.
  destruct (rope_cache_exact 2 4 f32_one (mkSim [] []) ltac:(vm_compute; discriminate))
    as (r & d' & E & _ & H).
  destruct r as [c|e]; [|exfalso; revert E; vm_compute; discriminate].
  exists c, d'. split; [exact E|]. split; [exact (proj1 (proj2 (proj2 H)))|vm_compute; reflexivity].
Defined.

(** The index of a large table does not fit [int]. *)
Example rope_index_overflows : rope_index 64 16777216 0 = None.
Proof. reflexivity. Qed.
