(* ===== verification/Qwen3Ref.v ===== *)
(** * The Qwen3 transformer as a function of tensor values

    What the forward pass of [model/qwen3/qwen3_model.cpp] computes, with no device, no
    buffers and no swaps: the specification that [Qwen3Props] shows it implements. *)

From Stdlib Require Import ZArith Lia SpecFloat.
From stdpp Require Import prelude strings.
From S2P Require Import Prelude Base Config Device BlockStorage Model RopeCache Kernels.

(** The weights of a layer and of the model. *)
Record LayerVals `{Ccop} := mkLayerVals {
  lv_rms_attn : TVal;
  lv_qkv : TVal;
  lv_q_norm : option TVal;
  lv_k_norm : option TVal;
  lv_o : TVal;
  lv_rms_ffn : TVal;
  lv_gate : TVal;
  lv_up : TVal;
  lv_down : TVal;
}.

Record ModelVals `{Ccop} := mkModelVals {
  mv_embed : TVal;
  mv_layers : list LayerVals;
  mv_rms_final : TVal;
  mv_lm_head : TVal;
  mv_rope : TVal;
}.

(** The arrays of a batch. *)
Record InputVals `{Ccop} := mkInputVals {
  iv_token_ids : TVal;
  iv_positions : TVal;
  iv_slots : TVal;
  iv_block_table : TVal;
  iv_starts : TVal;
  iv_lens : TVal;
}.

(** The KV storage: the bytes of all key layers and of all value layers. *)
Record KvVals := mkKvVals { kv_keys : list Z; kv_values : list Z }.

Section transformer.
Context `{Ccop} `{!KernelSem}.
Context (cfg : ModelConfig) (storage : BlockStorage) (T : Z).

Notation D := (d_model_ cfg).
Notation nq := (n_q_heads_ cfg).
Notation nkv := (n_kv_heads_ cfg).
Notation hd := (head_dim_ cfg).
Notation d_ff := (d_ff_ cfg).
Notation eps := (rms_norm_eps_ cfg).

Definition bf (shape x : list Z) : TVal := mkTVal _ kBFloat16 shape x.

(** The only, the first, the second and the third result of an operator. *)
Definition out1 (xs : list (list Z)) : list Z := List.hd [] xs.
Definition out2 (xs : list (list Z)) : list Z := List.hd [] (tl xs).
Definition out3 (xs : list (list Z)) : list Z := List.hd [] (tl (tl xs)).

(** [x * w^T] with the given shape. *)
Definition ref_project (dtype : DType) (shape : list Z) (x w : TVal) : list Z :=
  out1 (gemm_sem false true f32_one [(dtype, shape)] [x; w]).

Definition ref_norm (shape x : list Z) (w : TVal) : list Z := out1 (rms_norm_sem eps [(kBFloat16, shape)] [bf shape x; w]).

Definition ref_optional_norm (shape x : list Z) (w : option TVal) : list Z :=
  match w with Some w => ref_norm shape x w | None => x end.

(** Queries, keys and values of the heads, rotated to their positions. *)
Definition ref_heads (lv : LayerVals) (iv : InputVals) (rope_table : TVal) (h : list Z) : list Z * list Z * list Z :=
  let qkv_dim := (nq + 2 * nkv) * hd in
  let normed := ref_norm [T; D] h (lv_rms_attn lv) in
  let qkv := ref_project kBFloat16 [T; qkv_dim] (bf [T; D] normed) (lv_qkv lv) in
  let parts := split_qkv_sem [(kBFloat16, [T; nq; hd]); (kBFloat16, [T; nkv; hd]); (kBFloat16, [T; nkv; hd])] [bf [T; qkv_dim] qkv] in
  let q := ref_optional_norm [T * nq; hd] (out1 parts) (lv_q_norm lv) in
  let k := ref_optional_norm [T * nkv; hd] (out2 parts) (lv_k_norm lv) in
  let rotated := rope_sem hd [(kBFloat16, [T; nq; hd]); (kBFloat16, [T; nkv; hd])]
                   [bf [T; nq; hd] q; bf [T; nkv; hd] k; iv_positions iv; rope_table] in
  (out1 rotated, out2 rotated, out3 parts).

(** The slot view and the block view of a cache layer. *)
Definition kv_shape : list Z := [max_slots_ storage; num_kv_heads_ storage; bs_head_dim_ storage].
Definition kv_block_shape : list Z :=
  [bs_max_blocks_ storage; bs_block_size_ storage; num_kv_heads_ storage; bs_head_dim_ storage].
Definition kv_layer (l : Z) (cache : list Z) : list Z :=
  slice cache (l * (layer_stride_ storage * elem_size_ storage)) (layer_stride_ storage * elem_size_ storage).
Definition set_kv_layer (l : Z) (cache x : list Z) : list Z :=
  splice cache (l * (layer_stride_ storage * elem_size_ storage)) x.

(** The batch is written to the cache, then every query attends to it. *)
Definition ref_attention (iv : InputVals) (mode : ForwardMode) (scale : float32) (l : Z) (q k v : list Z) (kv : KvVals)
  : list Z * KvVals :=
  let dtype := bs_dtype_ storage in
  let written := write_kv_cache_sem [(dtype, kv_shape); (dtype, kv_shape)]
    [bf [T; nkv; hd] k; bf [T; nkv; hd] v; mkTVal _ dtype kv_shape (kv_layer l (kv_keys kv));
     mkTVal _ dtype kv_shape (kv_layer l (kv_values kv)); iv_slots iv] in
  let kv := mkKvVals (set_kv_layer l (kv_keys kv) (out1 written)) (set_kv_layer l (kv_values kv) (out2 written)) in
  let keys := mkTVal _ dtype kv_block_shape (kv_layer l (kv_keys kv)) in
  let values := mkTVal _ dtype kv_block_shape (kv_layer l (kv_values kv)) in
  let out := [(kBFloat16, [T; nq; hd])] in
  (out1 (if bool_decide (mode = FwdDecode)
         then decode_attention_sem scale out [bf [T; nq; hd] q; keys; values; iv_block_table iv; iv_lens iv]
         else prefill_attention_sem scale out [bf [T; nq; hd] q; keys; values; iv_block_table iv; iv_starts iv; iv_lens iv]),
   kv).

(** A projection of [x] added to the hidden state. *)
Definition ref_residual (x : TVal) (w : TVal) (h : list Z) : list Z :=
  let y := ref_project kBFloat16 [T; D] x w in
  let n := product [T; D] in
  out1 (element_add_sem [(kBFloat16, [n])] [bf [n] y; bf [n] h]).

Definition ref_ffn (lv : LayerVals) (h : list Z) : list Z :=
  let normed := ref_norm [T; D] h (lv_rms_ffn lv) in
  let gate := ref_project kBFloat16 [T; d_ff] (bf [T; D] normed) (lv_gate lv) in
  let up := ref_project kBFloat16 [T; d_ff] (bf [T; D] normed) (lv_up lv) in
  let n := product [T; d_ff] in
  out1 (silu_mul_sem [(kBFloat16, [n])] [bf [n] gate; bf [n] up]).

(** One layer: the hidden state and the cache. *)
Definition ref_layer (iv : InputVals) (mode : ForwardMode) (scale : float32) (rope_table : TVal) (l : Z) (lv : LayerVals)
    (st : list Z * KvVals) : list Z * KvVals :=
  let '(h, kv) := st in
  let '(q, k, v) := ref_heads lv iv rope_table h in
  let '(attn, kv) := ref_attention iv mode scale l q k v kv in
  let h := ref_residual (bf [T; nq * hd] attn) (lv_o lv) h in
  let act := ref_ffn lv h in
  (ref_residual (bf [T; d_ff] act) (lv_down lv) h, kv).

Fixpoint ref_layers (iv : InputVals) (mode : ForwardMode) (scale : float32) (rope_table : TVal) (l : Z) (lvs : list LayerVals)
    (st : list Z * KvVals) : list Z * KvVals :=
  match lvs with
  | [] => st
  | lv :: lvs => ref_layers iv mode scale rope_table (l + 1) lvs (ref_layer iv mode scale rope_table l lv st)
  end.

(** The logits of a row of the final hidden state. *)
Definition ref_logits (lm_head : TVal) (normed : list Z) (row : Z) : list Z :=
  ref_project kFloat32 [1; vocab_size_ cfg] (bf [1; D] (slice normed (row * (D * 2)) (D * 2))) lm_head.

(** The whole pass: the logits of the asked rows and the cache. *)
Definition ref_forward (mv : ModelVals) (iv : InputVals) (mode : ForwardMode) (rows : list Z) (kv : KvVals)
  : list (list Z) * KvVals :=
  let h := out1 (embed_sem [(kBFloat16, [T; D])] [mv_embed mv; iv_token_ids iv]) in
  let '(h, kv) := ref_layers iv mode (SFdiv 24 128 f32_one (SFsqrt 24 128 (float_of_int hd))) (mv_rope mv) 0 (mv_layers mv) (h, kv) in
  let normed := ref_norm [T; D] h (mv_rms_final mv) in
  (ref_logits (mv_lm_head mv) normed <$> rows, kv).
End transformer.
