(* ===== verification/Qwen3Model.v ===== *)
(** * The Qwen3 forward pass: [model/qwen3/qwen3_model.cpp]

    A sequence of operators on scratch tensors; the hidden state moves between two
    buffers that are swapped after every residual addition. *)

From Stdlib Require Import ZArith Lia SpecFloat.
From stdpp Require Import prelude strings.
From S2P Require Import Prelude Base Config Device Tensor State BlockStorage WeightSource Model.
From S2P Require Import Qwen3Weights RopeCache Kernels.

(** [model/qwen3/qwen3_model.h]. *)
Record Qwen3Model `{Ccop} := mkQwen3Model {
  config_ : ModelConfig;
  weights_ : Qwen3Weights;
  rope_cache_ : RopeCache;
}.

(** The local tensors of [forward]; the flat and reshaped ones are views. *)
Record Scratch `{Ccop} := mkScratch {
  hidden : Tensor;
  hidden_flat : Tensor;
  next_hidden : Tensor;
  next_hidden_flat : Tensor;
  normed : Tensor;
  qkv_out : Tensor;
  q_heads : Tensor;
  q_norm_2d : Tensor;
  k_heads : Tensor;
  k_norm_2d : Tensor;
  v_heads : Tensor;
  attn_out : Tensor;
  attn_out_3d : Tensor;
  gate_out : Tensor;
  gate_flat : Tensor;
  up_out : Tensor;
  up_flat : Tensor;
  ffn_act : Tensor;
  ffn_act_flat : Tensor;
}.

(** [std::swap] of the two hidden tensors and of their flat views. *)
Definition swap_hidden `{Ccop} (s : Scratch) : Scratch :=
  mkScratch _ (next_hidden s) (next_hidden_flat s) (hidden s) (hidden_flat s) (normed s) (qkv_out s) (q_heads s)
    (q_norm_2d s) (k_heads s) (k_norm_2d s) (v_heads s) (attn_out s) (attn_out_3d s) (gate_out s) (gate_flat s)
    (up_out s) (up_flat s) (ffn_act s) (ffn_act_flat s).

Section forward.
Context {D : Type} `{Backend D} `{Ccop} `{!CcopViews} `{!Kernels D} `{LibM}.

(** [Qwen3Model::create]. *)
Definition create_qwen3 (cfg : ModelConfig) (weights : WeightSource) : Dev D Qwen3Model :=
  loaded ← load_qwen3 cfg weights;
  rope_cache ← create_rope (max_seq_len_ cfg) (head_dim_ cfg) (rope_theta_ cfg);
  mret (mkQwen3Model _ cfg loaded rope_cache).

(** The allocations of [forward]. *)
Definition alloc_scratch (cfg : ModelConfig) (T qkv_dim attn_dim : Z) : Dev D Scratch :=
  let D_ := d_model_ cfg in
  let nq := n_q_heads_ cfg in
  let nkv := n_kv_heads_ cfg in
  let hd := head_dim_ cfg in
  let d_ff := d_ff_ cfg in
  hidden ← empty_tensor kBFloat16 [T; D_];
  hidden_flat ← flat hidden;
  next_hidden ← empty_tensor kBFloat16 [T; D_];
  next_hidden_flat ← flat next_hidden;
  normed ← empty_tensor kBFloat16 [T; D_];
  qkv_out ← empty_tensor kBFloat16 [T; qkv_dim];
  q ← empty_tensor kBFloat16 [T; nq; hd];
  q_norm_2d ← view_dense q [T * nq; hd];
  k ← empty_tensor kBFloat16 [T; nkv; hd];
  k_norm_2d ← view_dense k [T * nkv; hd];
  v ← empty_tensor kBFloat16 [T; nkv; hd];
  attn_out ← empty_tensor kBFloat16 [T; attn_dim];
  attn_out_3d ← view_dense attn_out [T; nq; hd];
  gate ← empty_tensor kBFloat16 [T; d_ff];
  gate_flat ← flat gate;
  up ← empty_tensor kBFloat16 [T; d_ff];
  up_flat ← flat up;
  ffn_act ← empty_tensor kBFloat16 [T; d_ff];
  ffn_act_flat ← flat ffn_act;
  mret (mkScratch _ hidden hidden_flat next_hidden next_hidden_flat normed qkv_out q q_norm_2d k k_norm_2d v
          attn_out attn_out_3d gate gate_flat up up_flat ffn_act ffn_act_flat).

(** [if (norm.valid())]: the norm of the heads, in place. *)
Definition optional_norm (x : Tensor) (norm : option Tensor) (eps : float32) : Dev D unit :=
  match norm with
  | Some w => dev_ccop (rms_norm x x w eps)
  | None => mret tt
  end.

(** [gemm(&out, a, b, false, true, 1.0f, 0.0f, ctx)]. *)
Definition project (out a w : Tensor) : Dev D unit := dev_ccop (gemm out a w false true f32_one f32_zero).

(** The attention half of a layer, up to the projections. *)
Definition layer_heads (m : Qwen3Model) (input : ForwardInput) (lw : Qwen3LayerWeights) (s : Scratch) : Dev D unit :=
  let eps := rms_norm_eps_ (config_ m) in
  _ ← dev_ccop (rms_norm (normed s) (hidden s) (lw_rms_attn lw) eps);
  _ ← project (qkv_out s) (normed s) (lw_qkv lw);
  _ ← dev_ccop (split_qkv (qkv_out s) (q_heads s) (k_heads s) (v_heads s));
  _ ← optional_norm (q_norm_2d s) (lw_q_norm lw) eps;
  _ ← optional_norm (k_norm_2d s) (lw_k_norm lw) eps;
  table ← rope_tensor (rope_cache_ m);
  dev_ccop (rope (q_heads s) (k_heads s) (fi_positions input) table (head_dim_ (config_ m))).

(** Writing the batch to the KV cache and attending to it. *)
Definition layer_attention (input : ForwardInput) (storage : BlockStorage) (attn_scale : float32) (l : Z) (s : Scratch)
  : Dev D unit :=
  k_cache ← k_layer_tensor storage l;
  v_cache ← v_layer_tensor storage l;
  _ ← dev_ccop (write_kv_cache (k_heads s) (v_heads s) k_cache v_cache (fi_slot_mapping input));
  k_blocks ← k_block_tensor storage l;
  v_blocks ← v_block_tensor storage l;
  if bool_decide (fi_mode input = FwdDecode)
  then dev_ccop (decode_attention (q_heads s) k_blocks v_blocks (fi_block_table input) (fi_context_lens input)
                   (attn_out_3d s) attn_scale)
  else dev_ccop (prefill_attention (q_heads s) k_blocks v_blocks (fi_block_table input) (fi_query_start_loc input)
                   (fi_context_lens input) (attn_out_3d s) attn_scale).

(** The feed-forward half, up to the activation. *)
Definition layer_ffn (m : Qwen3Model) (lw : Qwen3LayerWeights) (s : Scratch) : Dev D unit :=
  _ ← dev_ccop (rms_norm (normed s) (hidden s) (lw_rms_ffn lw) (rms_norm_eps_ (config_ m)));
  _ ← project (gate_out s) (normed s) (lw_gate lw);
  _ ← project (up_out s) (normed s) (lw_up lw);
  dev_ccop (silu_mul (ffn_act_flat s) (gate_flat s) (up_flat s)).

(** A projection into the other hidden buffer, the residual, and the swap. *)
Definition residual (s : Scratch) (x w : Tensor) : Dev D Scratch :=
  _ ← project (next_hidden s) x w;
  _ ← dev_ccop (element_add (next_hidden_flat s) (hidden_flat s));
  mret (swap_hidden s).

(** One pass through the body of the layer loop. *)
Definition forward_layer (m : Qwen3Model) (input : ForwardInput) (storage : BlockStorage) (attn_scale : float32) (l : Z)
    (s : Scratch) : Dev D Scratch :=
  lw ← dev_lift (at_Z (w_layers (weights_ m)) l);
  _ ← layer_heads m input lw s;
  _ ← layer_attention input storage attn_scale l s;
  s ← residual s (attn_out s) (lw_o lw);
  _ ← layer_ffn m lw s;
  residual s (ffn_act s) (lw_down lw).

Fixpoint forward_layers (m : Qwen3Model) (input : ForwardInput) (storage : BlockStorage) (attn_scale : float32)
    (todo : nat) (l : Z) (s : Scratch) : Dev D Scratch :=
  match todo with
  | O => mret s
  | S todo =>
      s ← forward_layer m input storage attn_scale l s;
      forward_layers m input storage attn_scale todo (l + 1) s
  end.

(** The loop over the rows that need logits. *)
Fixpoint logits_rows (m : Qwen3Model) (input : ForwardInput) (logits : Tensor) (s : Scratch) (todo : nat) (i : Z) : Dev D unit :=
  match todo with
  | O => mret tt
  | S todo =>
      row ← dev_lift (at_Z (fi_logits_indices_host input) i);
      _ ← dev_assert ((0 <=? row) && (row <? fi_num_tokens input));
      let normed_row := slice_tensor (normed s) 0 row (row + 1) in
      let logits_row := slice_tensor logits 0 i (i + 1) in
      _ ← project logits_row normed_row (w_lm_head (weights_ m));
      logits_rows m input logits s todo (i + 1)
  end.

(** [1.0f / std::sqrt(static_cast<float>(hd))]. *)
Definition attn_scale_of (hd : Z) : float32 := SFdiv 24 128 f32_one (SFsqrt 24 128 (float_of_int hd)).

(** The embedding of the tokens, or the given embeddings. *)
Definition embed_input (m : Qwen3Model) (input : ForwardInput) (hidden : Tensor) : Dev D unit :=
  match fi_token_ids input, fi_input_embeds input with
  | Some ids, _ => dev_ccop (embed (w_embed (weights_ m)) ids hidden)
  | None, Some x => dev_bytes (nbytes hidden) (memcpy_d2d (t_buffer hidden) (t_offset hidden) (t_buffer x) (t_offset x) (nbytes hidden))
  | None, None => dev_lift None
  end.

(** [Qwen3Model::forward]; the storage of the context is never null. *)
Definition qwen3_forward (m : Qwen3Model) (input : ForwardInput) (output : ForwardOutput) (storage : BlockStorage) : Dev D unit :=
  let cfg := config_ m in
  let T := fi_num_tokens input in
  _ ← dev_assert (0 <? T);
  _ ← dev_assert (xorb (bool_decide (is_Some (fi_token_ids input))) (bool_decide (is_Some (fi_input_embeds input))));
  _ ← dev_assert ((0 <=? fi_max_position_id input) && (fi_max_position_id input <? rc_max_position (rope_cache_ m)));
  qkv_dim ← dev_lift (qkv_dim_of cfg);
  attn_dim ← dev_lift (int_of (n_q_heads_ cfg * head_dim_ cfg));
  s ← alloc_scratch cfg T qkv_dim attn_dim;
  _ ← embed_input m input (hidden s);
  s ← forward_layers m input storage (attn_scale_of (head_dim_ cfg)) (Z.to_nat (n_layers_ cfg)) 0 s;
  _ ← dev_ccop (rms_norm (normed s) (hidden s) (w_rms_final (weights_ m)) (rms_norm_eps_ cfg));
  if 0 <? fi_num_logits input then
    _ ← dev_assert (size_Z (fi_logits_indices_host input) =? fi_num_logits input);
    logits_rows m input (fo_logits output) s (Z.to_nat (fi_num_logits input)) 0
  else mret tt.
End forward.
