(* ===== verification/Qwen3Props.v ===== *)
(** * The Qwen3 forward pass computes the transformer

    On any device whose operators compute their functions, the forward pass fails no
    assertion, touches only its scratch buffers, the logits and the KV cache, and when
    it succeeds these hold what [Qwen3Ref] specifies. *)

From Stdlib Require Import ZArith Lia SpecFloat.
From stdpp Require Import prelude strings.
From S2P Require Import Prelude Base Config Q8 Device SimDevice Tensor State BlockStorage Qwen35 WeightSource Model.
From S2P Require Import Qwen3Weights RopeCache Kernels KernelRules Qwen3Ref Qwen3Model.

(** ** Tensors and their values, by a relation [R] *)

Section relations.
Context `{Ccop} (R : Tensor -> TVal -> Prop).

Definition opt_val (t : option Tensor) (v : option TVal) : Prop :=
  match t, v with Some t, Some v => R t v | None, None => True | _, _ => False end.

Record layer_vals (lw : Qwen3LayerWeights) (lv : LayerVals) : Prop := mk_layer_vals {
  ls_rms_attn : R (lw_rms_attn lw) (lv_rms_attn lv);
  ls_qkv : R (lw_qkv lw) (lv_qkv lv);
  ls_q_norm : opt_val (lw_q_norm lw) (lv_q_norm lv);
  ls_k_norm : opt_val (lw_k_norm lw) (lv_k_norm lv);
  ls_o : R (lw_o lw) (lv_o lv);
  ls_rms_ffn : R (lw_rms_ffn lw) (lv_rms_ffn lv);
  ls_gate : R (lw_gate lw) (lv_gate lv);
  ls_up : R (lw_up lw) (lv_up lv);
  ls_down : R (lw_down lw) (lv_down lv);
}.

Record model_vals (w : Qwen3Weights) (mv : ModelVals) : Prop := mk_model_vals {
  ms_embed : R (w_embed w) (mv_embed mv);
  ms_layers : Forall2 layer_vals (w_layers w) (mv_layers mv);
  ms_rms_final : R (w_rms_final w) (mv_rms_final mv);
  ms_lm_head : R (w_lm_head w) (mv_lm_head mv);
}.

Record input_vals (input : ForwardInput) (iv : InputVals) : Prop := mk_input_vals {
  is_ids : exists ids, fi_token_ids input = Some ids /\ R ids (iv_token_ids iv);
  is_positions : R (fi_positions input) (iv_positions iv);
  is_slots : R (fi_slot_mapping input) (iv_slots iv);
  is_table : R (fi_block_table input) (iv_block_table iv);
  is_starts : R (fi_query_start_loc input) (iv_starts iv);
  is_lens : R (fi_context_lens input) (iv_lens iv);
}.
End relations.

Section relation_mono.
Context `{Ccop} (R R' : Tensor -> TVal -> Prop) (HR : forall t v, R t v -> R' t v).

Lemma opt_val_mono t v : opt_val R t v -> opt_val R' t v.
Proof. destruct t, v; simpl; auto. Qed.

Lemma layer_vals_mono lw lv : layer_vals R lw lv -> layer_vals R' lw lv.
Proof. intros []. split; auto using opt_val_mono. Qed.

Lemma model_vals_mono w mv : model_vals R w mv -> model_vals R' w mv.
Proof. intros []. split; auto. eapply Forall2_impl; [eassumption|]. apply layer_vals_mono. Qed.

Lemma input_vals_mono input iv : input_vals R input iv -> input_vals R' input iv.
Proof. intros [(ids & E & Hids)]. split; auto. exists ids. auto. Qed.
End relation_mono.

(** The result of an operator with one output. *)
Lemma first_result {A B} (P : A -> list B -> Prop) a xs : Forall2 P [a] xs -> P a (List.hd [] xs).
Proof. intros Hx. by inversion Hx; subst. Qed.

Section layer.
Context {D : Type} `{!Backend D} `{!BackendLaws D} `{!Ccop} `{!CcopLaws} `{!CcopViews} `{!Q8Storage} `{!CcopViewsLaws}.
Context `{!Kernels D} `{!KernelSem} `{!KernelLaws D}.
Context (d0 : D) (cfg : ModelConfig) (storage : BlockStorage) (T : Z).
Context (b0 b1 b2 b3 b4 b5 b6 b7 b8 b9 b10 kb vb lb cache_size logits_size : Z).

Notation D_ := (d_model_ cfg).
Notation nq := (n_q_heads_ cfg).
Notation nkv := (n_kv_heads_ cfg).
Notation hd := (head_dim_ cfg).
Notation d_ff := (d_ff_ cfg).
Notation bf16_bytes shape := (bytes_of kBFloat16 shape).

(** The scratch buffers in the order of their allocation, the caches and the logits. *)
Definition pass_buffers : list (Z * Z) :=
  [(b0, bf16_bytes [T; D_]); (b1, bf16_bytes [T; D_]); (b2, bf16_bytes [T; D_]); (b3, bf16_bytes [T; (nq + 2 * nkv) * hd]);
   (b4, bf16_bytes [T; nq; hd]); (b5, bf16_bytes [T; nkv; hd]); (b6, bf16_bytes [T; nkv; hd]); (b7, bf16_bytes [T; nq * hd]);
   (b8, bf16_bytes [T; d_ff]); (b9, bf16_bytes [T; d_ff]); (b10, bf16_bytes [T; d_ff]);
   (kb, cache_size); (vb, cache_size); (lb, logits_size)].

Definition whole (i : nat) (shape : list Z) : Operand := Whole i kBFloat16 shape.
Definition whole_at (i : nat) (shape : list Z) : Tensor := operand_tensor pass_buffers (whole i shape).

(** The scratch tensors, with the hidden state in buffer [i] and the other one in [j]. *)
Definition scratch_at (i j : nat) : Scratch :=
  mkScratch _ (whole_at i [T; D_]) (whole_at i [product [T; D_]]) (whole_at j [T; D_]) (whole_at j [product [T; D_]])
    (whole_at 2 [T; D_]) (whole_at 3 [T; (nq + 2 * nkv) * hd]) (whole_at 4 [T; nq; hd]) (whole_at 4 [T * nq; hd])
    (whole_at 5 [T; nkv; hd]) (whole_at 5 [T * nkv; hd]) (whole_at 6 [T; nkv; hd]) (whole_at 7 [T; nq * hd])
    (whole_at 7 [T; nq; hd]) (whole_at 8 [T; d_ff]) (whole_at 8 [product [T; d_ff]]) (whole_at 9 [T; d_ff])
    (whole_at 9 [product [T; d_ff]]) (whole_at 10 [T; d_ff]) (whole_at 10 [product [T; d_ff]]).

(** A tensor that the pass only reads, with its value. *)
Definition stays (t : Tensor) (v : TVal) : Prop := tval d0 t = Some v /\ t_buffer t ∉ pass_buffers.*1.

Notation layer_stays := (layer_vals stays).
Notation input_stays := (input_vals stays).

Context (Hbufs : NoDup pass_buffers.*1).
Context (Hd0 : forall b n l, (b, n) ∈ pass_buffers -> buf d0 b = Some l -> size_Z l = n).

Lemma stays_val cs t v : stays t v -> operand_val pass_buffers d0 cs (Elsewhere t) v.
Proof. intros [Ht Hb]. by apply val_elsewhere. Qed.

(** ** The KV cache *)

Context (Hstorage : block_storage_ok storage d0) (Hkb : k_data_ storage = Some kb) (Hvb : v_data_ storage = Some vb).
Context (Hcache_size : cache_size = num_layers_ storage * layer_stride_ storage * elem_size_ storage).

Notation kv_dtype := (bs_dtype_ storage).
Notation layer_size := (layer_stride_ storage * elem_size_ storage).
Definition kv_window (i : nat) (l : Z) (shape : list Z) : Operand := Window i (l * layer_size) kv_dtype shape.

Lemma kv_bytes : bytes_of kv_dtype (kv_shape storage) = layer_size /\ bytes_of kv_dtype (kv_block_shape storage) = layer_size.
Proof.
  destruct Hstorage as [_ [Es _] Et [Ee _] _ _]. unfold bytes_of, kv_shape, kv_block_shape, product. rewrite Et, Ee. cbn [foldr].
  rewrite Es. split; ring.
Qed.

Lemma kv_room l : 0 <= l < num_layers_ storage -> 0 <= l * layer_size /\ 0 <= layer_size /\ l * layer_size + layer_size <= cache_size.
Proof.
  intros Hl. pose proof (layer_stride_pos storage d0 Hstorage). pose proof (bk_elem _ _ Hstorage). rewrite Hcache_size.
  assert (0 <= layer_size) by nia. nia.
Qed.

(** The view of a cache layer. *)
Lemma kv_tensor_at d cs i b l shape :
  holds pass_buffers d0 d cs -> pass_buffers !! i = Some (b, cache_size) -> 0 <= l < num_layers_ storage ->
  bytes_of kv_dtype shape = layer_size ->
  layer_tensor (Some b) storage l shape d = Some (Value (operand_tensor pass_buffers (kv_window i l shape)), d).
Proof.
  intros Hh Hi Hl Hs. unfold layer_tensor. rewrite (layer_data_spec storage d0 b l Hstorage Hl). unfold layer_bytes_of.
  destruct (Forall2_lookup_l _ _ _ _ _ (h_bufs _ _ _ _ Hh) Hi) as (x & _ & Hb & Hsz). simpl in Hb, Hsz.
  assert (operand_tensor pass_buffers (kv_window i l shape) =
    mkTensor _ b (l * layer_size) kv_dtype shape (view_strides shape)) as ->.
  { unfold operand_tensor, kv_window. rewrite (nth_buffer_Some _ _ _ _ Hi). by rewrite strides_row_major. }
  unfold from_buffer, mbind, Dev_bind, dev_gets, dev_assert, data_in_buffer. rewrite Hb.
  assert (nbytes (mkTensor _ b (l * layer_size) kv_dtype shape (view_strides shape)) = layer_size) as ->.
  { unfold nbytes. simpl. by rewrite view_nbytes_dense. }
  destruct (kv_room l Hl) as (R1 & R2 & R3). rewrite Hsz.
  rewrite (proj2 (Z.leb_le _ _) R1), (proj2 (Z.leb_le layer_size cache_size)), (proj2 (Z.leb_le (l * layer_size) _)) by lia. done.
Qed.

Lemma kv_val cs i b x l shape :
  pass_buffers !! i = Some (b, cache_size) -> cs !! i = Some x -> 0 <= l < num_layers_ storage ->
  bytes_of kv_dtype shape = layer_size ->
  operand_val pass_buffers d0 cs (kv_window i l shape) (mkTVal _ kv_dtype shape (kv_layer storage l x)).
Proof.
  intros Hi Hx Hl Hs. destruct (kv_room l Hl) as (R1 & R2 & R3). unfold kv_layer, kv_window. rewrite <-Hs in *.
  eapply val_window; [exact Hi|exact Hx|..]; lia.
Qed.

Lemma kv_out i b l shape :
  pass_buffers !! i = Some (b, cache_size) -> 0 <= l < num_layers_ storage -> bytes_of kv_dtype shape = layer_size ->
  out_ok pass_buffers (kv_window i l shape).
Proof.
  intros Hi Hl Hs. destruct (kv_room l Hl) as (R1 & R2 & R3). rewrite <-Hs in *. unfold kv_window. exists b, cache_size.
  split; [exact Hi|]. rewrite <-Hs. lia.
Qed.

(** ** Automation: operands, outputs, and the rule of an operator *)

Ltac place := cbn; first [reflexivity | do 2 f_equal; unfold bytes_of, product; cbn [foldr]; ring].
Ltac operand := first
  [ eapply val_whole; [place | reflexivity]
  | eapply kv_val; [reflexivity | reflexivity | eassumption | apply kv_bytes]
  | apply stays_val; first [eassumption | by match goal with H : layer_vals _ _ _ |- _ => apply H | H : input_vals _ _ _ |- _ => apply H end] ].
Ltac operands := repeat (apply Forall2_cons; split; [operand|]); apply Forall2_nil; exact I.
Ltac outputs := repeat (apply Forall_cons; split;
    [first [eapply kv_out; [reflexivity | eassumption | apply kv_bytes] | eexists; place]|]); apply Forall_nil; exact I.
Ltac compatibles := repeat first
  [ apply Forall_nil; exact I | apply Forall_cons; split | exact I | (cbn; lia) | (right; split; reflexivity) | (left; lia) ].
Ltac distinct := apply (bool_decide_unpack _); reflexivity.

(** Runs an operator with the given operands. *)
Tactic Notation "step" constr(rd) "to" constr(wr) "by" constr(law) constr(sizes) :=
  lazymatch goal with
  | |- runs _ (mbind _ (dev_ccop _)) _ _ =>
      eapply (runs_operator pass_buffers Hbufs d0 Hd0) with (ins := rd) (outs := wr);
        [apply law|intros; apply sizes|eassumption|operands|outputs|compatibles|distinct|]
  | |- runs _ (dev_ccop _) _ _ =>
      eapply (runs_operator_last pass_buffers Hbufs d0 Hd0) with (ins := rd) (outs := wr);
        [apply law|intros; apply sizes|eassumption|operands|outputs|compatibles|distinct|]
  end;
  cbv zeta; cbn [write_all written operand_index operand_type fmap list_fmap alter list_alter List.hd tl whole];
  let d := fresh "d" in let Hx := fresh "Hx" in let H := fresh "Hh" in intros d Hx H.

(** ** The attention half *)

Context (m : Qwen3Model) (Hcfg : config_ m = cfg) (input : ForwardInput) (iv : InputVals) (Hinput : input_stays input iv).
Context (rope_t : Tensor) (rope_v : TVal) (Hrope : rope_tensor (rope_cache_ m) d0 = Some (Value rope_t, d0)).
Context (Hrope_stays : stays rope_t rope_v) (Hrope_buffer : t_buffer rope_t = rc_cache (rope_cache_ m)).

(** The table's view depends on its buffer only. *)
Lemma rope_tensor_at d cs : holds pass_buffers d0 d cs -> rope_tensor (rope_cache_ m) d = Some (Value rope_t, d).
Proof.
  intros Hh. destruct Hrope_stays as [Ht Hout]. rewrite Hrope_buffer in Hout.
  unfold tval in Ht. apply bind_Some in Ht as (l & Hl & _). rewrite Hrope_buffer in Hl.
  pose proof (h_rest _ _ _ _ Hh _ _ Hout Hl) as Hl'. revert Hrope.
  unfold rope_tensor, wrap_tensor, buffer_bytes, dev_lift, dev_assert, mbind, Dev_bind, mret, Dev_ret. rewrite Hl, Hl'.
  destruct (_ <=? _); [|done]. by intros [= <-].
Qed.

Lemma runs_optional_norm d i shape t v cs x :
  holds pass_buffers d0 d cs -> opt_val stays t v -> cs !! i = Some x ->
  (exists b, pass_buffers !! i = Some (b, bf16_bytes shape)) ->
  runs d0 (optional_norm (whole_at i shape) t (rms_norm_eps_ cfg))
    (fun _ d' => holds pass_buffers d0 d' (<[i := ref_optional_norm cfg shape x v]> cs)) d.
Proof.
  intros Hh Hv Hx [b Hb]. destruct t as [t|], v as [v|]; try done; simpl.
  - eapply (runs_operator_last pass_buffers Hbufs d0 Hd0) with (ins := [whole i shape; Elsewhere t]) (outs := [whole i shape]);
      [apply rms_norm_ok|intros; apply rms_norm_sizes|exact Hh| | |compatibles| |].
    + apply Forall2_cons. split; [eapply val_whole; [exact Hb|exact Hx]|]. apply Forall2_cons. split; [by apply stays_val|done].
    + apply Forall_singleton. by exists b.
    + apply NoDup_singleton.
    + cbv zeta. intros d' _ Hh'. cbn [write_all operand_index whole] in Hh'.
      assert (<[i := ref_norm cfg shape x v]> cs = alter (written (whole i shape) (ref_norm cfg shape x v)) i cs) as ->; [|exact Hh'].
      apply list_eq. intros j. destruct (decide (j = i)) as [->|Hne].
      * rewrite list_lookup_alter_eq, list_lookup_insert_eq by (by eapply lookup_lt_Some). by rewrite Hx.
      * by rewrite list_lookup_alter_ne, list_lookup_insert_ne.
  - eapply runs_ret; [exact Hd0|exact Hh|]. by rewrite list_insert_id.
Qed.

Lemma runs_heads d lw lv h c1 c2 c3 c4 c5 c6 c7 c8 c9 c10 kc vc lc :
  layer_stays lw lv ->
  holds pass_buffers d0 d [h; c1; c2; c3; c4; c5; c6; c7; c8; c9; c10; kc; vc; lc] ->
  runs d0 (layer_heads m input lw (scratch_at 0 1)) (fun _ d' => exists c2 c3,
    let '(q, k, v) := ref_heads cfg T lv iv rope_v h in
    holds pass_buffers d0 d' [h; c1; c2; c3; q; k; v; c7; c8; c9; c10; kc; vc; lc]) d.
Proof.
  intros Hlw Hh. unfold layer_heads. cbv zeta. rewrite Hcfg.
  step [whole 0 [T; D_]; Elsewhere (lw_rms_attn lw)] to [whole 2 [T; D_]] by rms_norm_ok rms_norm_sizes.
  unfold project. step [whole 2 [T; D_]; Elsewhere (lw_qkv lw)] to [whole 3 [T; (nq + 2 * nkv) * hd]] by gemm_ok gemm_sizes.
  step [whole 3 [T; (nq + 2 * nkv) * hd]] to [whole 4 [T; nq; hd]; whole 5 [T; nkv; hd]; whole 6 [T; nkv; hd]]
    by split_qkv_ok split_qkv_sizes.
  eapply runs_bind. { eapply (runs_optional_norm _ 4 [T * nq; hd]); [eassumption|apply Hlw|reflexivity|eexists; place]. }
  cbv beta. intros _ d4 Hh4. cbn [insert list_insert] in Hh4.
  eapply runs_bind. { eapply (runs_optional_norm _ 5 [T * nkv; hd]); [eassumption|apply Hlw|reflexivity|eexists; place]. }
  cbv beta. intros _ d5 Hh5. cbn [insert list_insert] in Hh5.
  eapply runs_exact; [by eapply rope_tensor_at|].
  step [whole 4 [T; nq; hd]; whole 5 [T; nkv; hd]; Elsewhere (fi_positions input); Elsewhere rope_t]
    to [whole 4 [T; nq; hd]; whole 5 [T; nkv; hd]] by rope_ok rope_sizes.
  do 2 eexists. cbv beta iota zeta delta [ref_heads]. eassumption.
Qed.


Lemma runs_attention d l scale h c1 c2 c3 q k v c7 c8 c9 c10 keys values lc :
  0 <= l < num_layers_ storage ->
  holds pass_buffers d0 d [h; c1; c2; c3; q; k; v; c7; c8; c9; c10; keys; values; lc] ->
  runs d0 (layer_attention input storage scale l (scratch_at 0 1)) (fun _ d' =>
    let '(attn, kv) := ref_attention cfg storage T iv (fi_mode input) scale l q k v (mkKvVals keys values) in
    holds pass_buffers d0 d' [h; c1; c2; c3; q; k; v; attn; c8; c9; c10; kv_keys kv; kv_values kv; lc]) d.
Proof.
  intros Hl Hh. unfold layer_attention, k_layer_tensor, v_layer_tensor, k_block_tensor, v_block_tensor. rewrite Hkb, Hvb.
  eapply runs_exact; [by eapply (kv_tensor_at _ _ 11); [| | |apply kv_bytes]|].
  eapply runs_exact; [by eapply (kv_tensor_at _ _ 12); [| | |apply kv_bytes]|].
  step [whole 5 [T; nkv; hd]; whole 6 [T; nkv; hd]; kv_window 11 l (kv_shape storage); kv_window 12 l (kv_shape storage);
        Elsewhere (fi_slot_mapping input)] to [kv_window 11 l (kv_shape storage); kv_window 12 l (kv_shape storage)]
    by write_kv_cache_ok write_kv_cache_sizes.
  eapply runs_exact; [by eapply (kv_tensor_at _ _ 11); [| | |apply kv_bytes]|].
  eapply runs_exact; [by eapply (kv_tensor_at _ _ 12); [| | |apply kv_bytes]|].
  unfold ref_attention. cbv zeta. case_bool_decide as Hmode.
  - step [whole 4 [T; nq; hd]; kv_window 11 l (kv_block_shape storage); kv_window 12 l (kv_block_shape storage);
          Elsewhere (fi_block_table input); Elsewhere (fi_context_lens input)] to [whole 7 [T; nq; hd]]
      by decode_attention_ok decode_attention_sizes. eassumption.
  - step [whole 4 [T; nq; hd]; kv_window 11 l (kv_block_shape storage); kv_window 12 l (kv_block_shape storage);
          Elsewhere (fi_block_table input); Elsewhere (fi_query_start_loc input); Elsewhere (fi_context_lens input)]
      to [whole 7 [T; nq; hd]] by prefill_attention_ok prefill_attention_sizes. eassumption.
Qed.

(** ** The feed-forward half and the residuals *)

Lemma runs_ffn d lw lv c0 h c2 c3 c4 c5 c6 c7 c8 c9 c10 keys values lc :
  layer_stays lw lv ->
  holds pass_buffers d0 d [c0; h; c2; c3; c4; c5; c6; c7; c8; c9; c10; keys; values; lc] ->
  runs d0 (layer_ffn m lw (scratch_at 1 0)) (fun _ d' => exists c2 c8 c9,
    holds pass_buffers d0 d' [c0; h; c2; c3; c4; c5; c6; c7; c8; c9; ref_ffn cfg T lv h; keys; values; lc]) d.
Proof.
  intros Hlw Hh. unfold layer_ffn, project. rewrite Hcfg.
  step [whole 1 [T; D_]; Elsewhere (lw_rms_ffn lw)] to [whole 2 [T; D_]] by rms_norm_ok rms_norm_sizes.
  step [whole 2 [T; D_]; Elsewhere (lw_gate lw)] to [whole 8 [T; d_ff]] by gemm_ok gemm_sizes.
  step [whole 2 [T; D_]; Elsewhere (lw_up lw)] to [whole 9 [T; d_ff]] by gemm_ok gemm_sizes.
  step [whole 8 [product [T; d_ff]]; whole 9 [product [T; d_ff]]] to [whole 10 [product [T; d_ff]]] by silu_mul_ok silu_mul_sizes.
  do 3 eexists. eassumption.
Qed.

(** From the first hidden buffer to the second, and back. *)
Lemma runs_residual_0 d x w wv attn h c1 c2 c3 c4 c5 c6 c8 c9 c10 keys values lc :
  x = whole_at 7 [T; nq * hd] -> stays w wv ->
  holds pass_buffers d0 d [h; c1; c2; c3; c4; c5; c6; attn; c8; c9; c10; keys; values; lc] ->
  runs d0 (residual (scratch_at 0 1) x w) (fun s d' => s = scratch_at 1 0 /\
    holds pass_buffers d0 d' [h; ref_residual cfg T (bf [T; nq * hd] attn) wv h; c2; c3; c4; c5; c6; attn; c8; c9; c10; keys; values; lc]) d.
Proof.
  intros -> Hw Hh. unfold residual, project.
  step [whole 7 [T; nq * hd]; Elsewhere w] to [whole 1 [T; D_]] by gemm_ok gemm_sizes.
  step [whole 1 [product [T; D_]]; whole 0 [product [T; D_]]] to [whole 1 [product [T; D_]]] by element_add_ok element_add_sizes.
  eapply runs_ret; [exact Hd0|eassumption|]. split; [reflexivity|eassumption].
Qed.

Lemma runs_residual_1 d x w wv act h c0 c2 c3 c4 c5 c6 c7 c8 c9 keys values lc :
  x = whole_at 10 [T; d_ff] -> stays w wv ->
  holds pass_buffers d0 d [c0; h; c2; c3; c4; c5; c6; c7; c8; c9; act; keys; values; lc] ->
  runs d0 (residual (scratch_at 1 0) x w) (fun s d' => s = scratch_at 0 1 /\
    holds pass_buffers d0 d' [ref_residual cfg T (bf [T; d_ff] act) wv h; h; c2; c3; c4; c5; c6; c7; c8; c9; act; keys; values; lc]) d.
Proof.
  intros -> Hw Hh. unfold residual, project.
  step [whole 10 [T; d_ff]; Elsewhere w] to [whole 0 [T; D_]] by gemm_ok gemm_sizes.
  step [whole 0 [product [T; D_]]; whole 1 [product [T; D_]]] to [whole 0 [product [T; D_]]] by element_add_ok element_add_sizes.
  eapply runs_ret; [exact Hd0|eassumption|]. split; [reflexivity|eassumption].
Qed.

(** ** Layers *)

(** The hidden state is in the first buffer; the caches and the logits are as given. *)
Definition pass_state (d : D) (h keys values lc : list Z) : Prop :=
  exists c1 c2 c3 c4 c5 c6 c7 c8 c9 c10,
    holds pass_buffers d0 d [h; c1; c2; c3; c4; c5; c6; c7; c8; c9; c10; keys; values; lc].

Lemma runs_layer d l scale lw lv h kv lc :
  0 <= l < num_layers_ storage -> at_Z (w_layers (weights_ m)) l = Some lw -> layer_stays lw lv ->
  pass_state d h (kv_keys kv) (kv_values kv) lc ->
  runs d0 (forward_layer m input storage scale l (scratch_at 0 1)) (fun s d' => s = scratch_at 0 1 /\
    let '(h, kv) := ref_layer cfg storage T iv (fi_mode input) scale rope_v l lv (h, kv) in
    pass_state d' h (kv_keys kv) (kv_values kv) lc) d.
Proof.
  intros Hl Hat Hlw (c1 & c2 & c3 & c4 & c5 & c6 & c7 & c8 & c9 & c10 & Hh). unfold forward_layer.
  eapply runs_exact; [unfold dev_lift; by rewrite Hat|]. cbn [ref_layer].
  eapply runs_bind; [by eapply runs_heads|]. intros [] d1 (c2' & c3' & Hh1).
  destruct (ref_heads cfg T lv iv rope_v h) as [[q k] v].
  eapply runs_bind; [by eapply runs_attention|]. intros [] d2 Hh2. destruct kv as [keys values]. cbn [kv_keys kv_values] in Hh2.
  destruct (ref_attention cfg storage T iv (fi_mode input) scale l q k v (mkKvVals keys values)) as [attn kv].
  eapply runs_bind; [eapply runs_residual_0; [reflexivity|apply (ls_o _ _ _ Hlw)|exact Hh2]|]. intros s d3 [-> Hh3].
  eapply runs_bind; [by eapply runs_ffn|]. intros [] d4 (c2'' & c8' & c9' & Hh4).
  eapply runs_mono; [eapply runs_residual_1; [reflexivity|apply (ls_down _ _ _ Hlw)|exact Hh4]|]. intros s d5 [-> Hh5].
  split; [done|]. unfold pass_state. do 10 eexists. exact Hh5.
Qed.

Lemma runs_layers d l scale todo lws lvs h kv lc :
  0 <= l -> l + Z.of_nat todo <= num_layers_ storage -> length lvs = todo ->
  Forall2 layer_stays lws lvs -> (forall i lw, lws !! i = Some lw -> at_Z (w_layers (weights_ m)) (l + Z.of_nat i) = Some lw) ->
  pass_state d h (kv_keys kv) (kv_values kv) lc ->
  runs d0 (forward_layers m input storage scale todo l (scratch_at 0 1)) (fun s d' => s = scratch_at 0 1 /\
    let '(h, kv) := ref_layers cfg storage T iv (fi_mode input) scale rope_v l lvs (h, kv) in
    pass_state d' h (kv_keys kv) (kv_values kv) lc) d.
Proof.
  intros Hl Hle Hlen Hf. revert d l todo h kv Hl Hle Hlen. induction Hf as [|lw lv lws lvs Hlw _ IH]; intros d l todo h kv Hl Hle Hlen Hat Hst.
  - simpl in Hlen. subst todo. destruct Hst as (c1 & c2 & c3 & c4 & c5 & c6 & c7 & c8 & c9 & c10 & Hh).
    eapply runs_ret; [exact Hd0|exact Hh|]. split; [done|]. unfold pass_state. do 10 eexists. exact Hh.
  - simpl in Hlen. subst todo. cbn [forward_layers ref_layers].
    eapply runs_bind; [eapply runs_layer; [lia| |exact Hlw|exact Hst]|].
    { pose proof (Hat 0%nat lw eq_refl) as H0'. by rewrite Z.add_0_r in H0'. }
    intros s d1 [-> Hst1]. destruct (ref_layer _ _ _ _ _ _ _ l lv (h, kv)) as [h1 kv1].
    apply IH; [lia|lia|done| |exact Hst1]. intros i lw' Hi. pose proof (Hat (S i) lw' Hi) as Hat'.
    by replace (l + 1 + Z.of_nat i) with (l + Z.of_nat (S i)) by lia.
Qed.

(** ** Logits *)

Notation V := (vocab_size_ cfg).
Context (n_logits : Z) (lm_head_v : TVal) (Hdims : 0 < D_ /\ 0 < V) (Hlogits_size : logits_size = n_logits * (V * 4)).
Context (Hlm_head : stays (w_lm_head (weights_ m)) lm_head_v).

Lemma row_bytes shape : product shape = 1 * (D_ * 1) -> bytes_of kBFloat16 shape = D_ * 2.
Proof. unfold bytes_of. intros ->. rewrite bfloat16_size. lia. Qed.

Definition logits_tensor : Tensor := operand_tensor pass_buffers (Whole 13 kFloat32 [n_logits; V]).

Lemma normed_row row : 0 <= row < T ->
  slice_tensor (whole_at 2 [T; D_]) 0 row (row + 1) =
  operand_tensor pass_buffers (Window 2 (row * (D_ * 2)) kBFloat16 [1; D_]).
Proof. intros Hr. rewrite (slice_row_spec _ kBFloat16 T D_) by done. by rewrite bfloat16_size. Qed.

Lemma logits_row i : 0 <= i < n_logits ->
  slice_tensor logits_tensor 0 i (i + 1) = operand_tensor pass_buffers (Window 13 (i * (V * 4)) kFloat32 [1; V]).
Proof. intros Hr. rewrite (slice_row_spec _ kFloat32 n_logits V) by done. by rewrite float32_size. Qed.

Lemma float_row_bytes : bytes_of kFloat32 [1; V] = V * 4.
Proof. unfold bytes_of, product. cbn [foldr]. rewrite float32_size. lia. Qed.

(** One row. *)
Lemma runs_logits_row d i row (k : unit -> Dev D unit) (Q : unit -> D -> Prop) h c1 nm c3 c4 c5 c6 c7 c8 c9 c10 keys values lc :
  0 <= row < T -> 0 <= i < n_logits ->
  holds pass_buffers d0 d [h; c1; nm; c3; c4; c5; c6; c7; c8; c9; c10; keys; values; lc] ->
  (forall d', let x := ref_logits cfg lm_head_v nm row in size_Z x = V * 4 ->
     holds pass_buffers d0 d' [h; c1; nm; c3; c4; c5; c6; c7; c8; c9; c10; keys; values; splice lc (i * (V * 4)) x] ->
     runs d0 (k tt) Q d') ->
  runs d0 (project (slice_tensor logits_tensor 0 i (i + 1)) (slice_tensor (whole_at 2 [T; D_]) 0 row (row + 1))
             (w_lm_head (weights_ m)) ≫= k) Q d.
Proof.
  intros Hrow Hi Hh HQ. rewrite normed_row, logits_row by done. unfold project.
  eapply (runs_operator pass_buffers Hbufs d0 Hd0)
    with (ins := [Window 2 (row * (D_ * 2)) kBFloat16 [1; D_]; Elsewhere (w_lm_head (weights_ m))])
         (outs := [Window 13 (i * (V * 4)) kFloat32 [1; V]]);
    [apply gemm_ok|intros; apply gemm_sizes|exact Hh| | |compatibles|distinct|].
  - apply Forall2_cons. split; [|apply Forall2_cons; split; [by apply stays_val|done]].
    eapply val_window; [reflexivity|reflexivity|nia|rewrite row_bytes by done; lia|].
    rewrite row_bytes by done. unfold bytes_of, product. cbn [foldr]. rewrite bfloat16_size. nia.
  - apply Forall_singleton. exists lb, logits_size. split; [reflexivity|]. rewrite float_row_bytes, Hlogits_size. nia.
  - cbv zeta. intros d' Hx Hh'. rewrite row_bytes in Hx, Hh' by done.
    apply (HQ d'); [|exact Hh']. apply first_result in Hx. rewrite nbytes_operand, float_row_bytes in Hx. exact Hx.
Qed.

(** The loop: the rows before [i] have been written. *)
Lemma runs_logits_rows d todo i rows pre rest h c1 nm c3 c4 c5 c6 c7 c8 c9 c10 keys values :
  0 <= i -> i + Z.of_nat todo = n_logits -> length rows = todo -> Forall (fun row => 0 <= row < T) rows ->
  (forall k row, rows !! k = Some row -> at_Z (fi_logits_indices_host input) (i + Z.of_nat k) = Some row) ->
  fi_num_tokens input = T -> size_Z pre = i * (V * 4) -> size_Z rest = Z.of_nat todo * (V * 4) ->
  holds pass_buffers d0 d [h; c1; nm; c3; c4; c5; c6; c7; c8; c9; c10; keys; values; pre ++ rest] ->
  runs d0 (logits_rows m input logits_tensor (scratch_at 0 1) todo i) (fun _ d' =>
    holds pass_buffers d0 d' [h; c1; nm; c3; c4; c5; c6; c7; c8; c9; c10; keys; values;
      pre ++ mjoin (ref_logits cfg lm_head_v nm <$> rows)]) d.
Proof.
  intros Hi Hn Hlen Hrows Hat HT. revert d todo i pre rest Hi Hn Hlen Hat.
  induction Hrows as [|row rows Hrow _ IH]; intros d todo i pre rest Hi Hn Hlen Hat Hpre Hrest Hh; simpl in Hlen; subst todo.
  { eapply runs_ret; [exact Hd0|exact Hh|]. destruct rest; [exact Hh|]. unfold size_Z in Hrest. simpl in Hrest. lia. }
  cbn [logits_rows length]. eapply runs_exact.
  { unfold dev_lift. pose proof (Hat 0%nat row eq_refl) as E. rewrite Z.add_0_r in E. by rewrite E. }
  eapply runs_exact.
  { unfold dev_assert. rewrite HT. by destruct (Z.leb_spec 0 row), (Z.ltb_spec row T); [|lia..]. }
  eapply runs_logits_row; [exact Hrow|lia|exact Hh|]. cbv zeta. intros d1 Hx Hh1. rewrite <-Hpre in Hh1.
  rewrite splice_extends in Hh1 by (rewrite Hx; nia). cbn [fmap list_fmap mjoin list_join]. rewrite app_assoc.
  eapply IH; [lia|lia|done| | | |exact Hh1].
  - intros k row' Hk. pose proof (Hat (S k) row' Hk) as E. by replace (i + 1 + Z.of_nat k) with (i + Z.of_nat (S k)) by lia.
  - unfold size_Z in *. rewrite length_app. lia.
  - unfold size_Z in *. rewrite length_drop. lia.
Qed.

(** ** After the allocations *)

Definition after_scratch (s : Scratch) : Dev D unit :=
  _ ← embed_input m input (hidden s);
  s ← forward_layers m input storage (attn_scale_of hd) (Z.to_nat (n_layers_ cfg)) 0 s;
  _ ← dev_ccop (rms_norm (normed s) (hidden s) (w_rms_final (weights_ m)) (rms_norm_eps_ cfg));
  if 0 <? fi_num_logits input then
    _ ← dev_assert (size_Z (fi_logits_indices_host input) =? fi_num_logits input);
    logits_rows m input logits_tensor s (Z.to_nat (fi_num_logits input)) 0
  else mret tt.

Lemma runs_after_scratch d mv h keys values lc :
  model_vals stays (weights_ m) mv -> mv_rope mv = rope_v -> mv_lm_head mv = lm_head_v ->
  size_Z (w_layers (weights_ m)) = n_layers_ cfg -> n_layers_ cfg = num_layers_ storage ->
  fi_num_tokens input = T -> n_logits = Z.max 1 (fi_num_logits input) ->
  size_Z (fi_logits_indices_host input) = fi_num_logits input ->
  Forall (fun row => 0 <= row < T) (fi_logits_indices_host input) -> size_Z lc = logits_size ->
  pass_state d h keys values lc ->
  runs d0 (after_scratch (scratch_at 0 1)) (fun _ d' =>
    let '(logits, kv) := ref_forward cfg storage T mv iv (fi_mode input) (fi_logits_indices_host input) (mkKvVals keys values) in
    exists h lc', pass_state d' h (kv_keys kv) (kv_values kv) lc' /\ (0 < fi_num_logits input -> lc' = mjoin logits)) d.
Proof.
  intros [We Wl Wf _] Hrv Hlm Hlen Hn HT Hnl Hcount Hrows Hlc (c1 & c2 & c3 & c4 & c5 & c6 & c7 & c8 & c9 & c10 & Hh).
  unfold after_scratch, embed_input. destruct (is_ids _ _ _ Hinput) as (ids & -> & Hids).
  step [Elsewhere (w_embed (weights_ m)); Elsewhere ids] to [whole 0 [T; D_]] by embed_ok embed_sizes.
  unfold ref_forward. rewrite Hrv, Hlm. fold (attn_scale_of hd). set (h0 := List.hd [] (embed_sem _ _)) in *.
  assert (pass_state d1 h0 keys values lc) as Hst by (unfold pass_state; do 10 eexists; eassumption).
  eapply runs_bind.
  { eapply (runs_layers d1 0 _ _ _ _ h0 (mkKvVals keys values) lc); [lia| | |exact Wl| |exact Hst].
    - rewrite <-Hn, <-Hlen. unfold size_Z. lia.
    - rewrite <-Hlen. unfold size_Z. rewrite Nat2Z.id. symmetry. by eapply Forall2_length.
    - intros i lw Hi. rewrite Z.add_0_l, at_Z_nat. exact Hi. }
  intros s d2 [-> Hst2]. unfold out1. fold h0.
  destruct (ref_layers cfg storage T iv (fi_mode input) (attn_scale_of hd) rope_v 0 (mv_layers mv) (h0, mkKvVals keys values))
    as [h1 kv] eqn:Eref. clear Hst Hh0 Hx c1 c2 c3 c4 c5 c6 c7 c8 c9 c10 Hh.
  destruct Hst2 as (c1 & c2 & c3 & c4 & c5 & c6 & c7 & c8 & c9 & c10 & Hh).
  step [whole 0 [T; D_]; Elsewhere (w_rms_final (weights_ m))] to [whole 2 [T; D_]] by rms_norm_ok rms_norm_sizes.
  destruct (Z.ltb_spec 0 (fi_num_logits input)) as [Hpos|Hzero].
  - eapply runs_exact; [unfold dev_assert; by rewrite Hcount, Z.eqb_refl|].
    eapply runs_mono.
    { eapply (runs_logits_rows _ _ 0 (fi_logits_indices_host input) [] lc); try eassumption; try done; [lia| | |].
      - rewrite <-Hcount. unfold size_Z. lia.
      - intros k row Hk. by rewrite Z.add_0_l, at_Z_nat.
      - rewrite Hlc, Hlogits_size. f_equal. lia. }
    cbv beta. intros _ d4 Hh4. eexists _, _. split; [unfold pass_state; do 10 eexists; exact Hh4|]. intros _. done.
  - eapply runs_ret; [exact Hd0|eassumption|]. eexists _, _. split; [unfold pass_state; do 10 eexists; eassumption|]. lia.
Qed.
End layer.

(** ** The whole pass *)

Section forward.
Context {D : Type} `{!Backend D} `{!BackendLaws D} `{!Ccop} `{!CcopLaws} `{!CcopViews} `{!Q8Storage} `{!CcopViewsLaws}.
Context `{!Kernels D} `{!KernelSem} `{!KernelLaws D}.
Context (d0 : D) (cfg : ModelConfig) (Hfit : dims_fit cfg) (T : Z) (HT : 0 < T <= INT_MAX).

Ltac sizes := pose proof (dims_products cfg Hfit); unfold dims_fit, INT_MAX, INT64_MAX in *;
  repeat (apply Forall_cons; split); try (apply Forall_nil; exact I); lia.
Ltac alloc H b := eapply (runs_alloc d0); [exact H|exact bfloat16_ok|sizes|]; clear H; intros b ? ? H; cbn [app] in H.
Ltac products := unfold product; cbn [foldr]; ring.

Lemma runs_scratch kb vb lb cs ls :
  runs d0 (alloc_scratch cfg T ((n_q_heads_ cfg + 2 * n_kv_heads_ cfg) * head_dim_ cfg) (n_q_heads_ cfg * head_dim_ cfg))
    (fun s d => exists b0 b1 b2 b3 b4 b5 b6 b7 b8 b9 b10,
       s = scratch_at cfg T b0 b1 b2 b3 b4 b5 b6 b7 b8 b9 b10 kb vb lb cs ls 0 1 /\
       fresh_list d0 d (take 11 (pass_buffers cfg T b0 b1 b2 b3 b4 b5 b6 b7 b8 b9 b10 kb vb lb cs ls))) d0.
Proof.
  unfold alloc_scratch. cbv zeta. pose proof (fresh_nil d0) as Hl.
  alloc Hl b0. eapply (runs_flat d0) with (i := 0%nat); [exact Hl|reflexivity|done|].
  alloc Hl b1. eapply (runs_flat d0) with (i := 1%nat); [exact Hl|reflexivity|done|].
  alloc Hl b2. alloc Hl b3. alloc Hl b4. eapply (runs_view d0) with (i := 4%nat); [exact Hl|reflexivity|done|products|].
  alloc Hl b5. eapply (runs_view d0) with (i := 5%nat); [exact Hl|reflexivity|done|products|].
  alloc Hl b6. alloc Hl b7. eapply (runs_view d0) with (i := 7%nat); [exact Hl|reflexivity|done|products|].
  alloc Hl b8. eapply (runs_flat d0) with (i := 8%nat); [exact Hl|reflexivity|done|].
  alloc Hl b9. eapply (runs_flat d0) with (i := 9%nat); [exact Hl|reflexivity|done|].
  alloc Hl b10. eapply (runs_flat d0) with (i := 10%nat); [exact Hl|reflexivity|done|].
  apply dwp_ret. split; [apply keeps_buffers_sizes, (fl_keeps _ _ _ Hl)|].
  exists b0, b1, b2, b3, b4, b5, b6, b7, b8, b9, b10. split; [reflexivity|exact Hl].
Qed.
End forward.

Section refinement.
Context {D : Type} `{!Backend D} `{!BackendLaws D} `{!Ccop} `{!CcopLaws} `{!CcopViews} `{!Q8Storage} `{!CcopViewsLaws}.
Context `{!Kernels D} `{!KernelSem} `{!KernelLaws D}.

(** A tensor outside the buffers the pass writes. *)
Definition reads (d : D) (own : list Z) (t : Tensor) (v : TVal) : Prop := tval d t = Some v /\ t_buffer t ∉ own.

(** What a pass is called with: weights, rope table and inputs with their values, a KV
    storage with the model's layers, and a logits tensor. *)
Record forward_ready (d : D) (m : Qwen3Model) (input : ForwardInput) (output : ForwardOutput) (storage : BlockStorage)
    (mv : ModelVals) (iv : InputVals) (kb vb lb : Z) (keys values : list Z) : Prop := mk_forward_ready {
  fr_dims : dims_fit (config_ m);
  fr_tokens : 0 < fi_num_tokens input <= INT_MAX;
  fr_embeds : fi_input_embeds input = None;
  fr_position : 0 <= fi_max_position_id input < rc_max_position (rope_cache_ m);
  fr_count : size_Z (fi_logits_indices_host input) = fi_num_logits input;
  fr_rows : Forall (fun row => 0 <= row < fi_num_tokens input) (fi_logits_indices_host input);
  fr_weights : model_vals (reads d [kb; vb; lb]) (weights_ m) mv;
  fr_layers : size_Z (w_layers (weights_ m)) = n_layers_ (config_ m);
  fr_rope : exists t, rope_tensor (rope_cache_ m) d = Some (Value t, d) /\ t_buffer t = rc_cache (rope_cache_ m) /\
    reads d [kb; vb; lb] t (mv_rope mv);
  fr_input : input_vals (reads d [kb; vb; lb]) input iv;
  fr_storage : block_storage_ok storage d /\ num_layers_ storage = n_layers_ (config_ m) /\
    k_data_ storage = Some kb /\ v_data_ storage = Some vb /\ buf d kb = Some keys /\ buf d vb = Some values;
  fr_logits : let shape := [Z.max 1 (fi_num_logits input); vocab_size_ (config_ m)] in
    fo_logits output = mkTensor _ lb 0 kFloat32 shape (row_major shape).1 /\ lb <> kb /\ lb <> vb /\
    exists l, buf d lb = Some l /\ size_Z l = Z.max 1 (fi_num_logits input) * (vocab_size_ (config_ m) * 4);
}.

Lemma live_not_fresh d d1 bs ext b l :
  fresh_list d d1 bs -> buf d b = Some l -> b ∉ ext.*1 -> b ∉ (bs ++ ext).*1.
Proof.
  intros [_ _ Hf] Hl Hout. rewrite fmap_app. intros Hin. apply elem_of_app in Hin as [Hin|Hin]; [|done].
  apply list_elem_of_fmap in Hin as (bn & E & Hin). rewrite Forall_forall in Hf. destruct (Hf bn Hin) as [Hnone _]. congruence.
Qed.

Lemma reads_stays d d1 bs ext t v :
  fresh_list d d1 bs -> reads d ext.*1 t v -> tval d t = Some v /\ t_buffer t ∉ (bs ++ ext).*1.
Proof.
  intros Hf [Ht Hout]. split; [done|]. unfold tval in Ht. apply bind_Some in Ht as (l & Hl & _). by eapply live_not_fresh.
Qed.

Lemma runs_assert {A} d0 b (k : unit -> Dev D A) Q d : b = true -> runs d0 (k tt) Q d -> runs d0 (dev_assert b ≫= k) Q d.
Proof. intros -> Hk. exact Hk. Qed.

(** The buffers of the caller are different, and the caches have the storage's size. *)
Lemma forward_buffers d m input output storage mv iv kb vb lb keys values :
  forward_ready d m input output storage mv iv kb vb lb keys values ->
  let cs := num_layers_ storage * layer_stride_ storage * elem_size_ storage in
  let ls := Z.max 1 (fi_num_logits input) * (vocab_size_ (config_ m) * 4) in
  NoDup [kb; vb; lb] /\ exists lc, size_Z lc = ls /\
    Forall2 (fun bn x => buf d bn.1 = Some x /\ size_Z x = bn.2) [(kb, cs); (vb, cs); (lb, ls)] [keys; values; lc].
Proof.
  intros Hr cs ls. destruct (fr_storage _ _ _ _ _ _ _ _ _ _ _ _ Hr) as (Hst & _ & Hk & Hv & Hbk & Hbv).
  destruct (fr_logits _ _ _ _ _ _ _ _ _ _ _ _ Hr) as (_ & Hlk & Hlv & lc & Hlc & Hlsz).
  destruct Hst as [_ _ _ _ _ (kb' & vb' & kl & vl & Ek & Ev & Hne & Hkl & Hvl & Skl & Svl)]. simplify_eq.
  split; [|exists lc; split; [done|]; by repeat (apply Forall2_cons; split)].
  apply NoDup_cons. split; [set_solver|]. apply NoDup_cons. split; [set_solver|apply NoDup_singleton].
Qed.

Lemma runs_qwen3_forward d m input output storage mv iv kb vb lb keys values :
  forward_ready d m input output storage mv iv kb vb lb keys values ->
  runs d (qwen3_forward m input output storage) (fun _ d' =>
    let '(logits, kv) := ref_forward (config_ m) storage (fi_num_tokens input) mv iv (fi_mode input)
                           (fi_logits_indices_host input) (mkKvVals keys values) in
    buf d' kb = Some (kv_keys kv) /\ buf d' vb = Some (kv_values kv) /\
    (0 < fi_num_logits input -> buf d' lb = Some (mjoin logits)) /\
    forall b l, b ∉ [kb; vb; lb] -> buf d b = Some l -> buf d' b = Some l) d.
Proof.
  intros Hr. destruct (forward_buffers d m input output storage mv iv kb vb lb keys values Hr) as (Hown & lc & Hlsz & Hext).
  destruct Hr as [Hfit HT He Hpos Hcount Hrows Hw Hlen (rt & Hrope & Hrb & Hrr) Hin (Hst & Hnl & Hk & Hv & _) (Hlt & _)].
  set (cs := num_layers_ storage * layer_stride_ storage * elem_size_ storage) in *.
  set (ls := Z.max 1 (fi_num_logits input) * (vocab_size_ (config_ m) * 4)) in *.
  unfold qwen3_forward. apply runs_assert; [lia|]. apply runs_assert.
  { destruct (is_ids _ _ _ Hin) as (ids & -> & _). by rewrite He. }
  apply runs_assert; [lia|].
  eapply runs_exact; [unfold dev_lift; by rewrite (qkv_dim_ok _ Hfit)|].
  eapply runs_exact; [unfold dev_lift; rewrite int_of_ok; [done|pose proof (dims_products _ Hfit); unfold INT_MIN, INT_MAX in *; lia]|].
  eapply runs_bind; [by apply (runs_scratch d _ Hfit _ HT kb vb lb cs ls)|].
  intros s d1 (b0 & b1 & b2 & b3 & b4 & b5 & b6 & b7 & b8 & b9 & b10 & -> & Hfresh).
  destruct (fresh_holds d d1 _ [(kb, cs); (vb, cs); (lb, ls)] [keys; values; lc] Hfresh Hown Hext) as (Hnd & Hsizes & c & Hclen & Hholds).
  cbn [take pass_buffers length] in Hclen. do 11 (destruct c as [|? c]; [discriminate|]). destruct c; [|discriminate].
  cbn [app pass_buffers take] in Hnd, Hsizes, Hholds.
  assert (forall t v, reads d [kb; vb; lb] t v ->
    stays d (config_ m) (fi_num_tokens input) b0 b1 b2 b3 b4 b5 b6 b7 b8 b9 b10 kb vb lb cs ls t v) as HR
    by (intros t v Ht; exact (reads_stays d d1 _ [(kb, cs); (vb, cs); (lb, ls)] t v Hfresh Ht)).
  rewrite Hlt. pose proof Hfit as (_ & _ & _ & [HD _] & _ & [HV _] & _).
  eapply runs_mono.
  { eapply (runs_after_scratch d (config_ m) storage (fi_num_tokens input) b0 b1 b2 b3 b4 b5 b6 b7 b8 b9 b10 kb vb lb cs ls
      Hnd Hsizes Hst Hk Hv eq_refl m eq_refl input iv (input_vals_mono _ _ HR _ _ Hin) rt (mv_rope mv) Hrope (HR _ _ Hrr) Hrb
      (Z.max 1 (fi_num_logits input)) (mv_lm_head mv) (conj HD HV) eq_refl (HR _ _ (ms_lm_head _ _ _ Hw))
      d1 mv _ keys values lc (model_vals_mono _ _ HR _ _ Hw)); try done. unfold pass_state. do 10 eexists. exact Hholds. }
  intros [] d2. destruct (ref_forward _ _ _ _ _ _ _ _) as [logits kv].
  intros (h & lc' & (? & ? & ? & ? & ? & ? & ? & ? & ? & ? & Hh) & Hlogits).
  pose proof (holds_lookup _ _ _ _ 11%nat _ _ _ Hh eq_refl eq_refl) as [Hb11 _].
  pose proof (holds_lookup _ _ _ _ 12%nat _ _ _ Hh eq_refl eq_refl) as [Hb12 _].
  pose proof (holds_lookup _ _ _ _ 13%nat _ _ _ Hh eq_refl eq_refl) as [Hb13 _].
  split_and!; [done|done|intros Hp; by rewrite <-(Hlogits Hp)|].
  intros bo lo Hb Hl. apply (h_rest _ _ _ _ Hh bo lo); [|done]. exact (live_not_fresh d d1 _ [(kb, cs); (vb, cs); (lb, ls)] bo lo Hfresh Hl Hb).
Qed.

(** C5: The forward pass implements the transformer.  From a device with the weights, the
    rope table, the batch arrays, the KV storage and the logits tensor in place, it fails
    no assertion, overflows no [int] and keeps every buffer's size; it reports the first
    error of the device or of an operator, or succeeds and then the KV storage holds the
    keys and values of the batch written layer by layer, the logits tensor the rows asked
    for, both as [ref_forward] computes them from the values alone, and no other live
    buffer has changed. *)
Theorem qwen3_forward_refines d m input output storage mv iv kb vb lb keys values :
  forward_ready d m input output storage mv iv kb vb lb keys values ->
  dwp (qwen3_forward m input output storage) (fun r d' => keeps_sizes d d' /\
    (r = Value tt ->
     let '(logits, kv) := ref_forward (config_ m) storage (fi_num_tokens input) mv iv (fi_mode input)
                            (fi_logits_indices_host input) (mkKvVals keys values) in
     buf d' kb = Some (kv_keys kv) /\ buf d' vb = Some (kv_values kv) /\
     (0 < fi_num_logits input -> buf d' lb = Some (mjoin logits)) /\
     forall b l, b ∉ [kb; vb; lb] -> buf d b = Some l -> buf d' b = Some l)) d.
Proof.
  intros Hr. eapply dwp_mono; [by apply (runs_qwen3_forward d m input output storage mv iv kb vb lb keys values)|].
  intros [[]|e] d' [Hks Hd]; [|done]. split; [done|]. intros _. exact Hd.
Qed.
End refinement.
