(* ===== verification/Qwen3Contract.v ===== *)
(** * Qwen3 is a model

    [Qwen3Model::create] delivers a model whose weights are the checkpoint's, and its
    forward pass discharges the promises that the worker relies on. *)

From Stdlib Require Import ZArith Lia SpecFloat.
From stdpp Require Import prelude strings.
From S2P Require Import Prelude Base Config Bytes Q8 Device SimDevice Tensor State BlockStorage Qwen35 Json WeightSource.
From S2P Require Import Translate Model ModelProps SimModel Worker WorkerProps WorkerInit Qwen3Weights RopeCache Kernels KernelRules Qwen3Ref Qwen3Model Qwen3Props.

(** ** Running operators, when only sizes matter *)

Section safe.
Context {D : Type} `{!Backend D} (d0 : D).

(** [m] fails no assertion and keeps the size of every buffer. *)
Definition safe {A} (m : Dev D A) (P : A -> Prop) (d : D) : Prop :=
  dwp m (fun r d' => keeps_sizes d0 d' /\ match r with Value a => P a | Unexpected _ => True end) d.

Lemma safe_bind {A B} (m : Dev D A) (f : A -> Dev D B) P Q d :
  safe m P d -> (forall a d', keeps_sizes d0 d' -> P a -> safe (f a) Q d') -> safe (m ≫= f) Q d.
Proof.
  intros Hm Hf. apply dwp_bind. eapply dwp_mono; [exact Hm|]. intros [a|e] d1 [Hk Ha]; [by apply Hf|done].
Qed.

Lemma safe_ret {A} (a : A) (P : A -> Prop) d : keeps_sizes d0 d -> P a -> safe (mret a) P d.
Proof. intros. by apply dwp_ret. Qed.

Lemma safe_assert {A} b (f : unit -> Dev D A) Q d : b = true -> safe (f tt) Q d -> safe (dev_assert b ≫= f) Q d.
Proof. intros -> Hf. exact Hf. Qed.

Lemma safe_exact {A B} (m : Dev D A) a (f : A -> Dev D B) Q d :
  m d = Some (Value a, d) -> safe (f a) Q d -> safe (m ≫= f) Q d.
Proof. intros E Hf. unfold safe, dwp, mbind, Dev_bind. by rewrite E. Qed.

Lemma safe_operator run d : keeps_sizes d0 d -> (forall d, keeps_sizes d (run d).2) -> safe (dev_ccop run) (fun _ => True) d.
Proof.
  intros Hk Hs. apply dwp_op. intros r d' E. injection E as <- <-. split; [|by destruct (map_result _)].
  etransitivity; [exact Hk|apply Hs].
Qed.
End safe.

Section contract.
Context {D : Type} `{!Backend D} `{!BackendLaws D} `{!Ccop} `{!CcopLaws} `{!CcopViews} `{!Q8Storage} `{!CcopViewsLaws}.
Context `{!Kernels D} `{!KernelSem} `{!KernelLaws D} `{LibM}.

(** A model of the Qwen3 architecture, as [create] builds it. *)
Record qwen3_ok (m : Qwen3Model) : Prop := mk_qwen3_ok {
  qo_arch : arch_ (config_ m) = Qwen3;
  qo_dims : dims_fit (config_ m);
  qo_layers : size_Z (w_layers (weights_ m)) = n_layers_ (config_ m);
  qo_positions : rc_max_position (rope_cache_ m) = max_seq_len_ (config_ m);
  qo_rope : 0 < rc_max_position (rope_cache_ m) /\ 0 < rc_rotary_dim (rope_cache_ m) /\
    Z.rem (rc_rotary_dim (rope_cache_ m)) 2 = 0 /\
    rc_max_position (rope_cache_ m) * rc_rotary_dim (rope_cache_ m) <= INT_MAX;
}.

(** The rope table is on the device. *)
Definition qwen3_ready (m : Qwen3Model) (d : D) : Prop :=
  exists l, buf d (rc_cache (rope_cache_ m)) = Some l /\
    size_Z l = rc_max_position (rope_cache_ m) * rc_rotary_dim (rope_cache_ m) * 4.

Lemma qwen3_ready_keeps m d d' : keeps_sizes d d' -> qwen3_ready m d -> qwen3_ready m d'.
Proof. intros Hk (l & Hl & Hs). destruct (Hk _ _ Hl) as (l' & Hl' & Hs'). exists l'. split; [done|congruence]. Qed.

(** The view of the table when its buffer has the right size. *)
Lemma rope_tensor_ready m d : qwen3_ok m -> qwen3_ready m d ->
  exists t, rope_tensor (rope_cache_ m) d = Some (Value t, d).
Proof.
  intros Hm (l & Hl & Hs). destruct (qo_rope _ Hm) as (Hp & Hr & He & _).
  unfold rope_tensor, wrap_tensor, buffer_bytes, dev_lift, mbind, Dev_bind, half_rotary_dim. rewrite Hl.
  set (t := mkTensor _ _ _ _ _ _).
  assert (nbytes t = rc_max_position (rope_cache_ m) * rc_rotary_dim (rope_cache_ m) * 4) as Hn.
  { unfold nbytes, t. simpl. rewrite view_nbytes_dense, float32_size. simpl. rewrite Z.quot_div_nonneg by lia.
    pose proof (even_half _ Hr He). nia. }
  exists t. unfold dev_assert. rewrite Hn, Hs.
  by destruct (Z.leb_spec (rc_max_position (rope_cache_ m) * rc_rotary_dim (rope_cache_ m) * 4)
    (rc_max_position (rope_cache_ m) * rc_rotary_dim (rope_cache_ m) * 4)); [|lia].
Qed.

(** The views of the KV storage. *)
Lemma kv_views_ready storage d l : block_storage_ok storage d -> 0 <= l < num_layers_ storage ->
  (exists t, k_layer_tensor storage l d = Some (Value t, d)) /\ (exists t, v_layer_tensor storage l d = Some (Value t, d)) /\
  (exists t, k_block_tensor storage l d = Some (Value t, d)) /\ (exists t, v_block_tensor storage l d = Some (Value t, d)).
Proof.
  intros Hs Hl. pose proof Hs as [P [S _] T _ _ (kb & vb & kl & vl & Ek & Ev & _ & Hkl & Hvl & Skl & Svl)].
  unfold k_layer_tensor, v_layer_tensor, k_block_tensor, v_block_tensor. rewrite Ek, Ev.
  assert (product [max_slots_ storage; num_kv_heads_ storage; bs_head_dim_ storage] = layer_stride_ storage) as P1
    by (rewrite T; unfold product; simpl; ring).
  assert (product [bs_max_blocks_ storage; bs_block_size_ storage; num_kv_heads_ storage; bs_head_dim_ storage] = layer_stride_ storage)
    as P2 by (rewrite T, S; unfold product; simpl; ring).
  split_and!.
  - destruct (layer_tensor_ok storage d kb kl l _ Hs Hl Hkl Skl P1) as (t & E & _). by exists t.
  - destruct (layer_tensor_ok storage d vb vl l _ Hs Hl Hvl Svl P1) as (t & E & _). by exists t.
  - destruct (layer_tensor_ok storage d kb kl l _ Hs Hl Hkl Skl P2) as (t & E & _). by exists t.
  - destruct (layer_tensor_ok storage d vb vl l _ Hs Hl Hvl Svl P2) as (t & E & _). by exists t.
Qed.

(** ** The forward pass is safe *)

Section pass.
Context (m : Qwen3Model) (Hm : qwen3_ok m) (input : ForwardInput) (storage : BlockStorage) (d0 : D).
Context (Hready : qwen3_ready m d0) (Hstorage : block_storage_ok storage d0) (Hlayers : num_layers_ storage = n_layers_ (config_ m)).

Ltac op law := eapply safe_bind; [eapply safe_operator; [eassumption|intros; apply law]|]; cbv beta; intros [] ? ? _.

Lemma safe_optional_norm x w eps d : keeps_sizes d0 d -> safe d0 (optional_norm x w eps) (fun _ => True) d.
Proof. intros Hk. destruct w; [|by apply safe_ret]. apply safe_operator; [done|intros; apply rms_norm_sizes]. Qed.

Lemma safe_heads lw s d : keeps_sizes d0 d -> safe d0 (layer_heads m input lw s) (fun _ => True) d.
Proof.
  intros Hk. unfold layer_heads, project. cbv zeta. op rms_norm_sizes. op gemm_sizes. op split_qkv_sizes.
  eapply safe_bind; [by apply safe_optional_norm|]. cbv beta. intros [] ? ? _.
  eapply safe_bind; [by apply safe_optional_norm|]. cbv beta. intros [] d5 K5 _.
  destruct (rope_tensor_ready m d5 Hm (qwen3_ready_keeps m d0 d5 K5 Hready)) as [t Et].
  eapply safe_exact; [exact Et|]. apply safe_operator; [done|intros; apply rope_sizes].
Qed.

Lemma safe_attention scale l s d : 0 <= l < num_layers_ storage -> keeps_sizes d0 d ->
  safe d0 (layer_attention input storage scale l s) (fun _ => True) d.
Proof.
  intros Hl Hk. unfold layer_attention.
  destruct (kv_views_ready storage d l (block_storage_ok_keeps _ _ _ Hstorage Hk) Hl) as ([t1 E1] & [t2 E2] & _).
  eapply safe_exact; [exact E1|]. eapply safe_exact; [exact E2|].
  eapply safe_bind; [apply safe_operator; [exact Hk|intros; apply write_kv_cache_sizes]|]. cbv beta. intros [] d1 K1 _.
  destruct (kv_views_ready storage d1 l (block_storage_ok_keeps _ _ _ Hstorage K1) Hl) as (_ & _ & [t3 E3] & [t4 E4]).
  eapply safe_exact; [exact E3|]. eapply safe_exact; [exact E4|].
  case_bool_decide; (apply safe_operator; [exact K1|intros; first [apply decode_attention_sizes|apply prefill_attention_sizes]]).
Qed.

Lemma safe_residual s x w d : keeps_sizes d0 d -> safe d0 (residual s x w) (fun _ => True) d.
Proof. intros Hk. unfold residual, project. op gemm_sizes. op element_add_sizes. by apply safe_ret. Qed.

Lemma safe_layer scale l s d : 0 <= l < n_layers_ (config_ m) -> keeps_sizes d0 d ->
  safe d0 (forward_layer m input storage scale l s) (fun _ => True) d.
Proof.
  intros Hl Hk. unfold forward_layer. pose proof (qo_layers _ Hm) as Hlen.
  destruct (at_Z (w_layers (weights_ m)) l) as [lw|] eqn:Elw.
  2: { exfalso. unfold at_Z in Elw. destruct (Z.leb_spec 0 l); [|lia]. apply lookup_ge_None in Elw. unfold size_Z in Hlen. lia. }
  eapply safe_exact; [unfold dev_lift; reflexivity|].
  eapply safe_bind; [by apply safe_heads|]. cbv beta. intros [] d1 K1 _.
  eapply safe_bind; [apply safe_attention; [by rewrite Hlayers|exact K1]|]. cbv beta. intros [] d2 K2 _.
  eapply safe_bind; [by apply safe_residual|]. cbv beta. intros s2 d3 K3 _.
  eapply safe_bind.
  { unfold layer_ffn, project. op rms_norm_sizes. op gemm_sizes. op gemm_sizes.
    apply safe_operator; [done|intros; apply silu_mul_sizes]. }
  cbv beta. intros [] d4 K4 _. by apply safe_residual.
Qed.

Lemma safe_layers scale todo l s d : 0 <= l -> l + Z.of_nat todo <= n_layers_ (config_ m) -> keeps_sizes d0 d ->
  safe d0 (forward_layers m input storage scale todo l s) (fun _ => True) d.
Proof.
  revert l s d. induction todo as [|todo IH]; intros l s d Hl Hle Hk; [by apply safe_ret|]. cbn [forward_layers].
  eapply safe_bind; [apply safe_layer; [lia|done]|]. cbv beta. intros s' d1 K1 _. apply IH; [lia|lia|done].
Qed.

Lemma safe_logits logits s todo i d :
  Forall (fun row => 0 <= row < fi_num_tokens input) (fi_logits_indices_host input) ->
  0 <= i -> i + Z.of_nat todo <= size_Z (fi_logits_indices_host input) -> keeps_sizes d0 d ->
  safe d0 (logits_rows m input logits s todo i) (fun _ => True) d.
Proof.
  intros Hrows. revert i d. induction todo as [|todo IH]; intros i d Hi Hle Hk; [by apply safe_ret|]. cbn [logits_rows].
  destruct (at_Z (fi_logits_indices_host input) i) as [row|] eqn:Er.
  2: { exfalso. unfold at_Z in Er. destruct (Z.leb_spec 0 i); [|lia]. apply lookup_ge_None in Er. unfold size_Z in Hle. lia. }
  eapply safe_exact; [unfold dev_lift; reflexivity|]. apply at_Z_Some in Er as [_ Er].
  pose proof (Forall_lookup_1 _ _ _ _ Hrows Er) as Hrow. simpl in Hrow. apply safe_assert.
  { by destruct (Z.leb_spec 0 row), (Z.ltb_spec row (fi_num_tokens input)); [|lia..]. }
  unfold project. op gemm_sizes. apply IH; [lia|lia|done].
Qed.
End pass.

Lemma qwen3_forward_safe m input output storage d :
  qwen3_ok m -> qwen3_ready m d -> input_ready (config_ m) input output storage d ->
  dwp (qwen3_forward m input output storage) (fun _ d' => keeps_sizes d d') d.
Proof.
  intros Hm Hr [HT Hpos [Hcount _] Hrows _ Hst [[ids Hids] He] Hkv].
  assert (num_layers_ storage = n_layers_ (config_ m)) as Hlayers.
  { unfold kv_layer_count in Hkv. rewrite (qo_arch _ Hm) in Hkv. simpl in Hkv. congruence. }
  assert (safe d (qwen3_forward m input output storage) (fun _ => True) d) as Hs.
  2: { eapply dwp_mono; [exact Hs|]. by intros r d' [Hk _]. }
  pose proof (qo_dims _ Hm) as Hfit. unfold qwen3_forward. apply safe_assert; [lia|]. rewrite Hids, He.
  apply safe_assert; [done|]. apply safe_assert; [rewrite (qo_positions _ Hm); lia|].
  eapply safe_exact; [unfold dev_lift; by rewrite (qkv_dim_ok _ Hfit)|].
  eapply safe_exact; [unfold dev_lift; rewrite int_of_ok; [done|pose proof (dims_products _ Hfit); unfold INT_MIN, INT_MAX in *; lia]|].
  eapply safe_bind.
  { eapply dwp_mono; [by apply (runs_scratch d _ Hfit _ HT 0 0 0 0 0)|]. intros [s|e] d' [Hk _]; (split; [exact Hk|exact I]). }
  cbv beta. intros s d1 K1 _. unfold embed_input. rewrite Hids.
  eapply safe_bind; [apply safe_operator; [exact K1|intros; apply embed_sizes]|]. cbv beta. intros [] d2 K2 _.
  eapply safe_bind.
  { apply (safe_layers m Hm input storage d Hr Hst Hlayers); [lia| |exact K2].
    destruct Hfit as (_ & _ & _ & _ & _ & _ & Hn & _). lia. }
  cbv beta. intros s3 d3 K3 _.
  eapply safe_bind; [apply safe_operator; [exact K3|intros; apply rms_norm_sizes]|]. cbv beta. intros [] d4 K4 _.
  destruct (Z.ltb_spec 0 (fi_num_logits input)); [|by apply safe_ret].
  apply safe_assert; [by rewrite Hcount, Z.eqb_refl|]. apply (safe_logits m input d); [exact Hrows|lia|lia|exact K4].
Qed.

(** ** The instance *)

Section instance.
Context `{!Sampler D} (m : Qwen3Model).

#[local] Instance qwen3_model : Model D := {
  model_config := config_ m;
  forward input output storage _ := qwen3_forward m input output storage;
}.

(** The contract of [model/model.h], given a sampler that keeps the buffers' sizes. *)
Definition qwen3_laws (Hm : qwen3_ok m)
    (Hsample : forall logits rows out d, keeps_sizes d (greedy_sample logits rows out d).2) : ModelLaws D := {|
  model_ready := qwen3_ready m;
  model_ready_keeps := qwen3_ready_keeps m;
  forward_ok := fun input output storage _ d Hr Hi => qwen3_forward_safe m input output storage d Hm Hr Hi;
  sample_keeps := Hsample;
|}.
End instance.
End contract.

(** ** Creation: the weights are the checkpoint's *)

Section creation.
Context `{!Ccop} `{!KernelSem} `{LibM} (src : WeightSource) (cfg : ModelConfig).

Definition tensor_of (name : bytes) (shape : list Z) (v : TVal) : Prop :=
  exists s, read src name = Value s /\ v = mkTVal _ kBFloat16 shape (span_bytes s).

Definition optional_of (name : bytes) (shape : list Z) (v : option TVal) : Prop :=
  match v with Some v => has src name = true /\ tensor_of name shape v | None => has src name = false end.

(** The joined projection. *)
Definition qkv_of (p : bytes) (v : TVal) : Prop :=
  exists sq sk sv, read src (p ++ lit ".self_attn.q_proj.weight") = Value sq /\
    read src (p ++ lit ".self_attn.k_proj.weight") = Value sk /\ read src (p ++ lit ".self_attn.v_proj.weight") = Value sv /\
    v = mkTVal _ kBFloat16 [(n_q_heads_ cfg + 2 * n_kv_heads_ cfg) * head_dim_ cfg; d_model_ cfg]
          (span_bytes sq ++ span_bytes sk ++ span_bytes sv).

Record layer_of (i : Z) (lv : LayerVals) : Prop := mk_layer_of {
  lo_rms_attn : tensor_of (layer_prefix i ++ lit ".input_layernorm.weight") [d_model_ cfg] (lv_rms_attn lv);
  lo_qkv : qkv_of (layer_prefix i) (lv_qkv lv);
  lo_q_norm : optional_of (layer_prefix i ++ lit ".self_attn.q_norm.weight") [head_dim_ cfg] (lv_q_norm lv);
  lo_k_norm : optional_of (layer_prefix i ++ lit ".self_attn.k_norm.weight") [head_dim_ cfg] (lv_k_norm lv);
  lo_o : tensor_of (layer_prefix i ++ lit ".self_attn.o_proj.weight") [d_model_ cfg; n_q_heads_ cfg * head_dim_ cfg] (lv_o lv);
  lo_rms_ffn : tensor_of (layer_prefix i ++ lit ".post_attention_layernorm.weight") [d_model_ cfg] (lv_rms_ffn lv);
  lo_gate : tensor_of (layer_prefix i ++ lit ".mlp.gate_proj.weight") [d_ff_ cfg; d_model_ cfg] (lv_gate lv);
  lo_up : tensor_of (layer_prefix i ++ lit ".mlp.up_proj.weight") [d_ff_ cfg; d_model_ cfg] (lv_up lv);
  lo_down : tensor_of (layer_prefix i ++ lit ".mlp.down_proj.weight") [d_model_ cfg; d_ff_ cfg] (lv_down lv);
}.

(** The values of a model of this configuration in this checkpoint. *)
Record checkpoint_model (mv : ModelVals) : Prop := mk_checkpoint_model {
  cm_embed : tensor_of (lit "model.embed_tokens.weight") [vocab_size_ cfg; d_model_ cfg] (mv_embed mv);
  cm_lm_head : tensor_of (lit "lm_head.weight") [vocab_size_ cfg; d_model_ cfg] (mv_lm_head mv);
  cm_rms_final : tensor_of (lit "model.norm.weight") [d_model_ cfg] (mv_rms_final mv);
  cm_count : size_Z (mv_layers mv) = n_layers_ cfg;
  cm_layers : forall i lv, mv_layers mv !! i = Some lv -> layer_of (Z.of_nat i) lv;
  cm_rope : mv_rope mv = mkTVal _ kFloat32 [max_seq_len_ cfg; head_dim_ cfg / 2; 2]
    (floats_bytes (rope_table (rope_theta_ cfg) (head_dim_ cfg) (max_seq_len_ cfg)));
}.
End creation.

Section created.
Context {D : Type} `{!Backend D} `{!BackendLaws D} `{!Ccop} `{!CcopLaws} `{!CcopViews} `{!Q8Storage} `{!CcopViewsLaws}.
Context `{!Kernels D} `{!KernelSem} `{!KernelLaws D} `{LibM}.

(** A whole tensor has the value of its bytes. *)
Lemma holds_reads d own t dtype shape x :
  tensor_holds d t dtype shape x -> size_Z x = product shape * dtype_size dtype -> t_buffer t ∉ own ->
  reads d own t (mkTVal _ dtype shape x).
Proof.
  intros [(Ho & Hd & Hs & Hst) Hb] Hsz Hown. split; [|done]. unfold tval. rewrite Hb. simpl.
  assert (nbytes t = size_Z x) as Hn.
  { unfold nbytes. rewrite Hd, Hs, view_nbytes_dense, Hsz. done. }
  pose proof (size_Z_nonneg x). rewrite Ho, Hn, Hst, Hs, Hd. rewrite bool_decide_eq_true_2 by done.
  rewrite (proj2 (Z.leb_le 0 (size_Z x))), (proj2 (Z.leb_le (0 + size_Z x) (size_Z x))) by lia. simpl.
  by rewrite slice_all.
Qed.

Lemma live_not_own (d : D) own b x : Forall (fun b => buf d b = None) own -> buf d b = Some x -> b ∉ own.
Proof. intros Hf Hb Hin. rewrite Forall_forall in Hf. specialize (Hf b Hin). congruence. Qed.

(** [t] has the value [v] from [d1] on, whatever is written to buffers allocated later. *)
Definition lasts (d1 : D) (t : Tensor) (v : TVal) : Prop :=
  forall d2 own, keeps_buffers d1 d2 -> Forall (fun b => buf d1 b = None) own -> reads d2 own t v.

Lemma holds_lasts d1 t dtype shape x :
  tensor_holds d1 t dtype shape x -> size_Z x = product shape * dtype_size dtype -> lasts d1 t (mkTVal _ dtype shape x).
Proof.
  intros Ht Hsz d2 own Hk Hown. apply holds_reads; [by eapply tensor_holds_mono|done|].
  destruct Ht as [_ Hb]. by eapply live_not_own.
Qed.

Lemma lasts_mono d1 d2 t v : keeps_buffers d1 d2 -> lasts d1 t v -> lasts d2 t v.
Proof.
  intros Hk Hl d3 own K3 Hown. apply Hl; [by etransitivity|]. eapply Forall_impl; [exact Hown|]. simpl. intros b Hb.
  destruct (buf d1 b) as [x|] eqn:E; [|done]. apply Hk in E. congruence.
Qed.

Lemma weight_lasts src name shape t d1 : weight_is src d1 name shape t -> exists v, tensor_of src name shape v /\ lasts d1 t v.
Proof.
  intros (s & Hr & Hsz & _ & Ht). exists (mkTVal _ kBFloat16 shape (span_bytes s)). split; [by exists s|].
  apply holds_lasts; [done|by rewrite bfloat16_size].
Qed.

Lemma qkv_lasts src cfg p t d1 :
  qkv_is src d1 p ((n_q_heads_ cfg + 2 * n_kv_heads_ cfg) * head_dim_ cfg) (d_model_ cfg) t ->
  exists v, qkv_of src cfg p v /\ lasts d1 t v.
Proof.
  intros (sq & sk & sv & Rq & Rk & Rv & Hsz & Ht). eexists. split; [exists sq, sk, sv; split_and!; [done..|reflexivity]|].
  apply holds_lasts; [done|]. rewrite bfloat16_size, Hsz. unfold product. simpl. lia.
Qed.

Lemma optional_lasts src name shape t d1 :
  optional_is src d1 name shape t -> exists v, optional_of src name shape v /\ opt_val (lasts d1) t v.
Proof.
  destruct t as [t|]; simpl; [|by exists None]. intros [Hh Hw].
  destruct (weight_lasts _ _ _ _ _ Hw) as (v & Hv & Hr). by exists (Some v).
Qed.

Lemma layer_lasts src cfg i lw d1 : layer_exact cfg src d1 i lw -> exists lv, layer_of src cfg i lv /\ layer_vals (lasts d1) lw lv.
Proof.
  intros [Hqkv Ho Hg Hu Hd Ha Hf Hq Hk].
  apply qkv_lasts in Hqkv as (v1 & ? & ?). apply weight_lasts in Ho as (v2 & ? & ?). apply weight_lasts in Hg as (v3 & ? & ?).
  apply weight_lasts in Hu as (v4 & ? & ?). apply weight_lasts in Hd as (v5 & ? & ?). apply weight_lasts in Ha as (v6 & ? & ?).
  apply weight_lasts in Hf as (v7 & ? & ?). apply optional_lasts in Hq as (v8 & ? & ?). apply optional_lasts in Hk as (v9 & ? & ?).
  exists (mkLayerVals _ v6 v1 v8 v9 v2 v7 v3 v4 v5). by split; split.
Qed.

Lemma layers_last src cfg (lws : list Qwen3LayerWeights) i d1 :
  (forall k lw, lws !! k = Some lw -> layer_exact cfg src d1 (i + Z.of_nat k) lw) ->
  exists lvs, Forall2 (layer_vals (lasts d1)) lws lvs /\ forall k lv, lvs !! k = Some lv -> layer_of src cfg (i + Z.of_nat k) lv.
Proof.
  revert i. induction lws as [|lw lws IH]; intros i Hl; [exists []; split; [constructor|done]|].
  destruct (layer_lasts src cfg (i + Z.of_nat 0) lw d1 (Hl 0%nat lw eq_refl)) as (lv & Hlv & Hv).
  destruct (IH (i + 1)) as (lvs & Hf & Hof).
  { intros k lw' Hk. replace (i + 1 + Z.of_nat k) with (i + Z.of_nat (S k)) by lia. by apply Hl. }
  exists (lv :: lvs). split; [by constructor|]. intros [|k] lv' E; simpl in E; [by injection E as <-|].
  replace (i + Z.of_nat (S k)) with (i + 1 + Z.of_nat k) by lia. by apply Hof.
Qed.

(** ** The created model *)

(** A valid Qwen3 configuration whose sizes fit [int]. *)
Record qwen3_args (cfg : ModelConfig) : Prop := mk_qwen3_args {
  qa_arch : arch_ cfg = Qwen3;
  qa_dims : dims_fit cfg;
  qa_positions : 0 < max_seq_len_ cfg /\ max_seq_len_ cfg * head_dim_ cfg <= INT_MAX;
  qa_even : Z.rem (head_dim_ cfg) 2 = 0;
  qa_theta : isfinite (rope_theta_ cfg) = true /\ f32_le_zero (rope_theta_ cfg) = false;
}.

(** Weights and rope table with their values, from [d1] on. *)
Definition model_lasts (d1 : D) (m : Qwen3Model) (mv : ModelVals) : Prop :=
  forall d2 own, keeps_buffers d1 d2 -> Forall (fun b => buf d1 b = None) own ->
    model_vals (reads d2 own) (weights_ m) mv /\
    exists t, rope_tensor (rope_cache_ m) d2 = Some (Value t, d2) /\ t_buffer t = rc_cache (rope_cache_ m) /\
      reads d2 own t (mv_rope mv).

Lemma rope_lasts c d : 0 < rc_max_position c -> 0 < rc_rotary_dim c -> Z.rem (rc_rotary_dim c) 2 = 0 ->
  rc_max_position c * rc_rotary_dim c <= INT_MAX -> rope_holds d c ->
  forall d2 own, keeps_buffers d d2 -> Forall (fun b => buf d b = None) own ->
  exists t, rope_tensor c d2 = Some (Value t, d2) /\ t_buffer t = rc_cache c /\
    reads d2 own t (mkTVal _ kFloat32 [rc_max_position c; rc_rotary_dim c / 2; 2]
      (floats_bytes (rope_table (rc_theta c) (rc_rotary_dim c) (rc_max_position c)))).
Proof.
  intros Hn Hd He Hmax Hh d2 own Hk Hown. assert (rope_holds d2 c) as Hh2 by (by apply Hk).
  destruct (rope_tensor_spec c d2 Hn Hd He Hmax Hh2) as (t & Et & Hb & Hw & _). exists t. split_and!; [done|done|].
  apply holds_reads; [split; [done|]; by rewrite Hb| |].
  - rewrite size_floats_bytes, size_rope_rows, float32_size by (done || lia). pose proof (even_half _ Hd He).
    unfold product. simpl. nia.
  - rewrite Hb. by eapply live_not_own.
Qed.

Lemma loads_create_qwen3 src cfg d :
  source_ok src -> sizes_exact src StoreBFloat16 2 -> qwen3_args cfg ->
  loads (create_qwen3 cfg src) (fun m d' => config_ m = cfg /\ qwen3_ok m /\ qwen3_ready m d' /\
    exists mv, checkpoint_model src cfg mv /\ model_lasts d' m mv) d.
Proof.
  intros Hs He [Ha Hd [Hp Hmax] Hev [Hf Hz]]. pose proof Hd as (_ & _ & Hhd & _). unfold create_qwen3.
  eapply loads_bind; [exact (loads_qwen3 src Hs He cfg Hd d)|]. cbv beta. intros w d1 K1 (W1 & W2 & W3 & W4 & W5).
  eapply loads_bind; [exact (loads_rope (max_seq_len_ cfg) (head_dim_ cfg) (rope_theta_ cfg) d1 Hp Hhd Hev Hf Hz Hmax)|].
  cbv beta. intros c d2 K2 (Ec & _ & Hh). apply loads_ret.
  assert (rc_max_position c = max_seq_len_ cfg /\ rc_rotary_dim c = head_dim_ cfg /\ rc_theta c = rope_theta_ cfg) as (E1 & E2 & E3)
    by (by rewrite Ec).
  split; [done|]. split; [split; simpl; rewrite ?E1, ?E2; done|]. split.
  { eexists. split; [exact Hh|]. rewrite size_floats_bytes, size_rope_rows by (rewrite ?E1, ?E2; done || lia). done. }
  apply weight_lasts in W1 as (ve & Te & Le). apply weight_lasts in W2 as (vh & Th & Lh). apply weight_lasts in W3 as (vf & Tf & Lf).
  destruct (layers_last src cfg (w_layers w) 0 d1) as (lvs & Hlvs & Hof).
  { intros k lw Hk. apply W5. by rewrite Z.add_0_l, at_Z_nat. }
  exists (mkModelVals _ ve lvs vf vh (mkTVal _ kFloat32 [max_seq_len_ cfg; head_dim_ cfg / 2; 2]
    (floats_bytes (rope_table (rope_theta_ cfg) (head_dim_ cfg) (max_seq_len_ cfg))))).
  split.
  - split; simpl; try done. by rewrite <-W4; unfold size_Z; rewrite (Forall2_length _ _ _ Hlvs).
  - intros d3 own K3 Hown. split.
    + assert (forall t v, lasts d1 t v -> reads d3 own t v) as HR
        by (intros t v Hl; by apply (lasts_mono d1 d2)).
      apply (model_vals_mono (lasts d1) (reads d3 own) HR). by split.
    + pose proof (rope_lasts c d2) as Hr. rewrite E1, E2, E3 in Hr. rewrite E1, E2, E3 in Hh || idtac.
      simpl. apply Hr; try done.
Qed.

(** ** Passes of a created model *)

(** A batch in place for a model of this configuration. *)
Record batch_ready (d : D) (cfg : ModelConfig) (input : ForwardInput) (output : ForwardOutput) (storage : BlockStorage)
    (iv : InputVals) (kb vb lb : Z) (keys values : list Z) : Prop := mk_batch_ready {
  br_tokens : 0 < fi_num_tokens input <= INT_MAX;
  br_embeds : fi_input_embeds input = None;
  br_position : 0 <= fi_max_position_id input < max_seq_len_ cfg;
  br_count : size_Z (fi_logits_indices_host input) = fi_num_logits input;
  br_rows : Forall (fun row => 0 <= row < fi_num_tokens input) (fi_logits_indices_host input);
  br_input : input_vals (reads d [kb; vb; lb]) input iv;
  br_storage : block_storage_ok storage d /\ num_layers_ storage = n_layers_ cfg /\
    k_data_ storage = Some kb /\ v_data_ storage = Some vb /\ buf d kb = Some keys /\ buf d vb = Some values;
  br_logits : let shape := [Z.max 1 (fi_num_logits input); vocab_size_ cfg] in
    fo_logits output = mkTensor _ lb 0 kFloat32 shape (row_major shape).1 /\ lb <> kb /\ lb <> vb /\
    exists l, buf d lb = Some l /\ size_Z l = Z.max 1 (fi_num_logits input) * (vocab_size_ cfg * 4);
}.

Lemma created_forward_ready m mv d1 d2 input output storage iv kb vb lb keys values :
  qwen3_ok m -> model_lasts d1 m mv -> keeps_buffers d1 d2 -> Forall (fun b => buf d1 b = None) [kb; vb; lb] ->
  batch_ready d2 (config_ m) input output storage iv kb vb lb keys values ->
  forward_ready d2 m input output storage mv iv kb vb lb keys values.
Proof.
  intros Hm Hl Hk Hown [B1 B2 B3 B4 B5 B6 B7 B8]. destruct (Hl d2 _ Hk Hown) as [Hw Hr].
  split; try done; [apply (qo_dims _ Hm)|by rewrite (qo_positions _ Hm)|apply (qo_layers _ Hm)].
Qed.

(** C4: From the checkpoint's bytes to the logits.  The source keeps the promises of its
    loaders ([source_ok]) and, which the loaders do not check, the bfloat16 tensors have
    as many bytes as their shapes say ([sizes_exact]); the configuration has positive
    sizes whose products fit [int] and an even head dimension ([qwen3_args]).  Then
    creating a Qwen3 model from it reports an error and keeps the live buffers, or delivers a
    model such that any later pass over a batch in place, with KV storage and logits in
    buffers allocated since, fails no assertion, and if it succeeds the logits are those
    of the transformer whose weights are the checkpoint's tensors by name, the rotary
    table of the configuration included. *)
Theorem qwen3_logits_of_checkpoint src cfg d :
  source_ok src -> sizes_exact src StoreBFloat16 2 -> qwen3_args cfg ->
  dwp (create_qwen3 cfg src) (fun r d1 => keeps_buffers d d1 /\
    match r with
    | Value m => exists mv, checkpoint_model src cfg mv /\
        forall d2 input output storage iv kb vb lb keys values,
          keeps_buffers d1 d2 -> Forall (fun b => buf d1 b = None) [kb; vb; lb] ->
          batch_ready d2 cfg input output storage iv kb vb lb keys values ->
          dwp (qwen3_forward m input output storage) (fun r d3 => r = Value tt -> 0 < fi_num_logits input ->
            let '(logits, kv) := ref_forward cfg storage (fi_num_tokens input) mv iv (fi_mode input)
                                   (fi_logits_indices_host input) (mkKvVals keys values) in
            buf d3 lb = Some (mjoin logits)) d2
    | Unexpected _ => True
    end) d.
Proof.
  intros Hs He Ha. eapply loads_mono; [by apply loads_create_qwen3|]. intros m d1 _ (<- & Hm & _ & mv & Hmv & Hl).
  exists mv. split; [done|]. intros d2 input output storage iv kb vb lb keys values Hk Hown Hb.
  pose proof (created_forward_ready m mv d1 d2 input output storage iv kb vb lb keys values Hm Hl Hk Hown Hb) as Hr.
  eapply dwp_mono; [by apply (runs_qwen3_forward d2 m input output storage mv iv kb vb lb keys values)|].
  intros r d3 [_ Hd] -> Hp. revert Hd. destruct (ref_forward _ _ _ _ _ _ _ _) as [logits kv]. intros (_ & _ & Hlog & _). by apply Hlog.
Qed.

(** ** The worker with a Qwen3 model *)

(** The executor's worker and the Qwen3 model fit together: when the worker's model is
    what [Qwen3Model::create] delivers on its backend, starting the worker fails no
    assertion, and reports the first error and drops everything, or leaves a worker that
    is ready for batches in the sense that [process_batch] relies on. *)
Theorem qwen3_worker_starts `{!Sampler D} (res : Resources) engine cfg src (d : D) m d1
    (Hsample : forall logits rows out (d : D), keeps_sizes d (greedy_sample logits rows out d).2) :
  source_ok src -> sizes_exact src StoreBFloat16 2 -> qwen3_args cfg -> init_args cfg engine ->
  created_backend res = Value d -> create_qwen3 cfg src d = Some (Value m, d1) ->
  created_model res = (m ← create_qwen3 cfg src; mret tt) ->
  exists (Hm : qwen3_ok m) r w, init_worker false res cfg engine new_worker = Some (r, w) /\
    match r with
    | Value _ => worker_ok (ModelLaws0 := qwen3_laws m Hm Hsample) w /\ running w = true
    | Unexpected _ => bare w
    end.
Proof.
  intros Hs He Ha Hi Hb Hc Hres.
  destruct (loads_create_qwen3 src cfg d Hs He Ha) as (r1 & d1' & E & K & Hr). rewrite Hc in E. injection E as <- <-.
  destruct Hr as (<- & Hm & Hready & _). exists Hm.
  destruct (@init_worker_run D _ _ _ _ (qwen3_model m) _ (qwen3_laws m Hm Hsample) res engine false Hi) as (r & w & E & Hw).
  { intros d' Hd'. rewrite Hb in Hd'. injection Hd' as <-. rewrite Hres. exists (Value tt), d1.
    unfold mbind, Dev_bind. rewrite Hc. split; [done|]. by split. }
  exists r, w. split; [exact E|]. destruct r as [[]|e]; [|exact Hw]. split; apply Hw.
Qed.
End created.
