(* ===== verification/SimQwen3.v ===== *)
(** * A Qwen3 model on the simulated device

    A checkpoint of thirteen tensors, the model created from it, and a prompt of two
    tokens: the theorems of [Qwen3Props] and [Qwen3Contract] at concrete inputs. *)

From Stdlib Require Import ZArith Lia SpecFloat.
From stdpp Require Import prelude strings.
From S2P Require Import Prelude Base Config Scheduler Bytes Q8 Device SimDevice Tensor State BlockStorage Json WeightSource.
From S2P Require Import Model ModelProps SimModel Worker WorkerProps WorkerInit Qwen3Weights RopeCache Kernels KernelRules.
From S2P Require Import Qwen3Ref Qwen3Model Qwen3Props Qwen3Contract.

Lemma tiny_args : qwen3_args tiny_config.
Proof. split; [reflexivity|exact tiny_fit|vm_compute; split; [reflexivity|discriminate]|reflexivity|split; reflexivity]. Qed.

(** A device with more buffers keeps the ones it had. *)
Lemma sim_grows (d : SimDevice) bs fs : keeps_buffers d (mkSim (sim_bufs d ++ bs) fs).
Proof.
  intros b l Hl. simpl in *. apply at_Z_Some in Hl as [Hr Hl]. unfold at_Z.
  destruct (Z.leb_spec 0 b); [|lia]. by apply lookup_app_l_Some.
Qed.

(** ** The model and a batch *)

(** The created model and its device. *)
Definition tiny_created : option (Qwen3Model * SimDevice) := Eval vm_compute in
  match create_qwen3 tiny_config tiny_source (mkSim [] []) with Some (Value m, d) => Some (m, d) | _ => None end.

Definition no_tensor : Tensor := mkTensor _ 0 0 kFloat32 [] [].
Definition no_cache : RopeCache := mkRopeCache 0 0 f32_one 0.
Definition no_weights : Qwen3Weights := mkQwen3Weights _ no_tensor no_tensor no_tensor [].
Definition tiny_model : Qwen3Model := from_option fst (mkQwen3Model _ tiny_config no_weights no_cache) tiny_created.
Definition tiny_device : SimDevice := from_option snd (mkSim [] []) tiny_created.

Definition int_tensor (xs : list Z) : Dev SimDevice Tensor := from_host (Some (mjoin (le_bytes 4 <$> xs))) kInt32 [size_Z xs].

(** A prompt of two tokens in the first block, with logits for the second. *)
Definition tiny_batch : Dev SimDevice (BlockStorage * ForwardInput * ForwardOutput) :=
  storage ← create_block_storage 1 4 2 1 2 kBFloat16;
  logits ← empty_tensor kFloat32 [1; 3];
  ids ← int_tensor [1; 2];
  positions ← int_tensor [0; 1];
  slots ← int_tensor [0; 1];
  table ← int_tensor [0];
  starts ← int_tensor [0; 2];
  lens ← int_tensor [2];
  mret (storage, mkForwardInput _ None (Some ids) 2 positions 1 FwdPrefill slots table starts lens 1 1 None [1] 1,
        mkForwardOutput _ logits ids).

Definition tiny_ready : option (BlockStorage * ForwardInput * ForwardOutput * SimDevice) := Eval vm_compute in
  match tiny_batch tiny_device with Some (Value x, d) => Some (x, d) | _ => None end.

Definition no_input : ForwardInput :=
  mkForwardInput _ None None 0 no_tensor 0 FwdPrefill no_tensor no_tensor no_tensor no_tensor 0 0 None [] 0.
Definition tiny_storage : BlockStorage := from_option (fun x => x.1.1.1) (mkBlockStorage _ None None 0 0 kFloat32 0 0 0 0 0 0) tiny_ready.
Definition tiny_input : ForwardInput := from_option (fun x => x.1.1.2) no_input tiny_ready.
Definition tiny_output : ForwardOutput := from_option (fun x => x.1.2) (mkForwardOutput _ no_tensor no_tensor) tiny_ready.
Definition ready_device : SimDevice := from_option snd (mkSim [] []) tiny_ready.

(** The buffers of the keys, the values and the logits. *)
Definition tiny_kb : Z := default 0 (k_data_ tiny_storage).
Definition tiny_vb : Z := default 0 (v_data_ tiny_storage).
Definition tiny_lb : Z := t_buffer (fo_logits tiny_output).
Definition tiny_cache : list Z := repeat 0 32.

Definition tiny_ints (xs : list Z) : TVal := mkTVal _ kInt32 [size_Z xs] (mjoin (le_bytes 4 <$> xs)).
Definition tiny_vals : InputVals :=
  mkInputVals _ (tiny_ints [1; 2]) (tiny_ints [0; 1]) (tiny_ints [0; 1]) (tiny_ints [0]) (tiny_ints [0; 2]) (tiny_ints [2]).

Example tiny_model_created : create_qwen3 tiny_config tiny_source (mkSim [] []) = Some (Value tiny_model, tiny_device).
Proof. vm_compute. reflexivity. Qed.

Example tiny_batch_ready : tiny_batch tiny_device = Some (Value (tiny_storage, tiny_input, tiny_output), ready_device).
Proof. vm_compute. reflexivity. Qed.

Lemma tiny_storage_ok : block_storage_ok tiny_storage ready_device.
Proof.
  split; [vm_compute; repeat split; discriminate|vm_compute; split; [reflexivity|discriminate]|reflexivity|
    vm_compute; repeat split; discriminate|vm_compute; discriminate|].
  exists tiny_kb, tiny_vb, tiny_cache, tiny_cache. vm_compute. repeat split; discriminate.
Qed.

Lemma ready_keeps : keeps_buffers tiny_device ready_device.
Proof. exact (sim_grows tiny_device (drop (length (sim_bufs tiny_device)) (sim_bufs ready_device)) []). Qed.

Lemma ready_fresh : Forall (fun b => buf tiny_device b = None) [tiny_kb; tiny_vb; tiny_lb].
Proof. repeat (apply Forall_cons; split; [reflexivity|]). by apply Forall_nil. Qed.

(** The batch is in place. *)
Lemma tiny_batch_in_place :
  batch_ready ready_device tiny_config tiny_input tiny_output tiny_storage tiny_vals tiny_kb tiny_vb tiny_lb tiny_cache tiny_cache.
Proof.
  assert (forall t v, tval ready_device t = Some v -> negb (bool_decide (t_buffer t ∈ [tiny_kb; tiny_vb; tiny_lb])) = true ->
    reads ready_device [tiny_kb; tiny_vb; tiny_lb] t v) as Hreads
    by (intros t v Ht Hb; split; [exact Ht|]; apply negb_true_iff, bool_decide_eq_false in Hb; exact Hb).
  split.
  - vm_compute. split; [reflexivity|discriminate].
  - reflexivity.
  - vm_compute. split; [discriminate|reflexivity].
  - reflexivity.
  - apply Forall_cons. split; [vm_compute; split; [discriminate|reflexivity]|by apply Forall_nil].
  - split; [eexists; split; [reflexivity|]|..]; apply Hreads; vm_compute; reflexivity.
  - split; [exact tiny_storage_ok|]. by vm_compute.
  - split; [by vm_compute|]. split; [discriminate|]. split; [discriminate|]. eexists. split; vm_compute; reflexivity.
Qed.

(** ** Running it *)

(** The pass succeeds, and the logits are the reference's. *)
Lemma qwen3_logits_of_checkpoint_witness : exists mv d3,
  checkpoint_model tiny_source tiny_config mv /\
  qwen3_forward tiny_model tiny_input tiny_output tiny_storage ready_device = Some (Value tt, d3) /\
  buf d3 tiny_lb = Some (mjoin (ref_forward tiny_config tiny_storage 2 mv tiny_vals FwdPrefill [1] (mkKvVals tiny_cache tiny_cache)).1).
Proof.
  destruct (qwen3_logits_of_checkpoint tiny_source tiny_config (mkSim [] []) tiny_source_ok tiny_source_exact tiny_args)
    as (r & d1 & E & _ & Hr).
  rewrite tiny_model_created in E. injection E as <- <-. destruct Hr as (mv & Hmv & Hpass).
  destruct (Hpass ready_device tiny_input tiny_output tiny_storage tiny_vals tiny_kb tiny_vb tiny_lb tiny_cache tiny_cache
    ready_keeps ready_fresh tiny_batch_in_place) as (r & d3 & E3 & H3).
  destruct r as [[]|e]; [|exfalso; revert E3; vm_compute; discriminate].
  exists mv, d3. split; [exact Hmv|]. split; [exact E3|].
  specialize (H3 eq_refl eq_refl). destruct (ref_forward _ _ _ _ _ _ _ _) as [logits kv] eqn:Er in H3.
  change (fi_num_tokens tiny_input) with 2 in Er. change (fi_mode tiny_input) with FwdPrefill in Er.
  change (fi_logits_indices_host tiny_input) with [1] in Er. rewrite Er. exact H3.
Defined.

(** The same pass from its own theorem: the keys written are the reference's as well. *)
Lemma qwen3_forward_refines_witness : exists mv d3,
  qwen3_forward tiny_model tiny_input tiny_output tiny_storage ready_device = Some (Value tt, d3) /\
  buf d3 tiny_kb =
    Some (kv_keys (ref_forward tiny_config tiny_storage 2 mv tiny_vals FwdPrefill [1] (mkKvVals tiny_cache tiny_cache)).2).
Proof.
  destruct (loads_create_qwen3 tiny_source tiny_config (mkSim [] []) tiny_source_ok tiny_source_exact tiny_args)
    as (r & d1 & E & _ & Hr).
  rewrite tiny_model_created in E. injection E as <- <-. destruct Hr as (_ & Hm & _ & mv & _ & Hl).
  destruct (qwen3_forward_refines ready_device tiny_model tiny_input tiny_output tiny_storage mv tiny_vals tiny_kb tiny_vb tiny_lb
    tiny_cache tiny_cache) as (r & d3 & E3 & _ & H3).
  { exact (created_forward_ready tiny_model mv tiny_device ready_device tiny_input tiny_output tiny_storage tiny_vals
      tiny_kb tiny_vb tiny_lb tiny_cache tiny_cache Hm Hl ready_keeps ready_fresh tiny_batch_in_place). }
  destruct r as [[]|e]; [|exfalso; revert E3; vm_compute; discriminate].
  exists mv, d3. split; [exact E3|]. specialize (H3 eq_refl).
  destruct (ref_forward _ _ _ _ _ _ _ _) as [logits kv] eqn:Er in H3.
  change (config_ tiny_model) with tiny_config in Er. change (fi_num_tokens tiny_input) with 2 in Er.
  change (fi_mode tiny_input) with FwdPrefill in Er. change (fi_logits_indices_host tiny_input) with [1] in Er.
  rewrite Er. exact (proj1 H3).
Defined.

(** The logits row is written, over what the device had there. *)
Example tiny_logits :
  match qwen3_forward tiny_model tiny_input tiny_output tiny_storage ready_device with
  | Some (Value _, d3) => match buf d3 tiny_lb with Some l => size_Z l = 12 /\ l <> repeat 170 12 | None => False end
  | _ => False
  end.
Proof. vm_compute. split; [reflexivity|discriminate]. Qed.

(** ** A worker that serves it *)

Definition tiny_resources : Resources :=
  mkResources (Value (mkSim [] [])) (Value tt) (m ← create_qwen3 tiny_config tiny_source; mret tt).

Lemma qwen3_worker_starts_witness : exists (Hm : qwen3_ok tiny_model) w,
  init_worker false tiny_resources tiny_config sim_engine_config new_worker = Some (Value tt, w) /\
  worker_ok (ModelLaws0 := qwen3_laws tiny_model Hm sim_sample_keeps) w.
Proof.
  assert (init_args tiny_config sim_engine_config) as Hi.
  { split; [|vm_compute; reflexivity|vm_compute; discriminate|discriminate].
    repeat (apply Forall_cons; split; [vm_compute; split; discriminate|]). by apply Forall_nil. }
  destruct (qwen3_worker_starts tiny_resources sim_engine_config tiny_config tiny_source (mkSim [] []) tiny_model tiny_device
    sim_sample_keeps tiny_source_ok tiny_source_exact tiny_args Hi eq_refl tiny_model_created eq_refl) as (Hm & r & w & E & H).
  destruct r as [[]|e]; [|exfalso; revert E; vm_compute; discriminate].
  exists Hm, w. split; [exact E|]. apply H.
Defined.
