(* ===== verification/Qwen35Weights.v ===== *)
(** * Loading Qwen3.5 weights: [model/qwen35/qwen35_weights.cpp]

    The checkpoint is quantised: matrices are Q8_0 blocks, vectors are 32-bit floats.
    The loader dequantises on the host, narrows to bfloat16 and uploads; the query
    projection of an attention layer is interleaved with its gate, head by head, and is
    split into two tensors. *)

From Stdlib Require Import ZArith Lia.
From stdpp Require Import prelude strings.
From S2P Require Import Prelude Base Config Bytes Floats Q8 Bfloat16 Device Tensor Qwen35 Json WeightSource.

(** [model/qwen35/qwen35_weights.h]. *)
Record Qwen35GdnLayerWeights `{Ccop} := mkQwen35Gdn {
  gw_attn_norm : Tensor;
  gw_attn_qkv : Tensor;
  gw_attn_gate : Tensor;
  gw_ssm_conv1d : Tensor;
  gw_ssm_alpha : Tensor;
  gw_ssm_beta : Tensor;
  gw_ssm_out : Tensor;
  gw_ssm_norm : Tensor;
  gw_ssm_a : Tensor;
  gw_ssm_dt_bias : Tensor;
  gw_ffn_gate : Tensor;
  gw_ffn_up : Tensor;
  gw_ffn_down : Tensor;
  gw_post_attention_norm : Tensor;
}.

Record Qwen35AttnLayerWeights `{Ccop} := mkQwen35Attn {
  aw_attn_norm : Tensor;
  aw_attn_q : Tensor;
  aw_attn_gate : Tensor;
  aw_attn_k : Tensor;
  aw_attn_v : Tensor;
  aw_attn_q_norm : Tensor;
  aw_attn_k_norm : Tensor;
  aw_attn_output : Tensor;
  aw_ffn_gate : Tensor;
  aw_ffn_up : Tensor;
  aw_ffn_down : Tensor;
  aw_post_attention_norm : Tensor;
}.

Record Qwen35Weights `{Ccop} := mkQwen35Weights {
  q35_embed : Tensor;
  q35_lm_head : Tensor;
  q35_rms_final : Tensor;
  gdn_layers_ : list Qwen35GdnLayerWeights;
  attn_layers_ : list Qwen35AttnLayerWeights;
}.

(** ** Host vectors *)

(** [int64_t] arithmetic. *)
Definition int64_of (z : Z) : option Z := if (- 2 ^ 63 <=? z) && (z <=? INT64_MAX) then Some z else None.

Fixpoint shape_numel_from (n : Z) (shape : list Z) : option Z :=
  match shape with
  | [] => Some n
  | d :: shape => n ← int64_of (n * d); shape_numel_from n shape
  end.

Definition shape_numel (shape : list Z) : option Z := shape_numel_from 1 shape.

(** Reading and writing [n] elements of a vector; outside it is undefined. *)
Definition vec_read {A} (l : list A) (off n : Z) : option (list A) :=
  if (0 <=? off) && (0 <=? n) && (off + n <=? size_Z l) then Some (slice l off n) else None.
Definition vec_write {A} (l : list A) (off : Z) (x : list A) : option (list A) :=
  if (0 <=? off) && (off + size_Z x <=? size_Z l) then Some (splice l off x) else None.

(** The pieces of [k] bytes of a memory block. *)
Fixpoint pieces (n : nat) (k : Z) (l : bytes) : list bytes :=
  match n with
  | O => []
  | S n => take (Z.to_nat k) l :: pieces n k (drop (Z.to_nat k) l)
  end.

(** A [float] and a [ccop::Q8_0Block] in memory. *)
Definition float_at (l : bytes) : Z := of_le l.
Definition block_at (l : bytes) : Q8_0Block := mkQ8 (of_le (take 2 l)) (i8 <$> drop 2 l).

(** A vector of [uint16_t] or of [float] in memory. *)
Definition words16_bytes (l : list Z) : bytes := l ≫= le_bytes 2.
Definition words32_bytes (l : list Z) : bytes := l ≫= le_bytes 4.

Section read.
Context {D : Type} `{NanResult, Q8Format}.

Definition read_q8_to_float (weights : WeightSource) (name : bytes) (shape : list Z) : Dev D (list Z) :=
  i ← dev_try (info weights name);
  if negb (bool_decide (logical_shape i = shape)) then dev_error ModelShapeMismatch
  else if negb (bool_decide (wi_type i = StoreQ8_0)) then dev_error ModelUnsupportedDType
  else
    numel ← dev_lift (shape_numel shape);
    if (numel <=? 0) || negb (Z.rem numel kQ8_0BlockSize =? 0) then dev_error ModelShapeMismatch
    else
      let block_count := u64 (Z.quot numel kQ8_0BlockSize) in
      raw ← dev_try (read weights name);
      if negb (sp_size raw =? u64 (block_count * kQ8_0BlockBytes)) then dev_error ModelShapeMismatch
      else
        data ← dev_lift (host_read raw (sp_size raw));
        let blocks := block_at <$> pieces (Z.to_nat block_count) kQ8_0BlockBytes data in
        floats ← dev_lift (dequantize_q8_0_reference blocks (u64 numel));
        dev_try floats.

Definition read_f32_to_float (weights : WeightSource) (name : bytes) (shape : list Z) : Dev D (list Z) :=
  i ← dev_try (info weights name);
  if negb (bool_decide (logical_shape i = shape)) then dev_error ModelShapeMismatch
  else if negb (bool_decide (wi_type i = StoreFloat32)) then dev_error ModelUnsupportedDType
  else
    numel ← dev_lift (shape_numel shape);
    if numel <=? 0 then dev_error ModelShapeMismatch
    else
      raw ← dev_try (read weights name);
      if negb (sp_size raw =? u64 (u64 numel * 4)) then dev_error ModelShapeMismatch
      else
        data ← dev_lift (host_read raw (sp_size raw));
        mret (float_at <$> pieces (Z.to_nat numel) 4 data).
End read.

(** ** Query projection and gate *)

(** The loop of [load_q_gate], from head [h] on: the rows of a head are its query rows
    followed by its gate rows.  Offsets are computed in [int]. *)
Fixpoint split_heads (all_bf16 : list Z) (head_dim d_model head_elems : Z) (todo : nat) (h : Z) (q_bf16 gate_bf16 : list Z)
  : option (list Z * list Z) :=
  match todo with
  | O => Some (q_bf16, gate_bf16)
  | S todo =>
      twice ← int_of (h * 2);
      rows ← int_of (twice * head_dim);
      head_src ← int_of (rows * d_model);
      q_src ← vec_read all_bf16 head_src head_elems;
      gate_src ← vec_read all_bf16 (head_src + head_elems) head_elems;
      q_bf16 ← vec_write q_bf16 (h * head_elems) q_src;
      gate_bf16 ← vec_write gate_bf16 (h * head_elems) gate_src;
      split_heads all_bf16 head_dim d_model head_elems todo (h + 1) q_bf16 gate_bf16
  end.

(** ["blk." + std::to_string(layer) + "."]. *)
Definition blk_prefix (layer : Z) : bytes := lit "blk." ++ to_string layer ++ lit ".".

Section load.
Context {D : Type} `{Backend D} `{Ccop} `{NanResult, Q8Format}.

Definition load_q8_bf16 (weights : WeightSource) (name : bytes) (shape : list Z) : Dev D Tensor :=
  floats ← read_q8_to_float weights name shape;
  from_host (Some (words16_bytes (floats_to_bf16 floats))) kBFloat16 shape.

Definition load_f32_bf16 (weights : WeightSource) (name : bytes) (shape : list Z) : Dev D Tensor :=
  floats ← read_f32_to_float weights name shape;
  from_host (Some (words16_bytes (floats_to_bf16 floats))) kBFloat16 shape.

Definition load_f32 (weights : WeightSource) (name : bytes) (shape : list Z) : Dev D Tensor :=
  floats ← read_f32_to_float weights name shape;
  from_host (Some (words32_bytes floats)) kFloat32 shape.

(** The query tensor and the gate tensor. *)
Definition load_q_gate (weights : WeightSource) (layer n_heads head_dim d_model : Z) : Dev D (Tensor * Tensor) :=
  let name := blk_prefix layer ++ lit "attn_q.weight" in
  heads2 ← dev_lift (int_of (n_heads * 2));
  rows ← dev_lift (int_of (heads2 * head_dim));
  floats ← read_q8_to_float weights name [rows; d_model];
  let all_bf16 := floats_to_bf16 floats in
  elems ← dev_lift (int_of (head_dim * d_model));
  let head_elems := u64 elems in
  let n := u64 (head_elems * u64 n_heads) in
  '(q_bf16, gate_bf16) ← dev_lift (split_heads all_bf16 head_dim d_model head_elems (Z.to_nat n_heads) 0
                                     (repeat 0 (Z.to_nat n)) (repeat 0 (Z.to_nat n)));
  out_rows ← dev_lift (int_of (n_heads * head_dim));
  q ← from_host (Some (words16_bytes q_bf16)) kBFloat16 [out_rows; d_model];
  gate ← from_host (Some (words16_bytes gate_bf16)) kBFloat16 [out_rows; d_model];
  mret (q, gate).

(** ** Layers *)

(** The sizes of a recurrent layer; a division by zero is undefined. *)
Record GdnSizes := mkGdnSizes { head_v_dim : Z; value_dim : Z; conv_dim : Z }.

Definition gdn_sizes (cfg : ModelConfig) : option GdnSizes :=
  let head_k_dim := ssm_state_size_ cfg in
  head_v_dim ← (if ssm_time_step_rank_ cfg =? 0 then None else int_of (Z.quot (ssm_inner_size_ cfg) (ssm_time_step_rank_ cfg)));
  key_dim ← int_of (ssm_group_count_ cfg * head_k_dim);
  value_dim ← int_of (ssm_time_step_rank_ cfg * head_v_dim);
  keys ← int_of (2 * key_dim);
  conv_dim ← int_of (keys + value_dim);
  Some (mkGdnSizes head_v_dim value_dim conv_dim).

Definition load_gdn_layer (cfg : ModelConfig) (weights : WeightSource) (layer : Z) : Dev D Qwen35GdnLayerWeights :=
  let D_ := d_model_ cfg in
  let d_ff := d_ff_ cfg in
  let rank := ssm_time_step_rank_ cfg in
  g ← dev_lift (gdn_sizes cfg);
  let p := blk_prefix layer in
  attn_norm ← load_f32_bf16 weights (p ++ lit "attn_norm.weight") [D_];
  attn_qkv ← load_q8_bf16 weights (p ++ lit "attn_qkv.weight") [conv_dim g; D_];
  attn_gate ← load_q8_bf16 weights (p ++ lit "attn_gate.weight") [value_dim g; D_];
  ssm_conv1d ← load_f32_bf16 weights (p ++ lit "ssm_conv1d.weight") [conv_dim g; ssm_conv_kernel_ cfg];
  ssm_alpha ← load_q8_bf16 weights (p ++ lit "ssm_alpha.weight") [rank; D_];
  ssm_beta ← load_q8_bf16 weights (p ++ lit "ssm_beta.weight") [rank; D_];
  ssm_out ← load_q8_bf16 weights (p ++ lit "ssm_out.weight") [D_; value_dim g];
  ssm_norm ← load_f32_bf16 weights (p ++ lit "ssm_norm.weight") [head_v_dim g];
  ssm_a ← load_f32 weights (p ++ lit "ssm_a") [rank];
  ssm_dt_bias ← load_f32 weights (p ++ lit "ssm_dt.bias") [rank];
  ffn_gate ← load_q8_bf16 weights (p ++ lit "ffn_gate.weight") [d_ff; D_];
  ffn_up ← load_q8_bf16 weights (p ++ lit "ffn_up.weight") [d_ff; D_];
  ffn_down ← load_q8_bf16 weights (p ++ lit "ffn_down.weight") [D_; d_ff];
  post_attention_norm ← load_f32_bf16 weights (p ++ lit "post_attention_norm.weight") [D_];
  mret (mkQwen35Gdn _ attn_norm attn_qkv attn_gate ssm_conv1d ssm_alpha ssm_beta ssm_out ssm_norm ssm_a ssm_dt_bias
          ffn_gate ffn_up ffn_down post_attention_norm).

Definition load_attn_layer (cfg : ModelConfig) (weights : WeightSource) (layer : Z) : Dev D Qwen35AttnLayerWeights :=
  let D_ := d_model_ cfg in
  let d_ff := d_ff_ cfg in
  let nq := n_q_heads_ cfg in
  let nkv := n_kv_heads_ cfg in
  let hd := head_dim_ cfg in
  let p := blk_prefix layer in
  attn_norm ← load_f32_bf16 weights (p ++ lit "attn_norm.weight") [D_];
  '(attn_q, attn_gate) ← load_q_gate weights layer nq hd D_;
  kv_dim ← dev_lift (int_of (nkv * hd));
  attn_k ← load_q8_bf16 weights (p ++ lit "attn_k.weight") [kv_dim; D_];
  attn_v ← load_q8_bf16 weights (p ++ lit "attn_v.weight") [kv_dim; D_];
  q_dim ← dev_lift (int_of (nq * hd));
  attn_output ← load_q8_bf16 weights (p ++ lit "attn_output.weight") [D_; q_dim];
  attn_q_norm ← load_f32_bf16 weights (p ++ lit "attn_q_norm.weight") [hd];
  attn_k_norm ← load_f32_bf16 weights (p ++ lit "attn_k_norm.weight") [hd];
  ffn_gate ← load_q8_bf16 weights (p ++ lit "ffn_gate.weight") [d_ff; D_];
  ffn_up ← load_q8_bf16 weights (p ++ lit "ffn_up.weight") [d_ff; D_];
  ffn_down ← load_q8_bf16 weights (p ++ lit "ffn_down.weight") [D_; d_ff];
  post_attention_norm ← load_f32_bf16 weights (p ++ lit "post_attention_norm.weight") [D_];
  mret (mkQwen35Attn _ attn_norm attn_q attn_gate attn_k attn_v attn_q_norm attn_k_norm attn_output
          ffn_gate ffn_up ffn_down post_attention_norm).

(** The layer loop, from layer [layer] on, with the layers loaded so far. *)
Fixpoint load_decoder_layers (cfg : ModelConfig) (weights : WeightSource) (todo : nat) (layer : Z)
    (gdn : list Qwen35GdnLayerWeights) (attn : list Qwen35AttnLayerWeights)
  : Dev D (list Qwen35GdnLayerWeights * list Qwen35AttnLayerWeights) :=
  match todo with
  | O => mret (gdn, attn)
  | S todo =>
      type ← dev_lift (at_Z (layer_types_ cfg) layer);
      if bool_decide (type = GatedDeltaNet) then
        w ← load_gdn_layer cfg weights layer;
        load_decoder_layers cfg weights todo (layer + 1) (gdn ++ [w]) attn
      else
        w ← load_attn_layer cfg weights layer;
        load_decoder_layers cfg weights todo (layer + 1) gdn (attn ++ [w])
  end.

(** [Qwen35Weights::load]. *)
Definition load_qwen35 (cfg : ModelConfig) (weights : WeightSource) : Dev D Qwen35Weights :=
  if negb (bool_decide (arch_ cfg = Qwen3_5)) then dev_error ModelUnsupportedArch
  else
    let D_ := d_model_ cfg in
    embed ← load_q8_bf16 weights (lit "token_embd.weight") [vocab_size_ cfg; D_];
    let lm_head := embed in
    rms_final ← load_f32_bf16 weights (lit "output_norm.weight") [D_];
    _ ← dev_lift (num_gdn_layers cfg);
    _ ← dev_lift (num_kv_layers cfg);
    '(gdn, attn) ← load_decoder_layers cfg weights (Z.to_nat (n_layers_ cfg)) 0 [] [];
    mret (mkQwen35Weights _ embed lm_head rms_final gdn attn).
End load.
