(* ===== verification/Qwen35Load.v ===== *)
(** * Loading Qwen3.5 weights: what arrives on the device *)

From Stdlib Require Import ZArith Lia SpecFloat.
From stdpp Require Import prelude strings.
From S2P Require Import Prelude Base Config Bytes Floats Q8 Q8Props Bfloat16 Device SimDevice Tensor Qwen35 Json WeightSource.
From S2P Require Import Qwen3Weights Qwen35Weights.

(** ** Memory as vectors *)

Lemma at_Z_app_l {A} (l k : list A) i x : at_Z l i = Some x -> at_Z (l ++ k) i = Some x.
Proof. unfold at_Z. destruct (0 <=? i); [apply lookup_app_l_Some|done]. Qed.

Lemma length_pieces n k l : length (pieces n k l) = n.
Proof. revert l. induction n as [|n IH]; intros l; simpl; [done|]. by rewrite IH. Qed.

Lemma pieces_sizes n k l : 0 <= k -> Z.of_nat n * k <= size_Z l -> Forall (fun p => size_Z p = k) (pieces n k l).
Proof.
  intros Hk. revert l. induction n as [|n IH]; intros l Hl; cbn [pieces]; [by apply Forall_nil|].
  apply Forall_cons. unfold size_Z in *. split; [rewrite length_take; nia|]. apply IH. rewrite length_drop. nia.
Qed.

Lemma concat_pieces n k l : 0 <= k -> size_Z l = Z.of_nat n * k -> concat (pieces n k l) = l.
Proof.
  intros Hk. revert l. induction n as [|n IH]; intros l Hl; cbn [pieces concat].
  { destruct l; [done|]. unfold size_Z in Hl. simpl in Hl. lia. }
  rewrite IH by (unfold size_Z in *; rewrite length_drop; nia). apply take_drop.
Qed.

Lemma size_words16 l : size_Z (words16_bytes l) = size_Z l * 2.
Proof.
  induction l as [|x l IH]; [done|]. unfold words16_bytes in *. cbn [mbind list_bind].
  rewrite size_Z_app, size_Z_cons, IH. unfold size_Z. rewrite length_le_bytes. lia.
Qed.

Lemma size_words32 l : size_Z (words32_bytes l) = size_Z l * 4.
Proof. apply size_encode_i32. Qed.

(** Floats read from memory and written back are the same bytes. *)
Lemma words32_of_pieces n l : is_bytes l -> size_Z l = Z.of_nat n * 4 -> words32_bytes (float_at <$> pieces n 4 l) = l.
Proof.
  intros Hb Hl. rewrite <- (concat_pieces n 4 l) at 2 by (done || lia).
  assert (Forall (fun p => is_bytes p /\ size_Z p = 4) (pieces n 4 l)) as Hp.
  { apply Forall_and. split; [|apply pieces_sizes; lia]. clear Hl. revert l Hb.
    induction n as [|n IH]; intros l Hb; cbn [pieces]; [by apply Forall_nil|].
    apply Forall_cons. split; [by apply Forall_take|apply IH; by apply Forall_drop]. }
  unfold words32_bytes. induction Hp as [|p ps [Hpb Hps] _ IH]; [done|].
  cbn [fmap list_fmap mbind list_bind concat]. rewrite IH. f_equal. unfold float_at.
  replace 4%nat with (length p) by (unfold size_Z in Hps; lia). by apply le_bytes_of_le.
Qed.

(** ** Dequantisation never gets stuck *)

Lemma half_to_float_total h : is_Some (half_to_float h).
Proof.
  unfold half_to_float. destruct (_ =? 0); [|by destruct (_ =? 31)].
  destruct (Z.eqb_spec (Z.land h 1023) 0) as [|Hne]; [done|].
  assert (0 <= Z.land h 1023 < 1024) as Hm.
  { change 1023 with (Z.ones 10). rewrite Z.land_ones by lia. apply Z.mod_pos_bound. lia. }
  destruct (normalize_half_spec 10 (Z.land h 1023) 0) as (k & _ & -> & _); [lia| |done].
  change (2 ^ Z.of_nat 10) with 1024. lia.
Qed.

Section dequantize_total.
Context `{NanResult}.

Lemma dequantize_total blocks :
  exists l, mapM dequantize_block blocks = Some l /\ length (concat l) = length (concat (qs <$> blocks)).
Proof.
  induction blocks as [|b blocks (l & E & Hl)]; [by exists []|].
  destruct (half_to_float_total (d_f16 b)) as [x Ex].
  assert (dequantize_block b = Some (f32_mul x ∘ f32_of_int <$> qs b)) as Eb
    by (unfold dequantize_block, q8_0_f16_to_float; by rewrite Ex).
  eexists. split.
  - change (mapM dequantize_block (b :: blocks)) with (y ← dequantize_block b; k ← mapM dequantize_block blocks; mret (y :: k)).
    rewrite Eb, E. reflexivity.
  - cbn [concat fmap list_fmap]. rewrite !length_app, Hl. f_equal. apply length_fmap.
Qed.
End dequantize_total.

(** The numbers of a block in memory. *)
Lemma block_at_qs (p : bytes) : 2 <= size_Z p -> size_Z (qs (block_at p)) = size_Z p - 2.
Proof. unfold size_Z, block_at. simpl. rewrite length_fmap, length_drop. lia. Qed.

(** ** Splitting heads *)

(** Part [part] (0 the query, 1 the gate) of every head, one head after the other. *)
Definition head_part (all : list Z) (head_elems part : Z) (n : nat) : list Z :=
  concat ((fun h => slice all ((2 * Z.of_nat h + part) * head_elems) head_elems) <$> seq 0 n).

Lemma head_part_step all E part n :
  head_part all E part (S n) = head_part all E part n ++ slice all ((2 * Z.of_nat n + part) * E) E.
Proof. unfold head_part. rewrite seq_S, fmap_app, concat_app. simpl. by rewrite app_nil_r. Qed.

Lemma size_head_part all E part n : 0 <= E -> 0 <= part <= 1 -> 2 * Z.of_nat n * E <= size_Z all ->
  size_Z (head_part all E part n) = Z.of_nat n * E.
Proof.
  intros HE Hp. induction n as [|n IH]; intros Hn; [done|].
  rewrite head_part_step, size_Z_app, IH, size_slice by (unfold in_range; nia). nia.
Qed.

Lemma vec_read_ok {A} (l : list A) off n : 0 <= off -> 0 <= n -> off + n <= size_Z l -> vec_read l off n = Some (slice l off n).
Proof. intros. unfold vec_read. by rewrite !(proj2 (Z.leb_le _ _)) by done. Qed.

(** Appending a head to the heads written so far. *)
Lemma vec_write_next (done_ rest x : list Z) off :
  off = size_Z done_ -> size_Z x <= size_Z rest ->
  vec_write (done_ ++ rest) off x = Some ((done_ ++ x) ++ drop (length x) rest).
Proof.
  intros -> Hx. unfold vec_write. pose proof (size_Z_nonneg done_). rewrite !(proj2 (Z.leb_le _ _)) by (rewrite ?size_Z_app; lia).
  simpl. f_equal. by apply splice_extends.
Qed.

Lemma split_heads_spec all head_dim d_model E todo h rq rg :
  E = head_dim * d_model -> 0 < head_dim -> 0 < d_model ->
  size_Z all = (Z.of_nat h + Z.of_nat todo) * 2 * head_dim * d_model -> size_Z all <= INT_MAX ->
  size_Z rq = Z.of_nat todo * E -> size_Z rg = Z.of_nat todo * E ->
  split_heads all head_dim d_model E todo (Z.of_nat h) (head_part all E 0 h ++ rq) (head_part all E 1 h ++ rg) =
  Some (head_part all E 0 (h + todo), head_part all E 1 (h + todo)).
Proof.
  intros HE Hhd Hd. revert h rq rg. induction todo as [|todo IH]; intros h rq rg Hall Hmax Hq Hg; cbn [split_heads].
  { assert (rq = [] /\ rg = []) as [-> ->].
    { unfold size_Z in *. split; apply length_zero_iff_nil; lia. }
    by rewrite !app_nil_r, Nat.add_0_r. }
  assert (size_Z all = (Z.of_nat h + Z.of_nat (S todo)) * 2 * E) as Hall' by (rewrite Hall, HE; ring).
  assert (0 < E) as HE0 by (rewrite HE; by apply Z.mul_pos_pos).
  assert (Z.of_nat h * 2 * head_dim * d_model = 2 * Z.of_nat h * E) as Hoff by (rewrite HE; ring).
  assert (0 <= Z.of_nat h * 2 * head_dim <= 2 * Z.of_nat h * E) as Hrows by (rewrite HE; nia).
  assert (0 <= Z.of_nat h * 2 <= Z.of_nat h * 2 * head_dim) by nia.
  assert (2 * Z.of_nat h * E + 2 * E <= size_Z all) as Hin by nia.
  rewrite !(int_of_ok (Z.of_nat h * 2)) by (unfold INT_MIN; lia). cbn [mbind option_bind].
  rewrite int_of_ok by (unfold INT_MIN; lia). cbn [mbind option_bind].
  rewrite int_of_ok by (unfold INT_MIN; lia). cbn [mbind option_bind]. rewrite Hoff.
  rewrite !vec_read_ok by lia. cbn [mbind option_bind].
  assert (slice all (2 * Z.of_nat h * E) E = slice all ((2 * Z.of_nat h + 0) * E) E) as -> by (f_equal; lia).
  assert (slice all (2 * Z.of_nat h * E + E) E = slice all ((2 * Z.of_nat h + 1) * E) E) as -> by (f_equal; lia).
  set (x := slice all ((2 * Z.of_nat h + 0) * E) E). set (y := slice all ((2 * Z.of_nat h + 1) * E) E).
  assert (size_Z x = E) as Hx by (apply size_slice; unfold in_range; lia).
  assert (size_Z y = E) as Hy by (apply size_slice; unfold in_range; lia).
  assert (E <= Z.of_nat (S todo) * E) by nia.
  rewrite (vec_write_next (head_part all E 0 h)) by (rewrite ?size_head_part; lia). cbn [mbind option_bind].
  rewrite (vec_write_next (head_part all E 1 h)) by (rewrite ?size_head_part; lia). cbn [mbind option_bind].
  unfold x, y. rewrite <- !head_part_step. fold x y. replace (Z.of_nat h + 1) with (Z.of_nat (S h)) by lia.
  rewrite IH; [by rewrite Nat.add_succ_comm|rewrite Hall; f_equal; lia|done|..];
    unfold size_Z in *; rewrite length_drop; nia.
Qed.

(** ** Tensors *)

(** Sizes of the program: one or two [int]s. *)
Definition int_shape (shape : list Z) : Prop := (length shape <= 2)%nat /\ Forall (fun x => 0 <= x <= INT_MAX) shape.

Lemma int_shape_numel shape : int_shape shape ->
  shape_numel shape = Some (product shape) /\ 0 <= product shape < 2 ^ 62 /\ Forall (fun x => x <= INT64_MAX) shape.
Proof.
  intros [Hlen Hs]. unfold INT_MAX, INT64_MAX in *.
  destruct shape as [|a [|b [|]]]; [| | |simpl in Hlen; lia].
  - unfold product. simpl. split_and!; [done|lia|lia|by apply Forall_nil].
  - apply Forall_cons in Hs as [Ha _]. unfold shape_numel, product. cbn [shape_numel_from foldr]. unfold int64_of, INT64_MAX.
    rewrite Z.mul_1_l, Z.mul_1_r, !(proj2 (Z.leb_le _ _)) by lia. split_and!; [done|lia|lia|]. repeat constructor. lia.
  - apply Forall_cons in Hs as [Ha Hs]. apply Forall_cons in Hs as [Hb _]. unfold shape_numel, product.
    cbn [shape_numel_from foldr]. unfold int64_of, INT64_MAX. rewrite Z.mul_1_l, Z.mul_1_r.
    rewrite !(proj2 (Z.leb_le _ a)), (proj2 (Z.leb_le a _)) by lia. cbn [andb mbind option_bind].
    assert (0 <= a * b < 2 ^ 62) by nia. rewrite !(proj2 (Z.leb_le _ _)) by lia.
    split_and!; [done|lia|lia|]. repeat constructor; lia.
Qed.

Section load.
Context {D : Type} `{!Backend D} `{!BackendLaws D} `{!Ccop} `{!CcopLaws} `{!CcopViews} `{!Q8Storage} `{!CcopViewsLaws}.
Context `{NanResult, !Q8Format, !Q8FormatLaws}.
Context (src : WeightSource) (Hsrc : source_ok src).

(** The blocks of a checkpoint tensor. *)
Definition q8_blocks (s : Span) : list Q8_0Block :=
  block_at <$> pieces (Z.to_nat (sp_size s / kQ8_0BlockBytes)) kQ8_0BlockBytes (span_bytes s).

(** [floats] are the dequantised numbers of the checkpoint's tensor [name]. *)
Definition q8_floats (name : bytes) (shape : list Z) (floats : list Z) : Prop :=
  exists s l, read src name = Value s /\ size_Z (span_bytes s) * 32 = product shape * 34 /\
    mapM dequantize_block (q8_blocks s) = Some l /\ floats = concat l /\ size_Z floats = product shape.

(** [floats] are the floats of the checkpoint's tensor [name]. *)
Definition f32_floats (name : bytes) (shape : list Z) (floats : list Z) : Prop :=
  exists s, read src name = Value s /\ size_Z (span_bytes s) = product shape * 4 /\
    floats = float_at <$> pieces (Z.to_nat (product shape)) 4 (span_bytes s) /\ size_Z floats = product shape.

Lemma loads_q8_floats name shape d : int_shape shape ->
  loads (read_q8_to_float src name shape) (fun floats _ => q8_floats name shape floats) d.
Proof.
  intros Hs. destruct (int_shape_numel shape Hs) as (Hn & Hp & _). unfold read_q8_to_float.
  eapply loads_bind; [by apply loads_try with (P := fun i _ => info src name = Value i)|]. intros i d1 K1 Hi.
  case_bool_decide; [|apply loads_error]. case_bool_decide; [|apply loads_error]. cbn [negb].
  eapply loads_lift_bind; [exact Hn|]. destruct (_ || _) eqn:Hg; [apply loads_error|].
  apply orb_false_iff in Hg as [Hpos Hrem]. apply Z.leb_gt in Hpos. rewrite q8_block_size in Hrem |- *.
  apply negb_false_iff, Z.eqb_eq in Hrem. set (n := product shape) in *.
  rewrite Z.rem_mod_nonneg in Hrem by lia. rewrite Z.quot_div_nonneg by lia.
  pose proof (Z.div_mod n 32 ltac:(lia)) as Edm. rewrite Hrem, Z.add_0_r in Edm. set (k := n / 32) in *.
  rewrite (u64_small k), (u64_small n) by lia. cbv zeta.
  eapply loads_bind; [by apply loads_try with (P := fun s _ => read src name = Value s)|]. intros s d2 K2 Hr.
  rewrite q8_block_bytes, q8_block_size. change (2 + 32) with 34. rewrite (u64_small (k * 34)) by lia.
  destruct (Z.eqb_spec (sp_size s) (k * 34)) as [Esz|]; [|apply loads_error]. cbn [negb].
  pose proof (so_range _ Hsrc _ _ Hr) as Hin.
  eapply loads_lift_bind; [by apply host_read_all|].
  assert (size_Z (span_bytes s) = k * 34) as Hbytes by (unfold span_bytes; by rewrite size_slice).
  assert (Z.to_nat (sp_size s / 34) = Z.to_nat k) as Ek by (rewrite Esz, Z.div_mul by lia; done).
  set (blocks := block_at <$> pieces (Z.to_nat k) 34 (span_bytes s)).
  assert (Forall (fun b => size_Z (qs b) = 32) blocks) as Hq.
  { apply Forall_fmap. eapply Forall_impl; [apply (pieces_sizes (Z.to_nat k) 34); lia|]. intros p Hpz.
    cbv beta in Hpz. unfold compose. rewrite block_at_qs; lia. }
  assert (size_Z (concat (qs <$> blocks)) = size_Z blocks * 32) as Hcount.
  { clear -Hq. induction Hq as [|b l Hb _ IH]; [done|]. cbn [fmap list_fmap concat]. rewrite size_Z_app, size_Z_cons, IH. lia. }
  assert (size_Z blocks = k) as Hbl by (unfold size_Z, blocks; rewrite length_fmap, length_pieces; lia).
  destruct (dequantize_total blocks) as (l & El & Hl).
  eapply loads_lift_bind.
  { unfold dequantize_q8_0_reference. rewrite q8_block_size, Hbl, u64_small by lia.
    replace (n =? k * 32) with true by (symmetry; apply Z.eqb_eq; lia). cbn [negb]. rewrite El. reflexivity. }
  apply loads_try. intros x [= <-]. exists s, l. split_and!; try done.
  - fold n. lia.
  - unfold q8_blocks. rewrite q8_block_bytes, q8_block_size. change (2 + 32) with 34. by rewrite Ek.
  - fold n. unfold size_Z in *. lia.
Qed.

Lemma loads_f32_floats name shape d : int_shape shape ->
  loads (read_f32_to_float src name shape) (fun floats _ => f32_floats name shape floats) d.
Proof.
  intros Hs. destruct (int_shape_numel shape Hs) as (Hn & Hp & _). unfold read_f32_to_float.
  eapply loads_bind; [by apply loads_try with (P := fun i _ => info src name = Value i)|]. intros i d1 K1 Hi.
  case_bool_decide; [|apply loads_error]. case_bool_decide; [|apply loads_error]. cbn [negb].
  eapply loads_lift_bind; [exact Hn|]. destruct (Z.leb_spec (product shape) 0); [apply loads_error|].
  eapply loads_bind; [by apply loads_try with (P := fun s _ => read src name = Value s)|]. intros s d2 K2 Hr.
  rewrite (u64_small (product shape)), u64_small by lia.
  destruct (Z.eqb_spec (sp_size s) (product shape * 4)) as [Esz|]; [|apply loads_error]. cbn [negb].
  pose proof (so_range _ Hsrc _ _ Hr) as Hin. eapply loads_lift_bind; [by apply host_read_all|]. apply loads_ret.
  assert (size_Z (span_bytes s) = product shape * 4) as Hbytes by (unfold span_bytes; by rewrite size_slice).
  exists s. split_and!; try done. unfold size_Z. rewrite length_fmap, length_pieces. lia.
Qed.

(** Uploading narrowed floats, or floats. *)
Definition narrowed (floats : list Z) : bytes := words16_bytes (floats_to_bf16 floats).

Lemma loads_upload (x : bytes) dtype shape d :
  0 < dtype_size dtype <= SIZE_MAX -> int_shape shape -> size_Z x = product shape * dtype_size dtype ->
  loads (from_host (Some x) dtype shape) (fun t d' => tensor_holds d' t dtype shape x) d.
Proof.
  intros He Hs Hx. destruct (int_shape_numel shape Hs) as (_ & _ & Hf).
  eapply dwp_mono; [by apply dwp_from_host_holds|]. intros [t|e] d' [K Ht]; [|done]. split; [done|apply Ht].
Qed.

Lemma size_narrowed floats : size_Z (narrowed floats) = size_Z floats * 2.
Proof. unfold narrowed, floats_to_bf16. rewrite size_words16. unfold size_Z. by rewrite length_fmap. Qed.

(** A tensor of the model: matrices, vectors, and vectors kept as floats. *)
Definition q8_is (d : D) (name : bytes) (shape : list Z) (t : Tensor) : Prop :=
  exists floats, q8_floats name shape floats /\ tensor_holds d t kBFloat16 shape (narrowed floats).
Definition vector_is (d : D) (name : bytes) (shape : list Z) (t : Tensor) : Prop :=
  exists floats, f32_floats name shape floats /\ tensor_holds d t kBFloat16 shape (narrowed floats).
Definition float_is (d : D) (name : bytes) (shape : list Z) (t : Tensor) : Prop :=
  exists floats, f32_floats name shape floats /\ tensor_holds d t kFloat32 shape (words32_bytes floats).

Lemma q8_is_mono d d' name shape t : keeps_buffers d d' -> q8_is d name shape t -> q8_is d' name shape t.
Proof. intros K (x & Hx & Ht). exists x. split; [done|by eapply tensor_holds_mono]. Qed.
Lemma vector_is_mono d d' name shape t : keeps_buffers d d' -> vector_is d name shape t -> vector_is d' name shape t.
Proof. intros K (x & Hx & Ht). exists x. split; [done|by eapply tensor_holds_mono]. Qed.
Lemma float_is_mono d d' name shape t : keeps_buffers d d' -> float_is d name shape t -> float_is d' name shape t.
Proof. intros K (x & Hx & Ht). exists x. split; [done|by eapply tensor_holds_mono]. Qed.

Lemma loads_q8 name shape d : int_shape shape -> loads (load_q8_bf16 src name shape) (fun t d' => q8_is d' name shape t) d.
Proof.
  intros Hs. unfold load_q8_bf16. eapply loads_bind; [by apply loads_q8_floats|]. cbv beta. intros x d1 K1 Hx.
  pose proof Hx as (? & ? & _ & _ & _ & _ & Hsz).
  eapply loads_mono; [apply loads_upload; [apply bfloat16_ok|done|]|].
  - fold (narrowed x). by rewrite size_narrowed, bfloat16_size, Hsz.
  - intros t d2 K2 Ht. by exists x.
Qed.

Lemma loads_vector name shape d : int_shape shape -> loads (load_f32_bf16 src name shape) (fun t d' => vector_is d' name shape t) d.
Proof.
  intros Hs. unfold load_f32_bf16. eapply loads_bind; [by apply loads_f32_floats|]. cbv beta. intros x d1 K1 Hx.
  pose proof Hx as (? & _ & _ & _ & Hsz).
  eapply loads_mono; [apply loads_upload; [apply bfloat16_ok|done|]|].
  - fold (narrowed x). by rewrite size_narrowed, bfloat16_size, Hsz.
  - intros t d2 K2 Ht. by exists x.
Qed.

Lemma loads_float name shape d : int_shape shape -> loads (load_f32 src name shape) (fun t d' => float_is d' name shape t) d.
Proof.
  intros Hs. unfold load_f32. eapply loads_bind; [by apply loads_f32_floats|]. cbv beta. intros x d1 K1 Hx.
  pose proof Hx as (? & _ & _ & _ & Hsz).
  eapply loads_mono; [apply loads_upload; [rewrite float32_size; unfold SIZE_MAX; lia|done|]|].
  - by rewrite size_words32, float32_size, Hsz.
  - intros t d2 K2 Ht. by exists x.
Qed.

(** ** Layers *)

(** The query rows of every head of the checkpoint's tensor, and the gate rows. *)
Definition q_gate_is (d : D) (layer n_heads head_dim d_model : Z) (q gate : Tensor) : Prop :=
  exists floats, q8_floats (blk_prefix layer ++ lit "attn_q.weight") [n_heads * 2 * head_dim; d_model] floats /\
    let part i := words16_bytes (head_part (floats_to_bf16 floats) (head_dim * d_model) i (Z.to_nat n_heads)) in
    tensor_holds d q kBFloat16 [n_heads * head_dim; d_model] (part 0) /\
    tensor_holds d gate kBFloat16 [n_heads * head_dim; d_model] (part 1).

Lemma q_gate_is_mono d d' layer n h m q gate : keeps_buffers d d' -> q_gate_is d layer n h m q gate -> q_gate_is d' layer n h m q gate.
Proof. intros K (x & Hx & Hq & Hg). exists x. split; [done|]. split; by eapply tensor_holds_mono. Qed.

Lemma loads_q_gate layer n_heads head_dim d_model d :
  0 < n_heads -> 0 < head_dim -> 0 < d_model -> n_heads * 2 * head_dim * d_model <= INT_MAX ->
  loads (load_q_gate src layer n_heads head_dim d_model)
    (fun t d' => q_gate_is d' layer n_heads head_dim d_model t.1 t.2) d.
Proof.
  intros Hn Hh Hd Hmax. set (E := head_dim * d_model).
  assert (0 < E) as HE by (by apply Z.mul_pos_pos). assert (n_heads * 2 * head_dim * d_model = n_heads * 2 * E) as Ht by (unfold E; ring).
  assert (0 < n_heads * head_dim <= n_heads * 2 * head_dim) as Ho by nia.
  assert (n_heads * 2 * head_dim <= n_heads * 2 * head_dim * d_model) as Hr by nia.
  assert (n_heads * 2 <= n_heads * 2 * head_dim /\ E <= n_heads * 2 * E /\ d_model <= E) as (H1' & H2' & H3') by nia.
  unfold load_q_gate. cbv zeta.
  eapply loads_lift_bind; [apply int_of_ok; unfold INT_MIN; lia|]. eapply loads_lift_bind; [apply int_of_ok; unfold INT_MIN; lia|].
  eapply loads_bind.
  { apply loads_q8_floats. split; [done|]. repeat (apply Forall_cons; split); [lia|lia|apply Forall_nil; exact I]. }
  cbv beta. intros floats d1 K1 Hx. pose proof Hx as (? & ? & _ & _ & _ & _ & Hsz). unfold product in Hsz. cbn [foldr] in Hsz.
  rewrite Z.mul_1_r, Ht in Hsz.
  eapply loads_lift_bind; [apply int_of_ok; fold E; unfold INT_MIN; lia|]. fold E.
  unfold INT_MAX in *. rewrite (u64_small E), (u64_small n_heads), (u64_small (E * n_heads)) by lia.
  set (all := floats_to_bf16 floats).
  assert (size_Z all = n_heads * 2 * E) as Hall by (unfold all, floats_to_bf16, size_Z in *; rewrite length_fmap; lia).
  eapply loads_lift_bind.
  { apply (split_heads_spec all head_dim d_model E (Z.to_nat n_heads) 0 (repeat 0 (Z.to_nat (E * n_heads)))
      (repeat 0 (Z.to_nat (E * n_heads)))); try done; [rewrite Hall; lia|unfold INT_MAX; lia|..];
      unfold size_Z; rewrite repeat_length; lia. }
  cbn [Nat.add]. eapply loads_lift_bind; [apply int_of_ok; unfold INT_MIN, INT_MAX; lia|].
  assert (forall part, 0 <= part <= 1 -> size_Z (words16_bytes (head_part all E part (Z.to_nat n_heads))) =
    product [n_heads * head_dim; d_model] * dtype_size kBFloat16) as Hpart.
  { intros part Hp. rewrite size_words16, size_head_part, bfloat16_size by lia. unfold product. cbn [foldr].
    rewrite Z2Nat.id by lia. unfold E. ring. }
  assert (int_shape [n_heads * head_dim; d_model]) as Hs.
  { split; [done|]. unfold INT_MAX. repeat (apply Forall_cons; split); [lia|lia|apply Forall_nil; exact I]. }
  eapply loads_bind; [apply loads_upload; [apply bfloat16_ok|exact Hs|by apply Hpart]|]. cbv beta. intros q d2 K2 Hq.
  eapply loads_bind; [apply loads_upload; [apply bfloat16_ok|exact Hs|by apply Hpart]|]. cbv beta. intros gate d3 K3 Hg.
  apply loads_ret. exists floats. split; [done|]. split; [by eapply tensor_holds_mono|done].
Qed.

(** A valid hybrid configuration whose sizes fit [int]; the parts of its layers. *)
Definition value_size (cfg : ModelConfig) : Z := ssm_time_step_rank_ cfg * (ssm_inner_size_ cfg / ssm_time_step_rank_ cfg).
Definition conv_size (cfg : ModelConfig) : Z := 2 * (ssm_group_count_ cfg * ssm_state_size_ cfg) + value_size cfg.

Record hybrid_fit (cfg : ModelConfig) : Prop := mk_hybrid_fit {
  hf_dims : 0 < d_model_ cfg <= INT_MAX /\ 0 <= d_ff_ cfg <= INT_MAX /\ 0 <= vocab_size_ cfg <= INT_MAX;
  hf_heads : 0 < n_q_heads_ cfg /\ 0 < n_kv_heads_ cfg /\ 0 < head_dim_ cfg /\
    n_q_heads_ cfg * 2 * head_dim_ cfg * d_model_ cfg <= INT_MAX /\ n_kv_heads_ cfg * head_dim_ cfg <= INT_MAX;
  hf_ssm : 0 < ssm_time_step_rank_ cfg <= INT_MAX /\ 0 <= ssm_inner_size_ cfg <= INT_MAX /\ 0 <= ssm_group_count_ cfg /\
    0 <= ssm_state_size_ cfg /\ 0 <= ssm_conv_kernel_ cfg <= INT_MAX /\ conv_size cfg <= INT_MAX;
  hf_layers : 0 <= n_layers_ cfg /\ forall l, 0 <= l < n_layers_ cfg ->
    at_Z (layer_types_ cfg) l = Some GatedDeltaNet \/ at_Z (layer_types_ cfg) l = Some FullAttention;
}.

Record gdn_exact (cfg : ModelConfig) (d : D) (layer : Z) (w : Qwen35GdnLayerWeights) : Prop := mk_gdn_exact {
  ge_attn_norm : vector_is d (blk_prefix layer ++ lit "attn_norm.weight") [d_model_ cfg] (gw_attn_norm w);
  ge_attn_qkv : q8_is d (blk_prefix layer ++ lit "attn_qkv.weight") [conv_size cfg; d_model_ cfg] (gw_attn_qkv w);
  ge_attn_gate : q8_is d (blk_prefix layer ++ lit "attn_gate.weight") [value_size cfg; d_model_ cfg] (gw_attn_gate w);
  ge_ssm_conv1d : vector_is d (blk_prefix layer ++ lit "ssm_conv1d.weight") [conv_size cfg; ssm_conv_kernel_ cfg] (gw_ssm_conv1d w);
  ge_ssm_alpha : q8_is d (blk_prefix layer ++ lit "ssm_alpha.weight") [ssm_time_step_rank_ cfg; d_model_ cfg] (gw_ssm_alpha w);
  ge_ssm_beta : q8_is d (blk_prefix layer ++ lit "ssm_beta.weight") [ssm_time_step_rank_ cfg; d_model_ cfg] (gw_ssm_beta w);
  ge_ssm_out : q8_is d (blk_prefix layer ++ lit "ssm_out.weight") [d_model_ cfg; value_size cfg] (gw_ssm_out w);
  ge_ssm_norm : vector_is d (blk_prefix layer ++ lit "ssm_norm.weight")
    [ssm_inner_size_ cfg / ssm_time_step_rank_ cfg] (gw_ssm_norm w);
  ge_ssm_a : float_is d (blk_prefix layer ++ lit "ssm_a") [ssm_time_step_rank_ cfg] (gw_ssm_a w);
  ge_ssm_dt_bias : float_is d (blk_prefix layer ++ lit "ssm_dt.bias") [ssm_time_step_rank_ cfg] (gw_ssm_dt_bias w);
  ge_ffn_gate : q8_is d (blk_prefix layer ++ lit "ffn_gate.weight") [d_ff_ cfg; d_model_ cfg] (gw_ffn_gate w);
  ge_ffn_up : q8_is d (blk_prefix layer ++ lit "ffn_up.weight") [d_ff_ cfg; d_model_ cfg] (gw_ffn_up w);
  ge_ffn_down : q8_is d (blk_prefix layer ++ lit "ffn_down.weight") [d_model_ cfg; d_ff_ cfg] (gw_ffn_down w);
  ge_post_norm : vector_is d (blk_prefix layer ++ lit "post_attention_norm.weight") [d_model_ cfg] (gw_post_attention_norm w);
}.

Record attn_exact (cfg : ModelConfig) (d : D) (layer : Z) (w : Qwen35AttnLayerWeights) : Prop := mk_attn_exact {
  ae_attn_norm : vector_is d (blk_prefix layer ++ lit "attn_norm.weight") [d_model_ cfg] (aw_attn_norm w);
  ae_q_gate : q_gate_is d layer (n_q_heads_ cfg) (head_dim_ cfg) (d_model_ cfg) (aw_attn_q w) (aw_attn_gate w);
  ae_attn_k : q8_is d (blk_prefix layer ++ lit "attn_k.weight") [n_kv_heads_ cfg * head_dim_ cfg; d_model_ cfg] (aw_attn_k w);
  ae_attn_v : q8_is d (blk_prefix layer ++ lit "attn_v.weight") [n_kv_heads_ cfg * head_dim_ cfg; d_model_ cfg] (aw_attn_v w);
  ae_q_norm : vector_is d (blk_prefix layer ++ lit "attn_q_norm.weight") [head_dim_ cfg] (aw_attn_q_norm w);
  ae_k_norm : vector_is d (blk_prefix layer ++ lit "attn_k_norm.weight") [head_dim_ cfg] (aw_attn_k_norm w);
  ae_output : q8_is d (blk_prefix layer ++ lit "attn_output.weight") [d_model_ cfg; n_q_heads_ cfg * head_dim_ cfg] (aw_attn_output w);
  ae_ffn_gate : q8_is d (blk_prefix layer ++ lit "ffn_gate.weight") [d_ff_ cfg; d_model_ cfg] (aw_ffn_gate w);
  ae_ffn_up : q8_is d (blk_prefix layer ++ lit "ffn_up.weight") [d_ff_ cfg; d_model_ cfg] (aw_ffn_up w);
  ae_ffn_down : q8_is d (blk_prefix layer ++ lit "ffn_down.weight") [d_model_ cfg; d_ff_ cfg] (aw_ffn_down w);
  ae_post_norm : vector_is d (blk_prefix layer ++ lit "post_attention_norm.weight") [d_model_ cfg] (aw_post_attention_norm w);
}.

Ltac mono := first [eapply q8_is_mono; [|eassumption]|eapply vector_is_mono; [|eassumption]|eapply float_is_mono; [|eassumption]|
  eapply q_gate_is_mono; [|eassumption]]; eauto 20 with live.

Lemma gdn_exact_mono cfg d d' l w : keeps_buffers d d' -> gdn_exact cfg d l w -> gdn_exact cfg d' l w.
Proof. intros K []. split; mono. Qed.
Lemma attn_exact_mono cfg d d' l w : keeps_buffers d d' -> attn_exact cfg d l w -> attn_exact cfg d' l w.
Proof. intros K []. split; mono. Qed.

Section layers.
Context (cfg : ModelConfig) (Hfit : hybrid_fit cfg).

Lemma gdn_sizes_ok : 0 <= ssm_inner_size_ cfg / ssm_time_step_rank_ cfg <= INT_MAX /\ 0 <= value_size cfg <= INT_MAX /\
  0 <= conv_size cfg <= INT_MAX /\
  gdn_sizes cfg = Some (mkGdnSizes (ssm_inner_size_ cfg / ssm_time_step_rank_ cfg) (value_size cfg) (conv_size cfg)).
Proof.
  destruct (hf_ssm _ Hfit) as (Hr & Hi & Hg & Hs & Hk & Hc). unfold conv_size, value_size in *. unfold INT_MAX in *.
  set (r := ssm_time_step_rank_ cfg) in *. set (inner := ssm_inner_size_ cfg) in *.
  assert (0 <= inner / r) by (by apply Z.div_pos; lia). assert (r * (inner / r) <= inner) by (apply Z.mul_div_le; lia).
  assert (inner / r <= inner) by (apply Z.div_le_upper_bound; nia).
  assert (0 <= ssm_group_count_ cfg * ssm_state_size_ cfg) by (by apply Z.mul_nonneg_nonneg). assert (0 <= r * (inner / r)) by nia.
  split_and!; try lia. unfold gdn_sizes. fold r inner. destruct (Z.eqb_spec r 0); [lia|].
  rewrite Z.quot_div_nonneg by lia.
  do 5 (rewrite int_of_ok by (unfold INT_MIN, INT_MAX; lia); cbn [mbind option_bind]). reflexivity.
Qed.

Ltac shape := destruct (hf_dims _ Hfit) as (? & ? & ?); destruct (hf_heads _ Hfit) as (? & ? & ? & ? & ?);
  destruct (hf_ssm _ Hfit) as (? & ? & ? & ? & ? & ?); pose proof gdn_sizes_ok as (? & ? & ? & _);
  split; [simpl; lia|]; repeat (apply Forall_cons; split); try (apply Forall_nil; exact I); first [lia|nia].
Ltac next := eapply loads_bind; [first [apply loads_q8; shape|apply loads_vector; shape|apply loads_float; shape]|
  cbv beta; intros ? ? ? ?].

Lemma loads_gdn layer d : loads (load_gdn_layer cfg src layer) (fun w d' => gdn_exact cfg d' layer w) d.
Proof.
  unfold load_gdn_layer. eapply loads_lift_bind; [apply gdn_sizes_ok|]. cbn [conv_dim value_dim head_v_dim].
  do 14 next. apply loads_ret. split; simpl; mono.
Qed.

Lemma loads_attn layer d : loads (load_attn_layer cfg src layer) (fun w d' => attn_exact cfg d' layer w) d.
Proof.
  destruct (hf_heads _ Hfit) as (Hq & Hkv & Hh & Hmax & Hkvmax). destruct (hf_dims _ Hfit) as (Hd & _).
  unfold load_attn_layer. next.
  eapply loads_bind; [apply loads_q_gate; lia|]. cbv beta. intros [q gate] d2 K2 Hqg. cbn [fst snd] in Hqg.
  eapply loads_lift_bind; [apply int_of_ok; unfold INT_MIN; nia|]. do 2 next.
  eapply loads_lift_bind; [apply int_of_ok; unfold INT_MIN; nia|]. do 7 next. apply loads_ret. split; simpl; mono.
Qed.

(** ** The layer loop *)

(** Decoder layer [l] is in its list, at the number of layers of its type before it. *)
Definition layer_loaded (d : D) (gdn : list Qwen35GdnLayerWeights) (attn : list Qwen35AttnLayerWeights) (l : Z) : Prop :=
  match at_Z (layer_types_ cfg) l with
  | Some GatedDeltaNet => exists w, at_Z gdn (count_types (layer_types_ cfg) l GatedDeltaNet) = Some w /\ gdn_exact cfg d l w
  | Some FullAttention => exists w, at_Z attn (count_types (layer_types_ cfg) l FullAttention) = Some w /\ attn_exact cfg d l w
  | _ => False
  end.

Lemma layer_loaded_mono d d' gdn gdn' attn attn' l : keeps_buffers d d' ->
  layer_loaded d gdn attn l -> layer_loaded d' (gdn ++ gdn') (attn ++ attn') l.
Proof.
  unfold layer_loaded. intros K. destruct (at_Z _ l) as [[]|]; [| |done..]; intros (w & Hw & He); exists w;
    (split; [by apply at_Z_app_l|]); [by eapply attn_exact_mono|by eapply gdn_exact_mono].
Qed.

(** The layers before [n] are loaded, and nothing else. *)
Definition loaded_upto (d : D) (n : Z) (gdn : list Qwen35GdnLayerWeights) (attn : list Qwen35AttnLayerWeights) : Prop :=
  size_Z gdn = count_types (layer_types_ cfg) n GatedDeltaNet /\ size_Z attn = count_types (layer_types_ cfg) n FullAttention /\
  forall l, 0 <= l < n -> layer_loaded d gdn attn l.

Lemma loaded_next d d' n gdn attn gw aw type :
  0 <= n -> at_Z (layer_types_ cfg) n = Some type -> keeps_buffers d d' -> loaded_upto d n gdn attn ->
  size_Z gw = (if bool_decide (type = GatedDeltaNet) then 1 else 0) ->
  size_Z aw = (if bool_decide (type = FullAttention) then 1 else 0) ->
  layer_loaded d' (gdn ++ gw) (attn ++ aw) n -> loaded_upto d' (n + 1) (gdn ++ gw) (attn ++ aw).
Proof.
  intros Hn Ht K (Hg & Ha & Hl) Hgw Haw Hlast. unfold loaded_upto. rewrite !size_Z_app, Hgw, Haw, Hg, Ha.
  rewrite !(count_types_step _ n _ type Ht). split_and!; try (by repeat case_bool_decide).
  intros l Hlt. destruct (decide (l = n)) as [->|]; [done|]. apply (layer_loaded_mono d); [done|]. apply Hl. lia.
Qed.

Lemma loads_decoder todo layer gdn attn d : 0 <= layer -> layer + Z.of_nat todo = n_layers_ cfg -> loaded_upto d layer gdn attn ->
  loads (load_decoder_layers cfg src todo layer gdn attn) (fun w d' => loaded_upto d' (n_layers_ cfg) w.1 w.2) d.
Proof.
  revert layer gdn attn d. induction todo as [|todo IH]; intros layer gdn attn d Hl Hle Hup; cbn [load_decoder_layers].
  { apply loads_ret. by replace (n_layers_ cfg) with layer by lia. }
  destruct (proj2 (hf_layers _ Hfit) layer ltac:(lia)) as [Et|Et]; (eapply loads_lift_bind; [exact Et|]).
  - rewrite bool_decide_eq_true_2 by done. eapply loads_bind; [apply loads_gdn|]. cbv beta. intros w d1 K1 Hw.
    apply IH; [lia|lia|]. rewrite <- (app_nil_r attn).
    apply (loaded_next d d1 layer gdn attn [w] [] GatedDeltaNet Hl Et K1 Hup eq_refl eq_refl).
    unfold layer_loaded. rewrite Et. exists w. split; [|done]. rewrite <- (proj1 Hup). apply at_Z_end.
  - rewrite bool_decide_eq_false_2 by done. eapply loads_bind; [apply loads_attn|]. cbv beta. intros w d1 K1 Hw.
    apply IH; [lia|lia|]. rewrite <- (app_nil_r gdn).
    apply (loaded_next d d1 layer gdn attn [] [w] FullAttention Hl Et K1 Hup eq_refl eq_refl).
    unfold layer_loaded. rewrite Et. exists w. split; [|done]. rewrite <- (proj1 (proj2 Hup)). apply at_Z_end.
Qed.

(** What a loaded model holds. *)
Definition hybrid_exact (w : Qwen35Weights) (d : D) : Prop :=
  q8_is d (lit "token_embd.weight") [vocab_size_ cfg; d_model_ cfg] (q35_embed w) /\ q35_lm_head w = q35_embed w /\
  vector_is d (lit "output_norm.weight") [d_model_ cfg] (q35_rms_final w) /\
  num_gdn_layers cfg = Some (size_Z (gdn_layers_ w)) /\ num_kv_layers cfg = Some (size_Z (attn_layers_ w)) /\
  (forall layer i, gdn_layer_index cfg layer = Some i -> exists lw, at_Z (gdn_layers_ w) i = Some lw /\ gdn_exact cfg d layer lw) /\
  (forall layer i, kv_layer_index cfg layer = Some i -> exists lw, at_Z (attn_layers_ w) i = Some lw /\ attn_exact cfg d layer lw).

Lemma index_inv layer type i : index_for_layer_type cfg layer type = Some i ->
  0 <= layer < n_layers_ cfg /\ at_Z (layer_types_ cfg) layer = Some type /\ i = count_types (layer_types_ cfg) layer type.
Proof. unfold index_for_layer_type. intros Hi. inv_run Hi. bprop. subst. split_and!; try done; lia. Qed.

Lemma loads_qwen35 d : loads (load_qwen35 cfg src) hybrid_exact d.
Proof.
  unfold load_qwen35. case_bool_decide as Harch; [|apply loads_error]. cbn [negb].
  eapply loads_bind; [apply loads_q8; shape|]. cbv beta. intros embed d1 K1 He. cbv zeta.
  eapply loads_bind; [apply loads_vector; shape|]. cbv beta. intros final d2 K2 Hf.
  assert (forall type, count_layer_type cfg type = Some (count_types (layer_types_ cfg) (n_layers_ cfg) type)) as Hcount.
  { intros type. unfold count_layer_type. by rewrite bool_decide_eq_true_2. }
  eapply loads_lift_bind; [apply Hcount|]. eapply loads_lift_bind; [apply Hcount|].
  eapply loads_bind.
  { apply (loads_decoder _ 0 [] []); [lia|pose proof (proj1 (hf_layers _ Hfit)); lia|]. split_and!; try done. lia. }
  cbv beta. intros [gdn attn] d3 K3 (Hg & Ha & Hl). cbn [fst snd] in *. apply loads_ret. unfold hybrid_exact. simpl.
  unfold num_gdn_layers, num_kv_layers. rewrite !Hcount, Hg, Ha.
  split_and!; [mono|done|mono|done|done|..]; intros layer i (Hr & Ht & ->)%index_inv; pose proof (Hl layer Hr) as Hlw;
    unfold layer_loaded in Hlw; by rewrite Ht in Hlw.
Qed.

(** C8: Loading Qwen3.5 weights from any source that keeps its promises, for a valid
    hybrid configuration whose products of sizes fit [int] ([hybrid_fit], which the
    configuration's validation does not ensure): nothing is read outside the file or outside a host vector, no assertion fails, no [int] overflows
    and no live buffer changes; a missing tensor, a wrong shape, type or size and a
    device error are reported, and otherwise the embedding (shared with the output head),
    the final norm and every tensor of every decoder layer are on the device, narrowed
    from the checkpoint's tensor of its name, the query and gate rows separated; the
    recurrent and the attention layers are in two lists, where [gdn_layer_index] and
    [kv_layer_index] find each decoder layer, and nothing else is in them. *)
Theorem qwen35_load_exact d :
  dwp (load_qwen35 cfg src) (fun r d' => keeps_buffers d d' /\
    match r with
    | Value w =>
        q8_is d' (lit "token_embd.weight") [vocab_size_ cfg; d_model_ cfg] (q35_embed w) /\ q35_lm_head w = q35_embed w /\
        vector_is d' (lit "output_norm.weight") [d_model_ cfg] (q35_rms_final w) /\
        num_gdn_layers cfg = Some (size_Z (gdn_layers_ w)) /\ num_kv_layers cfg = Some (size_Z (attn_layers_ w)) /\
        (forall layer i, gdn_layer_index cfg layer = Some i ->
           exists lw, at_Z (gdn_layers_ w) i = Some lw /\ gdn_exact cfg d' layer lw) /\
        (forall layer i, kv_layer_index cfg layer = Some i ->
           exists lw, at_Z (attn_layers_ w) i = Some lw /\ attn_exact cfg d' layer lw)
    | Unexpected _ => True
    end) d.
Proof. exact (loads_qwen35 d). Qed.
End layers.

(** ** The numbers *)

Lemma narrowed_number b v : dyadic 149 (f32 b) = Some v ->
  exists x, dyadic 149 x = Some v /\ bf16 (float_to_bfloat16 b) = sf_convert 8 128 x.
Proof.
  intros Hv. exists (f32 b). split; [done|]. apply bfloat16_rounds. intros E. by rewrite E in Hv.
Qed.

Lemma narrowed_numbers floats vs : (fun b => dyadic 149 (f32 b)) <$> floats = vs -> Forall is_Some vs ->
  Forall2 (fun w v => exists x, dyadic 149 x = v /\ bf16 w = sf_convert 8 128 x) (floats_to_bf16 floats) vs.
Proof.
  intros <- Hs. unfold floats_to_bf16. induction floats as [|b floats IH]; [by apply Forall2_nil|].
  cbn [fmap list_fmap] in *. apply Forall_cons in Hs as [[v Hv] Hs]. apply Forall2_cons. split; [|by apply IH].
  cbv beta in *. rewrite Hv. by apply narrowed_number.
Qed.

Lemma block_values_some blocks : Forall is_Some (concat (block_values <$> blocks)).
Proof.
  induction blocks as [|b blocks IH]; [by apply Forall_nil|]. cbn [fmap list_fmap concat]. apply Forall_app. split; [|done].
  unfold block_values. apply Forall_fmap, Forall_forall. intros q _. by eexists.
Qed.

(** The tensors kept as floats are the checkpoint's bytes. *)
Lemma float_is_unchanged d name shape t s : float_is d name shape t -> read src name = Value s -> is_bytes (span_bytes s) ->
  0 <= product shape -> tensor_holds d t kFloat32 shape (span_bytes s).
Proof.
  intros (floats & (s' & Hr & Hsz & -> & _) & Ht) Hs Hb Hp. rewrite Hs in Hr. injection Hr as <-.
  rewrite words32_of_pieces in Ht; [done|done|lia].
Qed.

(** C9: The numbers of a loaded matrix.  A quantised tensor whose blocks have finite
    scales is on the device as one bfloat16 per quantised integer, in order, and each of
    them is the real number scale times integer rounded once, to nearest with ties to
    even: the dequantisation to [float] in between loses nothing. *)
Theorem qwen35_numbers_exact d name shape t s :
  q8_is d name shape t -> read src name = Value s -> Forall block_ok (q8_blocks s) ->
  exists words, tensor_holds d t kBFloat16 shape (words16_bytes words) /\
    Forall2 (fun w v => exists x, dyadic 149 x = v /\ bf16 w = sf_convert 8 128 x) words
      (concat (block_values <$> q8_blocks s)).
Proof.
  intros (floats & (s' & l & Hr & _ & El & -> & _) & Ht) Hs Hok. rewrite Hs in Hr. injection Hr as <-.
  exists (floats_to_bf16 (concat l)). split; [exact Ht|]. destruct (dequantize_blocks_spec _ Hok) as (l' & El' & Hv).
  rewrite El in El'. injection El' as <-. apply narrowed_numbers; [done|apply block_values_some].
Qed.
End load.

(** ** A small checkpoint *)

(** A source in memory: names, representations, shapes and bytes. *)
Definition mem_source (l : list (bytes * (StorageType * list Z * bytes))) : WeightSource :=
  let find name := snd <$> list_find (fun x => x.1 = name) l in
  mkWeightSource (fun name => bool_decide (is_Some (find name)))
    (fun name => match find name with
                 | Some (_, (type, shape, data)) => Value (mkWeightInfo shape type 0 (size_Z data))
                 | None => Unexpected ModelLoadFailed
                 end)
    (fun name => match find name with
                 | Some (_, (_, _, data)) => Value (mkSpan data 0 (size_Z data))
                 | None => Unexpected ModelLoadFailed
                 end).

Lemma mem_source_ok l : source_ok (mem_source l).
Proof.
  split; intros name; cbn [read info has mem_source].
  - intros sp. destruct (snd <$> _) as [[n [[type shape] data]]|]; [|done]. intros [= <-]. unfold in_range. simpl.
    pose proof (size_Z_nonneg data). lia.
  - intros i sp. destruct (snd <$> _) as [[n [[type shape] data]]|]; [|done]. by intros [= <-] [= <-].
  - intros sp. destruct (snd <$> _) as [[n [[type shape] data]]|]; [|done]. intros _. by apply bool_decide_eq_true.
Qed.

(** [n] blocks of scale 1 with the numbers [first], [first + 1] and so on. *)
Definition mem_q8 (name : bytes) (shape : list Z) (first : Z) : bytes * (StorageType * list Z * bytes) :=
  (name, (StoreQ8_0, shape,
    concat ((fun i => le_bytes 2 15360 ++ ((fun j => u8 (first + Z.of_nat (i * 32 + j))) <$> seq 0 32)) <$> seq 0 (Z.to_nat (product shape / 32))))).
Definition mem_f32 (name : bytes) (shape : list Z) (x : Z) : bytes * (StorageType * list Z * bytes) :=
  (name, (StoreFloat32, shape, concat (repeat (le_bytes 4 (f32_of_int x)) (Z.to_nat (product shape))))).

Definition mini_config : ModelConfig :=
  mkModelConfig Qwen3_5 2 1 1 32 1 0 1 1 8 f32_one f32_one 2 0 2 1 1 1 1 [GatedDeltaNet; FullAttention].

Definition mini_source : WeightSource := mem_source
  [mem_q8 (lit "token_embd.weight") [1; 32] 0; mem_f32 (lit "output_norm.weight") [32] 1;
   mem_f32 (lit "blk.0.attn_norm.weight") [32] 2; mem_q8 (lit "blk.0.attn_qkv.weight") [3; 32] 1;
   mem_q8 (lit "blk.0.attn_gate.weight") [1; 32] 2; mem_f32 (lit "blk.0.ssm_conv1d.weight") [3; 2] 3;
   mem_q8 (lit "blk.0.ssm_alpha.weight") [1; 32] 3; mem_q8 (lit "blk.0.ssm_beta.weight") [1; 32] 4;
   mem_q8 (lit "blk.0.ssm_out.weight") [32; 1] 5; mem_f32 (lit "blk.0.ssm_norm.weight") [1] 4;
   mem_f32 (lit "blk.0.ssm_a") [1] 5; mem_f32 (lit "blk.0.ssm_dt.bias") [1] 6;
   mem_q8 (lit "blk.0.ffn_gate.weight") [1; 32] 6; mem_q8 (lit "blk.0.ffn_up.weight") [1; 32] 7;
   mem_q8 (lit "blk.0.ffn_down.weight") [32; 1] 8; mem_f32 (lit "blk.0.post_attention_norm.weight") [32] 7;
   mem_f32 (lit "blk.1.attn_norm.weight") [32] 8; mem_q8 (lit "blk.1.attn_q.weight") [2; 32] 9;
   mem_q8 (lit "blk.1.attn_k.weight") [1; 32] 10; mem_q8 (lit "blk.1.attn_v.weight") [1; 32] 11;
   mem_q8 (lit "blk.1.attn_output.weight") [32; 1] 12; mem_f32 (lit "blk.1.attn_q_norm.weight") [1] 9;
   mem_f32 (lit "blk.1.attn_k_norm.weight") [1] 10; mem_q8 (lit "blk.1.ffn_gate.weight") [1; 32] 13;
   mem_q8 (lit "blk.1.ffn_up.weight") [1; 32] 14; mem_q8 (lit "blk.1.ffn_down.weight") [32; 1] 15;
   mem_f32 (lit "blk.1.post_attention_norm.weight") [32] 11].

Lemma mini_fit : hybrid_fit mini_config.
Proof.
  split; [repeat split; vm_compute; first [reflexivity|discriminate]..|]. split; [done|]. intros l Hl. cbn in Hl.
  destruct (decide (l = 0)) as [->|]; [by left|]. replace l with 1 by lia. by right.
Qed.

Lemma qwen35_load_exact_witness :
  exists w d' lw, load_qwen35 mini_config mini_source (mkSim [] []) = Some (Value w, d') /\
    at_Z (attn_layers_ w) 0 = Some lw /\ attn_exact mini_source mini_config d' 1 lw.
Proof.
  destruct (qwen35_load_exact mini_source (mem_source_ok _) mini_config mini_fit (mkSim [] [])) as (r & d' & E & _ & H).
  destruct r as [w|e]; [|exfalso; revert E; vm_compute; discriminate].
  destruct H as (_ & _ & _ & _ & _ & _ & Hkv). destruct (Hkv 1 0 eq_refl) as (lw & Hlw & Hex).
  exists w, d', lw. split; [exact E|]. split; [exact Hlw|exact Hex].
Defined.

(** The query and the gate of the attention layer: 9, 10, ... and 41, 42, ... *)
Example mini_q_gate :
  match load_qwen35 mini_config mini_source (mkSim [] []) with
  | Some (Value w, d') =>
      (fun lw => (take 4 <$> buf d' (t_buffer (aw_attn_q lw)), take 4 <$> buf d' (t_buffer (aw_attn_gate lw)))) <$> attn_layers_ w =
        [(Some (words16_bytes (float_to_bfloat16 ∘ f32_of_int <$> [9; 10])),
          Some (words16_bytes (float_to_bfloat16 ∘ f32_of_int <$> [41; 42])))]
  | _ => False
  end.
Proof. vm_compute. reflexivity. Qed.

(** The embedding is 0, 1, 2, ... *)
Lemma qwen35_numbers_exact_witness :
  exists w d' words, load_qwen35 mini_config mini_source (mkSim [] []) = Some (Value w, d') /\
    tensor_holds d' (q35_embed w) kBFloat16 [1; 32] (words16_bytes words) /\
    Forall2 (fun w v => exists x, dyadic 149 x = v /\ bf16 w = sf_convert 8 128 x) words
      ((fun i => Some (i * 2 ^ 149)) <$> seqZ 0 32).
Proof.
  destruct (loads_qwen35 mini_source (mem_source_ok _) mini_config mini_fit (mkSim [] [])) as (r & d' & E & _ & H).
  destruct r as [w|e]; [|exfalso; revert E; vm_compute; discriminate]. destruct H as (He & _).
  set (s := mkSpan (concat ((fun i => le_bytes 2 15360 ++ ((fun j => u8 (0 + Z.of_nat (i * 32 + j))) <$> seq 0 32)) <$> seq 0 1)) 0 34).
  assert (q8_blocks s = [mkQ8 15360 (seqZ 0 32)]) as Eb by (vm_compute; reflexivity).
  assert (read mini_source (lit "token_embd.weight") = Value s) as Hr by (vm_compute; reflexivity).
  assert (Forall block_ok (q8_blocks s)) as Hok.
  { rewrite Eb. apply Forall_cons. split; [|apply Forall_nil; exact I]. split; [split; [vm_compute; discriminate|reflexivity]|].
    split; [eexists; vm_compute; reflexivity|]. apply Forall_forall. intros q Hq. apply elem_of_seqZ in Hq. lia. }
  destruct (qwen35_numbers_exact mini_source d' (lit "token_embd.weight") [1; 32] (q35_embed w) s He Hr Hok) as (words & Hw & Hn).
  exists w, d', words. split; [exact E|]. split; [exact Hw|].
  assert (concat (block_values <$> q8_blocks s) = (fun i => Some (i * 2 ^ 149)) <$> seqZ 0 32) as Ev
    by (rewrite Eb; vm_compute; reflexivity).
  rewrite Ev in Hn. exact Hn.
Defined.
