(* ===== verification/Cuda.v ===== *)
(** * The CUDA backend: [backend/cuda/backend_cuda.cpp], [backend/cuda/cuda_utils.h]

    The CUDA runtime and cuBLAS appear as the class [CudaRuntime]; [CudaLaws] states what
    their documentation promises of the calls the backend makes: objects are created and
    destroyed one by one, work issued to one stream is executed in order, and host memory
    is written once the stream has been synchronised.  Nothing is assumed of the contents
    of the memory when a call that moves or allocates memory fails: the error may be one
    of earlier work.  Creating the backend leaks no handle on any path. *)

From Stdlib Require Import ZArith Lia.
From stdpp Require Import prelude strings gmap.
From S2P Require Import Prelude Base Device.

(** ** Error codes: [cuda_utils.h] *)

Inductive cudaError_t :=
| cudaSuccess | cudaErrorMemoryAllocation | cudaErrorInvalidValue | cudaErrorInvalidDevice
| cudaErrorInvalidDevicePointer | cudaErrorInvalidConfiguration | cudaErrorLaunchFailure
| cudaErrorLaunchOutOfResources | cudaErrorIllegalAddress | cudaErrorOther (code : Z).

Inductive cublasStatus_t :=
| CUBLAS_STATUS_SUCCESS | CUBLAS_STATUS_ALLOC_FAILED | CUBLAS_STATUS_INVALID_VALUE
| CUBLAS_STATUS_EXECUTION_FAILED | CUBLAS_STATUS_OTHER (code : Z).

Definition map_cuda_error (err : cudaError_t) : ErrorCode :=
  match err with
  | cudaSuccess => Ok
  | cudaErrorMemoryAllocation => CudaOutOfMemory
  | cudaErrorInvalidValue | cudaErrorInvalidDevice | cudaErrorInvalidDevicePointer | cudaErrorInvalidConfiguration =>
      CudaInvalidValue
  | cudaErrorLaunchFailure | cudaErrorLaunchOutOfResources | cudaErrorIllegalAddress => CudaLaunchFailed
  | cudaErrorOther _ => CudaRuntimeError
  end.

Definition cuda_check (err : cudaError_t) : Result unit :=
  match err with cudaSuccess => Value tt | _ => Unexpected (map_cuda_error err) end.

Definition map_cublas_error (status : cublasStatus_t) : ErrorCode :=
  match status with
  | CUBLAS_STATUS_ALLOC_FAILED => CudaOutOfMemory
  | CUBLAS_STATUS_INVALID_VALUE => CudaInvalidValue
  | CUBLAS_STATUS_EXECUTION_FAILED => CudaLaunchFailed
  | _ => CublasError
  end.

Definition cublas_check (status : cublasStatus_t) : Result unit :=
  match status with CUBLAS_STATUS_SUCCESS => Value tt | _ => Unexpected (map_cublas_error status) end.

(** A failed call is never reported as [Ok]. *)
Lemma cuda_check_value err u : cuda_check err = Value u -> err = cudaSuccess.
Proof. by destruct err. Qed.
Lemma cuda_check_error err e : cuda_check err = Unexpected e -> err <> cudaSuccess /\ e = map_cuda_error err /\ e <> Ok.
Proof. by destruct err; intros [= <-]. Qed.
Lemma cublas_check_value status u : cublas_check status = Value u -> status = CUBLAS_STATUS_SUCCESS.
Proof. by destruct status. Qed.
Lemma cublas_check_error status e : cublas_check status = Unexpected e ->
  status <> CUBLAS_STATUS_SUCCESS /\ e = map_cublas_error status /\ e <> Ok.
Proof. by destruct status; intros [= <-]. Qed.

(** ** The CUDA runtime

    Streams, handles, allocations and transfers to the host are numbers; zero is the
    null pointer.  A device address is an allocation and an offset.  The last five
    components are what the documentation speaks about: the contents of an allocation
    once the work issued to a stream is done, the host memory a transfer writes to, the
    streams and handles that exist, and the stream of a handle.  The host memory of an
    upload is pageable in this program, so the bytes are those at the time of the call:
    it returns when they have been staged. *)

Class CudaRuntime (R : Type) := {
  cudaSetDevice : Z -> R -> cudaError_t * R;
  cublasCreate : R -> cublasStatus_t * Z * R;
  cublasDestroy : Z -> R -> R;
  cublasSetStream : Z -> Z -> R -> cublasStatus_t * R;
  cudaStreamCreate : R -> cudaError_t * Z * R;
  cudaStreamDestroy : Z -> R -> R;
  cudaStreamSynchronize : Z -> R -> cudaError_t * R;
  cudaMalloc : Z -> R -> cudaError_t * Z * R;
  cudaFree : Z -> R -> R;
  cudaMemcpyHostToDevice : Z -> Z -> list Z -> Z -> R -> cudaError_t * R;      (* dst, offset, bytes, stream *)
  cudaMemcpyDeviceToHost : Z -> Z -> Z -> Z -> R -> cudaError_t * Z * R;        (* src, offset, count, stream *)
  cudaMemcpyDeviceToDevice : Z -> Z -> Z -> Z -> Z -> Z -> R -> cudaError_t * R;
    (* dst, offset, src, offset, count, stream *)
  cudaMemsetAsync : Z -> Z -> Z -> Z -> Z -> R -> cudaError_t * R;              (* dst, offset, value, count, stream *)
  contents_after : R -> Z -> Z -> option (list Z);                              (* stream, allocation *)
  host_memory : R -> Z -> list Z;                                               (* transfer *)
  live_streams : R -> gset Z;
  live_handles : R -> gset Z;
  handle_stream : R -> Z -> option Z;
}.

Section backend.
Context {R : Type} `{CudaRuntime R}.

(** [Backend::Impl]. *)
Record Impl := mkImpl { stream_ : Z; cublas_handle_ : Z; device_id_ : Z }.

(** [~Impl]. *)
Definition destroy_impl (i : Impl) (r : R) : R :=
  let r := if stream_ i =? 0 then r else cudaStreamDestroy (stream_ i) r in
  if cublas_handle_ i =? 0 then r else cublasDestroy (cublas_handle_ i) r.

(** [Backend::create]; every early return destroys the [Impl] built so far. *)
Definition backend_create (device_id : Z) (r : R) : Result Impl * R :=
  let impl := mkImpl 0 0 0 in
  let '(err, r) := cudaSetDevice device_id r in
  match cuda_check err with
  | Unexpected e => (Unexpected e, destroy_impl impl r)
  | Value _ =>
      let impl := mkImpl (stream_ impl) (cublas_handle_ impl) device_id in
      let '(status, handle, r) := cublasCreate r in
      let impl := mkImpl (stream_ impl) handle (device_id_ impl) in
      match cublas_check status with
      | Unexpected e => (Unexpected e, destroy_impl impl r)
      | Value _ =>
          let '(err, stream, r) := cudaStreamCreate r in
          let impl := mkImpl stream (cublas_handle_ impl) (device_id_ impl) in
          match cuda_check err with
          | Unexpected e => (Unexpected e, destroy_impl impl r)
          | Value _ =>
              let '(status, r) := cublasSetStream (cublas_handle_ impl) (stream_ impl) r in
              match cublas_check status with
              | Unexpected e => (Unexpected e, destroy_impl impl r)
              | Value _ => (Value impl, r)
              end
          end
      end
  end.

(** [CudaBuffer]: [create] and the destructor. *)
Record CudaBuffer := mkCudaBuffer { ptr_ : Z; bytes_ : Z; device_ : Z }.

Definition cuda_buffer_create (bytes device : Z) (r : R) : Result CudaBuffer * R :=
  let '(err, ptr, r) := cudaMalloc bytes r in
  match cuda_check err with
  | Unexpected e => (Unexpected e, r)
  | Value _ => (Value (mkCudaBuffer ptr bytes device), r)
  end.

Definition cuda_buffer_destroy (b : CudaBuffer) (r : R) : R := if ptr_ b =? 0 then r else cudaFree (ptr_ b) r.

(** A backend and the runtime it talks to. *)
Record CudaDevice := mkCudaDevice { impl_ : Impl; cuda : R }.

Definition on_stream {A} (f : Z -> R -> A * R) (d : CudaDevice) : A * CudaDevice :=
  let '(a, r) := f (stream_ (impl_ d)) (cuda d) in (a, mkCudaDevice (impl_ d) r).

(** The memory operations after their assertions. *)
Definition cuda_allocate (bytes : Z) (d : CudaDevice) : Result CudaBuffer * CudaDevice :=
  on_stream (fun _ r => cuda_buffer_create bytes (device_id_ (impl_ d)) r) d.
Definition cuda_h2d (dst off : Z) (src : list Z) : CudaDevice -> Result unit * CudaDevice :=
  on_stream (fun stream r => let '(err, r) := cudaMemcpyHostToDevice dst off src stream r in (cuda_check err, r)).
Definition cuda_d2d (dst off src src_off count : Z) : CudaDevice -> Result unit * CudaDevice :=
  on_stream (fun stream r => let '(err, r) := cudaMemcpyDeviceToDevice dst off src src_off count stream r in (cuda_check err, r)).
Definition cuda_memset (dst off value count : Z) : CudaDevice -> Result unit * CudaDevice :=
  on_stream (fun stream r => let '(err, r) := cudaMemsetAsync dst off value count stream r in (cuda_check err, r)).
Definition cuda_synchronize : CudaDevice -> Result unit * CudaDevice :=
  on_stream (fun stream r => let '(err, r) := cudaStreamSynchronize stream r in (cuda_check err, r)).

(** [memcpy_d2h]; the answer is the host memory of the transfer when it returns. *)
Definition cuda_d2h (src off count : Z) : CudaDevice -> Result (list Z) * CudaDevice :=
  on_stream (fun stream r =>
    let '(err, transfer, r) := cudaMemcpyDeviceToHost src off count stream r in
    match cuda_check err with
    | Unexpected e => (Unexpected e, r)
    | Value _ =>
        let '(err, r) := cudaStreamSynchronize stream r in
        (TRY _ := cuda_check err;; Value (host_memory r transfer), r)
    end).

(** The methods of [Backend], with their assertions. *)
Definition not_null (p : Z) : bool := negb (p =? 0).
Definition Backend_allocate_buffer (bytes : Z) : Dev CudaDevice CudaBuffer :=
  _ ← dev_assert (0 <? bytes); dev_op (cuda_allocate bytes).
Definition Backend_memcpy_h2d (dst off : Z) (src : list Z) : Dev CudaDevice unit :=
  _ ← dev_assert (not_null dst && (0 <? size_Z src)); dev_op (cuda_h2d dst off src).
Definition Backend_memcpy_d2h (src off count : Z) : Dev CudaDevice (list Z) :=
  _ ← dev_assert (not_null src && (0 <? count)); dev_op (cuda_d2h src off count).
Definition Backend_memcpy_d2d (dst off src src_off count : Z) : Dev CudaDevice unit :=
  _ ← dev_assert (not_null dst && not_null src && (0 <? count)); dev_op (cuda_d2d dst off src src_off count).
Definition Backend_memset (dst off value count : Z) : Dev CudaDevice unit :=
  _ ← dev_assert (not_null dst && (0 <? count)); dev_op (cuda_memset dst off value count).

(** [context]. *)
Definition Backend_context (d : CudaDevice) : Z * Z := (stream_ (impl_ d), cublas_handle_ (impl_ d)).

(** The interface of [Device]: a buffer is its allocation. *)
#[export] Instance cuda_backend : Backend CudaDevice := {
  buf d b := contents_after (cuda d) (stream_ (impl_ d)) b;
  allocate_buffer n d := let '(r, d) := cuda_allocate n d in (TRY b := r;; Value (ptr_ b), d);
  memcpy_h2d := cuda_h2d;
  memcpy_d2h := cuda_d2h;
  memcpy_d2d := cuda_d2d;
  memset := cuda_memset;
  synchronize := cuda_synchronize;
}.
End backend.
Arguments CudaDevice R : clear implicits.

(** ** What the documentation promises *)

Section promises.
Context {R : Type} `{CudaRuntime R}.

(** The contents of the allocations, as seen from every stream. *)
Definition same_contents (r r' : R) : Prop := forall s b, contents_after r' s b = contents_after r s b.

(** The streams, the handles and the streams of the handles. *)
Definition same_objects (r r' : R) : Prop :=
  live_streams r' = live_streams r /\ live_handles r' = live_handles r /\
  forall h, h ∈ live_handles r -> handle_stream r' h = handle_stream r h.

Definition keeps_all (r r' : R) : Prop := same_objects r r' /\ same_contents r r'.

(** Only allocation [b] changes, as seen from stream [s]. *)
Definition writes_to (s b : Z) (r r' : R) (x : list Z) : Prop :=
  contents_after r' s b = Some x /\ forall b', b' <> b -> contents_after r' s b' = contents_after r s b'.
Definition writes_nothing (s : Z) (r r' : R) : Prop := forall b, contents_after r' s b = contents_after r s b.

Class CudaLaws := {
  null_stream : forall r, 0 ∉ live_streams r;
  null_handle : forall r, 0 ∉ live_handles r;
  null_pointer : forall r s, contents_after r s 0 = None;
  set_device_keeps : forall id r err r', cudaSetDevice id r = (err, r') -> keeps_all r r';
  handle_created : forall r h r', cublasCreate r = (CUBLAS_STATUS_SUCCESS, h, r') ->
    h ∉ live_handles r /\ live_handles r' = {[h]} ∪ live_handles r /\ live_streams r' = live_streams r /\
    (forall h', h' ∈ live_handles r -> handle_stream r' h' = handle_stream r h') /\ same_contents r r';
  handle_refused : forall r status h r', cublasCreate r = (status, h, r') -> status <> CUBLAS_STATUS_SUCCESS ->
    h = 0 /\ keeps_all r r';
  handle_destroyed : forall r h, h ∈ live_handles r ->
    live_handles (cublasDestroy h r) = live_handles r ∖ {[h]} /\ live_streams (cublasDestroy h r) = live_streams r /\
    (forall h', h' <> h -> handle_stream (cublasDestroy h r) h' = handle_stream r h') /\ same_contents r (cublasDestroy h r);
  stream_created : forall r s r', cudaStreamCreate r = (cudaSuccess, s, r') ->
    s ∉ live_streams r /\ live_streams r' = {[s]} ∪ live_streams r /\ live_handles r' = live_handles r /\
    (forall h, handle_stream r' h = handle_stream r h) /\ same_contents r r';
  stream_refused : forall r err s r', cudaStreamCreate r = (err, s, r') -> err <> cudaSuccess -> s = 0 /\ keeps_all r r';
  stream_destroyed : forall r s, s ∈ live_streams r ->
    live_streams (cudaStreamDestroy s r) = live_streams r ∖ {[s]} /\
    live_handles (cudaStreamDestroy s r) = live_handles r /\
    (forall h, handle_stream (cudaStreamDestroy s r) h = handle_stream r h) /\
    forall s' b, s' <> s -> contents_after (cudaStreamDestroy s r) s' b = contents_after r s' b;
  stream_set : forall h s r status r', cublasSetStream h s r = (status, r') ->
    live_streams r' = live_streams r /\ live_handles r' = live_handles r /\ same_contents r r' /\
    (forall h', h' <> h -> handle_stream r' h' = handle_stream r h') /\
    (status = CUBLAS_STATUS_SUCCESS -> handle_stream r' h = Some s);
  malloc_ok : forall n r p r', 0 < n -> cudaMalloc n r = (cudaSuccess, p, r') ->
    forall s, contents_after r s p = None /\ exists x, size_Z x = n /\ writes_to s p r r' x;
  free_ok : forall p r s, contents_after (cudaFree p r) s p = None /\
    forall b, b <> p -> contents_after (cudaFree p r) s b = contents_after r s b;
  h2d_ok : forall b off x s r r' l, contents_after r s b = Some l -> in_range l off (size_Z x) ->
    cudaMemcpyHostToDevice b off x s r = (cudaSuccess, r') -> writes_to s b r r' (splice l off x);
  d2d_ok : forall b off b' off' n s r r' l l', contents_after r s b = Some l -> contents_after r s b' = Some l' ->
    in_range l off n -> in_range l' off' n -> apart b off b' off' n ->
    cudaMemcpyDeviceToDevice b off b' off' n s r = (cudaSuccess, r') -> writes_to s b r r' (splice l off (slice l' off' n));
  memset_async_ok : forall b off v n s r r' l, contents_after r s b = Some l -> in_range l off n -> 0 <= v < 256 ->
    cudaMemsetAsync b off v n s r = (cudaSuccess, r') -> writes_to s b r r' (splice l off (repeat v (Z.to_nat n)));
  d2h_issued : forall b off n s r t r', cudaMemcpyDeviceToHost b off n s r = (cudaSuccess, t, r') -> writes_nothing s r r';
  stream_synchronized : forall s r r', cudaStreamSynchronize s r = (cudaSuccess, r') -> writes_nothing s r r';
  d2h_lands : forall b off n s r t r1 r2 l, contents_after r s b = Some l -> in_range l off n ->
    cudaMemcpyDeviceToHost b off n s r = (cudaSuccess, t, r1) -> cudaStreamSynchronize s r1 = (cudaSuccess, r2) ->
    host_memory r2 t = slice l off n;
}.

(** ** Creating and destroying a backend *)

Context `{!CudaLaws}.

(** [r'] has the handles [hs] and the streams [ss] besides what [r] has. *)
Record grown (hs ss : gset Z) (r r' : R) : Prop := mk_grown {
  gr_handles : live_handles r' = hs ∪ live_handles r /\ hs ## live_handles r;
  gr_streams : live_streams r' = ss ∪ live_streams r /\ ss ## live_streams r;
  gr_set : forall h, h ∈ live_handles r -> handle_stream r' h = handle_stream r h;
  gr_contents : forall s b, s ∉ ss -> s = 0 \/ s ∈ live_streams r -> contents_after r' s b = contents_after r s b;
}.

(** Nothing was created or lost. *)
Definition restored (r r' : R) : Prop := grown ∅ ∅ r r'.

Lemma keeps_restored r r' : keeps_all r r' -> restored r r'.
Proof. intros [(E1 & E2 & E3) Hc]. split; [rewrite E2; set_solver|rewrite E1; set_solver|done|intros; apply Hc]. Qed.

Lemma grown_keeps hs ss r r1 r2 : grown hs ss r r1 -> keeps_all r1 r2 -> grown hs ss r r2.
Proof.
  intros [[H1 H1'] [H2 H2'] H3 H4] [(E1 & E2 & E3) Hc]. split; [by rewrite E2|by rewrite E1| |].
  - intros h Hh. rewrite E3 by set_solver. by apply H3.
  - intros s b Hs Hl. rewrite Hc. by apply H4.
Qed.

Lemma grown_handle hs ss r r1 h r2 : grown hs ss r r1 -> cublasCreate r1 = (CUBLAS_STATUS_SUCCESS, h, r2) ->
  grown ({[h]} ∪ hs) ss r r2 /\ h ∉ live_handles r1.
Proof.
  intros [[H1 H1'] [H2 H2'] H3 H4] Hc. destruct (handle_created _ _ _ Hc) as (C1 & C2 & C3 & C4 & C5). split; [|done].
  split; [rewrite C2, H1; set_solver|by rewrite C3| |].
  - intros h' Hh'. rewrite C4 by set_solver. by apply H3.
  - intros s b Hs Hl. rewrite C5. by apply H4.
Qed.

Lemma grown_stream hs ss r r1 s r2 : grown hs ss r r1 -> cudaStreamCreate r1 = (cudaSuccess, s, r2) ->
  grown hs ({[s]} ∪ ss) r r2 /\ s ∉ live_streams r1.
Proof.
  intros [[H1 H1'] [H2 H2'] H3 H4] Hc. destruct (stream_created _ _ _ Hc) as (C1 & C2 & C3 & C4 & C5). split; [|done].
  split; [by rewrite C3|rewrite C2, H2; set_solver| |].
  - intros h' Hh'. rewrite C4. by apply H3.
  - intros t b Ht Hl. rewrite C5. apply H4; [set_solver|done].
Qed.

(** The destructor undoes what was created, whether or not there is a stream. *)
Lemma destroy_stream hs s r r1 : grown hs {[s]} r r1 -> s <> 0 -> grown hs ∅ r (cudaStreamDestroy s r1).
Proof.
  intros [[H1 H1'] [H2 H2'] H3 H4] Hs. destruct (stream_destroyed r1 s) as (D1 & D2 & D3 & D4); [set_solver|].
  split; [by rewrite D2|rewrite D1, H2; set_solver| |].
  - intros h Hh. rewrite D3. by apply H3.
  - intros t b _ Ht. assert (t <> s) by set_solver. rewrite D4 by done. apply H4; [set_solver|done].
Qed.

Lemma destroy_handle h r r1 : grown {[h]} ∅ r r1 -> restored r (cublasDestroy h r1).
Proof.
  intros [[H1 H1'] [H2 H2'] H3 H4]. destruct (handle_destroyed r1 h) as (D1 & D2 & D3 & D4); [set_solver|].
  split; [rewrite D1, H1; set_solver|by rewrite D2| |].
  - intros h' Hh'. rewrite D3 by set_solver. by apply H3.
  - intros t b Ht Hl. rewrite D4. by apply H4.
Qed.

Lemma grown_not_null hs ss r r1 : grown hs ss r r1 -> 0 ∉ hs /\ 0 ∉ ss.
Proof. intros [[H1 _] [H2 _] _ _]. pose proof (null_handle r1). pose proof (null_stream r1). set_solver. Qed.

Lemma destroy_impl_handle h id r r1 : grown {[h]} ∅ r r1 -> restored r (destroy_impl (mkImpl 0 h id) r1).
Proof.
  intros Hg. pose proof (grown_not_null _ _ _ _ Hg). unfold destroy_impl. simpl.
  destruct (Z.eqb_spec h 0); [set_solver|]. by apply destroy_handle.
Qed.

Lemma destroy_impl_both s h id r r1 : grown {[h]} {[s]} r r1 -> restored r (destroy_impl (mkImpl s h id) r1).
Proof.
  intros Hg. pose proof (grown_not_null _ _ _ _ Hg). unfold destroy_impl. simpl.
  destruct (Z.eqb_spec s 0); [set_solver|]. destruct (Z.eqb_spec h 0); [set_solver|].
  apply destroy_handle. apply destroy_stream; [done|set_solver].
Qed.

(** A backend that was created since [r]. *)
Record created_since (r : R) (id : Z) (i : Impl) (r' : R) : Prop := mk_created_since {
  cs_device : device_id_ i = id;
  cs_grown : grown {[cublas_handle_ i]} {[stream_ i]} r r';
  cs_bound : handle_stream r' (cublas_handle_ i) = Some (stream_ i);
}.

Lemma backend_create_run id r :
  match backend_create id r with
  | (Value i, r') => created_since r id i r'
  | (Unexpected e, r') => e <> Ok /\ restored r r'
  end.
Proof.
  unfold backend_create. destruct (cudaSetDevice id r) as [err r1] eqn:E1.
  pose proof (keeps_restored _ _ (set_device_keeps _ _ _ _ E1)) as G1. destruct (cuda_check err) as [u|e] eqn:C1.
  2: { apply cuda_check_error in C1 as (_ & _ & ?). by split. }
  destruct (cublasCreate r1) as [[status h] r2] eqn:E2. destruct (cublas_check status) as [u2|e] eqn:C2.
  2: { apply cublas_check_error in C2 as (Hs & _ & ?). destruct (handle_refused _ _ _ _ E2 Hs) as [-> K].
       split; [done|]. by eapply grown_keeps. }
  apply cublas_check_value in C2 as ->. destruct (grown_handle _ _ r _ _ _ G1 E2) as [G2 _].
  rewrite union_empty_r_L in G2. destruct (cudaStreamCreate r2) as [[err3 s] r3] eqn:E3. destruct (cuda_check err3) as [u3|e] eqn:C3.
  2: { apply cuda_check_error in C3 as (Hs & _ & ?). destruct (stream_refused _ _ _ _ E3 Hs) as [-> K].
       split; [done|]. apply destroy_impl_handle. by eapply grown_keeps. }
  apply cuda_check_value in C3 as ->. destruct (grown_stream _ _ r _ _ _ G2 E3) as [G3 _].
  rewrite union_empty_r_L in G3. simpl. destruct (cublasSetStream h s r3) as [status4 r4] eqn:E4.
  destruct (stream_set _ _ _ _ _ E4) as (S1 & S2 & S3 & S4 & S5).
  assert (grown {[h]} {[s]} r r4) as G4.
  { destruct G3 as [[H1 H1'] [H2 H2'] H3 H4]. split; [by rewrite S2|by rewrite S1| |].
    - intros h' Hh'. rewrite S4 by set_solver. by apply H3.
    - intros t b Ht Hl. rewrite S3. by apply H4. }
  destruct (cublas_check status4) as [u4|e] eqn:C4.
  - apply cublas_check_value in C4 as ->. split; simpl; [done|exact G4|by apply S5].
  - apply cublas_check_error in C4 as (_ & _ & ?). split; [done|]. by apply destroy_impl_both.
Qed.
End promises.
Arguments CudaLaws R {_}.
