(* ===== verification/SimCuda.v ===== *)
(** * A simulated CUDA runtime

    Work is queued and executed when the stream is synchronised or memory is allocated or
    freed; host memory is written at that time only.  [CudaLaws] holds of it, and calls
    can be made to fail. *)

From Stdlib Require Import ZArith Lia.
From stdpp Require Import prelude strings gmap.
From S2P Require Import Prelude Base Device Cuda.

(** ** The state *)

Inductive CudaWork :=
| Upload (dst off : Z) (x : list Z)
| Fill (dst off value count : Z)
| Copy (dst off src src_off count : Z)
| Download (transfer src off count : Z).

Record CudaMem := mkCudaMem { cm_device : gmap Z (list Z); cm_host : gmap Z (list Z) }.

(** One piece of work. *)
Definition work_step (m : CudaMem) (w : CudaWork) : CudaMem :=
  match w with
  | Upload dst off x => mkCudaMem (alter (fun l => splice l off x) dst (cm_device m)) (cm_host m)
  | Fill dst off v n => mkCudaMem (alter (fun l => splice l off (repeat v (Z.to_nat n))) dst (cm_device m)) (cm_host m)
  | Copy dst off src src_off n =>
      match cm_device m !! src with
      | None => m
      | Some l' => mkCudaMem (alter (fun l => splice l off (slice l' src_off n)) dst (cm_device m)) (cm_host m)
      end
  | Download t src off n => mkCudaMem (cm_device m) (<[t := slice (default [] (cm_device m !! src)) off n]> (cm_host m))
  end.

Record SimCuda := mkSimCuda {
  sc_mem : CudaMem;
  sc_queue : list CudaWork;
  sc_streams : gset Z;
  sc_handles : gset Z;
  sc_bound : gmap Z Z;
  sc_faults : list Z;     (* answers of the next calls, zero is success *)
}.

(** The memory once all queued work is done. *)
Definition settled (r : SimCuda) : CudaMem := foldl work_step (sc_mem r) (sc_queue r).

Definition set_mem (m : CudaMem) (q : list CudaWork) (r : SimCuda) : SimCuda :=
  mkSimCuda m q (sc_streams r) (sc_handles r) (sc_bound r) (sc_faults r).
Definition set_objects (streams handles : gset Z) (bound : gmap Z Z) (r : SimCuda) : SimCuda :=
  mkSimCuda (sc_mem r) (sc_queue r) streams handles bound (sc_faults r).

(** A number above all numbers of a set. *)
Definition fresh_id (X : gset Z) : Z := 1 + foldr Z.max 0 (elements X).

Lemma fresh_id_spec X : 0 < fresh_id X /\ fresh_id X ∉ X.
Proof.
  unfold fresh_id. assert (forall l : list Z, 0 <= foldr Z.max 0 l /\ forall x, x ∈ l -> x <= foldr Z.max 0 l) as Hl.
  { induction l as [|y l [IH1 IH2]]; simpl; [split; [done|by intros x ?%elem_of_nil]|]. split; [lia|].
    intros x [->|Hx]%elem_of_cons; [lia|]. specialize (IH2 x Hx). lia. }
  destruct (Hl (elements X)) as [H1 H2]. split; [lia|]. intros Hx%elem_of_elements%H2. lia.
Qed.

(** The answer of the next call. *)
Definition answer (r : SimCuda) : Z * SimCuda :=
  match sc_faults r with
  | [] => (0, r)
  | f :: fs => (f, mkSimCuda (sc_mem r) (sc_queue r) (sc_streams r) (sc_handles r) (sc_bound r) fs)
  end.

(** A call that fails with the next answer or else acts. *)
Definition sim_call {A} (fail : A) (act : SimCuda -> A * SimCuda) (r : SimCuda) : Z * A * SimCuda :=
  let '(code, r) := answer r in
  if code =? 0 then let '(a, r) := act r in (0, a, r) else (code, fail, r).

Definition cuda_code (c : Z) : cudaError_t := if c =? 0 then cudaSuccess else cudaErrorOther c.
Definition cublas_code (c : Z) : cublasStatus_t := if c =? 0 then CUBLAS_STATUS_SUCCESS else CUBLAS_STATUS_OTHER c.

Definition enqueue (w : CudaWork) (r : SimCuda) : unit * SimCuda := (tt, set_mem (sc_mem r) (sc_queue r ++ [w]) r).
Definition queue_call (w : CudaWork) (r : SimCuda) : cudaError_t * SimCuda :=
  let '(c, _, r) := sim_call tt (enqueue w) r in (cuda_code c, r).

#[export] Instance sim_cuda : CudaRuntime SimCuda := {
  cudaSetDevice _ r := let '(c, _, r) := sim_call tt (fun r => (tt, r)) r in (cuda_code c, r);
  cublasCreate r :=
    let '(c, h, r) := sim_call 0 (fun r => let h := fresh_id (sc_handles r) in
      (h, set_objects (sc_streams r) ({[h]} ∪ sc_handles r) (sc_bound r) r)) r in (cublas_code c, h, r);
  cublasDestroy h r := set_objects (sc_streams r) (sc_handles r ∖ {[h]}) (sc_bound r) r;
  cublasSetStream h s r :=
    let '(c, _, r) := sim_call tt (fun r => (tt, set_objects (sc_streams r) (sc_handles r) (<[h := s]> (sc_bound r)) r)) r in
    (cublas_code c, r);
  cudaStreamCreate r :=
    let '(c, s, r) := sim_call 0 (fun r => let s := fresh_id (sc_streams r) in
      (s, set_objects ({[s]} ∪ sc_streams r) (sc_handles r) (sc_bound r) r)) r in (cuda_code c, s, r);
  cudaStreamDestroy s r := set_objects (sc_streams r ∖ {[s]}) (sc_handles r) (sc_bound r) r;
  cudaStreamSynchronize _ r :=
    let '(c, _, r) := sim_call tt (fun r => (tt, set_mem (settled r) [] r)) r in (cuda_code c, r);
  cudaMalloc n r :=
    let '(c, p, r) := sim_call 0 (fun r => let m := settled r in let p := fresh_id (dom (cm_device m)) in
      (p, set_mem (mkCudaMem (<[p := repeat 170 (Z.to_nat n)]> (cm_device m)) (cm_host m)) [] r)) r in (cuda_code c, p, r);
  cudaFree p r := let m := settled r in set_mem (mkCudaMem (delete p (cm_device m)) (cm_host m)) [] r;
  cudaMemcpyHostToDevice dst off x _ := queue_call (Upload dst off x);
  cudaMemcpyDeviceToHost src off n _ r :=
    let '(c, t, r) := sim_call 0 (fun r => let t := fresh_id (dom (cm_host (settled r))) in
      (t, (enqueue (Download t src off n) r).2)) r in (cuda_code c, t, r);
  cudaMemcpyDeviceToDevice dst off src src_off n _ := queue_call (Copy dst off src src_off n);
  cudaMemsetAsync dst off v n _ := queue_call (Fill dst off v n);
  contents_after r _ b := if b =? 0 then None else cm_device (settled r) !! b;
  host_memory r t := default [] (cm_host (sc_mem r) !! t);
  live_streams r := sc_streams r ∖ {[0]};
  live_handles r := sc_handles r ∖ {[0]};
  handle_stream r h := sc_bound r !! h;
}.

(** ** The laws *)

(** The same but for the answers to come. *)
Definition same_state (r r' : SimCuda) : Prop :=
  settled r' = settled r /\ sc_streams r' = sc_streams r /\ sc_handles r' = sc_handles r /\ sc_bound r' = sc_bound r.

Lemma answer_keeps r c r' : answer r = (c, r') -> same_state r r'.
Proof. unfold answer. destruct (sc_faults r); by intros [= <- <-]. Qed.

Lemma sim_call_cases {A} (fail : A) act r c a r' : sim_call fail act r = (c, a, r') ->
  c = 0 /\ (exists r1, same_state r r1 /\ act r1 = (a, r')) \/ c <> 0 /\ a = fail /\ same_state r r'.
Proof.
  unfold sim_call. destruct (answer r) as [c1 r1] eqn:E. apply answer_keeps in E.
  destruct (Z.eqb_spec c1 0) as [->|Hc].
  - destruct (act r1) as [a1 r2] eqn:Ea. intros [= <- <- <-]. left. split; [done|]. by exists r1.
  - intros [= <- <- <-]. by right.
Qed.

Lemma cuda_code_success c : cuda_code c = cudaSuccess <-> c = 0.
Proof. unfold cuda_code. destruct (Z.eqb_spec c 0); by split. Qed.
Lemma cublas_code_success c : cublas_code c = CUBLAS_STATUS_SUCCESS <-> c = 0.
Proof. unfold cublas_code. destruct (Z.eqb_spec c 0); by split. Qed.

Lemma settled_enqueue w r : settled (enqueue w r).2 = work_step (settled r) w.
Proof. unfold settled, enqueue. simpl. by rewrite foldl_app. Qed.

(** Splits the call in [E] into its two outcomes. *)
Ltac sim_step E :=
  match type of E with context [sim_call ?f ?g ?r] =>
    let c := fresh "c" in let Ec := fresh "Ec" in
    destruct (sim_call f g r) as [[c ?] ?] eqn:Ec; injection E as; subst;
    apply sim_call_cases in Ec as [(-> & ? & (Hset & Hstr & Hhan & Hbou) & Hact)|(? & -> & (Hset & Hstr & Hhan & Hbou))];
    try (injection Hact as; subst); rewrite ?cuda_code_success, ?cublas_code_success in *; try done
  end.

Lemma queue_call_ok w r r' : queue_call w r = (cudaSuccess, r') -> settled r' = work_step (settled r) w.
Proof. unfold queue_call. intros E. sim_step E. rewrite <-Hset. exact (settled_enqueue w _). Qed.

Lemma sim_settled (r r' : SimCuda) : settled r' = settled r -> same_contents r r'.
Proof. intros E s b. simpl. by rewrite E. Qed.

(** Work on one allocation. *)
Lemma sim_writes s b (r r' : SimCuda) f l : contents_after r s b = Some l ->
  cm_device (settled r') = alter f b (cm_device (settled r)) -> writes_to s b r r' (f l).
Proof.
  simpl. destruct (Z.eqb_spec b 0) as [|Hb]; [done|]. intros Hl E. split; simpl; rewrite E.
  - destruct (Z.eqb_spec b 0); [done|]. by rewrite lookup_alter_eq, Hl.
  - intros b' Hne. by rewrite lookup_alter_ne.
Qed.

Lemma same_keeps_all (r r' : SimCuda) : same_state r r' -> keeps_all r r'.
Proof. intros (E1 & E2 & E3 & E4). split; [|by apply sim_settled]. unfold same_objects. simpl. by rewrite E2, E3, E4. Qed.

Lemma sim_handle_created (r : SimCuda) h r' : cublasCreate r = (CUBLAS_STATUS_SUCCESS, h, r') ->
  h ∉ live_handles r /\ live_handles r' = {[h]} ∪ live_handles r /\ live_streams r' = live_streams r /\
  (forall h', h' ∈ live_handles r -> handle_stream r' h' = handle_stream r h') /\ same_contents r r'.
Proof.
  intros E. simpl in E. sim_step E. pose proof (fresh_id_spec (sc_handles x)) as [H1 H2]. rewrite Hhan in H1, H2.
  simpl. rewrite Hstr, Hhan, Hbou. split; [set_solver|]. split; [|split; [done|split; [done|]]].
  - apply set_eq. intros y. rewrite !elem_of_difference, !elem_of_union, !elem_of_singleton, elem_of_difference, elem_of_singleton.
    split; [tauto|]. intros [->|?]; [|tauto]. split; [by left|lia].
  - by apply sim_settled.
Qed.

Lemma sim_stream_created (r : SimCuda) s r' : cudaStreamCreate r = (cudaSuccess, s, r') ->
  s ∉ live_streams r /\ live_streams r' = {[s]} ∪ live_streams r /\ live_handles r' = live_handles r /\
  (forall h, handle_stream r' h = handle_stream r h) /\ same_contents r r'.
Proof.
  intros E. simpl in E. sim_step E. pose proof (fresh_id_spec (sc_streams x)) as [H1 H2]. rewrite Hstr in H1, H2.
  simpl. rewrite Hstr, Hhan, Hbou. split; [set_solver|]. split; [|split; [done|split; [done|]]].
  - apply set_eq. intros y. rewrite !elem_of_difference, !elem_of_union, !elem_of_singleton, elem_of_difference, elem_of_singleton.
    split; [tauto|]. intros [->|?]; [|tauto]. split; [by left|lia].
  - by apply sim_settled.
Qed.

Lemma sim_malloc_ok n (r : SimCuda) p r' : 0 < n -> cudaMalloc n r = (cudaSuccess, p, r') ->
  forall s, contents_after r s p = None /\ exists x, size_Z x = n /\ writes_to s p r r' x.
Proof.
  intros Hn E s. simpl in E. sim_step E. pose proof (fresh_id_spec (dom (cm_device (settled x)))) as [H1 H2].
  set (p := fresh_id _) in *. apply not_elem_of_dom in H2. rewrite Hset in H2. simpl.
  destruct (Z.eqb_spec p 0); [lia|]. split; [done|].
  exists (repeat 170 (Z.to_nat n)). split; [unfold size_Z; rewrite repeat_length; lia|].
  split; simpl; [destruct (Z.eqb_spec p 0); [lia|]; by rewrite lookup_insert_eq|].
  intros b Hb. by rewrite lookup_insert_ne, Hset.
Qed.

Lemma sim_d2h_lands b off n s (r : SimCuda) t r1 r2 l : contents_after r s b = Some l -> in_range l off n ->
  cudaMemcpyDeviceToHost b off n s r = (cudaSuccess, t, r1) -> cudaStreamSynchronize s r1 = (cudaSuccess, r2) ->
  host_memory r2 t = slice l off n.
Proof.
  simpl. destruct (Z.eqb_spec b 0); [done|]. intros Hl _ E E2. sim_step E. rename Hset into Hset1, x into x1. clear Hstr Hhan Hbou. sim_step E2. simpl.
  rewrite Hset. pose proof (settled_enqueue (Download (fresh_id (dom (cm_host (settled x1)))) b off n) x1) as Hq.
  simpl in Hq. rewrite Hq. simpl. rewrite lookup_insert_eq, Hset1. simpl. by rewrite Hl.
Qed.

#[export] Instance sim_cuda_laws : CudaLaws SimCuda.
Proof.
  split.
  - intros r. simpl. set_solver.
  - intros r. simpl. set_solver.
  - done.
  - intros id r err r' E. simpl in E. sim_step E; by apply same_keeps_all.
  - apply sim_handle_created.
  - intros r status h r' E Hn. simpl in E. sim_step E. by split; [|apply same_keeps_all].
  - intros r h Hh. simpl in *. split; [set_solver|]. split; [done|]. split; [done|]. by apply sim_settled.
  - apply sim_stream_created.
  - intros r err s r' E Hn. simpl in E. sim_step E. by split; [|apply same_keeps_all].
  - intros r s Hs. simpl in *. split; [set_solver|]. done.
  - intros h s r status r' E. simpl in E. sim_step E; simpl; rewrite ?Hstr, ?Hhan, ?Hbou.
    + split; [done|]. split; [done|]. split; [by apply sim_settled|]. split; [|by rewrite lookup_insert_eq].
      intros h' Hh'. by rewrite lookup_insert_ne.
    + split; [done|]. split; [done|]. split; [by apply sim_settled|]. split; [done|]. by intros Hs.
  - apply sim_malloc_ok.
  - intros p r s. simpl. split; [destruct (p =? 0); [done|by rewrite lookup_delete_eq]|].
    intros b Hb. destruct (b =? 0); [done|]. by rewrite lookup_delete_ne.
  - intros b off x s r r' l Hl _ E%queue_call_ok. apply (sim_writes s b r r' (fun l => splice l off x) l Hl). by rewrite E.
  - intros b off b' off' n s r r' l l' Hl Hl' _ _ _ E%queue_call_ok.
    apply (sim_writes s b r r' (fun l => splice l off (slice l' off' n)) l Hl). rewrite E. simpl in Hl' |- *.
    destruct (b' =? 0); [done|]. by rewrite Hl'.
  - intros b off v n s r r' l Hl _ _ E%queue_call_ok.
    apply (sim_writes s b r r' (fun l => splice l off (repeat v (Z.to_nat n))) l Hl). by rewrite E.
  - intros b off n s r t r' E b'. simpl in E. sim_step E.
    pose proof (settled_enqueue (Download (fresh_id (dom (cm_host (settled x)))) b off n) x) as Hq. simpl in Hq. simpl.
    rewrite Hq. simpl. by rewrite Hset.
  - intros s r r' E b. simpl in E. sim_step E. by apply sim_settled.
  - apply sim_d2h_lands.
Qed.
