(* ===== verification/CudaProps.v ===== *)
(** * The CUDA backend

    The life of a backend and of a buffer, what the memory operations do when they
    succeed, and a session on the simulated runtime, which queues its work. *)

From Stdlib Require Import ZArith Lia.
From stdpp Require Import prelude strings gmap.
From S2P Require Import Prelude Base Device Cuda SimCuda.

Section laws.
Context {R : Type} `{!CudaRuntime R} `{!CudaLaws R}.

(** An operation that succeeds acts on the buffers as the interface of [Device] says. *)
Lemma cuda_allocate_ok n (d d' : CudaDevice R) b : 0 < n -> cuda_allocate n d = (Value b, d') ->
  bytes_ b = n /\ device_ b = device_id_ (impl_ d) /\ impl_ d' = impl_ d /\ buf d (ptr_ b) = None /\
  (exists l, buf d' (ptr_ b) = Some l /\ size_Z l = n) /\ only_buffer (ptr_ b) d d'.
Proof.
  intros Hn. unfold cuda_allocate, cuda_buffer_create, on_stream. destruct (cudaMalloc n (cuda d)) as [[err p] r] eqn:E.
  destruct (cuda_check err) eqn:C; [|done]. apply cuda_check_value in C as ->. intros [= <- <-].
  destruct (malloc_ok _ _ _ _ Hn E (stream_ (impl_ d))) as (Hf & x & Hx & Hw & Ho). split_and!; try done. by exists x.
Qed.

Lemma cuda_d2h_ok b off n (d d' : CudaDevice R) l x : buf d b = Some l -> in_range l off n ->
  cuda_d2h b off n d = (Value x, d') -> x = slice l off n /\ impl_ d' = impl_ d /\ forall b', buf d' b' = buf d b'.
Proof.
  intros Hl Hr. unfold cuda_d2h, on_stream. destruct (cudaMemcpyDeviceToHost _ _ _ _ _) as [[err t] r] eqn:E.
  destruct (cuda_check err) eqn:C; [|done]. apply cuda_check_value in C as ->.
  pose proof (d2h_issued _ _ _ _ _ _ _ E) as H1. destruct (cudaStreamSynchronize _ r) as [err2 r2] eqn:E2.
  destruct (cuda_check err2) eqn:C2; [|done]. apply cuda_check_value in C2 as ->. intros [= <- <-].
  pose proof (stream_synchronized _ _ _ E2) as H2.
  split; [by apply (d2h_lands _ _ _ _ _ _ _ _ _ Hl Hr E E2)|]. split; [done|]. intros b'. simpl. by rewrite H2, H1.
Qed.

(** Uploads, copies and fills that succeed write their range and nothing else. *)
Lemma cuda_h2d_ok b off x (d d' : CudaDevice R) l : buf d b = Some l -> in_range l off (size_Z x) ->
  cuda_h2d b off x d = (Value tt, d') -> buf d' b = Some (splice l off x) /\ only_buffer b d d'.
Proof.
  intros Hl Hr. unfold cuda_h2d, on_stream. destruct (cudaMemcpyHostToDevice _ _ _ _ _) as [err r] eqn:E.
  intros [= Hc <-]. apply cuda_check_value in Hc as ->. by apply (h2d_ok _ _ _ _ _ _ _ Hl Hr E).
Qed.

Lemma cuda_d2d_ok b off b' off' n (d d' : CudaDevice R) l l' :
  buf d b = Some l -> buf d b' = Some l' -> in_range l off n -> in_range l' off' n -> apart b off b' off' n ->
  cuda_d2d b off b' off' n d = (Value tt, d') -> buf d' b = Some (splice l off (slice l' off' n)) /\ only_buffer b d d'.
Proof.
  intros Hl Hl' H1 H2 H3. unfold cuda_d2d, on_stream. destruct (cudaMemcpyDeviceToDevice _ _ _ _ _ _ _) as [err r] eqn:E.
  intros [= Hc <-]. apply cuda_check_value in Hc as ->. by apply (d2d_ok _ _ _ _ _ _ _ _ _ _ Hl Hl' H1 H2 H3 E).
Qed.

Lemma cuda_memset_ok b off v n (d d' : CudaDevice R) l : buf d b = Some l -> in_range l off n -> 0 <= v < 256 ->
  cuda_memset b off v n d = (Value tt, d') -> buf d' b = Some (splice l off (repeat v (Z.to_nat n))) /\ only_buffer b d d'.
Proof.
  intros Hl Hr Hv. unfold cuda_memset, on_stream. destruct (cudaMemsetAsync _ _ _ _ _ _) as [err r] eqn:E.
  intros [= Hc <-]. apply cuda_check_value in Hc as ->. by apply (memset_async_ok _ _ _ _ _ _ _ _ Hl Hr Hv E).
Qed.

(** C7: Creating the backend leaks nothing.  Whichever call of the runtime fails, the
    error is reported as an error and the streams and handles are those that were there
    before; otherwise the backend owns one new stream and one new handle, which is bound
    to the stream, on the requested device, and its destructor releases exactly these. *)
Theorem backend_create_leaks_nothing id (r : R) :
  match backend_create id r with
  | (Value i, r') => created_since r id i r' /\ restored r (destroy_impl i r')
  | (Unexpected e, r') => e <> Ok /\ restored r r'
  end.
Proof.
  pose proof (backend_create_run id r) as Hc. destruct (backend_create id r) as [[i|e] r']; [|exact Hc].
  split; [exact Hc|]. destruct Hc as [_ Hg _], i. by apply destroy_impl_both.
Qed.

(** A buffer that is created and destroyed leaves the contents of the others. *)
Lemma cuda_buffer_life n device (r : R) b r' : 0 < n -> cuda_buffer_create n device r = (Value b, r') ->
  same_contents r (cuda_buffer_destroy b r').
Proof.
  intros Hn. unfold cuda_buffer_create, cuda_buffer_destroy. destruct (cudaMalloc n r) as [[err p] r1] eqn:E.
  destruct (cuda_check err) eqn:C; [|done]. apply cuda_check_value in C as ->. intros [= <- <-].
  pose proof (malloc_ok n r p r1 Hn E) as Hm. simpl. destruct (Z.eqb_spec p 0) as [->|Hp].
  { destruct (Hm 0) as (_ & x & _ & Hx & _). by rewrite null_pointer in Hx. }
  intros s b'. destruct (Hm s) as (Hf & x & _ & _ & Ho). destruct (free_ok p r1 s) as [F1 F2].
  destruct (decide (b' = p)) as [->|Hb]; [congruence|]. rewrite F2 by done. by apply Ho.
Qed.
End laws.

(** ** On the simulated runtime *)

Definition idle : SimCuda := mkSimCuda (mkCudaMem ∅ ∅) [] ∅ ∅ ∅ [].
Definition failing (faults : list Z) : SimCuda := mkSimCuda (mkCudaMem ∅ ∅) [] ∅ ∅ ∅ faults.

(** The fourth call fails: handle and stream exist and are released. *)
Lemma backend_create_leaks_nothing_witness :
  (backend_create 0 (failing [0; 0; 0; 14])).1 = Unexpected CublasError /\
  restored (failing [0; 0; 0; 14]) (backend_create 0 (failing [0; 0; 0; 14])).2.
Proof.
  pose proof (backend_create_leaks_nothing 0 (failing [0; 0; 0; 14])) as H.
  destruct (backend_create 0 (failing [0; 0; 0; 14])) as [[i|e] r'] eqn:E; [exfalso; revert E; vm_compute; discriminate|].
  split; [|exact (proj2 H)]. assert ((backend_create 0 (failing [0; 0; 0; 14])).1 = Unexpected CublasError) as E1
    by (vm_compute; reflexivity). by rewrite E in E1.
Defined.

(** A device on which the backend was created. *)
Definition cuda_sim : CudaDevice SimCuda :=
  match backend_create 0 idle with (Value i, r) => mkCudaDevice i r | (Unexpected _, r) => mkCudaDevice (mkImpl 0 0 0) r end.

(** Two uploads, a copy and a download: the work is still queued when the download is issued. *)
Definition cuda_session : Dev (CudaDevice SimCuda) (list Z) :=
  a ← Backend_allocate_buffer 4;
  b ← Backend_allocate_buffer 4;
  _ ← Backend_memcpy_h2d (ptr_ a) 0 [1; 2; 3; 4];
  _ ← Backend_memset (ptr_ b) 0 0 4;
  _ ← Backend_memcpy_d2d (ptr_ b) 1 (ptr_ a) 2 2;
  Backend_memcpy_d2h (ptr_ b) 0 4.

Example cuda_session_answers : fst <$> cuda_session cuda_sim = Some (Value [0; 3; 4; 0]).
Proof. vm_compute. reflexivity. Qed.
