(* ===== verification/Registry.v ===== *)
(** * The model registry and the start of a worker from a path

    [model/registry.cpp], the composition in [Worker::init_resources]
    ([worker/worker.cpp]) and the part of [main.cpp] before it: from a model path and an
    engine configuration to a worker that is ready for batches. *)

From Stdlib Require Import ZArith Lia SpecFloat.
From stdpp Require Import prelude strings gmap.
From S2P Require Import Prelude Base Config Scheduler Bytes Q8 Device SimDevice Tensor State BlockStorage Qwen35.
From S2P Require Import Json SimJson WeightSource Gguf GgufProps GgufLoad GgufLoadProps HfReader HfProps HfConfig Checkpoint.
From S2P Require Import Translate Model ModelProps SimModel Worker WorkerProps WorkerInit.
From S2P Require Import Qwen3Weights RopeCache Kernels KernelRules Qwen3Ref Qwen3Model Qwen3Props Qwen3Contract SimQwen3.

(** ** [ModelRegistry] *)

Section registry.
Context {D M : Type} `{Backend D}.

Definition ModelCreator := ModelConfig -> WeightSource -> Dev D M.
Record ModelRegistry := mkModelRegistry { creators_ : gmap string ModelCreator }.

Definition new_registry : ModelRegistry := mkModelRegistry ∅.

(** [ModelRegistry::register_model]: an architecture that is registered again gets the
    new creator. *)
Definition register_model (arch : string) (creator : ModelCreator) (r : ModelRegistry) : ModelRegistry :=
  mkModelRegistry (<[arch := creator]> (creators_ r)).

(** [ModelRegistry::create]. *)
Definition registry_create (r : ModelRegistry) (config : ModelConfig) (weights : WeightSource) : Dev D M :=
  match creators_ r !! arch_name config with
  | None => dev_error ModelUnsupportedArch
  | Some creator => creator config weights
  end.

(** The process-wide instance and the flag of [std::call_once]. *)
Record Registration := mkRegistration { register_flag : bool; registry : ModelRegistry }.
End registry.
Arguments ModelRegistry D M : clear implicits.
Arguments Registration D M : clear implicits.

Section start.
Context {D : Type} `{Backend D} `{Ccop} `{!CcopViews} `{!Kernels D} `{LibM} `{Json} `{Memory} `{Q8Storage}.

(** [register_builtin_models]. *)
Definition register_builtin_models (r : ModelRegistry D Qwen3Model) : ModelRegistry D Qwen3Model :=
  register_model "qwen3" create_qwen3 r.

Definition call_once_register (g : Registration D Qwen3Model) : Registration D Qwen3Model :=
  if register_flag g then g else mkRegistration true (register_builtin_models (registry g)).

(** [Checkpoint::open] under the [catch (...)] of [init_resources]. *)
Definition open_throws (fs : FileSystem) (path : bytes) : bool :=
  if is_directory fs path then
    match exists_file fs (path_append path (lit "config.json")), exists_file fs (path_append path (lit "model.safetensors")) with
    | None, _ | Some true, None => true
    | _, _ => false
    end
  else
    is_regular_file fs path && bool_decide (extension path = lit ".gguf") &&
    match create (file_content fs path) with Thrown => true | _ => false end.

Definition open_caught (fs : FileSystem) (path : bytes) : option (Result Checkpoint) :=
  if open_throws fs path then Some (Unexpected InternalError) else checkpoint_open fs path.

(** The resources of [init_resources], up to the model. *)
Definition path_resources (fs : FileSystem) (create_backend : Z -> Result D) (path : bytes) (model : ModelConfig)
    (engine : EngineConfig) (g : Registration D Qwen3Model) : option (Resources (D := D) * Registration D Qwen3Model) :=
  match create_backend (device_id engine) with
  | Unexpected e => Some (mkResources (Unexpected e) (Unexpected e) (dev_error e), g)
  | Value d =>
      let g := call_once_register g in
      checkpoint ← open_caught fs path;
      match checkpoint with
      | Unexpected e => Some (mkResources (Value d) (Unexpected e) (dev_error e), g)
      | Value c => Some (mkResources (Value d) (Value tt)
                           (_ ← registry_create (registry g) model (checkpoint_weights c); mret tt), g)
      end
  end.

(** [SingleDeviceExecutor::init], which is [Worker::init] on the worker of the constructor;
    [joinable] is [worker_thread_.joinable()]. *)
Definition executor_init (fs : FileSystem) (create_backend : Z -> Result D) (path : bytes) (model : ModelConfig)
    (engine : EngineConfig) (joinable : bool) (g : Registration D Qwen3Model) (w : Worker D)
  : option (Result unit * Worker D * Registration D Qwen3Model) :=
  if running w || joinable then Some (Unexpected InvalidArgument, w, g)
  else '(res, g) ← path_resources fs create_backend path model engine g;
       '(r, w) ← init_worker joinable res model engine w;
       Some (r, w, g).

(** The checks of [main] before the executor is started; [None] is an uncaught exception. *)
Definition prepare (fs : FileSystem) (path : bytes) (engine : EngineConfig) : option (Result ModelConfig) :=
  match Config.validate engine with
  | Unexpected e => Some (Unexpected e)
  | Value _ =>
      checkpoint ← checkpoint_open fs path;
      match checkpoint with
      | Unexpected e => Some (Unexpected e)
      | Value c => checkpoint_config fs c
      end
  end.
End start.

(** ** Opening a path never leaves the code's control *)

Lemma open_caught_total `{Memory} `{Q8Storage} `{JsonLaws} fs path : files_ok fs -> exists r, open_caught fs path = Some r.
Proof.
  intros Hfs. unfold open_caught, open_throws, checkpoint_open. destruct (is_directory fs path).
  { destruct (exists_file fs _) as [[]|]; [|by eexists..].
    destruct (exists_file fs _) as [[]|]; by eexists. }
  destruct (is_regular_file fs path); simpl; [|by eexists]. case_bool_decide; simpl; [|by eexists]. unfold open_gguf.
  destruct (file_content fs path) as [data|] eqn:Ef; [|by eexists].
  destruct (Hfs _ _ Ef) as [Hb Hs]. pose proof (create_safe data Hb Hs) as Hc.
  destruct (create (Some data)); try done; by eexists.
Qed.

Lemma open_caught_source `{Memory} `{Q8Storage} `{JsonLaws} fs path c :
  files_ok fs -> open_caught fs path = Some (Value c) -> source_ok (checkpoint_weights c).
Proof.
  intros Hfs. unfold open_caught. destruct (open_throws fs path); [done|].
  destruct (is_directory fs path) eqn:Ed.
  - intros E%checkpoint_open_dir; [|done]. destruct (open_hf_ok fs path c Hfs E) as (r & data & -> & Hr & Hs).
    by apply (safetensors_source_ok data).
  - unfold checkpoint_open. rewrite Ed.
    destruct (_ && _)%bool; [|done]. unfold open_gguf. destruct (create _) as [r o|e| | |]; try done. intros [= <-].
    apply gguf_source_ok.
Qed.

(** ** What [main] hands to the executor *)

(** A validated engine configuration of C++ [int]s. *)
Definition engine_ok (engine : EngineConfig) : Prop :=
  Config.validate engine = Value tt /\ int_args [max_blocks engine; kv_block_size engine].

Lemma prepare_config `{Memory} `{Q8Storage} `{JsonLaws} fs path engine cfg :
  files_ok fs -> prepare fs path engine = Some (Value cfg) ->
  Config.validate engine = Value tt /\ if is_directory fs path then qwen3_config_ok cfg else arch_ cfg = Qwen3_5.
Proof.
  intros Hfs. unfold prepare. destruct (Config.validate engine) as [[]|e]; [|done].
  destruct (is_directory fs path) eqn:Ed.
  - destruct (checkpoint_open fs path) as [[c|e]|] eqn:E; [|done..]. cbn [mbind option_bind].
    apply checkpoint_open_dir in E; [|done]. destruct (open_hf_ok fs path c Hfs E) as (r & data & -> & _). cbn [checkpoint_config]. intros Ec%(inj Some). split; [done|].
    pose proof (load_hf_config_ok (file_content fs (path ++ lit "/config.json"))) as Hc. rewrite Ec in Hc. apply Hc.
  - unfold checkpoint_open. rewrite Ed.
    destruct (_ && _)%bool; [|done]. unfold open_gguf. destruct (create _) as [r o|e| | |]; simpl; try done. intros Ec. split; [done|].
    apply load_gguf_config_fields in Ec. by destruct (load_fields_spec r cfg Ec) as (_ & Ha & _).
Qed.

(** ** Starting the executor *)

Section starts.
Context {D : Type} `{!Backend D} `{!BackendLaws D} `{!Ccop} `{!CcopLaws} `{!CcopViews} `{!Q8Storage} `{!CcopViewsLaws}.
Context `{!Kernels D} `{!KernelSem} `{!KernelLaws D} `{!LibM} `{!Sampler D} `{JsonLaws} `{!Memory}.

(** The products of sizes that the code computes in [int]. *)
Definition products_fit (cfg : ModelConfig) : Prop :=
  (n_q_heads_ cfg + 2 * n_kv_heads_ cfg) * head_dim_ cfg <= INT_MAX /\ max_seq_len_ cfg * head_dim_ cfg <= INT_MAX.

(** Creating the model of a loaded configuration; an odd head dimension is an error. *)
Lemma loads_create_loaded src cfg d :
  source_ok src -> sizes_exact src StoreBFloat16 2 -> qwen3_config_ok cfg -> products_fit cfg ->
  loads (create_qwen3 cfg src) (fun m d' => config_ m = cfg /\ qwen3_ok m /\ qwen3_ready m d') d.
Proof.
  intros Hs He [Ha (P1 & P2 & P3 & P4 & P5 & P6 & P7 & P8) (I1 & I2 & I3 & I4 & I5 & I6 & I7 & I8) _ _ (F1 & F2 & _ & _) _] [Hq Hm].
  assert (dims_fit cfg) as Hd by (unfold dims_fit; split_and!; lia).
  destruct (Z.eqb_spec (Z.rem (head_dim_ cfg) 2) 0) as [Hev|Hodd].
  - eapply loads_mono; [apply loads_create_qwen3; [done|done|by split]|]. intros m d' _ (E & Hok & Hr & _). done.
  - unfold create_qwen3. eapply loads_bind; [exact (loads_qwen3 src Hs He cfg Hd d)|]. cbv beta. intros w d1 K1 _.
    apply dwp_bind. eexists _, _. split; [apply create_rope_refuses|done].
    unfold rope_refused. rewrite (proj2 (Z.eqb_neq _ _) Hodd). by rewrite orb_true_r.
Qed.

(** Registration happens once, before the registry is used. *)
Definition registered (g : Registration D Qwen3Model) : Prop :=
  g = mkRegistration false new_registry \/ g = mkRegistration true (register_builtin_models new_registry).

Lemma call_once_registers g : registered g -> call_once_register g = mkRegistration true (register_builtin_models new_registry).
Proof. by intros [-> | ->]. Qed.

(** The registry knows exactly one architecture. *)
Lemma builtin_create cfg src : registry_create (register_builtin_models (D := D) new_registry) cfg src =
  if bool_decide (arch_ cfg = Qwen3) then create_qwen3 cfg src else dev_error ModelUnsupportedArch.
Proof. unfold registry_create, arch_name. by destruct (arch_ cfg). Qed.

(** An initialisation that fails before the KV storage. *)
Lemma init_fails res model engine e :
  created_backend res = Unexpected e \/
  (exists d, created_backend res = Value d /\
     (opened_checkpoint res = Unexpected e \/
      opened_checkpoint res = Value tt /\ exists d', created_model res d = Some (Unexpected e, d'))) ->
  exists w, init_worker false res model engine new_worker = Some (Unexpected e, w) /\ bare w.
Proof.
  intros H'. unfold init_worker, init_resources. cbn [running new_worker orb].
  destruct H' as [->|(d & -> & [->|(-> & d' & ->)])]; (eexists; split; [reflexivity|]); by unfold bare; simpl; split_and!.
Qed.

(** The outcome of a start. *)
Definition started (Hsample : forall logits rows out (d : D), keeps_sizes d (greedy_sample logits rows out d).2)
    (model : ModelConfig) (r : Result unit) (w : Worker D) : Prop :=
  match r with
  | Value _ => arch_ model = Qwen3 /\ exists m (Hm : qwen3_ok m), config_ m = model /\
                 worker_ok (ModelLaws0 := qwen3_laws m Hm Hsample) w /\ running w = true
  | Unexpected e => bare w
  end.

Lemma init_qwen3_worker Hsample src cfg engine d :
  source_ok src -> sizes_exact src StoreBFloat16 2 -> qwen3_config_ok cfg -> products_fit cfg -> engine_ok engine ->
  exists r w, init_worker false (mkResources (Value d) (Value tt) (_ ← create_qwen3 cfg src; mret tt)) cfg engine new_worker
    = Some (r, w) /\ started Hsample cfg r w.
Proof.
  intros Hs He Hc Hp [Hv Hi]. set (res := mkResources _ _ _).
  destruct (loads_create_loaded src cfg d Hs He Hc Hp) as (r & d1 & E & K & Hr). destruct r as [m|e].
  2: { destruct (init_fails res cfg engine e) as (w & Ew & Hw); [|by exists (Unexpected e), w]. right. exists d. split; [done|].
       right. split; [done|]. exists d1. unfold res. cbn [created_model]. unfold mbind, Dev_bind. by rewrite E. }
  destruct Hr as (<- & Hm & Hready).
  destruct (@init_worker_run D _ _ _ _ (qwen3_model m) _ (qwen3_laws m Hm Hsample) res engine false) as (r & w & Ew & Hw).
  - destruct Hc as [Ha (P1 & _ & P3 & _ & P5 & _) (I1 & _ & I3 & _ & I5 & _)].
    unfold Config.validate in Hv. destruct (_ || _)%bool eqn:Hg in Hv; [done|]. bprop. split; [|simpl; lia|simpl; lia|].
    + apply Forall_cons in Hi as [Hi1 Hi]. apply Forall_cons in Hi as [Hi2 _].
      unfold int_args. simpl. repeat (apply Forall_cons; split; [unfold INT_MIN, INT_MAX in *; lia|]). by apply Forall_nil.
    + simpl. rewrite Ha. discriminate.
  - intros d' [= <-]. exists (Value tt), d1. unfold res. cbn [created_model]. unfold mbind, Dev_bind. by rewrite E.
  - exists r, w. split; [exact Ew|]. destruct r as [u|e]; [|exact Hw]. destruct Hw as (Hw & Hrun & _).
    split; [apply Hc|]. by exists m, Hm.
Qed.

(** C6: From a model path to a worker.  For every file system, path, valid engine
    configuration and backend: when [main] accepts the path and its configuration, then,
    under two assumptions that neither [main] nor the loaders check ([products_fit]: the
    products of sizes of the configuration that are computed in [int] fit; [sizes_exact]:
    every bfloat16 tensor of the checkpoint has as many bytes as its shape says), starting
    the executor on that path fails no assertion even when the files have changed in
    between.  It reports an error and drops every resource, or
    leaves a Qwen3 model of that configuration and a worker ready for batches.  A GGUF
    file, whose architecture is not registered, is always refused. *)
Theorem boot_from_path_safe Hsample fs fs' create_backend path engine cfg g :
  files_ok fs -> files_ok fs' -> engine_ok engine -> registered g ->
  prepare fs path engine = Some (Value cfg) -> products_fit cfg ->
  (forall c, open_caught fs' path = Some (Value c) -> sizes_exact (checkpoint_weights c) StoreBFloat16 2) ->
  exists r w g', executor_init fs' create_backend path cfg engine false g new_worker = Some (r, w, g') /\
    registered g' /\ started Hsample cfg r w /\
    (is_directory fs path = false -> forall d c, create_backend (device_id engine) = Value d ->
       open_caught fs' path = Some (Value c) -> r = Unexpected ModelUnsupportedArch).
Proof.
  intros Hfs Hfs' He Hg Hp Hfit Hexact. destruct (prepare_config fs path engine cfg Hfs Hp) as [_ Hc].
  unfold executor_init, path_resources. cbn [running new_worker orb].
  destruct (create_backend (device_id engine)) as [d|e] eqn:Eb; cbn [mbind option_bind].
  2: { destruct (init_fails (mkResources (Unexpected e) (Unexpected e) (dev_error e)) cfg engine e) as (w & -> & Hw); [by left|].
       by exists (Unexpected e), w, g. }
  rewrite (call_once_registers g Hg). cbn [registry]. set (g' := mkRegistration true _).
  assert (registered g') as Hg' by by right.
  destruct (open_caught_total fs' path Hfs') as [[c|e] Eo]; rewrite Eo; cbn [mbind option_bind].
  2: { destruct (init_fails (mkResources (Value d) (Unexpected e) (dev_error e)) cfg engine e) as (w & -> & Hw).
       { right. exists d. split; [done|by left]. } by exists (Unexpected e), w, g'. }
  rewrite builtin_create. destruct (is_directory fs path).
  - pose proof (qc_arch _ Hc) as Ha. rewrite bool_decide_eq_true_2 by done.
    destruct (init_qwen3_worker Hsample (checkpoint_weights c) cfg engine d) as (r & w & -> & Hw); try done; [|by apply Hexact|].
    { by eapply open_caught_source. } by exists r, w, g'.
  - rewrite bool_decide_eq_false_2 by congruence.
    destruct (init_fails (mkResources (Value d) (Value tt) (_ ← dev_error (A := Qwen3Model) ModelUnsupportedArch; mret tt))
      cfg engine ModelUnsupportedArch) as (w & -> & Hw).
    { right. exists d. split; [done|]. right. split; [done|]. by exists d. }
    by exists (Unexpected ModelUnsupportedArch), w, g'.
Qed.
End starts.

(** ** A directory with a small checkpoint *)

Definition tiny_entry (e : bytes * SafetensorsTensorInfo) : bytes * SmallJson :=
  (e.1, SObj [(lit "dtype", SStr (lit "BF16")); (lit "shape", SArr (SInt <$> st_shape e.2));
              (lit "data_offsets", SArr [SInt (st_offset e.2); SInt (st_offset e.2 + st_size_bytes e.2)])]).
Definition tiny_header : SmallJson := SObj (tiny_entry <$> lay_out 0 tiny_names).
Definition tiny_hf_config : SmallJson :=
  SObj [(lit "architectures", SArr [SStr (lit "Qwen3ForCausalLM")]); (lit "hidden_size", SInt 2);
        (lit "num_attention_heads", SInt 1); (lit "num_hidden_layers", SInt 1); (lit "intermediate_size", SInt 1);
        (lit "vocab_size", SInt 3); (lit "max_position_embeddings", SInt 8); (lit "rope_theta", SNum f32_one);
        (lit "rms_norm_eps", SNum f32_one)].

#[local] Instance boot_json : Json := small_json (fun text =>
  if decide (text = lit "H") then Some tiny_header else if decide (text = lit "C") then Some tiny_hf_config else None).
#[local] Instance boot_json_laws : JsonLaws := small_json_laws _.
#[local] Instance boot_memory : Memory := fun _ _ => true.

Definition tiny_file : bytes := write_safetensors (lit "H") tiny_data.
Definition boot_dir : FileSystem :=
  mkFileSystem (fun path => if decide (path = lit "m") then Directory
                            else if decide (path = lit "m/config.json" \/ path = lit "m/model.safetensors") then RegularFile
                            else NotFound)
    (fun path => if decide (path = lit "m/config.json") then Some (lit "C")
                 else if decide (path = lit "m/model.safetensors") then Some tiny_file else None).

Lemma boot_dir_ok : files_ok boot_dir.
Proof.
  intros path data. unfold boot_dir, file_content.
  destruct (decide _); [|destruct (decide _); [|done]]; intros E; apply (inj Some) in E; subst data;
    (split; [apply is_bytes_b_ok; vm_compute; reflexivity|vm_compute; reflexivity]).
Qed.

Definition boot_config : ModelConfig := mkModelConfig Qwen3 1 1 1 2 2 2 1 3 8 f32_one f32_one 0 0 0 0 0 0 0 [].
Definition boot_reader : Reader := mkSafeReader tiny_file 9 (lay_out 0 tiny_names).*2 (lay_out 0 tiny_names).

Example boot_prepared : prepare boot_dir (lit "m") sim_engine_config = Some (Value boot_config).
Proof. vm_compute. reflexivity. Qed.

Example boot_opened : open_caught boot_dir (lit "m") = Some (Value (HuggingFaceCheckpoint (lit "m") boot_reader)).
Proof. vm_compute. reflexivity. Qed.

Lemma boot_exact c : open_caught boot_dir (lit "m") = Some (Value c) -> sizes_exact (checkpoint_weights c) StoreBFloat16 2.
Proof.
  rewrite boot_opened. intros E. apply (inj Some) in E. injection E as <-. intros name i. cbn [info checkpoint_weights safetensors_source].
  unfold safetensors_info. destruct (find_safetensor name boot_reader) as [t|] eqn:E; [|done]. intros [= <-] _.
  apply find_safetensor_In in E. apply list_elem_of_fmap in E as ([n x] & -> & Hin). exact (lay_out_exact n x tiny_names 0 Hin).
Qed.

(** The backend of the witness, and what the start answers. *)
Definition sim_create (_ : Z) : Result SimDevice := Value (mkSim [] []).
Definition boot_start := executor_init boot_dir sim_create (lit "m") boot_config sim_engine_config false
  (mkRegistration false new_registry) new_worker.

Example boot_answers : (fun x => x.1.1) <$> boot_start = Some (Value tt).
Proof. vm_compute. reflexivity. Qed.

Lemma boot_from_path_safe_witness : exists m (Hm : qwen3_ok m) w g',
  boot_start = Some (Value tt, w, g') /\
  config_ m = boot_config /\ worker_ok (ModelLaws0 := qwen3_laws m Hm sim_sample_keeps) w.
Proof.
  assert (engine_ok sim_engine_config) as He.
  { split; [vm_compute; reflexivity|]. repeat (apply Forall_cons; split; [vm_compute; split; discriminate|]). by apply Forall_nil. }
  assert (products_fit boot_config) as Hf by (vm_compute; split; discriminate).
  destruct (boot_from_path_safe sim_sample_keeps boot_dir boot_dir sim_create (lit "m") sim_engine_config
    boot_config (mkRegistration false new_registry) boot_dir_ok boot_dir_ok He (or_introl eq_refl) boot_prepared Hf boot_exact)
    as (r & w & g' & E & _ & Hw & _).
  pose proof boot_answers as Hr. unfold boot_start in *. rewrite E in Hr. cbn in Hr. injection Hr as ->.
  destruct Hw as (_ & m & Hm & Hc & Hok & _). exists m, Hm, w, g'. split; [exact E|]. split; [exact Hc|exact Hok].
Defined.
