(* ===== verification/Main.v ===== *)
(** * The program's entry: [main.cpp]

    The arguments become a port, a model path and an engine configuration; then the
    components are started in order and, at the end or after a failure, shut down in
    the reverse order. *)

From Stdlib Require Import ZArith Lia.
From stdpp Require Import prelude strings gmap fin_maps.
From S2P Require Import Prelude Base Config Json Http.

(** ** Numbers *)

Definition LONG_MAX : Z := 2 ^ 63 - 1.
Definition LONG_MIN : Z := - 2 ^ 63.

(** The digits at the front and what follows; [None] without a digit. *)
Fixpoint take_digits (s : bytes) (value : Z) : Z * bytes :=
  match s with
  | c :: rest => if isdigit c then take_digits rest (value * 10 + (c - 48)) else (value, s)
  | [] => (value, [])
  end.

(** [std::strtol(text, &end, 10)]: the value and the rest of the text at [end]. *)
Definition strtol (text : bytes) : Z * bytes :=
  let s := skip_spaces text in
  let '(negative, s) := match s with
                        | 45 :: s => (true, s)
                        | 43 :: s => (false, s)
                        | _ => (false, s)
                        end in
  match s with
  | c :: _ =>
      if isdigit c then
        let '(value, rest) := take_digits s 0 in
        (Z.max LONG_MIN (Z.min LONG_MAX (if negative then - value else value)), rest)
      else (0, text)
  | [] => (0, text)
  end.

Definition parse_nonnegative_int (text : bytes) : option Z :=
  if bool_decide (text = []) then None
  else
    let '(parsed, end_) := strtol text in
    if negb (bool_decide (end_ = [])) || (parsed <? 0) || (INT_MAX <? parsed) then None else Some parsed.

(** ** Arguments *)

Record Options := mkOptions { opt_port : Z; opt_model_path : bytes; opt_config : EngineConfig }.

Definition default_options : Options := mkOptions 8080 [] default_engine_config.

Definition set_config (f : EngineConfig -> EngineConfig) (o : Options) : Options :=
  mkOptions (opt_port o) (opt_model_path o) (f (opt_config o)).

(** The numeric options and the field each one writes. *)
Definition int_options : list (bytes * (Z -> Options -> Options)) :=
  [(lit "--port", fun v o => mkOptions v (opt_model_path o) (opt_config o));
   (lit "--device", fun v => set_config (fun c => mkEngineConfig v (max_blocks c) (kv_block_size c) (max_sequences c)
      (max_running_requests c) (max_concurrent_batches c) (max_pending_requests c) (max_token_budget c)
      (max_seq_prefill_tokens c) (default_max_context_len c) (state_prefix_cache_blocks c)));
   (lit "--max-blocks", fun v => set_config (fun c => mkEngineConfig (device_id c) v (kv_block_size c) (max_sequences c)
      (max_running_requests c) (max_concurrent_batches c) (max_pending_requests c) (max_token_budget c)
      (max_seq_prefill_tokens c) (default_max_context_len c) (state_prefix_cache_blocks c)));
   (lit "--kv-block-size", fun v => set_config (fun c => mkEngineConfig (device_id c) (max_blocks c) v (max_sequences c)
      (max_running_requests c) (max_concurrent_batches c) (max_pending_requests c) (max_token_budget c)
      (max_seq_prefill_tokens c) (default_max_context_len c) (state_prefix_cache_blocks c)));
   (lit "--max-sequences", fun v => set_config (fun c => mkEngineConfig (device_id c) (max_blocks c) (kv_block_size c) v
      (max_running_requests c) (max_concurrent_batches c) (max_pending_requests c) (max_token_budget c)
      (max_seq_prefill_tokens c) (default_max_context_len c) (state_prefix_cache_blocks c)));
   (lit "--max-running-requests", fun v => set_config (fun c => mkEngineConfig (device_id c) (max_blocks c)
      (kv_block_size c) (max_sequences c) v (max_concurrent_batches c) (max_pending_requests c) (max_token_budget c)
      (max_seq_prefill_tokens c) (default_max_context_len c) (state_prefix_cache_blocks c)));
   (lit "--max-concurrent-batches", fun v => set_config (fun c => mkEngineConfig (device_id c) (max_blocks c)
      (kv_block_size c) (max_sequences c) (max_running_requests c) v (max_pending_requests c) (max_token_budget c)
      (max_seq_prefill_tokens c) (default_max_context_len c) (state_prefix_cache_blocks c)));
   (lit "--max-pending-requests", fun v => set_config (fun c => mkEngineConfig (device_id c) (max_blocks c)
      (kv_block_size c) (max_sequences c) (max_running_requests c) (max_concurrent_batches c) v (max_token_budget c)
      (max_seq_prefill_tokens c) (default_max_context_len c) (state_prefix_cache_blocks c)));
   (lit "--max-token-budget", fun v => set_config (fun c => mkEngineConfig (device_id c) (max_blocks c)
      (kv_block_size c) (max_sequences c) (max_running_requests c) (max_concurrent_batches c) (max_pending_requests c) v
      (max_seq_prefill_tokens c) (default_max_context_len c) (state_prefix_cache_blocks c)));
   (lit "--max-seq-prefill-tokens", fun v => set_config (fun c => mkEngineConfig (device_id c) (max_blocks c)
      (kv_block_size c) (max_sequences c) (max_running_requests c) (max_concurrent_batches c) (max_pending_requests c)
      (max_token_budget c) v (default_max_context_len c) (state_prefix_cache_blocks c)));
   (lit "--max-context-len", fun v => set_config (fun c => mkEngineConfig (device_id c) (max_blocks c)
      (kv_block_size c) (max_sequences c) (max_running_requests c) (max_concurrent_batches c) (max_pending_requests c)
      (max_token_budget c) (max_seq_prefill_tokens c) v (state_prefix_cache_blocks c)))].

Definition find_option (arg : bytes) : option (Z -> Options -> Options) :=
  snd <$> List.find (fun x => bool_decide (x.1 = arg)) int_options.

(** The argument loop; [None] is an exit with status 1. *)
Fixpoint parse_args (args : list bytes) (o : Options) : option Options :=
  match args with
  | [] => Some o
  | [_] => None
  | arg :: value :: args =>
      if bool_decide (arg = lit "--model-path") then parse_args args (mkOptions (opt_port o) value (opt_config o))
      else
        match find_option arg with
        | None => None
        | Some set => v ← parse_nonnegative_int value; parse_args args (set v o)
        end
  end.

Definition checked_options (args : list bytes) : option Options :=
  o ← parse_args args default_options;
  if (opt_port o <=? 0) || (65535 <? opt_port o) then None
  else if bool_decide (opt_model_path o = []) then None
  else match validate (opt_config o) with Value _ => Some o | Unexpected _ => None end.

(** ** Starting and stopping *)

(** What the startup asks of the components. *)
Record Startup := mkStartup {
  checkpoint_opens : bool;
  config_loads : bool;
  executor_inits : bool;
  tokenizer_loads : bool;
  http_starts : bool;
}.

Inductive Action :=
| ExecutorInit | ExecutorShutdown | SchedulerStart | SchedulerShutdown | HttpStartup | HttpStop | ServeUntilSignal
| StopContexts | JoinThreads.

(** [main]: the actions that change a component, and the exit status. *)
Definition main_run (args : list bytes) (s : Startup) : list Action * Z :=
  match checked_options args with
  | None => ([], 1)
  | Some _ =>
      if negb (checkpoint_opens s) || negb (config_loads s) then ([], 1)
      else if negb (executor_inits s) then ([ExecutorInit], 1)
      else if negb (tokenizer_loads s) then ([ExecutorInit; ExecutorShutdown], 1)
      else if negb (http_starts s) then
        ([ExecutorInit; SchedulerStart; HttpStartup; SchedulerShutdown; ExecutorShutdown; StopContexts; JoinThreads], 1)
      else
        ([ExecutorInit; SchedulerStart; HttpStartup; ServeUntilSignal; HttpStop; SchedulerShutdown; ExecutorShutdown;
          StopContexts; JoinThreads], 0)
  end.

(** ** What it guarantees *)

Lemma take_digits_spec ds rest v :
  Forall (fun c => isdigit c = true) ds -> match rest with [] => True | c :: _ => isdigit c = false end ->
  take_digits (ds ++ rest) v = (foldl (fun out c => out * 10 + (c - 48)) v ds, rest).
Proof.
  intros Hd Hr. revert v. induction Hd as [|c ds Hc _ IH]; intros v; simpl.
  - destruct rest as [|c rest]; [done|]. simpl. by rewrite Hr.
  - by rewrite Hc, IH.
Qed.

Lemma foldl_digits_ge ds v :
  Forall (fun c => isdigit c = true) ds -> 0 <= v -> v <= foldl (fun out c => out * 10 + (c - 48)) v ds.
Proof.
  intros Hd. revert v. induction Hd as [|c ds Hc _ IH]; intros v Hv; simpl; [lia|]. unfold isdigit in Hc. bprop.
  etrans; [|apply IH]; lia.
Qed.

(** A number of digits is read exactly, and refused above [INT_MAX]. *)
Theorem parse_int_exact ds :
  Forall (fun c => isdigit c = true) ds -> ds <> [] ->
  let v := foldl (fun out c => out * 10 + (c - 48)) 0 ds in
  parse_nonnegative_int ds = if v <=? INT_MAX then Some v else None.
Proof.
  intros Hd Hne v. unfold parse_nonnegative_int. rewrite bool_decide_eq_false_2 by done.
  pose proof (take_digits_spec ds [] 0 Hd I) as Ht. rewrite app_nil_r in Ht. fold v in Ht.
  pose proof (foldl_digits_ge ds 0 Hd ltac:(lia)) as Hge. fold v in Hge. clearbody v.
  destruct Hd as [|c ds Hc Hd]; [done|]. unfold strtol.
  assert (isspace c = false) as Hsp by (unfold isdigit, isspace in *; lia).
  assert (skip_spaces (c :: ds) = c :: ds) as -> by (simpl; by rewrite Hsp).
  assert (c <> 45 /\ c <> 43) as [H45 H43] by (unfold isdigit in Hc; lia).
  assert ((match c :: ds with 45 :: s => (true, s) | 43 :: s => (false, s) | _ => (false, c :: ds) end) = (false, c :: ds)) as ->.
  { repeat (case_match; try done); congruence. }
  rewrite Hc, Ht. rewrite bool_decide_eq_true_2 by done. cbn [negb orb].
  unfold LONG_MIN, LONG_MAX, INT_MAX. destruct (Z.leb_spec v (2 ^ 31 - 1)).
  - rewrite Z.min_r, Z.max_r by lia. rewrite (proj2 (Z.ltb_ge v 0)), (proj2 (Z.ltb_ge _ v)) by lia. done.
  - destruct (Z.ltb_spec (2 ^ 31 - 1) (Z.max (- 2 ^ 63) (Z.min (2 ^ 63 - 1) v))); [by rewrite orb_true_r|lia].
Qed.

(** A server that starts has a valid configuration and port. *)
Theorem checked_options_valid args o :
  checked_options args = Some o ->
  config_valid (opt_config o) /\ 0 < opt_port o <= 65535 /\ opt_model_path o <> [].
Proof.
  unfold checked_options. destruct (parse_args args default_options) as [o'|]; [|done]. cbn [mbind option_bind].
  destruct (_ || _) eqn:E; [done|]. case_bool_decide as Hm; [done|].
  destruct (validate (opt_config o')) as [[]|] eqn:Hv; [|done]. intros [= <-]. bprop.
  split; [by apply validate_spec|]. split; [lia|done].
Qed.

(** Whatever fails, what was started is shut down before the exit: the scheduler once it
    was started, the executor once it was initialised, in this order and after HTTP. *)
Theorem main_shuts_down args s :
  let acts := (main_run args s).1 in
  (SchedulerStart ∈ acts -> exists before after, acts = before ++ SchedulerShutdown :: after /\ ExecutorShutdown ∈ after) /\
  (ServeUntilSignal ∈ acts -> exists before after, acts = before ++ HttpStop :: after /\ SchedulerShutdown ∈ after) /\
  (ExecutorInit ∈ acts -> executor_inits s = true -> ExecutorShutdown ∈ acts).
Proof.
  unfold main_run. destruct (checked_options args); [|by set_solver].
  destruct (_ || _); [by set_solver|]. destruct (executor_inits s); [|by set_solver].
  destruct (tokenizer_loads s); [|by set_solver]. destruct (http_starts s); simpl.
  - split_and!; [intros _|intros _|set_solver].
    + exists [ExecutorInit; SchedulerStart; HttpStartup; ServeUntilSignal; HttpStop], [ExecutorShutdown; StopContexts; JoinThreads].
      split; [done|set_solver].
    + exists [ExecutorInit; SchedulerStart; HttpStartup; ServeUntilSignal],
        [SchedulerShutdown; ExecutorShutdown; StopContexts; JoinThreads]. split; [done|set_solver].
  - split_and!; [intros _|set_solver|set_solver].
    exists [ExecutorInit; SchedulerStart; HttpStartup], [ExecutorShutdown; StopContexts; JoinThreads]. split; [done|set_solver].
Qed.
